(* ===== verification/_CoqProject ===== *)
-Q . S2P
Prelude.v
GoStrings.v
GoTime.v
GoPath.v
GoUrl.v
GoError.v
GoFloat.v
GoJson.v
Schema.v
DbOpen.v
Files.v
Aes.v
GoBase64.v
AesInv.v
MegaCrypto.v
MegaLink.v
Effects.v
Aria2.v
AriaRefine.v
Settings.v
Status.v
Paths.v
DaemonEnv.v
Store.v
StoreInv.v
StoreSpec.v
Wp.v
StoreMap.v
Archive.v
Resolver.v
MegaResolver.v
Webshare.v
Service.v
Api.v
ApiSpec.v
ApiJson.v
ApiWire.v
CliFormat.v
CliFlags.v
Cli.v
CliReach.v
CliApi.v
Runner.v
MegaDecrypt.v
MegaDecryptSpec.v
RunnerInv.v
RunnerSpec.v
Rows.v
Dispatch.v
Poll.v
Tick.v
Progress.v
Daemon.v
Rely.v
System.v
History.v
Retries.v
Orphan.v
Goroutines.v
