(* ===== verification/Prelude.v ===== *)
(** * DLQ (download queue): a verification development for the Go daemon and its client

    DLQ is a headless download queue.  The daemon [dlqd] keeps jobs in a SQLite database, a
    runner resolves each job's URL (MEGA, Webshare or a direct link), hands it to aria2 over
    RPC, polls aria2, and decrypts or extracts what was downloaded; an HTTP API and the
    [dlq] command line create and steer the jobs.  This library models the Go code of both
    programs, statement by statement, and proves what makes them correct, each component by
    itself and the components together: a command typed by the user, sent over HTTP to the
    daemon, and what the daemon's threads make of it in any interleaving.

    ** The parts, and where they are

    - Go's standard library, as far as the code calls it: [GoStrings] (strings, strconv),
      [GoTime] (UTC time text), [GoPath] (path/filepath), [GoUrl] (net/url), [GoFloat]
      (float64 and reading a decimal), [GoJson] (unicode/utf8 and encoding/json, both ways),
      [GoBase64] (encoding/base64), [GoError] (errors, with the repository's error variables),
      [Files] (os, on a file system of names, inodes and handles), [Aes] and [AesInv]
      (crypto/aes, the counter mode and block chaining of crypto/cipher).  Go strings are byte
      strings.  The lower-case table of package unicode is data, not code: it is the class
      [Unicode].
    - [Schema]: the tables [jobs] and [job_events] as a record [Db] of lists in rowid order
      with the AUTOINCREMENT counters, and the status constants of internal/queue/store.go;
      [DbOpen]: internal/db/db.go, opening and migrating a database.
    - [Effects]: the language of the model.  A function of the code is a [prog]: a tree of
      calls to the clock, SQLite, aria2, the network, the operating system, the files the
      decryptor works on, child processes and the runner's shared memory, or a panic.  [run]
      executes one program alone; [pool_step] interleaves any number of them one call (or one
      transaction) at a time, starts the goroutines they spawn, and may kill and restart the
      process.  The environment [Env] answers every call and may fail any SQL statement; a
      theorem that needs more of it says so ([no_faults]: no statement fails except for a
      violated constraint).  [safe] is the step-wise invariant rule, [quiet] what resolvers
      and decryptors satisfy.
    - [Aria2]: internal/downloader/aria2.go, the JSON-RPC client; [AriaRefine]: a program over
      the interface [Downloader] refined by the same program with that client.
    - [Settings]: internal/api/settings.go, with the file it keeps; [Status], [Paths]:
      status.go and paths.go; [DaemonEnv]: the environment variables of cmd/dlqd/main.go.
    - [Store]: store.go, one program per method, an UPDATE being a function on rows;
      [StoreInv] has the invariant [DbOk] of the tables and the classes [StoreSafe] and
      [StorePurge], the interface the service and the runner are verified against;
      [StoreSpec] what the methods do; [Wp] the weakest-precondition rules the later files
      use; [StoreMap]: the store's contract, a finite map from ids to rows with their logs,
      and the refinement.
    - [Archive]: archive_decryptor.go; [Resolver], [MegaResolver], [Webshare]: internal/resolver,
      the registry with the direct links and the two sites.
    - [Service]: service.go, the methods the API calls.
    - [Api]: internal/api/http.go, every handler and the routing, over requests whose bodies
      are decoded; [ApiSpec]: what the handlers answer; [ApiJson], [ApiWire]: the bodies as
      texts, the server over texts, and [connect], a client program with the server at the
      other end of its connection.
    - [CliFormat], [CliFlags], [Cli]: cmd/dlq, its tables and durations, its arguments, and all
      its commands; [CliReach]: which addresses reach the daemon; [CliApi]: commands and
      daemon together.
    - [MegaCrypto], [MegaLink], [MegaDecrypt]: mega_decryptor.go: the checksum calculator and
      the content key, the link, and the in-place decryption; [MegaDecryptSpec]: what that
      does to the files under any faults.
    - [Runner]: runner.go; [RunnerInv]: it keeps any invariant the store promises;
      [RunnerSpec]: what its steps do; [Rows]: the rule for its loops over jobs; [Dispatch]: the
      decision on a finished download and who gets it; [Poll]: what a poll of aria2 does;
      [Tick]: a whole tick, phase by phase; [Progress]: no queued job starves.
    - [Daemon]: cmd/dlqd/main.go, start-up and wiring, and what the daemon as it is wired asks
      aria2 for.
    - [System]: HTTP requests, ticks, the runner's loop and decrypt goroutines as one pool;
      [History]: what no run forgets; [Rely]: threads that know something the others keep;
      [Retries]: the daemon gives up in time; [Orphan]: what a restart leaves behind;
      [Goroutines]: the accounts of the decrypt semaphore and the pending set.

    ** How they correspond to the code

    A Go result pair [(x, err)] is [res X]; [if err != nil { return err }] is [<-?]; an
    ignored error ([_ = f()]) is a plain sequence.  A [sql.NullString] is an option.  Times
    are the seconds their RFC 3339 text denotes.  A [for range] loop is [for_each].  A slice
    out of range is [None] in a pure function and [Panic] in a program.  A struct that
    encoding/json decodes is a list of fields, each with what a value does to it.  Lines
    written to the process log are left out.  Fields and functions keep the names of the code;
    where a method of [Service] is named like one of [Store], or one of cmd/dlq like one of
    cmd/dlqd, the file tells them apart.

    ** What the theorems show

    Safety of the whole ([System.reachable_DbOk], [History.nothing_forgotten],
    [Goroutines.decrypt_discipline]): in every interleaving, with any failure and restarts,
    the tables stay well formed, a job keeps its identity and the log only grows, no job has
    two decrypt goroutines and no more of them work than there are workers.  The runner
    ([RunnerSpec], [Dispatch], [Poll], [Tick], [Progress],
    [Retries]): a claimed job is always settled, none is tried more
    often than it may be, a tick ends, respects the
    concurrency setting and uses it, no queued job waits for ever, a poll moves every row as
    aria2's answer says, finished downloads get the post-processing their row calls for, a decrypt
    goroutine settles its job and forgets the password, an archive
    waits exactly for its missing parts, the remaining time never overflows.  The store
    ([StoreSpec], [StoreMap], [DbOpen]): it is a map from ids to jobs with their logs, claiming
    is first come first served and loses nothing on a failure, a purge is atomic, opening a
    database of an earlier version brings it to the schema and loses nothing.  The requests
    ([Service]): every branch of creating, retrying, removing, pausing and resuming, and that
    the event log hides the password and the URL's key.  The API ([Settings], [Api], [ApiSpec]):
    responses are well typed, only POST requests change anything, unknown jobs and refused
    paths get their status and change nothing, settings stay in bounds and survive a restart,
    and the directory browser agrees with the queue on the directories jobs may use.  The
    client ([CliFlags], [CliApi]): its arguments mean what they say in any order, and the
    commands on jobs, add, status and settings do to the daemon's tables exactly what they
    promise and show exactly what happened.  The neighbours ([Aria2], [AriaRefine],
    [MegaResolver], [Webshare], [Daemon]): requests and answers survive the wire, everything
    proved over the interface of the downloader holds with the client, a MEGA link resolves to
    the file's own name, and a job's download goes to its own directory with its own options.
    Files ([Paths], [Archive]): output directories stay in the allowed roots, names stay in
    their directory, the volumes of a multipart archive agree on their set and their first
    volume.  The MEGA decryptor ([MegaCrypto], [MegaDecryptSpec]): the streamed checksum is that
    of the whole file, a file is replaced by its verified plaintext or left alone whatever
    fails, and a link's key decrypts what was encrypted under it.  Some theorems state what
    the code does against its intent: a removal during resolving is lost
    ([System.removal_lost]), a job that was being resolved when the daemon stopped stays so
    ([Orphan.resolving_forever]), a hundred completed jobs with a password keep the later ones from
    post-processing while auto-decrypt is off ([Dispatch.postprocess_starves]), certain non-ASCII file names panic the daemon
    ([RunnerSpec.finished_download_panics]), a resolver's name ".." escapes the output
    directory ([Paths.sanitizeFilename_dotdot]), a URL that does not parse is logged with its
    key ([Service.redactURLForLog_spec]), a share link of Webshare whose file name looks like an
    ident is resolved under the name ([Webshare.share_link_ident]), and a decryption repeated
    after a crash encrypts the file again ([MegaDecryptSpec.decrypting_twice]).

    ** Bounds and fuel

    [ClaimNextQueued] loops when another connection takes the row between its two
    statements; a transaction is one turn of the pool, so the first iteration decides and its
    64 units of fuel are never used up ([StoreSpec.ClaimNextQueued_spec]).  The loop of a
    tick has its fuel as an argument; one more than the number of jobs is enough
    ([Tick.tick_spec]).  [Runner.Start] and [Cli.status_loop] run for ever in the
    code; they take the number of their rounds.  The decryptor's reading loop needs a unit
    more than the file has bytes, since every read but the last returns some.  The JSON
    decoder goes by the length of its text and stops at encoding/json's 10000 levels.
    Integers are Go's 64-bit [int]; [wrap64] is written where the code subtracts, and ids are
    refused beyond the maximum as SQLite does.

    ** What is not modelled

    Decoding XML and the wording of the errors of encoding/json and strconv are arguments
    ([XmlDecoder], [JsonErrors], [WireTexts]).  Listening on TCP, the process log and the bodies
    net/http itself writes with redirects and unknown paths are left out, and the client does
    not follow a redirect (the daemon sends them for paths that are not clean only); so are the terminal's
    column widths, the text %v writes for a decoded value, and what goes to standard error: a
    line the client shows is kept as its parts.  The files of [Files] are those the MEGA
    decryptor works on: what aria2 and the extraction tools write, and the checks for a file's
    existence, are answers of the environment.  The web front end and the browser scripts are
    not Go code and are left out. *)

From Stdlib Require Export Ascii String ZArith Lia.
From stdpp Require Export base tactics decidable option list list_numbers numbers strings gmap sorting.

(** ** Tactics shared by every file *)

(** Case analysis on every [if]/[match] whose scrutinee is a boolean test. *)
Ltac case_bool :=
  match goal with
  | |- context [if ?b then _ else _] => destruct b eqn:?
  | H : context [if ?b then _ else _] |- _ => destruct b eqn:?
  end.

(** Turn boolean facts into propositions, everywhere. *)
Ltac bool_prop :=
  repeat match goal with
  | H : (_ && _)%bool = true |- _ => apply andb_prop in H; destruct H
  | H : (_ || _)%bool = false |- _ => apply orb_false_elim in H; destruct H
  | H : negb _ = true |- _ => apply negb_true_iff in H
  | H : negb _ = false |- _ => apply negb_false_iff in H
  | H : (_ =? _)%Z = true |- _ => apply Z.eqb_eq in H
  | H : (_ =? _)%Z = false |- _ => apply Z.eqb_neq in H
  | H : (_ <? _)%Z = true |- _ => apply Z.ltb_lt in H
  | H : (_ <? _)%Z = false |- _ => apply Z.ltb_ge in H
  | H : (_ <=? _)%Z = true |- _ => apply Z.leb_le in H
  | H : (_ <=? _)%Z = false |- _ => apply Z.leb_gt in H
  | H : String.eqb _ _ = true |- _ => apply String.eqb_eq in H
  | H : String.eqb _ _ = false |- _ => apply String.eqb_neq in H
  | H : Ascii.eqb _ _ = true |- _ => apply Ascii.eqb_eq in H
  | H : Ascii.eqb _ _ = false |- _ => apply Ascii.eqb_neq in H
  | H : bool_decide _ = true |- _ => apply bool_decide_eq_true in H
  | H : bool_decide _ = false |- _ => apply bool_decide_eq_false in H
  end.

(** stdpp stops [simpl] at string concatenation; the byte-level lemmas here need it. *)
#[global] Arguments String.append : simpl nomatch.

(** Byte tests stay folded until both bytes are known. *)
#[global] Arguments Ascii.eqb !_ !_ / : simpl nomatch.

(** The development's hint database: invariants of single steps, closed by [eauto with dlq]. *)
Create HintDb dlq.

(** ** Record update

    [r <| field := v |>] is [r] with [field] set.  An instance of [Assign] per field is
    derived from the list of the record's projections. *)

Class Assign {R T : Type} (field : R -> T) := assign : T -> R -> R.

Declare Scope row_scope.
Delimit Scope row_scope with row.
#[global] Open Scope row_scope.
Notation "r <| field := v |>" := (assign (field := field) v r)
  (at level 1, left associativity, field at level 0, v at level 200,
   format "r  <| field  :=  v |>") : row_scope.

(** Builds [mk (f1 r) ... v ... (fn r)] from [(mk, f1, ..., fn)], with [v] for [field]. *)
Ltac record_with fields field v r :=
  lazymatch fields with
  | (?rest, ?c) =>
      let f := record_with rest field v r in
      lazymatch constr:((c, field)) with
      | (?x, ?x) => constr:(f v)
      | _ => constr:(f (c r))
      end
  | ?mk => constr:(mk)
  end.

Ltac derive_assign fields :=
  lazymatch goal with
  | |- Assign ?field =>
      let v := fresh "v" in
      let r := fresh "r" in
      hnf; intros v r;
      let t := record_with fields field v r in
      exact t
  end.
