(* ===== verification/GoStrings.v ===== *)
(** * Package strings, and the string side of package strconv

    A Go string is a byte sequence, so [string] (a list of 8-bit [ascii]) is its exact
    model.  This file defines the functions of packages [strings] and [strconv] the daemon
    calls.  [TrimSpace] knows every white-space rune of Unicode in its UTF-8 encoding and
    [EqualFold] (against an ASCII constant) the two non-ASCII runes that fold to ASCII
    letters; the lower-case table of package [unicode] is data, not code, so [ToLower] of a
    string with a non-ASCII byte is the parameter [unicode_lower] of class [Unicode]. *)

From S2P Require Import Prelude.

#[local] Open Scope string_scope.

(** ** Bytes *)

Definition byte_code (c : ascii) : Z := Z.of_N (N_of_ascii c).

Definition is_digit (c : ascii) : bool := (48 <=? byte_code c)%Z && (byte_code c <=? 57)%Z.
Definition is_upper (c : ascii) : bool := (65 <=? byte_code c)%Z && (byte_code c <=? 90)%Z.
Definition is_lower (c : ascii) : bool := (97 <=? byte_code c)%Z && (byte_code c <=? 122)%Z.
Definition is_ascii_byte (c : ascii) : bool := (byte_code c <? 128)%Z.

Definition lower_byte (c : ascii) : ascii :=
  if is_upper c then ascii_of_N (N_of_ascii c + 32) else c.

Fixpoint string_forallb (p : ascii -> bool) (s : string) : bool :=
  match s with
  | "" => true
  | String c s' => p c && string_forallb p s'
  end.

Fixpoint string_existsb (p : ascii -> bool) (s : string) : bool :=
  match s with
  | "" => false
  | String c s' => p c || string_existsb p s'
  end.

Fixpoint string_map (f : ascii -> ascii) (s : string) : string :=
  match s with
  | "" => ""
  | String c s' => String (f c) (string_map f s')
  end.

Definition char_slash : ascii := "/".
Definition char_backslash : ascii := ascii_of_N 92.

(** The string of one newline. *)
Definition nl : string := String (ascii_of_N 10) "".

(** ** Slicing *)

(** [s[:n]] and [s[n:]] for [0 <= n <= len(s)]. *)
Fixpoint take_str (n : nat) (s : string) : string :=
  match n, s with
  | S n', String c s' => String c (take_str n' s')
  | _, _ => ""
  end.

Fixpoint drop_str (n : nat) (s : string) : string :=
  match n, s with
  | 0, _ => s
  | S n', String _ s' => drop_str n' s'
  | S _, "" => ""
  end.

Definition len (s : string) : Z := Z.of_nat (String.length s).

(** [s[n:]], [s[:n]] and [s[n]] for any [n]: [None] is the panic out of range. *)
Definition slice_from (s : string) (n : Z) : option string :=
  if (0 <=? n)%Z && (n <=? len s)%Z then Some (drop_str (Z.to_nat n) s) else None.

Definition slice_to (s : string) (n : Z) : option string :=
  if (0 <=? n)%Z && (n <=? len s)%Z then Some (take_str (Z.to_nat n) s) else None.

Definition byte_at (s : string) (n : Z) : option ascii :=
  if (0 <=? n)%Z then String.get (Z.to_nat n) s else None.

Fixpoint rev_onto (s acc : string) : string :=
  match s with
  | "" => acc
  | String c s' => rev_onto s' (String c acc)
  end.

Definition rev_str (s : string) : string := rev_onto s "".

(** ** Searching *)

Fixpoint HasPrefix (s prefix : string) : bool :=
  match prefix, s with
  | "", _ => true
  | String c p, String d s' => Ascii.eqb c d && HasPrefix s' p
  | String _ _, "" => false
  end.

Definition HasSuffix (s suffix : string) : bool := HasPrefix (rev_str s) (rev_str suffix).

Fixpoint Contains (s sub : string) : bool :=
  HasPrefix s sub ||
  match s with
  | "" => false
  | String _ s' => Contains s' sub
  end.

(** [strings.ContainsAny] for a set of ASCII bytes. *)
Definition ContainsAny (s : string) (chars : list ascii) : bool :=
  string_existsb (fun c => existsb (Ascii.eqb c) chars) s.

Definition contains_char (s : string) (c : ascii) : bool := string_existsb (Ascii.eqb c) s.

(** [strings.Index]: the position of the first occurrence, [None] for -1. *)
Fixpoint Index (s sub : string) : option nat :=
  if HasPrefix s sub then Some 0%nat
  else match s with
       | "" => None
       | String _ s' => S <$> Index s' sub
       end.

(** [strings.LastIndex]: the position of the last occurrence. *)
Fixpoint LastIndex (s sub : string) : option nat :=
  match s with
  | "" => if HasPrefix s sub then Some 0%nat else None
  | String _ s' =>
      match LastIndex s' sub with
      | Some i => Some (S i)
      | None => if HasPrefix s sub then Some 0%nat else None
      end
  end.

Definition TrimPrefix (s prefix : string) : string :=
  if HasPrefix s prefix then drop_str (String.length prefix) s else s.

Definition TrimSuffix (s suffix : string) : string :=
  if HasSuffix s suffix then take_str (String.length s - String.length suffix) s else s.

(** [strings.Cut] at the first occurrence: what is before, after, and whether it was found. *)
Definition Cut (s sep : string) : string * string * bool :=
  match Index s sep with
  | Some i => (take_str i s, drop_str (i + String.length sep) s, true)
  | None => (s, "", false)
  end.

(** [strings.Split] at a one-byte separator. *)
Fixpoint split_char (c : ascii) (s : string) : list string :=
  match s with
  | "" => [""]
  | String d s' =>
      if Ascii.eqb c d then "" :: split_char c s'
      else match split_char c s' with
           | x :: xs => String d x :: xs
           | [] => [String d ""]
           end
  end.

Fixpoint Join (l : list string) (sep : string) : string :=
  match l with
  | [] => ""
  | [x] => x
  | x :: xs => x ++ sep ++ Join xs sep
  end.

(** ** Trimming *)

Fixpoint trim_left_char (c : ascii) (s : string) : string :=
  match s with
  | "" => ""
  | String d s' => if Ascii.eqb c d then trim_left_char c s' else s
  end.

Definition trim_right_char (c : ascii) (s : string) : string :=
  rev_str (trim_left_char c (rev_str s)).

Definition trim_char (c : ascii) (s : string) : string :=
  trim_right_char c (trim_left_char c s).

(** [unicode.IsSpace] on the runes encoded in one, two and three bytes: TAB, LF, VT, FF, CR
    and SP; U+0085 and U+00A0; U+1680, U+2000 to U+200A, U+2028, U+2029, U+202F, U+205F and
    U+3000.  No white-space rune needs four bytes. *)
Definition space1 (a : ascii) : bool :=
  let a := byte_code a in ((9 <=? a)%Z && (a <=? 13)%Z) || (a =? 32)%Z.
Definition space2 (a b : ascii) : bool :=
  let a := byte_code a in let b := byte_code b in
  (a =? 194)%Z && ((b =? 133)%Z || (b =? 160)%Z).
Definition space3 (a b c : ascii) : bool :=
  let a := byte_code a in let b := byte_code b in let c := byte_code c in
  ((a =? 225) && (b =? 154) && (c =? 128))%Z
  || ((a =? 226) && (b =? 128)
      && (((128 <=? c) && (c <=? 138)) || (c =? 168) || (c =? 169) || (c =? 175)))%Z
  || ((a =? 226) && (b =? 129) && (c =? 159))%Z
  || ((a =? 227) && (b =? 128) && (c =? 128))%Z.

Fixpoint trim_left_space (s : string) : string :=
  match s with
  | String a s1 =>
      if space1 a then trim_left_space s1
      else match s1 with
           | String b s2 =>
               if space2 a b then trim_left_space s2
               else match s2 with
                    | String c s3 => if space3 a b c then trim_left_space s3 else s
                    | "" => s
                    end
           | "" => s
           end
  | "" => ""
  end.

(** The same on a reversed string, whose runes have their bytes in reverse order. *)
Fixpoint trim_left_space_rev (s : string) : string :=
  match s with
  | String a s1 =>
      if space1 a then trim_left_space_rev s1
      else match s1 with
           | String b s2 =>
               if space2 b a then trim_left_space_rev s2
               else match s2 with
                    | String c s3 => if space3 c b a then trim_left_space_rev s3 else s
                    | "" => s
                    end
           | "" => s
           end
  | "" => ""
  end.

Definition TrimSpace (s : string) : string :=
  rev_str (trim_left_space_rev (rev_str (trim_left_space s))).

(** ** Case *)

Class Unicode := { unicode_lower : string -> string }.

Definition is_ascii (s : string) : bool := string_forallb is_ascii_byte s.

Definition ascii_lower (s : string) : string := string_map lower_byte s.

(** [strings.ToLower]: the ASCII fast path, or [unicode.ToLower] rune by rune. *)
Definition ToLower `{Unicode} (s : string) : string :=
  if is_ascii s then ascii_lower s else unicode_lower s.

(** [strings.EqualFold s t] for an ASCII [t].  U+017F (bytes C5 BF) folds to [s] and U+212A
    (bytes E2 84 AA) to [k]; every other rune that folds to an ASCII letter is that letter. *)
Fixpoint EqualFold_ascii (s t : string) : bool :=
  match t, s with
  | "", "" => true
  | "", String _ _ => false
  | String _ _, "" => false
  | String d t', String a s1 =>
      if Ascii.eqb (lower_byte a) (lower_byte d) then EqualFold_ascii s1 t'
      else match s1 with
           | String b s2 =>
               if Ascii.eqb (lower_byte d) "s"
                  && (byte_code a =? 197)%Z && (byte_code b =? 191)%Z
               then EqualFold_ascii s2 t'
               else match s2 with
                    | String c s3 =>
                        if Ascii.eqb (lower_byte d) "k"
                           && (byte_code a =? 226)%Z && (byte_code b =? 132)%Z
                           && (byte_code c =? 170)%Z
                        then EqualFold_ascii s3 t'
                        else false
                    | "" => false
                    end
           | "" => false
           end
  end.

(** ** Numbers *)

Definition max_int64 : Z := 2 ^ 63 - 1.
Definition min_int64 : Z := - 2 ^ 63.
Definition max_uint64 : Z := 2 ^ 64 - 1.

(** Two's complement wrap-around of a result of [int64] arithmetic. *)
Definition wrap64 (z : Z) : Z := ((z + 2 ^ 63) mod 2 ^ 64 - 2 ^ 63)%Z.

(** Errors of [strconv]: the text is not a number, or the number does not fit. *)
Inductive num_error : Type := ErrSyntax | ErrRange.

Definition digit_val (c : ascii) : Z := (byte_code c - 48)%Z.

(** [strconv.ParseUint(s, 10, 64)] on a non-empty string, from the accumulator: the value and
    the error.  The overflow of a prefix is reported before a later bad byte. *)
Fixpoint parse_uint_from (acc : Z) (s : string) : Z * option num_error :=
  match s with
  | "" => (acc, None)
  | String c s' =>
      if negb (is_digit c) then (0%Z, Some ErrSyntax)
      else if (max_uint64 / 10 + 1 <=? acc)%Z then (max_uint64, Some ErrRange)
      else if (max_uint64 <? acc * 10 + digit_val c)%Z then (max_uint64, Some ErrRange)
      else parse_uint_from (acc * 10 + digit_val c) s'
  end.

Definition ParseUint (s : string) : Z * option num_error :=
  match s with
  | "" => (0%Z, Some ErrSyntax)
  | _ => parse_uint_from 0 s
  end.

(** [strconv.ParseInt(s, 10, 64)]: on a range error the value is the nearest [int64]. *)
Definition ParseInt (s : string) : Z * option num_error :=
  match s with
  | "" => (0%Z, Some ErrSyntax)
  | String c s' =>
      let neg := Ascii.eqb c "-" in
      let digits := if neg || Ascii.eqb c "+" then s' else s in
      match ParseUint digits with
      | (_, Some ErrSyntax) => (0%Z, Some ErrSyntax)
      | (un, _) =>
          if negb neg && (2 ^ 63 <=? un)%Z then (max_int64, Some ErrRange)
          else if neg && (2 ^ 63 <? un)%Z then (min_int64, Some ErrRange)
          else ((if neg then - un else un)%Z, None)
      end
  end.

(** [strconv.Atoi] on a 64-bit platform. *)
Definition Atoi (s : string) : Z * option num_error := ParseInt s.

(** [strconv.Itoa] and the verb [%d]. *)
Definition digit_char (n : N) : ascii := ascii_of_N (48 + n).

Fixpoint pos_digits (fuel : nat) (n : N) (acc : string) : string :=
  match fuel with
  | 0%nat => acc
  | S f => let acc := String (digit_char (n mod 10)) acc in
           if (n <? 10)%N then acc else pos_digits f (n / 10) acc
  end.

Definition string_of_N (n : N) : string := pos_digits (S (N.to_nat (N.log2 n))) n "".

Definition Itoa (z : Z) : string :=
  if (z <? 0)%Z then String "-" (string_of_N (Z.to_N (- z))) else string_of_N (Z.to_N z).

Fixpoint repeat_char (n : nat) (c : ascii) : string :=
  match n with
  | 0%nat => ""
  | S m => String c (repeat_char m c)
  end.

(** The verb [%0*d] for a non-negative number: zeros on the left up to the width. *)
Definition pad_zero (width : nat) (s : string) : string :=
  repeat_char (width - String.length s) "0" ++ s.

(** [fmt.Sprintf("%0*d", width, n)] for a non-negative [n]; package fmt refuses a width
    above a million. *)
Definition sprintf_pad (width : Z) (n : Z) : string :=
  if (1000000 <? width)%Z then "%!(BADWIDTH)" ++ Itoa n else pad_zero (Z.to_nat width) (Itoa n).

(** ** Sorting: the order of [sort.Strings] *)

Definition string_le (a b : string) : Prop := String.leb a b = true.

#[global] Instance string_le_dec a b : Decision (string_le a b).
Proof. unfold string_le. apply _. Defined.

(** ** Facts checked on all bytes *)

(** A boolean property of every byte, by computing it on each. *)
Fixpoint all_bytes (n : nat) (P : ascii -> bool) : bool :=
  match n with
  | O => true
  | S n => P (ascii_of_nat n) && all_bytes n P
  end.

Lemma all_bytes_spec (P : ascii -> bool) (c : ascii) : all_bytes 256 P = true -> P c = true.
Proof.
  assert (forall n k, (k < n)%nat -> all_bytes n P = true -> P (ascii_of_nat k) = true) as H.
  { induction n as [|n IH]; intros k Hk H; [lia|]. cbn in H. bool_prop.
    destruct (decide (k = n)) as [->|Hne]; [done|]. apply IH; [lia|done]. }
  intros Ha. rewrite <- (ascii_nat_embedding c). eapply H; [apply nat_ascii_bounded|done].
Qed.

(** ** Concatenation and reversal *)

Lemma str_app_nil_r (s : string) : s ++ "" = s.
Proof. induction s; simpl; congruence. Qed.

Lemma str_app_assoc (a b c : string) : a ++ (b ++ c) = (a ++ b) ++ c.
Proof. induction a; simpl; congruence. Qed.

Lemma str_length_app (a b : string) :
  String.length (a ++ b) = (String.length a + String.length b)%nat.
Proof. induction a; simpl; congruence. Qed.

Lemma str_app_inj_l (a b c : string) : a ++ b = a ++ c -> b = c.
Proof. induction a; simpl; intros; simplify_eq; auto. Qed.

Lemma rev_onto_app (s acc : string) : rev_onto s acc = rev_str s ++ acc.
Proof.
  unfold rev_str. revert acc. induction s as [|c s IH]; intros acc; [done|]. simpl.
  rewrite IH, (IH (String c "")), <- str_app_assoc. done.
Qed.

Lemma rev_str_cons (c : ascii) (s : string) : rev_str (String c s) = rev_str s ++ String c "".
Proof. unfold rev_str at 1. simpl. apply rev_onto_app. Qed.

Lemma rev_str_app (a b : string) : rev_str (a ++ b) = rev_str b ++ rev_str a.
Proof.
  induction a as [|c a IH]; simpl; [by rewrite str_app_nil_r|].
  by rewrite !rev_str_cons, IH, str_app_assoc.
Qed.

Lemma rev_str_involutive (s : string) : rev_str (rev_str s) = s.
Proof.
  induction s as [|c s IH]; [done|]. rewrite rev_str_cons, rev_str_app, IH. done.
Qed.

Lemma rev_str_length (s : string) : String.length (rev_str s) = String.length s.
Proof.
  induction s as [|c s IH]; [done|]. rewrite rev_str_cons, str_length_app, IH. simpl. lia.
Qed.

Lemma take_drop_str (n : nat) (s : string) : take_str n s ++ drop_str n s = s.
Proof. revert s. induction n; intros [|c s]; simpl; congruence. Qed.

Lemma take_str_app (a b : string) : take_str (String.length a) (a ++ b) = a.
Proof. induction a; simpl; [by destruct b | congruence]. Qed.

Lemma drop_str_app (a b : string) : drop_str (String.length a) (a ++ b) = b.
Proof. induction a; simpl; [by destruct b | congruence]. Qed.

(** ** What the searches mean *)

Lemma HasPrefix_iff (s p : string) : HasPrefix s p = true <-> exists r, s = p ++ r.
Proof.
  split.
  - revert s. induction p as [|c p IH]; intros s H; [by exists s|].
    destruct s as [|d s]; simpl in H; [done|]. bool_prop; subst.
    destruct (IH s) as [r ->]; [done|]. by exists r.
  - intros [r ->]. induction p as [|c p IH]; simpl; [by destruct r|].
    by rewrite Ascii.eqb_refl.
Qed.

Lemma HasSuffix_iff (s p : string) : HasSuffix s p = true <-> exists r, s = r ++ p.
Proof.
  unfold HasSuffix. rewrite HasPrefix_iff. split; intros [r Hr].
  - exists (rev_str r). rewrite <- (rev_str_involutive s), Hr, rev_str_app.
    by rewrite rev_str_involutive.
  - exists (rev_str r). by rewrite Hr, rev_str_app.
Qed.

Lemma Contains_iff (s sub : string) : Contains s sub = true <-> exists a b, s = a ++ sub ++ b.
Proof.
  induction s as [|c s IH]; cbn [Contains]; rewrite orb_true_iff, HasPrefix_iff.
  - split; [intros [[r Hr]|]; [|done]; by exists "", r|].
    intros (a & b & H). left. destruct a; [by exists b|done].
  - split.
    + intros [[r Hr]|H]; [by exists "", r|].
      apply IH in H as (a & b & ->). by exists (String c a), b.
    + intros ([|d a] & b & H); simpl in H; [left; by exists b|].
      simplify_eq. right. apply IH. by exists a, b.
Qed.

Lemma string_forallb_app (p : ascii -> bool) (a b : string) :
  string_forallb p (a ++ b) = string_forallb p a && string_forallb p b.
Proof. induction a as [|c a IH]; simpl; [done|]. by rewrite IH, andb_assoc. Qed.

Lemma string_existsb_app (p : ascii -> bool) (a b : string) :
  string_existsb p (a ++ b) = string_existsb p a || string_existsb p b.
Proof. induction a as [|c a IH]; simpl; [done|]. by rewrite IH, orb_assoc. Qed.

Lemma contains_char_app (a b : string) (c : ascii) :
  contains_char (a ++ b) c = contains_char a c || contains_char b c.
Proof. apply string_existsb_app. Qed.

Lemma contains_char_rev (s : string) (c : ascii) :
  contains_char (rev_str s) c = contains_char s c.
Proof.
  induction s as [|d s IH]; [done|]. rewrite rev_str_cons, contains_char_app, IH.
  unfold contains_char. simpl. rewrite orb_false_r. apply orb_comm.
Qed.

(** ** Splitting and joining *)

Lemma split_char_nonempty (c : ascii) (s : string) : split_char c s <> [].
Proof.
  destruct s as [|d s]; simpl; [done|].
  destruct (Ascii.eqb c d); [done|]. by destruct (split_char c s).
Qed.

Lemma split_char_no_sep (c : ascii) (s : string) :
  contains_char s c = false -> split_char c s = [s].
Proof.
  induction s as [|d s IH]; intros H; [done|]. unfold contains_char in H. simpl in *.
  apply orb_false_elim in H as [H1 H2]. rewrite H1, IH; done.
Qed.

Lemma split_char_pieces (c : ascii) (s x : string) :
  x ∈ split_char c s -> contains_char x c = false.
Proof.
  revert x. induction s as [|d s IH]; intros x Hx; simpl in Hx.
  - by apply list_elem_of_singleton in Hx as ->.
  - destruct (Ascii.eqb c d) eqn:E.
    + apply elem_of_cons in Hx as [->|Hx]; auto.
    + destruct (split_char c s) as [|y ys] eqn:Es; [by apply split_char_nonempty in Es|].
      apply elem_of_cons in Hx as [->|Hx]; [|apply IH; by right].
      unfold contains_char. simpl. rewrite E. simpl.
      apply IH. by left.
Qed.

Lemma split_char_app (c : ascii) (a b : string) :
  contains_char a c = false -> split_char c (a ++ String c b) = a :: split_char c b.
Proof.
  induction a as [|d a IH]; intros H; simpl.
  - by rewrite Ascii.eqb_refl.
  - unfold contains_char in H. simpl in H. apply orb_false_elim in H as [H1 H2].
    rewrite H1, IH; done.
Qed.

Lemma split_char_Join (c : ascii) (l : list string) :
  l <> [] -> Forall (fun x => contains_char x c = false) l ->
  split_char c (Join l (String c "")) = l.
Proof.
  intros Hne Hall. induction Hall as [|x l Hx Hall IH]; [done|].
  destruct l as [|y l]; simpl; [by apply split_char_no_sep|].
  rewrite split_char_app by done. f_equal. by apply IH.
Qed.

Lemma Join_app (l1 l2 : list string) (sep : string) :
  l1 <> [] -> l2 <> [] -> Join (l1 ++ l2) sep = (Join l1 sep ++ sep ++ Join l2 sep)%string.
Proof.
  intros H1 H2. induction l1 as [|x l1 IH]; [done|].
  destruct l1 as [|y l1].
  - destruct l2; done.
  - change ((x ++ sep ++ Join ((y :: l1) ++ l2) sep) = (x ++ sep ++ Join (y :: l1) sep) ++ sep ++ Join l2 sep).
    rewrite IH by done. by rewrite !str_app_assoc.
Qed.

(** ** Integers *)

Lemma wrap64_id (z : Z) : (min_int64 <= z <= max_int64)%Z -> wrap64 z = z.
Proof. unfold wrap64, min_int64, max_int64. intros H. rewrite Z.mod_small; lia. Qed.

Lemma wrap64_range (z : Z) : (min_int64 <= wrap64 z <= max_int64)%Z.
Proof.
  unfold wrap64, min_int64, max_int64.
  pose proof (Z.mod_pos_bound (z + 2 ^ 63) (2 ^ 64)). lia.
Qed.

Lemma parse_uint_range (s : string) (acc : Z) :
  (0 <= acc <= max_uint64)%Z -> (0 <= fst (parse_uint_from acc s) <= max_uint64)%Z.
Proof.
  revert acc. induction s as [|c s IH]; intros acc H; simpl; [done|].
  destruct (is_digit c) eqn:Hd; simpl; [|unfold max_uint64; lia].
  destruct (_ <=? acc)%Z eqn:H1; simpl; [unfold max_uint64; lia|].
  destruct (max_uint64 <? _)%Z eqn:H2; simpl; [unfold max_uint64; lia|].
  apply IH. unfold is_digit in Hd. bool_prop. unfold digit_val in *. lia.
Qed.

Lemma ParseInt_range (s : string) : (min_int64 <= fst (ParseInt s) <= max_int64)%Z.
Proof.
  unfold ParseInt. destruct s as [|c s]; [unfold min_int64, max_int64; simpl; lia|].
  assert (forall t, 0 <= fst (ParseUint t) <= max_uint64)%Z as Hu.
  { intros [|d t]; [unfold max_uint64; simpl; lia|].
    apply (parse_uint_range (String d t)). unfold max_uint64; lia. }
  match goal with |- context [ParseUint ?d] => specialize (Hu d); set (digits := d) in * end.
  set (neg := Ascii.eqb c "-") in *. clearbody digits neg.
  destruct (ParseUint digits) as [un [er|]]; [destruct er|]; simpl in *;
    unfold min_int64, max_int64, max_uint64 in *;
    destruct neg; simpl; repeat case_bool; bool_prop; simpl; lia.
Qed.

(** ** Decimal text of integers, read back *)

(** The number a string of digits denotes, [acc] standing before it. *)
Fixpoint dec_value (acc : Z) (s : string) : Z :=
  match s with
  | "" => acc
  | String c s' => dec_value (acc * 10 + digit_val c) s'
  end.

Lemma dec_value_app (acc : Z) (a b : string) : dec_value acc (a ++ b) = dec_value (dec_value acc a) b.
Proof. revert acc. induction a as [|c a IH]; intros acc; cbn; [done|apply IH]. Qed.

Lemma digit_val_range (c : ascii) : is_digit c = true -> (0 <= digit_val c <= 9)%Z.
Proof. unfold is_digit, digit_val. intros H. bool_prop. lia. Qed.

Lemma dec_value_ge (acc : Z) (s : string) :
  (0 <= acc)%Z -> string_forallb is_digit s = true -> (acc <= dec_value acc s)%Z.
Proof.
  revert acc. induction s as [|c s IH]; cbn; intros acc Ha H; [lia|]. bool_prop.
  pose proof (digit_val_range c ltac:(done)). specialize (IH (acc * 10 + digit_val c)%Z ltac:(lia) ltac:(done)).
  lia.
Qed.

Lemma parse_uint_dec (acc : Z) (s : string) :
  (0 <= acc)%Z -> string_forallb is_digit s = true -> (dec_value acc s <= max_uint64)%Z ->
  parse_uint_from acc s = (dec_value acc s, None).
Proof.
  revert acc. induction s as [|c s IH]; cbn [dec_value parse_uint_from string_forallb]; intros acc Ha H Hm;
    [done|]. bool_prop. pose proof (digit_val_range c ltac:(done)) as Hc.
  pose proof (dec_value_ge (acc * 10 + digit_val c) s ltac:(lia) ltac:(done)) as Hge.
  unfold max_uint64 in *. 
  destruct (is_digit c); [|done]. cbn [negb].
  destruct (_ <=? acc)%Z eqn:E1; [apply Z.leb_le in E1; exfalso; Z.to_euclidean_division_equations; lia|].
  destruct (_ <? _)%Z eqn:E2; [bool_prop; lia|]. apply IH; [lia|done|done].
Qed.

Lemma digit_char_code (n : N) :
  (n < 10)%N -> is_digit (digit_char n) = true /\ digit_val (digit_char n) = Z.of_N n.
Proof.
  intros H. unfold is_digit, digit_val, byte_code, digit_char. rewrite N_ascii_embedding by lia.
  split; [|lia]. apply andb_true_intro. split; apply Z.leb_le; lia.
Qed.

Lemma pos_digits_spec (fuel : nat) (n : N) (acc : string) :
  (N.log2 n < N.of_nat fuel)%N ->
  exists c d, pos_digits fuel n acc = String c d ++ acc
    /\ string_forallb is_digit (String c d) = true /\ dec_value 0 (String c d) = Z.of_N n
    /\ (c = "0"%char -> n = 0%N /\ d = "").
Proof.
  revert n acc. induction fuel as [|fuel IH]; intros n acc Hf; [lia|]. cbn [pos_digits].
  assert (n mod 10 < 10)%N as Hm by (apply N.mod_lt; lia).
  destruct (digit_char_code _ Hm) as [Hd1 Hd2]. destruct (n <? 10)%N eqn:E.
  - apply N.ltb_lt in E. assert (n mod 10 = n)%N as Hn by by apply N.mod_small. rewrite Hn in *. exists (digit_char n), "". split; [done|].
    cbn [string_forallb dec_value]. rewrite Hd1. split; [done|]. split; [by rewrite Hd2|]. intros Hc. split; [|done].
    rewrite Hc in Hd2. change (digit_val "0") with 0%Z in Hd2. lia.
  - apply N.ltb_ge in E.
    assert (N.log2 (n / 10) < N.of_nat fuel)%N as Hl.
    { assert (n / 10 <= n / 2)%N by (apply N.div_le_compat_l; lia).
      pose proof (N.log2_le_mono (n / 10) (n / 2) ltac:(done)).
      assert (N.log2 (n / 2) = N.log2 n - 1)%N as Hs.
      { change (n / 2)%N with (n / 2 ^ 1)%N. rewrite <- N.shiftr_div_pow2. apply N.log2_shiftr. }
      pose proof (N.log2_pos n ltac:(lia)). clear - Hf Hs H H0 H1. lia. }
    destruct (IH (n / 10)%N (String (digit_char (n mod 10)) acc) Hl) as (c & d & H1 & H2 & H3 & H4).
    exists c, (d ++ String (digit_char (n mod 10)) ""). split.
    { rewrite H1. cbn. by rewrite <- str_app_assoc. }
    split.
    { change (String c (d ++ ?x)) with (String c d ++ x). rewrite string_forallb_app, H2. cbn. by rewrite Hd1. }
    split.
    { change (String c (d ++ ?x)) with (String c d ++ x). rewrite dec_value_app, H3. cbn [dec_value].
      rewrite Hd2. pose proof (N.div_mod n 10 ltac:(lia)). lia. }
    intros Hc. apply H4 in Hc as [Hc _]. exfalso. apply N.div_small_iff in Hc; lia.
Qed.

Lemma string_of_N_spec (n : N) :
  exists c d, string_of_N n = String c d /\ string_forallb is_digit (String c d) = true
    /\ dec_value 0 (String c d) = Z.of_N n /\ (c = "0"%char -> n = 0%N /\ d = "").
Proof.
  destruct (pos_digits_spec (S (N.to_nat (N.log2 n))) n "") as (c & d & H1 & H); [lia|].
  exists c, d. rewrite str_app_nil_r in H1. done.
Qed.

(** [strconv.ParseInt] reads what [strconv.FormatInt] writes. *)
Lemma ParseInt_Itoa (z : Z) : (min_int64 <= z <= max_int64)%Z -> ParseInt (Itoa z) = (z, None).
Proof.
  unfold min_int64, max_int64. intros Hz. unfold Itoa.
  assert (forall n, (Z.of_N n <= 2 ^ 63)%Z ->
    exists c d, string_of_N n = String c d /\ is_digit c = true
                /\ ParseUint (String c d) = (Z.of_N n, None)) as Hu.
  { intros n Hn. destruct (string_of_N_spec n) as (c & d & H1 & H2 & H3 & _). exists c, d.
    split; [done|]. split; [by cbn in H2; bool_prop|]. unfold ParseUint. rewrite <- H3 in *.
    apply parse_uint_dec; [lia|done|unfold max_uint64; lia]. }
  assert (forall c, is_digit c = true -> Ascii.eqb c "-" = false /\ Ascii.eqb c "+" = false) as Hc.
  { intros c H. split; apply Ascii.eqb_neq; by intros ->. }
  destruct (z <? 0)%Z eqn:E; bool_prop.
  - destruct (Hu (Z.to_N (- z)) ltac:(lia)) as (c & d & -> & Hd & Hp). unfold ParseInt.
    cbn [Ascii.eqb Bool.eqb orb negb andb]. change (Ascii.eqb "-" "-") with true. cbn [orb negb andb].
    rewrite Hp. destruct (_ <? _)%Z eqn:E2; [bool_prop; lia|]. f_equal. lia.
  - destruct (Hu (Z.to_N z) ltac:(lia)) as (c & d & -> & Hd & Hp). unfold ParseInt.
    destruct (Hc c Hd) as [-> ->]. cbn [orb negb andb]. rewrite Hp.
    destruct (_ <=? _)%Z eqn:E2; [bool_prop; lia|]. f_equal. lia.
Qed.

(** ** Trimming is idempotent *)

Definition starts_space (s1f : ascii -> bool) (s2f : ascii -> ascii -> bool)
    (s3f : ascii -> ascii -> ascii -> bool) (s : string) : bool :=
  match s with
  | "" => false
  | String a "" => s1f a
  | String a (String b "") => s1f a || s2f a b
  | String a (String b (String c _)) => s1f a || s2f a b || s3f a b c
  end.

Definition space2_rev (a b : ascii) : bool := space2 b a.
Definition space3_rev (a b c : ascii) : bool := space3 c b a.

Abbreviation starts_fwd := (starts_space space1 space2 space3).
Abbreviation starts_rev := (starts_space space1 space2_rev space3_rev).

Lemma string_length_ind (P : string -> Prop) :
  (forall s, (forall t, (String.length t < String.length s)%nat -> P t) -> P s) -> forall s, P s.
Proof.
  intros H s. remember (String.length s) as n eqn:Hn. revert s Hn.
  induction n as [n IH] using lt_wf_ind. intros s ->. apply H. intros t Ht. by eapply IH.
Qed.

Lemma trim_left_space_starts (s : string) : starts_fwd (trim_left_space s) = false.
Proof.
  induction s as [s IH] using string_length_ind.
  destruct s as [|a s1]; [done|]. simpl. destruct (space1 a) eqn:E1; [apply IH; simpl; lia|].
  destruct s1 as [|b s2]; [done|]. destruct (space2 a b) eqn:E2; [apply IH; simpl; lia|].
  destruct s2 as [|c s3]; simpl; [by rewrite E1, E2|].
  destruct (space3 a b c) eqn:E3; [apply IH; simpl; lia|]. simpl. by rewrite E1, E2, E3.
Qed.

Lemma trim_left_space_id (s : string) : starts_fwd s = false -> trim_left_space s = s.
Proof.
  destruct s as [|a [|b [|c s]]]; simpl; intros H; bool_prop;
    repeat match goal with H : _ = false |- _ => rewrite H; clear H end; done.
Qed.

Lemma trim_left_space_rev_starts (s : string) : starts_rev (trim_left_space_rev s) = false.
Proof.
  induction s as [s IH] using string_length_ind.
  destruct s as [|a s1]; [done|]. simpl. destruct (space1 a) eqn:E1; [apply IH; simpl; lia|].
  destruct s1 as [|b s2]; [done|]. destruct (space2 b a) eqn:E2; [apply IH; simpl; lia|].
  destruct s2 as [|c s3]; simpl; [unfold space2_rev; by rewrite E1, E2|].
  destruct (space3 c b a) eqn:E3; [apply IH; simpl; lia|]. simpl.
  unfold space2_rev, space3_rev. by rewrite E1, E2, E3.
Qed.

Lemma trim_left_space_rev_id (s : string) : starts_rev s = false -> trim_left_space_rev s = s.
Proof.
  unfold space2_rev, space3_rev.
  destruct s as [|a [|b [|c s]]]; simpl; intros H; bool_prop;
    repeat match goal with H : _ = false |- _ => rewrite H; clear H end; done.
Qed.

Lemma trim_left_space_rev_suffix (s : string) : exists p, s = p ++ trim_left_space_rev s.
Proof.
  induction s as [s IH] using string_length_ind.
  destruct s as [|a s1]; [by exists ""|]. simpl.
  destruct (space1 a).
  { destruct (IH s1) as [p Hp]; [simpl; lia|]. exists (String a p). simpl. by rewrite <- Hp. }
  destruct s1 as [|b s2]; [by exists ""|]. destruct (space2 b a).
  { destruct (IH s2) as [p Hp]; [simpl; lia|]. exists (String a (String b p)). simpl.
    by rewrite <- Hp. }
  destruct s2 as [|c s3]; [by exists ""|]. destruct (space3 c b a); [|by exists ""].
  destruct (IH s3) as [p Hp]; [simpl; lia|].
  exists (String a (String b (String c p))). simpl. by rewrite <- Hp.
Qed.

Lemma starts_space_app f1 f2 f3 (a b : string) :
  starts_space f1 f2 f3 (a ++ b) = false -> starts_space f1 f2 f3 a = false.
Proof.
  destruct a as [|x [|y [|z a]]]; simpl; [done| | |done].
  - destruct b as [|b0 [|b1 b]]; intros H; bool_prop; done.
  - destruct b as [|b0 b]; intros H; bool_prop; [by apply orb_false_iff|].
    apply orb_false_iff. by split.
Qed.

Lemma TrimSpace_idem (s : string) : TrimSpace (TrimSpace s) = TrimSpace s.
Proof.
  unfold TrimSpace. set (x := trim_left_space s). set (y := trim_left_space_rev (rev_str x)).
  destruct (trim_left_space_rev_suffix (rev_str x)) as [p Hp]. fold y in Hp.
  assert (starts_fwd (rev_str y) = false) as Hy.
  { apply (starts_space_app _ _ _ _ (rev_str p)). rewrite <- rev_str_app, <- Hp.
    rewrite rev_str_involutive. apply trim_left_space_starts. }
  rewrite (trim_left_space_id (rev_str y)) by done. rewrite rev_str_involutive.
  rewrite (trim_left_space_rev_id y) by apply trim_left_space_rev_starts. done.
Qed.

(** ** Slices, searches and lower case of concatenations *)

Lemma slice_from_app (a b : string) (n : Z) : n = len a -> slice_from (a ++ b) n = Some b.
Proof.
  intros ->. unfold slice_from, len. rewrite str_length_app.
  replace (_ && _) with true by (symmetry; apply andb_true_iff; rewrite !Z.leb_le; lia).
  by rewrite Nat2Z.id, drop_str_app.
Qed.

Lemma slice_to_app (a b : string) (n : Z) : n = len a -> slice_to (a ++ b) n = Some a.
Proof.
  intros ->. unfold slice_to, len. rewrite str_length_app.
  replace (_ && _) with true by (symmetry; apply andb_true_iff; rewrite !Z.leb_le; lia).
  by rewrite Nat2Z.id, take_str_app.
Qed.

Lemma get_app (a : string) (c : ascii) (b : string) :
  String.get (String.length a) (a ++ String c b) = Some c.
Proof. induction a; simpl; auto. Qed.

Lemma byte_at_app (a : string) (c : ascii) (b : string) (n : Z) :
  n = len a -> byte_at (a ++ String c b) n = Some c.
Proof.
  intros ->. unfold byte_at, len. replace (0 <=? _)%Z with true by (symmetry; apply Z.leb_le; lia).
  rewrite Nat2Z.id. apply get_app.
Qed.

Lemma len_app (a b : string) : len (a ++ b) = (len a + len b)%Z.
Proof. unfold len. rewrite str_length_app. lia. Qed.

Lemma HasSuffix_app (a b : string) : HasSuffix (a ++ b) b = true.
Proof. apply HasSuffix_iff. by exists a. Qed.

Lemma TrimSuffix_app (a b : string) : TrimSuffix (a ++ b) b = a.
Proof.
  unfold TrimSuffix. rewrite HasSuffix_app, str_length_app.
  replace (_ - _)%nat with (String.length a) by lia. apply take_str_app.
Qed.

Lemma LastIndex_none (b : string) (c : ascii) (p : string) :
  contains_char b c = false -> LastIndex b (String c p) = None.
Proof.
  induction b as [|d b IH]; intros H; [done|]. unfold contains_char in H. cbn [string_existsb] in H.
  apply orb_false_elim in H as [H1 H2]. cbn [LastIndex HasPrefix]. rewrite H1, IH; done.
Qed.

(** The last occurrence of a pattern starts at the last occurrence of its first byte. *)
Lemma LastIndex_last (a : string) (c : ascii) (b p : string) :
  contains_char b c = false -> HasPrefix b p = true ->
  LastIndex (a ++ String c b) (String c p) = Some (String.length a).
Proof.
  intros Hb Hp. induction a as [|d a IH]; cbn [String.append LastIndex HasPrefix String.length].
  - rewrite LastIndex_none by done. by rewrite Ascii.eqb_refl, Hp.
  - by rewrite IH.
Qed.

Lemma trim_right_char_id (c : ascii) (a b : string) :
  b <> "" -> contains_char b c = false -> trim_right_char c (a ++ b) = a ++ b.
Proof.
  intros Hne Hc. unfold trim_right_char. rewrite rev_str_app.
  rewrite <- (contains_char_rev b) in Hc. destruct (rev_str b) as [|d r] eqn:E.
  - destruct b; [done|]. apply (f_equal String.length) in E. rewrite rev_str_length in E. done.
  - unfold contains_char in Hc. cbn [string_existsb] in Hc. apply orb_false_elim in Hc as [Hc _].
    cbn [String.append trim_left_char]. rewrite Hc.
    change (String d (r ++ rev_str a)) with (String d r ++ rev_str a).
    by rewrite <- E, <- rev_str_app, rev_str_involutive.
Qed.

Lemma is_ascii_app (a b : string) : is_ascii (a ++ b) = is_ascii a && is_ascii b.
Proof. apply string_forallb_app. Qed.

Lemma string_map_app (f : ascii -> ascii) (a b : string) :
  string_map f (a ++ b) = string_map f a ++ string_map f b.
Proof. induction a; simpl; congruence. Qed.

Lemma ascii_lower_length (s : string) : String.length (ascii_lower s) = String.length s.
Proof. unfold ascii_lower. induction s; simpl; congruence. Qed.

Lemma ToLower_ascii `{Unicode} (s : string) : is_ascii s = true -> ToLower s = ascii_lower s.
Proof. unfold ToLower. by intros ->. Qed.

Lemma len_lower `{Unicode} (s : string) : is_ascii s = true -> len (ToLower s) = len s.
Proof. intros Hs. unfold len. by rewrite ToLower_ascii, ascii_lower_length. Qed.

Lemma ToLower_app `{Unicode} (a b : string) :
  is_ascii a = true -> is_ascii b = true -> ToLower (a ++ b) = ToLower a ++ ToLower b.
Proof.
  intros Ha Hb. rewrite !ToLower_ascii; auto; [apply string_map_app|].
  by rewrite is_ascii_app, Ha, Hb.
Qed.

(** A string that starts and ends with ASCII bytes that are no space is not trimmed. *)
Lemma TrimSpace_id (a b : ascii) (s : string) :
  is_ascii_byte a = true -> space1 a = false -> is_ascii_byte b = true -> space1 b = false ->
  TrimSpace (String a s ++ String b "") = String a s ++ String b "".
Proof.
  intros Ha Ha1 Hb Hb1. unfold is_ascii_byte in *. bool_prop.
  unfold TrimSpace. rewrite trim_left_space_id; [rewrite rev_str_app|].
  - change (rev_str (String b "")) with (String b ""). cbn [String.append].
    rewrite trim_left_space_rev_id.
    + by rewrite rev_str_cons, rev_str_involutive.
    + rewrite rev_str_cons. destruct (rev_str s) as [|x [|y r]]; simpl;
        unfold space2_rev, space3_rev, space2, space3; rewrite Hb1;
        repeat match goal with |- context [(?z =? ?k)%Z] =>
          first [ replace (z =? k)%Z with false by (symmetry; apply Z.eqb_neq; lia)
                | destruct (z =? k)%Z eqn:? ] end; simpl; try done; bool_prop; lia.
  - destruct s as [|x [|y s]]; simpl; rewrite Ha1; unfold space2, space3;
      repeat match goal with |- context [(byte_code a =? ?k)%Z] =>
          replace (byte_code a =? k)%Z with false by (symmetry; apply Z.eqb_neq; lia) end; done.
Qed.

(** ** Slices in range *)

Lemma HasPrefix_length (s p : string) :
  HasPrefix s p = true -> (String.length p <= String.length s)%nat.
Proof. intros H. apply HasPrefix_iff in H as [r ->]. rewrite str_length_app. lia. Qed.

Lemma LastIndex_bound (s p : string) (i : nat) :
  LastIndex s p = Some i -> (i + String.length p <= String.length s)%nat.
Proof.
  revert i. induction s as [|c s IH]; cbn [LastIndex]; intros i H.
  - destruct (HasPrefix "" p) eqn:E; [|done]. apply HasPrefix_length in E. simplify_eq/=. lia.
  - destruct (LastIndex s p) as [k|].
    + simplify_eq/=. specialize (IH k eq_refl). lia.
    + destruct (HasPrefix (String c s) p) eqn:E; [|done]. apply HasPrefix_length in E. simplify_eq/=. lia.
Qed.

Lemma slice_from_in (s : string) (n : Z) :
  (0 <= n <= len s)%Z -> exists t, slice_from s n = Some t /\ s = take_str (Z.to_nat n) s ++ t.
Proof.
  intros H. unfold slice_from. eexists.
  replace (_ && _) with true by (symmetry; apply andb_true_iff; rewrite !Z.leb_le; lia).
  split; [done|]. by rewrite take_drop_str.
Qed.

Lemma slice_to_in (s : string) (n : Z) :
  (0 <= n <= len s)%Z -> exists t, slice_to s n = Some t.
Proof.
  intros H. unfold slice_to. eexists.
  by replace (_ && _) with true by (symmetry; apply andb_true_iff; rewrite !Z.leb_le; lia).
Qed.

Lemma byte_at_in (s : string) (n : Z) : (0 <= n < len s)%Z -> exists c, byte_at s n = Some c.
Proof.
  intros [H0 H1]. unfold byte_at, len in *. apply Z.leb_le in H0 as Hb. rewrite Hb.
  assert (Z.to_nat n < String.length s)%nat as Hn by lia. clear -Hn.
  revert Hn. generalize (Z.to_nat n). induction s as [|c s IH]; intros [|k] Hk; simpl in *; try lia.
  - by eexists.
  - apply IH. lia.
Qed.

Lemma TrimSuffix_prefix (s p : string) : exists r, s = TrimSuffix s p ++ r.
Proof.
  unfold TrimSuffix. destruct (HasSuffix s p); [|exists ""; by rewrite str_app_nil_r].
  exists (drop_str (String.length s - String.length p) s). by rewrite take_drop_str.
Qed.

(** ** Cutting at a byte *)

Lemma Index_char (a b : string) (c : ascii) :
  contains_char a c = false -> Index (a ++ String c b) (String c "") = Some (String.length a).
Proof.
  induction a as [|d a IH]; intros H.
  - cbn [String.append Index HasPrefix String.length]. rewrite Ascii.eqb_refl. by destruct b.
  - unfold contains_char in H. cbn [string_existsb] in H. apply orb_false_elim in H as [H0 H1].
    cbn [String.append Index HasPrefix String.length]. rewrite (IH H1), H0. done.
Qed.

Lemma Index_char_none (s : string) (c : ascii) :
  contains_char s c = false -> Index s (String c "") = None.
Proof.
  induction s as [|d s IH]; intros H; [done|].
  unfold contains_char in H. cbn [string_existsb] in H. apply orb_false_elim in H as [H0 H1].
  cbn [Index HasPrefix]. by rewrite (IH H1), H0.
Qed.

Lemma Cut_char (a b : string) (c : ascii) :
  contains_char a c = false -> Cut (a ++ String c b) (String c "") = (a, b, true).
Proof.
  intros H. unfold Cut. rewrite Index_char, take_str_app by done. do 2 f_equal.
  change (String c b) with (String c "" ++ b). rewrite str_app_assoc.
  replace (String.length a + String.length (String c ""))%nat with (String.length (a ++ String c ""))
    by by rewrite str_length_app.
  by rewrite drop_str_app.
Qed.

(** A byte occurs first somewhere, or not at all. *)
Lemma first_char (s : string) (c : ascii) :
  contains_char s c = false \/ exists a b, s = a ++ String c b /\ contains_char a c = false.
Proof.
  induction s as [|d s IH]; [by left|]. destruct (Ascii.eqb c d) eqn:E.
  - right. bool_prop. subst. by exists "", s.
  - destruct IH as [H|(a & b & -> & H)]; [left|right].
    + unfold contains_char in *. cbn [string_existsb]. by rewrite E.
    + exists (String d a), b. split; [done|]. unfold contains_char in *. cbn [string_existsb]. by rewrite E.
Qed.

Lemma Cut_char_none (s : string) (c : ascii) :
  contains_char s c = false -> Cut s (String c "") = (s, "", false).
Proof. intros H. unfold Cut. by rewrite Index_char_none. Qed.
