(* ===== verification/GoTime.v ===== *)
(** * Package time: RFC 3339 text of a UTC second

    A time is the number of seconds since 1970-01-01T00:00:00Z, since every time the daemon
    keeps goes through [Format(time.RFC3339)], which drops fractions of a second. *)

From S2P Require Import Prelude GoStrings.

#[local] Open Scope Z_scope.

(** Year, month and day of a day number (0 is 1970-01-01), counting years from March so that
    the leap day is the last of its year. *)
Definition civil_from_days (days : Z) : Z * Z * Z :=
  let z := days + 719468 in
  let era := z / 146097 in
  let doe := z mod 146097 in
  let yoe := (doe - doe / 1460 + doe / 36524 - doe / 146096) / 365 in
  let doy := doe - (365 * yoe + yoe / 4 - yoe / 100) in
  let mp := (5 * doy + 2) / 153 in
  let d := doy - (153 * mp + 2) / 5 + 1 in
  let m := if mp <? 10 then mp + 3 else mp - 9 in
  (yoe + era * 400 + (if m <=? 2 then 1 else 0), m, d).

Definition pad2 (z : Z) : string := pad_zero 2 (Itoa z).

Definition format_rfc3339 (t : Z) : string :=
  let '(y, m, d) := civil_from_days (t / 86400) in
  let s := t mod 86400 in
  (pad_zero 4 (Itoa y) ++ "-" ++ pad2 m ++ "-" ++ pad2 d ++ "T"
   ++ pad2 (s / 3600) ++ ":" ++ pad2 (s mod 3600 / 60) ++ ":" ++ pad2 (s mod 60) ++ "Z")%string.

(** [time.Duration] constants, in seconds. *)
Definition minutes (n : Z) : Z := n * 60.
Definition hours (n : Z) : Z := n * 3600.
