(* ===== verification/GoPath.v ===== *)
(** * Package path/filepath on Unix

    [Clean], [Base], [Dir], [Join], [IsAbs] and [Rel], as the daemon's Linux container runs
    them: the separator is "/" and there is no volume name.  A path is worked on as its list
    of "/"-separated elements, which is what the byte loops of the library do with their
    read and write positions. *)

From S2P Require Import Prelude GoStrings.

#[local] Open Scope string_scope.

Definition path_split (p : string) : list string := split_char char_slash p.

Definition path_join (l : list string) : string := Join l (String char_slash "").

Definition IsAbs (p : string) : bool := HasPrefix p (String char_slash "").

(** One pass of [filepath.Clean] over the elements.  [stack] holds the elements written so
    far, the last first: an empty element and "." are dropped, ".." removes the last element
    written unless that is ".." or there is none, and then it is kept only if not rooted. *)
Fixpoint clean_elems (rooted : bool) (elems stack : list string) : list string :=
  match elems with
  | [] => stack
  | e :: rest =>
      if String.eqb e "" || String.eqb e "." then clean_elems rooted rest stack
      else if String.eqb e ".." then
        match stack with
        | top :: below =>
            if String.eqb top ".." then clean_elems rooted rest (".." :: stack)
            else clean_elems rooted rest below
        | [] => if rooted then clean_elems rooted rest []
                else clean_elems rooted rest [".."]
        end
      else clean_elems rooted rest (e :: stack)
  end.

(** The elements of a cleaned path, first to last. *)
Definition clean_list (p : string) : list string :=
  rev (clean_elems (IsAbs p) (path_split p) []).

Definition Clean (p : string) : string :=
  if String.eqb p "" then "."
  else if IsAbs p then String char_slash (path_join (clean_list p))
  else match clean_list p with
       | [] => "."
       | l => path_join l
       end.

Definition Base (p : string) : string :=
  if String.eqb p "" then "."
  else let stripped := trim_right_char char_slash p in
       let e := List.last (path_split stripped) "" in
       if String.eqb e "" then "/" else e.

(** What [filepath.Dir] hands to [Clean]: everything up to the last separator, included. *)
Definition dir_prefix (p : string) : string :=
  match LastIndex p "/" with
  | Some i => take_str (S i) p
  | None => ""
  end.

Definition Dir (p : string) : string := Clean (dir_prefix p).

(** [filepath.Join] of two elements: empty leading elements are ignored. *)
Definition path_Join2 (a b : string) : string :=
  if String.eqb a "" then (if String.eqb b "" then "" else Clean b)
  else Clean (a ++ String char_slash b).

Fixpoint strip_common (base targ : list string) : list string * list string :=
  match base, targ with
  | b :: bs, t :: ts => if String.eqb b t then strip_common bs ts else (base, targ)
  | _, _ => (base, targ)
  end.

Definition dotdots (l : list string) : list string := map (fun _ => "..") l.

(** The elements of a cleaned path, as [filepath.Rel] walks them. *)
Definition elems_of (cleaned : string) : list string :=
  filter (fun e => e <> "") (path_split cleaned).

(** [filepath.Rel]; [None] is its error. *)
Definition Rel (basepath targpath : string) : option string :=
  let base := Clean basepath in
  let targ := Clean targpath in
  if String.eqb targ base then Some "."
  else
    let base := if String.eqb base "." then "" else base in
    if negb (Bool.eqb (IsAbs base) (IsAbs targ)) then None
    else
      let '(bs, ts) := strip_common (elems_of base) (elems_of targ) in
      match bs with
      | [] => Some (path_join ts)
      | b :: _ =>
          if String.eqb b ".." && negb (bool_decide (ts = [])) then None
          else Some (path_join (dotdots bs ++ ts)%list)
      end.

(** ** Elements of cleaned paths *)

Lemma str_eqb_refl (s : string) : String.eqb s s = true.
Proof. apply String.eqb_refl. Qed.

(** An element that [Clean] keeps as a name: non-empty, no separator, not "." or "..". *)
Definition proper_elem (e : string) : Prop :=
  e <> "" /\ e <> "." /\ e <> ".." /\ contains_char e char_slash = false.

Lemma clean_elems_rooted_proper (elems stack : list string) :
  Forall (fun e => contains_char e char_slash = false) elems ->
  Forall proper_elem stack -> Forall proper_elem (clean_elems true elems stack).
Proof.
  intros He. revert stack. induction He as [|e elems Hs He IH]; intros stack Hst; simpl; [done|].
  destruct (String.eqb e "") eqn:E1; simpl; [by apply IH|].
  destruct (String.eqb e ".") eqn:E2; simpl; [by apply IH|].
  destruct (String.eqb e "..") eqn:E3; bool_prop.
  - destruct Hst as [|top below Ht Hb]; [by apply IH|].
    destruct Ht as (? & ? & Hne & ?). apply String.eqb_neq in Hne. rewrite Hne. by apply IH.
  - apply IH. constructor; [|done]. by repeat split.
Qed.

Lemma path_split_no_slash (p : string) :
  Forall (fun e => contains_char e char_slash = false) (path_split p).
Proof. apply Forall_forall. intros x Hx. by eapply split_char_pieces. Qed.

Lemma clean_list_proper (p : string) : IsAbs p = true -> Forall proper_elem (clean_list p).
Proof.
  intros H. unfold clean_list. rewrite H. apply Forall_rev.
  apply clean_elems_rooted_proper; [apply path_split_no_slash | done].
Qed.

(** Elements that are all proper go through a cleaning pass unchanged. *)
Lemma clean_elems_proper (rooted : bool) (l stack : list string) :
  Forall proper_elem l -> clean_elems rooted l stack = (rev l ++ stack)%list.
Proof.
  intros Hl. revert stack.
  induction Hl as [|e l (H1 & H2 & H3 & H4) Hl IH]; intros stack; simpl; [done|].
  apply String.eqb_neq in H1, H2, H3. rewrite H1, H2, H3. simpl.
  rewrite IH. by rewrite <- app_assoc.
Qed.

Lemma path_split_join (l : list string) :
  l <> [] -> Forall proper_elem l -> path_split (path_join l) = l.
Proof.
  intros Hne Hl. apply split_char_Join; [done|].
  eapply Forall_impl; [done|]. by intros x (_ & _ & _ & ?).
Qed.

Lemma path_split_rooted (q : string) : path_split (String char_slash q) = "" :: path_split q.
Proof. unfold path_split. simpl. done. Qed.

(** The elements of a rooted path written from proper elements are those elements. *)
Lemma elems_of_rooted (l : list string) :
  Forall proper_elem l -> elems_of (String char_slash (path_join l)) = l.
Proof.
  intros Hl. unfold elems_of. rewrite path_split_rooted. rewrite filter_cons.
  case_decide; [done|]. destruct l as [|x l]; [done|].
  rewrite path_split_join by done. clear H. induction Hl as [|y l' (Hy & _) Hl' IH]; [done|].
  rewrite filter_cons. case_decide; [|done]. by rewrite IH.
Qed.

Lemma IsAbs_cons (q : string) : IsAbs (String char_slash q) = true.
Proof. by destruct q. Qed.

Lemma clean_list_rooted (l : list string) :
  Forall proper_elem l -> clean_list (String char_slash (path_join l)) = l.
Proof.
  intros Hl. unfold clean_list. rewrite path_split_rooted, IsAbs_cons. simpl.
  destruct l as [|x l]; [done|]. rewrite path_split_join by done.
  rewrite clean_elems_proper by done. by rewrite app_nil_r, rev_involutive.
Qed.

Lemma Clean_rooted (p : string) :
  IsAbs p = true -> Clean p = String char_slash (path_join (clean_list p)).
Proof. intros H. unfold Clean. rewrite H. by destruct p. Qed.

Lemma IsAbs_Clean (p : string) : IsAbs (Clean p) = true -> IsAbs p = true.
Proof.
  intros H. destruct (IsAbs p) eqn:E; [done|]. unfold Clean in H. rewrite E in H.
  destruct (String.eqb p ""); [done|]. unfold clean_list in H. rewrite E in H.
  destruct (rev _) as [|x l] eqn:El; [done|].
  enough (Forall (fun e => e <> "" /\ contains_char e char_slash = false) (x :: l)) as Hx.
  { inversion_clear Hx as [|? ? [Hne Hs] _]. destruct x as [|c x]; [done|].
    unfold contains_char in Hs. simpl in Hs. apply orb_false_elim in Hs as [Hs _].
    assert (exists r, path_join (String c x :: l) = String c r) as [r Hr].
    { unfold path_join. destruct l; simpl; eauto. }
    rewrite Hr in H. unfold IsAbs in H. cbn [HasPrefix] in H.
    apply andb_prop in H as [H _]. apply Ascii.eqb_eq in H as <-. done. }
  rewrite <- El. apply Forall_rev. clear.
  assert (Forall (fun e => e <> "" /\ contains_char e char_slash = false) []) as Hst by done.
  revert Hst. generalize (@nil string). generalize (path_split_no_slash p).
  generalize (path_split p). intros elems He. induction He as [|e elems Hs He IH];
    intros stack Hst; simpl; [done|].
  destruct (String.eqb e "") eqn:E1; simpl; [by apply IH|].
  destruct (String.eqb e ".") eqn:E2; simpl; [by apply IH|].
  destruct (String.eqb e "..") eqn:E3; bool_prop.
  - destruct Hst as [|top below Ht Hb]; [apply IH; by apply Forall_singleton|].
    destruct (String.eqb top ".."); apply IH; [|done]. by repeat (apply Forall_cons; split).
  - apply IH. by apply Forall_cons.
Qed.

Lemma elems_of_Clean (p : string) :
  IsAbs p = true -> elems_of (Clean p) = clean_list p.
Proof.
  intros H. rewrite Clean_rooted by done. apply elems_of_rooted. by apply clean_list_proper.
Qed.

Lemma Clean_idem_abs (p : string) : IsAbs p = true -> Clean (Clean p) = Clean p.
Proof.
  intros H. rewrite (Clean_rooted p H). rewrite Clean_rooted by apply IsAbs_cons.
  rewrite clean_list_rooted; [done|]. by apply clean_list_proper.
Qed.

Lemma strip_common_spec (base targ bs ts : list string) :
  strip_common base targ = (bs, ts) -> exists c, base = (c ++ bs)%list /\ targ = (c ++ ts)%list.
Proof.
  revert targ. induction base as [|b base IH]; intros targ H; simpl in H.
  - simplify_eq. by exists [].
  - destruct targ as [|t targ]; [simplify_eq; by exists []|].
    destruct (String.eqb b t) eqn:E; [|simplify_eq; by exists []].
    bool_prop; subst. apply IH in H as (c & -> & ->). by exists (t :: c).
Qed.

Lemma strip_common_app (base targ : list string) :
  strip_common base (base ++ targ)%list = ([], targ).
Proof.
  induction base as [|b base IH]; simpl; [by destruct targ|]. by rewrite str_eqb_refl.
Qed.

Lemma IsAbs_no_slash (e : string) : contains_char e char_slash = false -> IsAbs e = false.
Proof.
  destruct e as [|c e]; [done|]. unfold contains_char, IsAbs. cbn [string_existsb HasPrefix].
  intros H. apply orb_false_elim in H as [-> _]. done.
Qed.

(** A path that is one proper element is its own [Clean] and [Base]. *)
Lemma Clean_proper (e : string) : proper_elem e -> Clean e = e.
Proof.
  intros He. destruct (He) as (H1 & H2 & H3 & H4). unfold Clean.
  apply String.eqb_neq in H1 as Hb. rewrite Hb.
  pose proof (IsAbs_no_slash e H4) as Ha.
  rewrite Ha. unfold clean_list. rewrite Ha. unfold path_split.
  rewrite split_char_no_sep by done.
  rewrite clean_elems_proper by (repeat constructor; done). done.
Qed.

(** ** Joining a directory and a name *)

Lemma path_split_app (a b : string) :
  path_split (a ++ String char_slash b) = (path_split a ++ path_split b)%list.
Proof.
  induction a as [|c a IH]; [done|]. unfold path_split in *. simpl.
  destruct (Ascii.eqb char_slash c); [by rewrite IH|]. rewrite IH.
  pose proof (split_char_nonempty char_slash a).
  by destruct (split_char char_slash a).
Qed.

Lemma clean_elems_app (rooted : bool) (l1 l2 st : list string) :
  clean_elems rooted (l1 ++ l2)%list st = clean_elems rooted l2 (clean_elems rooted l1 st).
Proof.
  revert st. induction l1 as [|e l1 IH]; intros st; simpl; [done|].
  repeat case_match; auto.
Qed.

Lemma IsAbs_app (a b : string) : IsAbs a = true -> IsAbs (a ++ b) = true.
Proof. unfold IsAbs. rewrite !HasPrefix_iff. intros [r ->]. by exists (r ++ b). Qed.

Lemma path_Join2_abs (dir name : string) :
  IsAbs dir = true -> path_Join2 dir name = Clean (dir ++ String char_slash name).
Proof. intros H. unfold path_Join2. by destruct dir. Qed.

Lemma clean_list_join (dir name : string) :
  IsAbs dir = true ->
  clean_list (dir ++ String char_slash name)
  = rev (clean_elems true (path_split name) (rev (clean_list dir))).
Proof.
  intros H. unfold clean_list. rewrite IsAbs_app, H by done.
  by rewrite path_split_app, clean_elems_app, rev_involutive.
Qed.

(** A proper name lands directly inside the directory. *)
Lemma elems_of_Join2_proper (dir name : string) :
  IsAbs dir = true -> proper_elem name ->
  elems_of (path_Join2 dir name) = (clean_list dir ++ [name])%list.
Proof.
  intros Hd Hn. rewrite path_Join2_abs by done.
  rewrite elems_of_Clean by by apply IsAbs_app.
  rewrite clean_list_join by done. unfold path_split. rewrite split_char_no_sep by apply Hn.
  rewrite clean_elems_proper by by apply Forall_singleton. simpl. by rewrite rev_involutive.
Qed.

(** The name ".." lands on the parent of the directory. *)
Lemma elems_of_Join2_dotdot (dir : string) (l : list string) (e : string) :
  IsAbs dir = true -> clean_list dir = (l ++ [e])%list ->
  elems_of (path_Join2 dir "..") = l.
Proof.
  intros Hd Hl. rewrite path_Join2_abs by done.
  rewrite elems_of_Clean by by apply IsAbs_app.
  rewrite clean_list_join by done. rewrite Hl, rev_app_distr. simpl.
  pose proof (clean_list_proper dir Hd) as Hp. rewrite Hl in Hp.
  apply Forall_app in Hp as [_ Hp]. apply Forall_cons in Hp as [(_ & _ & Hne & _) _].
  apply String.eqb_neq in Hne. rewrite Hne. by rewrite rev_involutive.
Qed.

(** [Base] never returns the empty string, nor a separator inside a name. *)
Lemma Base_cases (p : string) :
  Base p = "/" \/ (Base p <> "" /\ contains_char (Base p) char_slash = false).
Proof.
  unfold Base. destruct (String.eqb p ""); [right; done|].
  set (l := path_split _).
  assert (contains_char (List.last l "") char_slash = false) as Hc.
  { assert (l <> []) as Hne by apply split_char_nonempty.
    pose proof (app_removelast_last "" Hne) as Hl.
    pose proof (path_split_no_slash (trim_right_char char_slash p)) as Hf.
    fold l in Hf. rewrite Hl in Hf. apply Forall_app in Hf as [_ Hf].
    by apply Forall_cons in Hf as [? _]. }
  destruct (String.eqb _ "") eqn:E; [by left|]. bool_prop. by right.
Qed.

(** ** Taking a joined path apart *)

(** The rooted path of a list of elements, empty for none. *)
Definition rooted (l : list string) : string :=
  match l with [] => "" | _ => String char_slash (path_join l) end.

Lemma path_Join2_shape (dir name : string) :
  IsAbs dir = true -> proper_elem name ->
  path_Join2 dir name = rooted (clean_list dir) ++ String char_slash name.
Proof.
  intros Hd Hn. rewrite path_Join2_abs by done. rewrite Clean_rooted by by apply IsAbs_app.
  rewrite clean_list_join by done. unfold path_split. rewrite split_char_no_sep by apply Hn.
  rewrite clean_elems_proper by by apply Forall_singleton. cbn [rev app].
  rewrite rev_involutive. destruct (clean_list dir) as [|x l] eqn:E; [done|].
  unfold path_join. rewrite (Join_app (x :: l) [name]) by done. done.
Qed.

Lemma Clean_rooted_slash (l : list string) :
  Forall proper_elem l -> Clean (rooted l ++ "/") = String char_slash (path_join l).
Proof.
  intros Hl. assert (IsAbs (rooted l ++ "/") = true) as Ha by (destruct l; [done|apply IsAbs_cons]).
  rewrite Clean_rooted by done. do 2 f_equal. destruct l as [|x l]; [done|].
  change "/" with (String char_slash ""). rewrite clean_list_join by apply IsAbs_cons.
  change (path_split "") with [""]. cbn [clean_elems String.eqb orb]. rewrite rev_involutive.
  by apply clean_list_rooted.
Qed.

Lemma Dir_Join2 (dir name : string) :
  IsAbs dir = true -> proper_elem name -> Dir (path_Join2 dir name) = Clean dir.
Proof.
  intros Hd Hn. rewrite path_Join2_shape by done. unfold Dir, dir_prefix.
  change "/" with (String char_slash ""). rewrite LastIndex_last; [|apply Hn|by destruct name].
  set (r := rooted _).
  replace (take_str (S (String.length r)) (r ++ String char_slash name)) with (r ++ "/").
  - rewrite (Clean_rooted dir) by done. apply Clean_rooted_slash. by apply clean_list_proper.
  - change (String char_slash name) with ("/" ++ name). rewrite str_app_assoc.
    replace (S (String.length r)) with (String.length (r ++ "/")) by (rewrite str_length_app; simpl; lia).
    by rewrite take_str_app.
Qed.

Lemma Base_Join2 (dir name : string) :
  IsAbs dir = true -> proper_elem name -> Base (path_Join2 dir name) = name.
Proof.
  intros Hd Hn. destruct (Hn) as (Hne & _ & _ & Hs). rewrite path_Join2_shape by done. unfold Base.
  set (r := rooted _). destruct (String.eqb _ "") eqn:E; [bool_prop; by destruct r|].
  change (String char_slash name) with ("/" ++ name). rewrite str_app_assoc.
  rewrite trim_right_char_id by done. rewrite <- str_app_assoc.
  change ("/" ++ name) with (String char_slash name). rewrite path_split_app.
  replace (path_split name) with [name] by (symmetry; by apply split_char_no_sep).
  rewrite List.last_last.
  apply String.eqb_neq in Hne. by rewrite Hne.
Qed.

(** Joining depends on the directory only through its cleaned form. *)
Lemma path_Join2_Clean (dir name : string) :
  IsAbs dir = true -> proper_elem name -> path_Join2 (Clean dir) name = path_Join2 dir name.
Proof.
  intros Hd Hn. rewrite !path_Join2_shape; auto.
  - rewrite (Clean_rooted dir) by done. by rewrite clean_list_rooted by by apply clean_list_proper.
  - rewrite Clean_rooted by done. apply IsAbs_cons.
Qed.
