(* ===== verification/GoUrl.v ===== *)
(** * Package net/url

    [Parse], [Hostname], [String] and [Query().Get], with the escaping rules they share, as
    Go 1.22 (the version of go.mod) defines them.  [Parse] returns the reason of its error as
    text; the daemon only tests whether there is one. *)

From S2P Require Import Prelude GoStrings.

#[local] Open Scope string_scope.

Record url : Type := mkURL {
  Scheme : string;
  Opaque : string;
  User : option (string * option string);
  Host : string;
  Path : string;
  RawPath : string;
  OmitHost : bool;
  ForceQuery : bool;
  RawQuery : string;
  Fragment : string;
  RawFragment : string
}.

(** ** Escaping *)

Inductive encoding : Type :=
  | encodePath | encodeHost | encodeZone | encodeUserPassword
  | encodeQueryComponent | encodeFragment.

Definition one_of (c : ascii) (set : string) : bool := contains_char set c.

Definition char_dquote : ascii := ascii_of_N 34.

Definition is_alnum (c : ascii) : bool := is_lower c || is_upper c || is_digit c.

Definition is_host_mode (m : encoding) : bool :=
  match m with encodeHost | encodeZone => true | _ => false end.

Definition shouldEscape (c : ascii) (m : encoding) : bool :=
  if is_alnum c then false
  else if is_host_mode m && (one_of c "!$&'()*+,;=:[]<>" || Ascii.eqb c char_dquote) then false
  else if one_of c "-_.~" then false
  else if one_of c "$&+,/:;=?@" &&
          match m with
          | encodePath | encodeUserPassword | encodeQueryComponent | encodeFragment => true
          | _ => false
          end
  then match m with
       | encodePath => Ascii.eqb c "?"
       | encodeUserPassword => one_of c "@/?:"
       | encodeQueryComponent => true
       | _ => false
       end
  else match m with
       | encodeFragment => negb (one_of c "!()*")
       | _ => true
       end.

Definition ishex (c : ascii) : bool :=
  is_digit c || ((97 <=? byte_code c) && (byte_code c <=? 102))%Z
  || ((65 <=? byte_code c) && (byte_code c <=? 70))%Z.

Definition unhex (c : ascii) : Z :=
  if is_digit c then (byte_code c - 48)%Z
  else if is_lower c then (byte_code c - 87)%Z else (byte_code c - 55)%Z.

Definition char_of_Z (z : Z) : ascii := ascii_of_N (Z.to_N z).

(** [unescape]; [None] is its error. *)
Fixpoint unescape (s : string) (m : encoding) : option string :=
  match s with
  | "" => Some ""
  | String c s1 =>
      if Ascii.eqb c "%" then
        match s1 with
        | String a (String b s3) =>
            if negb (ishex a && ishex b) then None
            else
              let is25 := Ascii.eqb a "2" && Ascii.eqb b "5" in
              let v := char_of_Z (unhex a * 16 + unhex b) in
              if match m with encodeHost => (unhex a <? 8)%Z && negb is25 | _ => false end
              then None
              else if match m with
                      | encodeZone => negb is25 && negb (Ascii.eqb v " ") && shouldEscape v encodeHost
                      | _ => false
                      end
              then None
              else String v <$> unescape s3 m
        | _ => None
        end
      else if Ascii.eqb c "+" then
        String (match m with encodeQueryComponent => " "%char | _ => "+"%char end)
          <$> unescape s1 m
      else if is_host_mode m && is_ascii_byte c && shouldEscape c m then None
      else String c <$> unescape s1 m
  end.

Definition upperhex (z : Z) : ascii :=
  if (z <? 10)%Z then char_of_Z (48 + z) else char_of_Z (55 + z).

Fixpoint escape (s : string) (m : encoding) : string :=
  match s with
  | "" => ""
  | String c s' =>
      if shouldEscape c m then
        match m with
        | encodeQueryComponent =>
            if Ascii.eqb c " " then String "+" (escape s' m)
            else String "%" (String (upperhex (byte_code c / 16))
                              (String (upperhex (byte_code c mod 16)) (escape s' m)))
        | _ => String "%" (String (upperhex (byte_code c / 16))
                            (String (upperhex (byte_code c mod 16)) (escape s' m)))
        end
      else String c (escape s' m)
  end.

Definition validEncoded (s : string) (m : encoding) : bool :=
  string_forallb
    (fun c => one_of c "!$&'()*+,;=:@[]%" || negb (shouldEscape c m)) s.

(** ** Parsing *)

(** The scheme and the rest, or [None] for the missing-scheme error. *)
Fixpoint scan_scheme (s pre : string) (first : bool) : option (option (string * string)) :=
  match s with
  | "" => Some None
  | String c s' =>
      if is_lower c || is_upper c then scan_scheme s' (pre ++ String c "") false
      else if is_digit c || one_of c "+-." then
        if first then Some None else scan_scheme s' (pre ++ String c "") false
      else if Ascii.eqb c ":" then (if first then None else Some (Some (pre, s')))
      else Some None
  end.

Definition getScheme (s : string) : option (string * string) :=
  match scan_scheme s "" true with
  | None => None
  | Some None => Some ("", s)
  | Some (Some r) => Some r
  end.

Definition validOptionalPort (p : string) : bool :=
  match p with
  | "" => true
  | String c rest => Ascii.eqb c ":" && string_forallb is_digit rest
  end.

Definition validUserinfo (s : string) : bool :=
  string_forallb (fun c => is_alnum c || one_of c "-._:~!$&'()*+,;=%@") s.

Definition parseHost (host : string) : string + string :=
  let plain := match unescape host encodeHost with
               | Some h => inr h
               | None => inl "invalid host"
               end in
  if HasPrefix host "[" then
    match LastIndex host "]" with
    | None => inl "missing ']' in host"
    | Some i =>
        if negb (validOptionalPort (drop_str (S i) host)) then inl "invalid port after host"
        else match Index (take_str i host) "%25" with
             | Some z =>
                 match unescape (take_str z host) encodeHost,
                       unescape (drop_str z (take_str i host)) encodeZone,
                       unescape (drop_str i host) encodeHost with
                 | Some h1, Some h2, Some h3 => inr (h1 ++ h2 ++ h3)
                 | _, _, _ => inl "invalid host"
                 end
             | None => plain
             end
    end
  else match LastIndex host ":" with
       | Some i => if negb (validOptionalPort (drop_str i host)) then inl "invalid port after host"
                   else plain
       | None => plain
       end.

Definition parseAuthority (authority : string)
  : string + (option (string * option string) * string) :=
  let at_ := LastIndex authority "@" in
  let hostpart := match at_ with Some i => drop_str (S i) authority | None => authority end in
  match parseHost hostpart with
  | inl e => inl e
  | inr host =>
      match at_ with
      | None => inr (None, host)
      | Some i =>
          let userinfo := take_str i authority in
          if negb (validUserinfo userinfo) then inl "net/url: invalid userinfo"
          else
            let '(name, pass, has) := Cut userinfo ":" in
            match unescape name encodeUserPassword, unescape pass encodeUserPassword with
            | Some n, Some p => inr (Some (n, if has then Some p else None), host)
            | _, _ => inl "invalid URL escape"
            end
      end
  end.

Definition has_ctl (s : string) : bool :=
  string_existsb (fun c => (byte_code c <? 32)%Z || (byte_code c =? 127)%Z) s.

(** [setPath]: the decoded path and the raw text when it is not the default encoding. *)
Definition decode_path (p : string) (m : encoding) : option (string * string) :=
  match unescape p m with
  | None => None
  | Some d => Some (d, if String.eqb (escape d m) p then "" else p)
  end.

Definition split_query (rest : string) : string * bool * string :=
  let '(before, after, found) := Cut rest "?" in
  if found && String.eqb after "" then (before, true, "") else (before, false, after).

Definition parse_nofrag (raw : string) : string + url :=
  if has_ctl raw then inl "net/url: invalid control character in URL"
  else if String.eqb raw "*" then inr (mkURL "" "" None "" "*" "" false false "" "" "")
  else match getScheme raw with
  | None => inl "missing protocol scheme"
  | Some (scheme0, rest0) =>
      let scheme := ascii_lower scheme0 in
      let '(rest, fq, query) := split_query rest0 in
      if negb (HasPrefix rest "/") && negb (String.eqb scheme "") then
        inr (mkURL scheme rest None "" "" "" false fq query "" "")
      else if negb (HasPrefix rest "/")
              && (let '(seg, _, _) := Cut rest "/" in Contains seg ":")
      then inl "first path segment in URL cannot contain colon"
      else
        let with_host := (negb (String.eqb scheme "") || negb (HasPrefix rest "///"))
                           && HasPrefix rest "//" in
        let after := drop_str 2 rest in
        let cut := match Index after "/" with
                   | Some i => (take_str i after, drop_str i after)
                   | None => (after, "")
                   end in
        let auth := if with_host then parseAuthority (fst cut) else inr (None, "") in
        let path := if with_host then snd cut else rest in
        let omit := negb with_host && negb (String.eqb scheme "") && HasPrefix rest "/" in
        match auth with
        | inl e => inl e
        | inr (user, host) =>
            match decode_path path encodePath with
            | None => inl "invalid URL escape"
            | Some (p, rp) => inr (mkURL scheme "" user host p rp omit fq query "" "")
            end
        end
  end.

(** [url.Parse]. *)
Definition Parse (raw : string) : string + url :=
  let '(u, frag, _) := Cut raw "#" in
  match parse_nofrag u with
  | inl e => inl e
  | inr u0 =>
      if String.eqb frag "" then inr u0
      else match decode_path frag encodeFragment with
           | None => inl "invalid URL escape"
           | Some (f, rf) =>
               inr (mkURL (Scheme u0) (Opaque u0) (User u0) (Host u0) (Path u0)
                      (RawPath u0) (OmitHost u0) (ForceQuery u0) (RawQuery u0) f rf)
           end
  end.

(** ** Reading a URL *)

Definition Hostname (u : url) : string :=
  let host := Host u in
  let host := match LastIndex host ":" with
              | Some i => if validOptionalPort (drop_str i host) then take_str i host else host
              | None => host
              end in
  if HasPrefix host "[" && HasSuffix host "]"
  then take_str (String.length host - 2) (drop_str 1 host) else host.

(** [EscapedPath] and [EscapedFragment]: the raw hint if it still encodes the value. *)
Definition escaped_hint (raw value : string) (m : encoding) : string :=
  if negb (String.eqb raw "") && validEncoded raw m
     && match unescape raw m with Some v => String.eqb v value | None => false end
  then raw else escape value m.

Definition EscapedPath (u : url) : string :=
  let hinted := negb (String.eqb (RawPath u) "") && validEncoded (RawPath u) encodePath
                && match unescape (RawPath u) encodePath with
                   | Some v => String.eqb v (Path u)
                   | None => false
                   end in
  if negb hinted && String.eqb (Path u) "*" then "*"
  else escaped_hint (RawPath u) (Path u) encodePath.

Definition EscapedFragment (u : url) : string :=
  escaped_hint (RawFragment u) (Fragment u) encodeFragment.

Definition user_string (ui : string * option string) : string :=
  escape (fst ui) encodeUserPassword
  ++ match snd ui with
     | Some p => ":" ++ escape p encodeUserPassword
     | None => ""
     end.

Definition authority_string (u : url) : string :=
  let no_user := match User u with None => true | _ => false end in
  if negb (String.eqb (Scheme u) "") || negb (String.eqb (Host u) "") || negb no_user then
    if OmitHost u && String.eqb (Host u) "" && no_user then ""
    else (if negb (String.eqb (Host u) "") || negb (String.eqb (Path u) "") || negb no_user
          then "//" else "")
         ++ match User u with Some ui => user_string ui ++ "@" | None => "" end
         ++ escape (Host u) encodeHost
  else "".

(** [URL.String] up to the fragment, and with it. *)
Definition url_head (u : url) : string :=
  let scheme := if String.eqb (Scheme u) "" then "" else Scheme u ++ ":" in
  let body :=
    if negb (String.eqb (Opaque u) "") then scheme ++ Opaque u
    else
      let path := EscapedPath u in
      let buf := scheme ++ authority_string u in
      let buf := if negb (String.eqb path "") && negb (HasPrefix path "/")
                    && negb (String.eqb (Host u) "")
                 then buf ++ "/" else buf in
      let buf := if String.eqb buf "" && (let '(seg, _, _) := Cut path "/" in Contains seg ":")
                 then "./" else buf in
      buf ++ path in
  if ForceQuery u || negb (String.eqb (RawQuery u) "") then body ++ "?" ++ RawQuery u else body.

Definition url_String (u : url) : string :=
  if String.eqb (Fragment u) "" then url_head u else url_head u ++ "#" ++ EscapedFragment u.

Definition set_fragment (u : url) (f : string) : url :=
  mkURL (Scheme u) (Opaque u) (User u) (Host u) (Path u) (RawPath u) (OmitHost u)
    (ForceQuery u) (RawQuery u) f (RawFragment u).

(** [u.Query().Get(key)]: the first value of [key] among the pairs that decode. *)
Definition query_pair (kv : string) : option (string * string) :=
  if Contains kv ";" || String.eqb kv "" then None
  else let '(k, v, _) := Cut kv "=" in
       match unescape k encodeQueryComponent, unescape v encodeQueryComponent with
       | Some k, Some v => Some (k, v)
       | _, _ => None
       end.

Fixpoint query_find (key : string) (pairs : list string) : string :=
  match pairs with
  | [] => ""
  | kv :: rest =>
      match query_pair kv with
      | Some (k, v) => if String.eqb k key then v else query_find key rest
      | None => query_find key rest
      end
  end.

Definition QueryGet (u : url) (key : string) : string :=
  query_find key (split_char "&" (RawQuery u)).
