(* ===== verification/GoError.v ===== *)
(** * Go errors

    An [error] value is opaque text ([errors.New], or an error of code outside the
    repository that wraps no sentinel), one of the package-level error variables the code
    compares against, or an error that wraps another ([%w]).  [errors.Is] walks the wrap
    chain; [%v] only copies text.  A Go result pair [(x, err)] is a value of [res X]. *)

From S2P Require Import Prelude GoStrings.

#[local] Open Scope string_scope.

(** The error variables of packages queue, downloader, resolver, sql, os, io and exec. *)
Inductive sentinel : Type :=
  | ErrNoRows                 (* sql.ErrNoRows *)
  | ErrDownloaderNotConfigured | ErrMissingEngineGID | ErrActionNotAllowed
  | AriaErrGIDNotFound | AriaErrActionNotAllowed
  | ErrLoginRequired | ErrQuotaExceeded | ErrCaptchaNeeded | ErrTemporarilyOff | ErrUnknownSite
  | ErrNotExist               (* os.ErrNotExist *)
  | EOF                       (* io.EOF *)
  | ErrExecNotFound.          (* exec.ErrNotFound *)

#[global] Instance sentinel_eq_dec : EqDecision sentinel.
Proof. solve_decision. Defined.

Definition sentinel_text (s : sentinel) : string :=
  match s with
  | ErrNoRows => "sql: no rows in result set"
  | ErrDownloaderNotConfigured => "downloader_not_configured"
  | ErrMissingEngineGID => "missing_engine_gid"
  | ErrActionNotAllowed => "action_not_allowed"
  | AriaErrGIDNotFound => "aria2_gid_not_found"
  | AriaErrActionNotAllowed => "aria2_action_not_allowed"
  | ErrLoginRequired => "login_required"
  | ErrQuotaExceeded => "quota_exceeded"
  | ErrCaptchaNeeded => "captcha_needed"
  | ErrTemporarilyOff => "temporarily_unavailable"
  | ErrUnknownSite => "unknown_site"
  | ErrNotExist => "file does not exist"
  | EOF => "EOF"
  | ErrExecNotFound => "executable file not found in $PATH"
  end.

Inductive error : Type :=
  | ENew (text : string)
  | ESentinel (s : sentinel)
  | EWrap (text : string) (inner : error)
  | EExec (text : string) (inner : error).   (* an *exec.Error around its Err *)

Definition error_text (e : error) : string :=
  match e with
  | ENew t | EWrap t _ | EExec t _ => t
  | ESentinel s => sentinel_text s
  end.

(** [errors.Is(e, target)] for a sentinel target. *)
Fixpoint errors_Is (e : error) (target : sentinel) : bool :=
  match e with
  | ENew _ => false
  | ESentinel s => bool_decide (s = target)
  | EWrap _ inner | EExec _ inner => errors_Is inner target
  end.

(** [fmt.Errorf("%w: %v", s, e)]. *)
Definition errorf_wrap (s : sentinel) (e : error) : error :=
  EWrap (sentinel_text s ++ ": " ++ error_text e) (ESentinel s).

(** A Go result [(x, err)]: the error, or the value with a nil error. *)
Definition res (X : Type) : Type := (error + X)%type.

Definition is_ok {X} (r : res X) : bool := match r with inr _ => true | inl _ => false end.

Lemma errors_Is_wrap (s t : sentinel) (e : error) :
  errors_Is (errorf_wrap s e) t = bool_decide (s = t).
Proof. done. Qed.
