(* ===== verification/GoFloat.v ===== *)
(** * float64

    IEEE 754 with 53 bits, from the Standard Library, and reading a decimal as a float64. *)

From Stdlib Require Import SpecFloat.
From S2P Require Import Prelude GoStrings.

#[local] Open Scope string_scope.

Definition float : Type := spec_float.
Definition float_of (m e : Z) : float := binary_normalize 53 1024 m e false.
Definition float_of_int (n : Z) : float := float_of n 0.
Definition fadd : float -> float -> float := SFadd 53 1024.
Definition fmul : float -> float -> float := SFmul 53 1024.
Definition fdiv : float -> float -> float := SFdiv 53 1024.
Definition fge (x y : float) : bool := SFleb y x.

(** ** [strconv.ParseFloat] of a JSON number *)

(** The float64 nearest to [p / q]: a quotient of more than 64 bits, and one more bit for
    whether anything is left, round as the exact ratio does. *)
Definition float_of_ratio (p q : Z) : float :=
  if (p =? 0)%Z then S754_zero false
  else
    let k := Z.max 0 (66 + Z.log2 q - Z.log2 (Z.abs p)) in
    let n := (Z.abs p * 2 ^ k)%Z in
    let m := (2 * (n / q) + (if n mod q =? 0 then 0 else 1))%Z in
    float_of (if (p <? 0)%Z then - m else m) (- k - 1).

(** The digits of [s] after those of [acc], and what follows them. *)
Fixpoint read_digits (acc : Z) (s : string) : Z * string :=
  match s with
  | String c s' => if is_digit c then read_digits (10 * acc + (byte_code c - 48)) s' else (acc, s)
  | "" => (acc, "")
  end.

(** Sign, digits and the power of ten of a number's text. *)
Definition read_decimal (s : string) : bool * Z * Z :=
  let '(neg, s) := match s with String "-" r => (true, r) | _ => (false, s) end in
  let '(n, s) := read_digits 0 s in
  let '(n, frac, s) :=
    match s with
    | String "." r => let '(n', r') := read_digits n r in (n', String.length r - String.length r', r')%nat
    | _ => (n, 0%nat, s)
    end in
  let e := match s with
           | String _ (String "-" r) => (- fst (read_digits 0 r))%Z
           | String _ (String "+" r) => fst (read_digits 0 r)
           | String _ r => fst (read_digits 0 r)
           | "" => 0%Z
           end in
  (neg, n, (e - Z.of_nat frac)%Z).

(** [p / q] rounds to a finite float64: the bound is halfway from the largest one to 2^1024. *)
Definition in_float_range (p q : Z) : bool := (p <? (2 ^ 1024 - 2 ^ 970) * q)%Z.

(** [None] when the value is out of range.  What is plainly too large or too small is settled
    before any power is computed. *)
Definition ParseFloat (s : string) : option float :=
  let '(neg, n, e) := read_decimal s in
  if (n =? 0)%Z then Some (S754_zero neg)
  else if (310 <? e + Z.log2 n / 4)%Z then None
  else if (e + Z.log2 n <? -400)%Z then Some (S754_zero neg)
  else
    let p := (n * 10 ^ Z.max 0 e)%Z in
    let q := (10 ^ Z.max 0 (- e))%Z in
    if in_float_range p q then Some (float_of_ratio (if neg then - p else p) q) else None.

Example ParseFloat_examples :
  map ParseFloat ["0.1"; "1e2"; "-2.50"; "1e309"; "1.7976931348623157e308"; "4.9e-324"; "-0"; "1e-9999";
                  "9007199254740993"; "1.7976931348623159e308"]
  = [Some (S754_finite false 7205759403792794 (-56)); Some (S754_finite false 7036874417766400 (-46));
     Some (S754_finite true 5629499534213120 (-51)); None;
     Some (S754_finite false 9007199254740991 971); Some (S754_finite false 1 (-1074));
     Some (S754_zero true); Some (S754_zero false); Some (S754_finite false 4503599627370496 1); None].
Proof. vm_compute. reflexivity. Qed.

(** ** Integers *)

Lemma read_digits_all (s : string) (acc : Z) :
  string_forallb is_digit s = true -> read_digits acc s = (dec_value acc s, "").
Proof.
  revert acc. induction s as [|c s IH]; intros acc H; [done|]. cbn in *.
  apply andb_true_iff in H as [H1 H2]. rewrite H1, IH by done. unfold digit_val. do 2 f_equal. lia.
Qed.

Lemma read_decimal_Itoa (n : Z) : (0 <= n)%Z -> read_decimal (Itoa n) = (false, n, 0%Z).
Proof.
  intros Hn. unfold Itoa. destruct (n <? 0)%Z eqn:E; [bool_prop; lia|].
  destruct (string_of_N_spec (Z.to_N n)) as (c & d & -> & Hd & Hv & _).
  unfold read_decimal. assert (c <> "-"%char) as Hc by (intros ->; by cbn in Hd).
  assert ((match String c d with String "-" r => (true, r) | _ => (false, String c d) end)
          = (false, String c d)) as ->.
  { destruct c as [[] [] [] [] [] [] [] []]; try done. }
  rewrite read_digits_all by done. rewrite Hv. repeat f_equal; lia.
Qed.

Lemma ParseFloat_Itoa (n : Z) : (0 <= n <= max_int64)%Z -> is_Some (ParseFloat (Itoa n)).
Proof.
  unfold max_int64. intros Hn. unfold ParseFloat. rewrite read_decimal_Itoa by lia.
  destruct (n =? 0)%Z eqn:E0; [by eexists|]. bool_prop.
  assert (0 <= Z.log2 n <= 63)%Z as Hl.
  { split; [apply Z.log2_nonneg|]. etrans; [apply (Z.log2_le_mono n (2 ^ 63)); lia|]. by vm_compute. }
  assert (Z.log2 n / 4 < 16)%Z by (apply Z.div_lt_upper_bound; lia).
  destruct (310 <? 0 + Z.log2 n / 4)%Z eqn:E1; [bool_prop; lia|].
  destruct (0 + Z.log2 n <? -400)%Z eqn:E2; [bool_prop; lia|].
  assert (in_float_range (n * 10 ^ Z.max 0 0) (10 ^ Z.max 0 (- 0)) = true) as ->; [|by eexists].
  unfold in_float_range. apply Z.ltb_lt. change (10 ^ Z.max 0 (- 0))%Z with 1%Z. change (10 ^ Z.max 0 0)%Z with 1%Z.
  assert (2 ^ 64 < (2 ^ 1024 - 2 ^ 970) * 1)%Z by (by vm_compute). lia.
Qed.
