(* ===== verification/GoJson.v ===== *)
(** * Packages unicode/utf8 and encoding/json

    A JSON text parses to a [value]: its syntax tree, numbers as their literals, strings as Go
    decodes them, with every byte that is no UTF-8 replaced by U+FFFD.  [Marshal] is the text
    json.Marshal writes for a value; it is read back ([Unmarshal_Marshal]).  The wording of the package's errors is not modelled. *)

From S2P Require Import Prelude GoStrings GoUrl GoError.

#[local] Open Scope string_scope.

(** ** UTF-8 *)

Definition in_range (lo hi : Z) (c : ascii) : bool :=
  (lo <=? byte_code c)%Z && (byte_code c <=? hi)%Z.

(** [utf8.DecodeRune] accepts these bytes as one rune. *)
Definition rune2 (a b : ascii) : bool := in_range 0xC2 0xDF a && in_range 0x80 0xBF b.

Definition rune3 (a b c : ascii) : bool :=
  in_range 0xE0 0xEF a
  && in_range (if (byte_code a =? 0xE0)%Z then 0xA0 else 0x80)
       (if (byte_code a =? 0xED)%Z then 0x9F else 0xBF) b
  && in_range 0x80 0xBF c.

Definition rune4 (a b c d : ascii) : bool :=
  in_range 0xF0 0xF4 a
  && in_range (if (byte_code a =? 0xF0)%Z then 0x90 else 0x80)
       (if (byte_code a =? 0xF4)%Z then 0x8F else 0xBF) b
  && in_range 0x80 0xBF c && in_range 0x80 0xBF d.

(** The runes of a string: [Some] its bytes, or [None] for a byte that starts no rune. *)
Fixpoint runes (s : string) : list (option string) :=
  match s with
  | "" => []
  | String a s1 =>
      if is_ascii_byte a then Some (String a "") :: runes s1
      else match s1 with
      | "" => [None]
      | String b s2 =>
          if rune2 a b then Some (String a (String b "")) :: runes s2
          else match s2 with
          | "" => None :: runes s1
          | String c s3 =>
              if rune3 a b c then Some (String a (String b (String c ""))) :: runes s3
              else match s3 with
              | "" => None :: runes s1
              | String d s4 =>
                  if rune4 a b c d
                  then Some (String a (String b (String c (String d "")))) :: runes s4
                  else None :: runes s1
              end
          end
      end
  end.

Definition text_of (z : list Z) : string := fold_right (fun b s => String (char_of_Z b) s) "" z.

Definition bytes_of (s : string) : list Z := map byte_code (list_ascii_of_string s).

(** The bytes of U+FFFD. *)
Definition replacement : string := text_of [0xEF; 0xBF; 0xBD]%Z.

Definition to_valid (s : string) : string :=
  fold_right (fun r t => default replacement r ++ t) "" (runes s).

Definition valid_utf8 (s : string) : bool :=
  forallb (fun r => match r with Some _ => true | None => false end) (runes s).

(** [utf8.AppendRune]. *)
Definition rune_bytes (r : Z) : string :=
  (if r <? 0x80 then text_of [r]
   else if r <? 0x800 then text_of [0xC0 + r / 64; 0x80 + r mod 64]
   else if r <? 0x10000 then text_of [0xE0 + r / 4096; 0x80 + r / 64 mod 64; 0x80 + r mod 64]
   else text_of [0xF0 + r / 262144; 0x80 + r / 4096 mod 64; 0x80 + r / 64 mod 64; 0x80 + r mod 64])%Z.

(** ** Values *)

#[warnings="-register-all"]
Inductive value : Type :=
  | Null
  | Bool (b : bool)
  | Num (literal : string)
  | Str (s : string)
  | Arr (l : list value)
  | Obj (l : list (string * value)).

(** ** Parsing *)

Definition is_json_space (c : ascii) : bool :=
  one_of c (text_of [32; 9; 10; 13]%Z).

Fixpoint skip_space (s : string) : string :=
  match s with
  | String c s' => if is_json_space c then skip_space s' else s
  | "" => ""
  end.

(** The rest of [s] after the byte [c], or after the text [t]. *)
Definition expect (c : ascii) (s : string) : option string :=
  match s with
  | String d s' => if Ascii.eqb d c then Some s' else None
  | "" => None
  end.

Definition expect_text (t s : string) : option string :=
  if HasPrefix s t then Some (drop_str (String.length t) s) else None.

Definition hex4 (a b c d : ascii) : option Z :=
  if ishex a && ishex b && ishex c && ishex d
  then Some (unhex a * 4096 + unhex b * 256 + unhex c * 16 + unhex d)%Z else None.

Definition is_surrogate (u : Z) : bool := (0xD800 <=? u)%Z && (u <? 0xE000)%Z.

(** The rune of a surrogate pair. *)
Definition surrogate_pair (u v : Z) : option Z :=
  if (0xD800 <=? u)%Z && (u <? 0xDC00)%Z && (0xDC00 <=? v)%Z && (v <? 0xE000)%Z
  then Some ((u - 0xD800) * 1024 + (v - 0xDC00) + 0x10000)%Z else None.

(** The byte a two-byte escape stands for. *)
Definition short_escape (c : ascii) : option ascii :=
  if Ascii.eqb c char_dquote || Ascii.eqb c char_backslash || Ascii.eqb c "/" then Some c
  else if Ascii.eqb c "b" then Some (char_of_Z 8)
  else if Ascii.eqb c "f" then Some (char_of_Z 12)
  else if Ascii.eqb c "n" then Some (char_of_Z 10)
  else if Ascii.eqb c "r" then Some (char_of_Z 13)
  else if Ascii.eqb c "t" then Some (char_of_Z 9)
  else None.

Definition prepend (t : string) (r : option (string * string)) : option (string * string) :=
  '(body, rest) ← r; Some (t ++ body, rest).

(** The body of a string literal up to its closing quote, unescaped, and what follows.  A
    half of a surrogate pair without the other is U+FFFD. *)
Fixpoint str_body (s : string) : option (string * string) :=
  match s with
  | "" => None
  | String c s1 =>
      if Ascii.eqb c char_dquote then Some ("", s1)
      else if (byte_code c <? 32)%Z then None
      else if negb (Ascii.eqb c char_backslash) then prepend (String c "") (str_body s1)
      else match s1 with
      | "" => None
      | String e s2 =>
          if negb (Ascii.eqb e "u") then
            match short_escape e with
            | Some b => prepend (String b "") (str_body s2)
            | None => None
            end
          else match s2 with
          | String a1 (String a2 (String a3 (String a4 s6))) =>
              match hex4 a1 a2 a3 a4 with
              | None => None
              | Some u =>
                  if negb (is_surrogate u) then prepend (rune_bytes u) (str_body s6)
                  else match s6 with
                  | String b (String u' (String b1 (String b2 (String b3 (String b4 s12))))) =>
                      match (if Ascii.eqb b char_backslash && Ascii.eqb u' "u"
                             then v ← hex4 b1 b2 b3 b4; surrogate_pair u v else None) with
                      | Some r => prepend (rune_bytes r) (str_body s12)
                      | None => prepend replacement (str_body s6)
                      end
                  | _ => prepend replacement (str_body s6)
                  end
              end
          | _ => None
          end
      end
  end.

Fixpoint span_digits (s : string) : string * string :=
  match s with
  | String c s' =>
      if is_digit c then let '(d, r) := span_digits s' in (String c d, r) else ("", s)
  | "" => ("", "")
  end.

(** A fraction, an exponent: the text, empty when there is none, and the rest. *)
Definition num_frac (s : string) : option (string * string) :=
  match expect "." s with
  | None => Some ("", s)
  | Some s' =>
      let '(d, r) := span_digits s' in
      if String.eqb d "" then None else Some ("." ++ d, r)
  end.

Definition num_exp (s : string) : option (string * string) :=
  match s with
  | String e s1 =>
      if Ascii.eqb e "e" || Ascii.eqb e "E" then
        let '(sign, s2) := match s1 with
                           | String c s2 => if Ascii.eqb c "+" || Ascii.eqb c "-"
                                            then (String c "", s2) else ("", s1)
                           | "" => ("", "")
                           end in
        let '(d, r) := span_digits s2 in
        if String.eqb d "" then None else Some (String e (sign ++ d), r)
      else Some ("", s)
  | "" => Some ("", "")
  end.

(** The digits before the point: 0 alone, or no leading 0. *)
Definition num_int (s : string) : option (string * string) :=
  match expect "0" s with
  | Some r => Some ("0", r)
  | None => let '(d, r) := span_digits s in if String.eqb d "" then None else Some (d, r)
  end.

Definition num_literal (s : string) : option (string * string) :=
  let '(sign, s1) := match expect "-" s with Some r => ("-", r) | None => ("", s) end in
  '(i, s2) ← num_int s1;
  '(f, s3) ← num_frac s2;
  '(e, s4) ← num_exp s3;
  Some (sign ++ i ++ f ++ e, s4).

Definition maxNestingDepth : Z := 10000.

(** A value, the elements of an array after its bracket, the members of an object after its
    brace.  [depth] is the number of open brackets and braces. *)
Fixpoint parse_value (n : nat) (depth : Z) (s : string) {struct n} : option (value * string) :=
  match n with
  | O => None
  | S n =>
      match skip_space s with
      | "" => None
      | String c s1 =>
          if Ascii.eqb c "{" then
            if (maxNestingDepth <=? depth)%Z then None
            else match expect "}" (skip_space s1) with
                 | Some r => Some (Obj [], r)
                 | None => '(l, r) ← parse_members n (depth + 1) s1; Some (Obj l, r)
                 end
          else if Ascii.eqb c "[" then
            if (maxNestingDepth <=? depth)%Z then None
            else match expect "]" (skip_space s1) with
                 | Some r => Some (Arr [], r)
                 | None => '(l, r) ← parse_elements n (depth + 1) s1; Some (Arr l, r)
                 end
          else if Ascii.eqb c char_dquote then
            '(t, r) ← str_body s1; Some (Str (to_valid t), r)
          else if Ascii.eqb c "n" then r ← expect_text "ull" s1; Some (Null, r)
          else if Ascii.eqb c "t" then r ← expect_text "rue" s1; Some (Bool true, r)
          else if Ascii.eqb c "f" then r ← expect_text "alse" s1; Some (Bool false, r)
          else '(t, r) ← num_literal (String c s1); Some (Num t, r)
      end
  end
with parse_elements (n : nat) (depth : Z) (s : string) {struct n} : option (list value * string) :=
  match n with
  | O => None
  | S n =>
      '(v, r) ← parse_value n depth s;
      match skip_space r with
      | "" => None
      | String c r1 =>
          if Ascii.eqb c "," then '(l, r2) ← parse_elements n depth r1; Some (v :: l, r2)
          else if Ascii.eqb c "]" then Some ([v], r1)
          else None
      end
  end
with parse_members (n : nat) (depth : Z) (s : string) {struct n}
    : option (list (string * value) * string) :=
  match n with
  | O => None
  | S n =>
      s1 ← expect char_dquote (skip_space s);
      '(k, s2) ← str_body s1;
      s3 ← expect ":" (skip_space s2);
      '(v, r) ← parse_value n depth s3;
      match skip_space r with
      | "" => None
      | String c r1 =>
          if Ascii.eqb c "," then
            '(l, r2) ← parse_members n depth r1; Some ((to_valid k, v) :: l, r2)
          else if Ascii.eqb c "}" then Some ([(to_valid k, v)], r1)
          else None
      end
  end.

Definition json_fuel (s : string) : nat := 2 * String.length s + 1.

(** The first value of a stream ([Decoder.Decode]); a text that is one value ([Unmarshal]). *)
Definition Decode (s : string) : option value :=
  fst <$> parse_value (json_fuel s) 0 s.

Definition Unmarshal (s : string) : option value :=
  '(v, r) ← parse_value (json_fuel s) 0 s;
  if String.eqb (skip_space r) "" then Some v else None.

Example Unmarshal_examples :
  let q := String char_dquote "" in
  Unmarshal (" [1, -2.5e3 ,{" ++ q ++ "a" ++ q ++ ": null}, " ++ q ++ "x\u00e9\n" ++ q ++ "] ")
  = Some (Arr [Num "1"; Num "-2.5e3"; Obj [("a", Null)]; Str (text_of [120; 0xC3; 0xA9; 10]%Z)])
  /\ Unmarshal "01" = None /\ Decode "01" = Some (Num "0") /\ Unmarshal "[1,]" = None.
Proof. vm_compute. done. Qed.

(** ** The parser's fuel is never used up *)

#[local] Abbreviation size := String.length.

Lemma skip_space_size (s : string) : (size (skip_space s) <= size s)%nat.
Proof. induction s as [|c s IH]; cbn; [done|]. case_bool; cbn; lia. Qed.

Lemma expect_size (c : ascii) (s r : string) : expect c s = Some r -> size s = S (size r).
Proof. destruct s as [|d s]; cbn; [done|]. case_bool; [|done]. by intros [= <-]. Qed.

Lemma drop_str_size (n : nat) (s : string) : (size (drop_str n s) <= size s)%nat.
Proof. revert s. induction n as [|n IH]; intros [|c s]; cbn; try lia. specialize (IH s). lia. Qed.

Lemma expect_text_size (t s r : string) : expect_text t s = Some r -> (size r <= size s)%nat.
Proof. unfold expect_text. case_bool; [|done]. intros [= <-]. apply drop_str_size. Qed.

Lemma prepend_Some (t : string) (x : option (string * string)) (b r : string) :
  prepend t x = Some (b, r) -> exists b', x = Some (b', r) /\ b = t ++ b'.
Proof. destruct x as [[b' r']|]; cbn; [|done]. intros [= <- <-]. by exists b'. Qed.

Lemma str_body_size (s t r : string) : str_body s = Some (t, r) -> (size r < size s)%nat.
Proof.
  revert t r. induction s as [s IH] using string_length_ind. intros t r.
  assert (forall p s' , (size s' < size s)%nat -> prepend p (str_body s') = Some (t, r) ->
            (size r < size s)%nat) as Hp.
  { intros p s' Hs H. apply prepend_Some in H as (b & H & _). specialize (IH _ Hs _ _ H). lia. }
  destruct s as [|c s1]; cbn [str_body]; [done|]. case_bool; [intros [= _ <-]; cbn; lia|].
  case_bool; [done|]. case_bool; [apply Hp; cbn; lia|].
  destruct s1 as [|e s2]; [done|]. case_bool.
  { destruct (short_escape e); [|done]. apply Hp. cbn. lia. }
  destruct s2 as [|a1 [|a2 [|a3 [|a4 s6]]]]; try done. destruct (hex4 _ _ _ _) as [u|]; [|done].
  case_bool; [apply Hp; cbn; lia|].
  destruct s6 as [|b [|u' [|b1 [|b2 [|b3 [|b4 s12]]]]]]; try (apply Hp; cbn; lia).
  match goal with |- context [match ?x with Some _ => _ | None => _ end] => destruct x end;
    apply Hp; cbn; lia.
Qed.

Lemma span_digits_size (s d r : string) :
  span_digits s = (d, r) -> (size d + size r = size s)%nat.
Proof.
  revert d r. induction s as [|c s IH]; cbn; intros d r; [by intros [= <- <-]|].
  case_bool; [|by intros [= <- <-]]. destruct (span_digits s) as [d' r'].
  intros [= <- <-]. cbn. f_equal. by apply IH.
Qed.

Lemma num_int_size (s t r : string) : num_int s = Some (t, r) -> (size r < size s)%nat.
Proof.
  unfold num_int. destruct (expect "0" s) as [s1|] eqn:E.
  - intros [= _ <-]. apply expect_size in E. lia.
  - destruct (span_digits s) as [d r1] eqn:Es. case_bool; [done|]. intros [= <- <-].
    apply span_digits_size in Es. bool_prop. destruct d; [done|]. cbn in Es. lia.
Qed.

Lemma num_frac_size (s t r : string) : num_frac s = Some (t, r) -> (size r <= size s)%nat.
Proof.
  unfold num_frac. destruct (expect "." s) as [s1|] eqn:E; [|by intros [= _ <-]].
  apply expect_size in E. destruct (span_digits s1) as [d r1] eqn:Es. case_bool; [done|].
  intros [= _ <-]. apply span_digits_size in Es. lia.
Qed.

Lemma num_exp_size (s t r : string) : num_exp s = Some (t, r) -> (size r <= size s)%nat.
Proof.
  unfold num_exp. destruct s as [|e s1]; [by intros [= _ <-]|]. case_bool; [|by intros [= _ <-]].
  match goal with |- context [let '(_, _) := ?x in _] => destruct x as [sign s2] eqn:E end.
  assert (size s2 <= size s1)%nat as Hs.
  { destruct s1 as [|c s1]; [by injection E as _ <-|]. case_bool; injection E as _ <-; cbn; lia. }
  destruct (span_digits s2) as [d r1] eqn:Es. case_bool; [done|]. intros [= _ <-].
  apply span_digits_size in Es. cbn. lia.
Qed.

Lemma num_literal_size (s t r : string) : num_literal s = Some (t, r) -> (size r < size s)%nat.
Proof.
  unfold num_literal. destruct (match expect "-" s with Some r1 => ("-", r1) | None => ("", s) end) as [sg s1] eqn:E0.
  assert (size s1 <= size s)%nat as H0.
  { destruct (expect "-" s) as [r1|] eqn:E; injection E0 as _ <-; [apply expect_size in E; lia|done]. }
  destruct (num_int s1) as [[i s2]|] eqn:E1; [|done]. cbn [mbind option_bind].
  destruct (num_frac s2) as [[f s3]|] eqn:E2; [|done]. cbn [mbind option_bind].
  destruct (num_exp s3) as [[e s4]|] eqn:E3; [|done]. cbn [mbind option_bind]. intros [= _ <-].
  apply num_int_size in E1. apply num_frac_size in E2. apply num_exp_size in E3. lia.
Qed.

(** What is left after a value is shorter than what was there. *)
Lemma parse_size (n : nat) :
  (forall d s v r, parse_value n d s = Some (v, r) -> (size r < size s)%nat)
  /\ (forall d s v r, parse_elements n d s = Some (v, r) -> (size r < size s)%nat)
  /\ (forall d s v r, parse_members n d s = Some (v, r) -> (size r < size s)%nat).
Proof.
  induction n as [|n (IH1 & IH2 & IH3)]; [by repeat split|]. repeat split; intros d s v r;
    cbn [parse_value parse_elements parse_members].
  - pose proof (skip_space_size s). destruct (skip_space s) as [|c s1]; [done|]. cbn in *.
    pose proof (skip_space_size s1). repeat case_bool; try done.
    + destruct (expect "}" _) as [r1|] eqn:E; [intros [= _ <-]; apply expect_size in E; lia|].
      destruct (parse_members _ _ _) as [[l r1]|] eqn:E2; [|done]. intros [= _ <-].
      apply IH3 in E2. lia.
    + destruct (expect "]" _) as [r1|] eqn:E; [intros [= _ <-]; apply expect_size in E; lia|].
      destruct (parse_elements _ _ _) as [[l r1]|] eqn:E2; [|done]. intros [= _ <-].
      apply IH2 in E2. lia.
    + destruct (str_body s1) as [[t r1]|] eqn:E; [|done]. intros [= _ <-]. apply str_body_size in E. lia.
    + destruct (expect_text _ s1) eqn:E; [|done]. intros [= _ <-]. apply expect_text_size in E. lia.
    + destruct (expect_text _ s1) eqn:E; [|done]. intros [= _ <-]. apply expect_text_size in E. lia.
    + destruct (expect_text _ s1) eqn:E; [|done]. intros [= _ <-]. apply expect_text_size in E. lia.
    + destruct (num_literal _) as [[t r1]|] eqn:E; [|done]. intros [= _ <-].
      apply num_literal_size in E. cbn in E. lia.
  - destruct (parse_value n d s) as [[x r1]|] eqn:E; [|done]. cbn [mbind option_bind].
    apply IH1 in E. pose proof (skip_space_size r1). destruct (skip_space r1) as [|c r2]; [done|].
    cbn in *. case_bool.
    + destruct (parse_elements n d r2) as [[l r3]|] eqn:E2; [|done]. intros [= _ <-].
      apply IH2 in E2. lia.
    + case_bool; [|done]. intros [= _ <-]. lia.
  - pose proof (skip_space_size s). destruct (expect char_dquote _) as [s1|] eqn:E1; [|done].
    apply expect_size in E1. cbn [mbind option_bind].
    destruct (str_body s1) as [[k s2]|] eqn:E2; [|done]. apply str_body_size in E2. cbn [mbind option_bind].
    pose proof (skip_space_size s2). destruct (expect ":" _) as [s3|] eqn:E3; [|done].
    apply expect_size in E3. cbn [mbind option_bind].
    destruct (parse_value n d s3) as [[x r1]|] eqn:E; [|done]. cbn [mbind option_bind].
    apply IH1 in E. pose proof (skip_space_size r1). destruct (skip_space r1) as [|c r2]; [done|].
    cbn in *. case_bool.
    + destruct (parse_members n d r2) as [[l r3]|] eqn:E4; [|done]. intros [= _ <-].
      apply IH3 in E4. lia.
    + case_bool; [|done]. intros [= _ <-]. lia.
Qed.

(** With more fuel than twice the text's length the result does not depend on the fuel. *)
Lemma parse_fuel (n : nat) :
  (forall m d s, (2 * size s < n)%nat -> (2 * size s < m)%nat -> parse_value n d s = parse_value m d s)
  /\ (forall m d s, (2 * size s + 1 < n)%nat -> (2 * size s + 1 < m)%nat ->
        parse_elements n d s = parse_elements m d s)
  /\ (forall m d s, (2 * size s + 1 < n)%nat -> (2 * size s + 1 < m)%nat ->
        parse_members n d s = parse_members m d s).
Proof.
  induction n as [|n (IH1 & IH2 & IH3)]; [repeat split; lia|].
  repeat split; intros [|m] d s Hn Hm; try lia;
    cbn [parse_value parse_elements parse_members].
  - pose proof (skip_space_size s). destruct (skip_space s) as [|c s1]; [done|]. cbn in *.
    by rewrite (IH3 m _ s1), (IH2 m _ s1) by lia.
  - rewrite (IH1 m d s) by lia. destruct (parse_value m d s) as [[x r1]|] eqn:E; [|done].
    cbn [mbind option_bind]. apply parse_size in E. pose proof (skip_space_size r1).
    destruct (skip_space r1) as [|c r2]; [done|]. cbn in *. by rewrite (IH2 m _ r2) by lia.
  - pose proof (skip_space_size s). destruct (expect char_dquote _) as [s1|] eqn:E1; [|done].
    apply expect_size in E1. cbn [mbind option_bind].
    destruct (str_body s1) as [[k s2]|] eqn:E2; [|done]. apply str_body_size in E2. cbn [mbind option_bind].
    pose proof (skip_space_size s2). destruct (expect ":" _) as [s3|] eqn:E3; [|done].
    apply expect_size in E3. cbn [mbind option_bind]. rewrite (IH1 m d s3) by lia.
    destruct (parse_value m d s3) as [[x r1]|] eqn:E; [|done]. cbn [mbind option_bind].
    apply parse_size in E. pose proof (skip_space_size r1).
    destruct (skip_space r1) as [|c r2]; [done|]. cbn in *. by rewrite (IH3 m _ r2) by lia.
Qed.

(** ** Decoding into Go values

    A value of the wrong type is an error; [null] leaves the target as it was. *)

(** The wording of the package's errors is a part of the library, not of the model. *)
Class JsonErrors := { json_error_text : string -> string }.

Definition json_error `{JsonErrors} (text : string) : error := ENew (json_error_text text).

Definition decode_string (v : value) (old : string) : option string :=
  match v with Str s => Some s | Null => Some old | _ => None end.

Definition decode_int (v : value) (old : Z) : option Z :=
  match v with
  | Num t => match ParseInt t with (n, None) => Some n | (_, Some _) => None end
  | Null => Some old
  | _ => None
  end.

Definition decode_bool (v : value) (old : bool) : option bool :=
  match v with Bool b => Some b | Null => Some old | _ => None end.

(** A field of a struct: its name, and how a member's value changes the struct. *)
Definition field (A : Type) : Type := string * (value -> A -> option A).

(** A member sets the field its key names, up to case; other members are ignored. *)
Definition set_member {A} (fields : list (field A)) (kv : string * value) (a : A) : option A :=
  match List.find (fun f => String.eqb (fst kv) (fst f) || EqualFold_ascii (fst kv) (fst f)) fields with
  | Some f => snd f (snd kv) a
  | None => Some a
  end.

Definition decode_struct {A} (fields : list (field A)) (v : value) (a : A) : option A :=
  match v with
  | Null => Some a
  | Obj l => foldl (fun acc kv => a ← acc; set_member fields kv a) (Some a) l
  | _ => None
  end.

(** An array into a slice of raw values. *)
Definition decode_raws (v : value) : option (list value) :=
  match v with Arr l => Some l | Null => Some [] | _ => None end.

(** ** Writing *)

Definition lowerhex (z : Z) : ascii :=
  if (z <? 10)%Z then char_of_Z (48 + z) else char_of_Z (87 + z).

Definition escaped (c : ascii) : string := String char_backslash (String c "").

(** [encodeState.string] on one rune: HTML characters, control characters and the line
    separators U+2028 and U+2029 are escaped, an invalid byte is written as U+FFFD. *)
Definition enc_ascii (c : ascii) : string :=
  if Ascii.eqb c char_dquote || Ascii.eqb c char_backslash then escaped c
  else if (byte_code c =? 8)%Z then escaped "b"
  else if (byte_code c =? 12)%Z then escaped "f"
  else if (byte_code c =? 10)%Z then escaped "n"
  else if (byte_code c =? 13)%Z then escaped "r"
  else if (byte_code c =? 9)%Z then escaped "t"
  else if (byte_code c <? 32)%Z || one_of c "<>&"
  then String char_backslash ("u00" ++ String (lowerhex (byte_code c / 16))
                                         (String (lowerhex (byte_code c mod 16)) ""))
  else String c "".

Definition enc_rune (r : option string) : string :=
  match r with
  | None => String char_backslash "ufffd"
  | Some s =>
      match s with
      | String c "" => enc_ascii c
      | _ => if String.eqb s (rune_bytes 0x2028) then String char_backslash "u2028"
             else if String.eqb s (rune_bytes 0x2029) then String char_backslash "u2029"
             else s
      end
  end.

Definition quote (s : string) : string :=
  String char_dquote (fold_right (fun r t => enc_rune r ++ t) (String char_dquote "") (runes s)).

(** [json.Marshal], the members of an object in the order given. *)
Fixpoint Marshal (v : value) : string :=
  match v with
  | Null => "null"
  | Bool true => "true"
  | Bool false => "false"
  | Num t => t
  | Str s => quote s
  | Arr l => "[" ++ Join (map Marshal l) "," ++ "]"
  | Obj l => "{" ++ Join (map (fun kv => quote (fst kv) ++ ":" ++ Marshal (snd kv)) l) "," ++ "}"
  end.

(** What a value is after it was written and read: its strings made valid. *)
Fixpoint coerce (v : value) : value :=
  match v with
  | Str s => Str (to_valid s)
  | Arr l => Arr (map coerce l)
  | Obj l => Obj (map (fun kv => (to_valid (fst kv), coerce (snd kv))) l)
  | _ => v
  end.

(** ** What is written is read back *)

Lemma text_of_bytes (s : string) : text_of (bytes_of s) = s.
Proof.
  unfold text_of, bytes_of. induction s as [|c s IH]; cbn; [done|]. rewrite IH. f_equal.
  unfold char_of_Z, byte_code. by rewrite N2Z.id, ascii_N_embedding.
Qed.

Lemma bytes_of_byte (s : string) : Forall (fun b => 0 <= b < 256)%Z (bytes_of s).
Proof.
  unfold bytes_of. induction s as [|c s IH]; cbn; constructor; [|done].
  unfold byte_code. pose proof (N_ascii_bounded c). lia.
Qed.

Lemma bytes_of_app (a b : string) : bytes_of (a ++ b) = (bytes_of a ++ bytes_of b)%list.
Proof. unfold bytes_of. induction a as [|c a IH]; cbn; [done|]. by rewrite IH. Qed.

(** The bytes of one rune. *)
Inductive good_rune : string -> Prop :=
  | good_1 a : is_ascii_byte a = true -> good_rune (String a "")
  | good_2 a b : rune2 a b = true -> good_rune (String a (String b ""))
  | good_3 a b c : rune3 a b c = true -> good_rune (String a (String b (String c "")))
  | good_4 a b c d : rune4 a b c d = true ->
      good_rune (String a (String b (String c (String d "")))).

Lemma runes_good (s : string) :
  Forall (fun r => match r with Some t => good_rune t | None => True end) (runes s).
Proof.
  induction s as [s IH] using string_length_ind. destruct s as [|a s1]; cbn [runes]; [constructor|].
  assert (forall s', (size s' <= size s1)%nat ->
    Forall (fun r => match r with Some t => good_rune t | None => True end) (runes s')) as IH'.
  { intros s' Hs. apply IH. cbn. lia. }
  case_bool; [constructor; [by constructor|by apply IH']|].
  destruct s1 as [|b s2]; [by repeat constructor|].
  case_bool; [constructor; [by constructor|apply IH'; cbn; lia]|].
  destruct s2 as [|c s3]; [constructor; [done|by apply IH']|].
  case_bool; [constructor; [by constructor|apply IH'; cbn; lia]|].
  destruct s3 as [|d s4]; [constructor; [done|by apply IH']|].
  case_bool; (constructor; [done || by constructor|apply IH'; cbn; lia]).
Qed.

Ltac ranges := unfold rune2, rune3, rune4, in_range, is_ascii_byte in *; bool_prop.

Lemma runes_app (r t : string) : good_rune r -> runes (r ++ t) = Some r :: runes t.
Proof.
  destruct 1 as [a H|a b H|a b c H|a b c d H]; cbn [runes String.append].
  - by rewrite H.
  - assert (is_ascii_byte a = false) as -> by (ranges; lia). by rewrite H.
  - assert (is_ascii_byte a = false) as -> by (ranges; lia).
    assert (rune2 a b = false) as ->.
    { unfold rune2. apply andb_false_iff. left. ranges. lia. }
    by rewrite H.
  - assert (is_ascii_byte a = false) as -> by (ranges; lia).
    assert (rune2 a b = false) as ->.
    { unfold rune2. apply andb_false_iff. left. ranges. lia. }
    assert (rune3 a b c = false) as ->.
    { unfold rune3. apply andb_false_iff. left. apply andb_false_iff. left. ranges. lia. }
    by rewrite H.
Qed.

Lemma good_replacement : good_rune replacement.
Proof. apply good_3. by vm_compute. Qed.

Lemma to_valid_app (r t : string) : good_rune r -> to_valid (r ++ t) = r ++ to_valid t.
Proof. intros H. unfold to_valid. by rewrite runes_app. Qed.

Lemma to_valid_idem (s : string) : to_valid (to_valid s) = to_valid s.
Proof.
  unfold to_valid at 2 3. pose proof (runes_good s) as H.
  induction H as [|r l Hr _ IH]; [done|]. cbn [fold_right].
  destruct r as [r|]; cbn [default]; by rewrite to_valid_app, IH by (done || apply good_replacement).
Qed.

Lemma valid_utf8_to_valid (s : string) : valid_utf8 s = true -> to_valid s = s.
Proof.
  unfold valid_utf8, to_valid. induction s as [s IH] using string_length_ind.
  assert (forall r s', (size s' < size s)%nat -> r ++ s' = s ->
    forallb (fun r => match r with Some _ => true | None => false end) (Some r :: runes s') = true ->
    fold_right (fun r u => default replacement r ++ u) "" (Some r :: runes s') = s) as Hr.
  { intros r s' Hs <- H. cbn in *. by rewrite IH. }
  destruct s as [|a s1]; [done|]. cbn [runes].
  case_bool; [apply Hr; cbn; [lia|done]|]. destruct s1 as [|b s2]; [done|].
  case_bool; [apply Hr; cbn; [lia|done]|]. destruct s2 as [|c s3]; [done|].
  case_bool; [apply Hr; cbn; [lia|done]|]. destruct s3 as [|d s4]; [done|].
  case_bool; [apply Hr; cbn; [lia|done]|done].
Qed.

Lemma to_valid_valid (s : string) : valid_utf8 (to_valid s) = true.
Proof.
  unfold to_valid, valid_utf8. pose proof (runes_good s) as H.
  induction H as [|r l Hr _ IH]; [done|]. cbn [fold_right].
  destruct r as [r|]; cbn [default]; by rewrite runes_app by (done || apply good_replacement).
Qed.

(** A byte that a string literal may hold as it is. *)
Definition plain_byte (c : ascii) : bool :=
  negb (Ascii.eqb c char_dquote) && negb (byte_code c <? 32)%Z && negb (Ascii.eqb c char_backslash).

Lemma str_body_plain (p t : string) :
  string_forallb plain_byte p = true -> str_body (p ++ t) = prepend p (str_body t).
Proof.
  induction p as [|c p IH]; cbn [string_forallb String.append]; intros H.
  - by destruct (str_body t) as [[b r]|].
  - bool_prop. unfold plain_byte in *. bool_prop. cbn [str_body].
    repeat case_bool; bool_prop; try congruence; try lia. rewrite IH by done.
    by destruct (str_body t) as [[b r]|].
Qed.

Lemma high_plain (c : ascii) : (128 <= byte_code c)%Z -> plain_byte c = true.
Proof.
  intros H. unfold plain_byte. assert (byte_code char_dquote = 34%Z) by done.
  assert (byte_code char_backslash = 92%Z) by done. repeat (apply andb_true_intro; split).
  - apply negb_true_iff, Ascii.eqb_neq. intros ->. lia.
  - apply negb_true_iff, Z.ltb_ge. lia.
  - apply negb_true_iff, Ascii.eqb_neq. intros ->. lia.
Qed.

(** The short escapes and the escape by number, read back. *)
Lemma str_body_escaped (e b : ascii) (t : string) :
  Ascii.eqb e "u" = false -> short_escape e = Some b ->
  str_body (escaped e ++ t) = prepend (String b "") (str_body t).
Proof. intros H1 H2. unfold escaped. cbn [String.append str_body Ascii.eqb]. cbn. by rewrite H1, H2. Qed.

Lemma str_body_hex (a1 a2 a3 a4 : ascii) (u : Z) (t : string) :
  hex4 a1 a2 a3 a4 = Some u -> is_surrogate u = false ->
  str_body (String char_backslash (String "u" (String a1 (String a2 (String a3 (String a4 t))))))
  = prepend (rune_bytes u) (str_body t).
Proof. intros H1 H2. cbn [str_body]. cbn. by rewrite H1, H2. Qed.

Lemma hex_ascii (c : ascii) :
  is_ascii_byte c = true ->
  hex4 "0" "0" (lowerhex (byte_code c / 16)) (lowerhex (byte_code c mod 16)) = Some (byte_code c)
  /\ is_surrogate (byte_code c) = false /\ rune_bytes (byte_code c) = String c "".
Proof.
  intros H.
  pose proof (all_bytes_spec (fun c => negb (is_ascii_byte c)
    || (bool_decide (hex4 "0" "0" (lowerhex (byte_code c / 16)) (lowerhex (byte_code c mod 16))
                     = Some (byte_code c))
        && negb (is_surrogate (byte_code c)) && String.eqb (rune_bytes (byte_code c)) (String c ""))) c)
    as Hc.
  specialize (Hc ltac:(vm_compute; reflexivity)). cbn beta in Hc. rewrite H in Hc. cbn [negb orb] in Hc.
  by bool_prop.
Qed.

Lemma str_body_ascii (c : ascii) (t : string) :
  is_ascii_byte c = true -> str_body (enc_ascii c ++ t) = prepend (String c "") (str_body t).
Proof.
  intros Hc. unfold enc_ascii. destruct (_ || _) eqn:E1.
  { apply str_body_escaped.
    - apply orb_true_iff in E1 as [E|E]; bool_prop; by subst.
    - unfold short_escape. by rewrite E1. }
  assert (forall n e, (byte_code c =? n)%Z = true -> Ascii.eqb e "u" = false ->
            short_escape e = Some (char_of_Z n) ->
            str_body (escaped e ++ t) = prepend (String c "") (str_body t)) as Hs.
  { intros n e Hn He Hb. apply Z.eqb_eq in Hn. subst n. rewrite (str_body_escaped e _ t He Hb).
    unfold char_of_Z, byte_code. by rewrite N2Z.id, ascii_N_embedding. }
  repeat (case_bool; [by eapply Hs|]). case_bool.
  - destruct (hex_ascii c Hc) as (H1 & H2 & H3). rewrite <- H3. by apply str_body_hex.
  - apply (str_body_plain (String c "")). cbn. unfold plain_byte. bool_prop.
    repeat (apply andb_true_intro; split); try done; apply negb_true_iff.
    + by apply Ascii.eqb_neq.
    + by apply Z.ltb_ge.
    + by apply Ascii.eqb_neq.
Qed.

Lemma str_body_rune (r : option string) (t : string) :
  match r with Some x => good_rune x | None => True end ->
  str_body (enc_rune r ++ t) = prepend (default replacement r) (str_body t).
Proof.
  assert (forall x, string_forallb plain_byte x = true ->
    str_body ((if String.eqb x (rune_bytes 0x2028) then String char_backslash "u2028"
               else if String.eqb x (rune_bytes 0x2029) then String char_backslash "u2029" else x) ++ t)
    = prepend x (str_body t)) as Hx.
  { intros x Hx. destruct (String.eqb x (rune_bytes 0x2028)) eqn:E1.
    { bool_prop. subst x. by apply (str_body_hex "2" "0" "2" "8" 0x2028). }
    destruct (String.eqb x (rune_bytes 0x2029)) eqn:E2.
    { bool_prop. subst x. by apply (str_body_hex "2" "0" "2" "9" 0x2029). }
    by apply str_body_plain. }
  destruct r as [x|]; [|by intros _; apply (str_body_hex "f" "f" "f" "d" 0xFFFD)].
  destruct 1 as [a H|a b H|a b c H|a b c d H]; cbn [enc_rune default from_option id];
    [by apply str_body_ascii|apply Hx..]; ranges; cbn [string_forallb];
    rewrite !high_plain by (repeat case_bool; lia); done.
Qed.

Lemma str_body_quote (s rest : string) :
  str_body (fold_right (fun r t => enc_rune r ++ t) (String char_dquote "") (runes s) ++ rest)
  = Some (to_valid s, rest).
Proof.
  unfold to_valid. pose proof (runes_good s) as H. induction H as [|r l Hr _ IH]; [done|].
  cbn [fold_right]. rewrite <- str_app_assoc, str_body_rune, IH by done. done.
Qed.

(** What may follow a number without being read as a part of it. *)
Definition stops (s : string) : Prop :=
  match s with
  | "" => True
  | String c _ => is_digit c = false /\ one_of c ".eE" = false
  end.

Lemma span_digits_app (s d r t : string) :
  stops t -> span_digits s = (d, r) -> span_digits (s ++ t) = (d, r ++ t).
Proof.
  intros Ht. revert d r. induction s as [|c s IH]; cbn; intros d r.
  - intros [= <- <-]. destruct t as [|c t]; [done|]. cbn. by destruct Ht as [-> _].
  - case_bool; [|by intros [= <- <-]]. destruct (span_digits s) as [d' r'].
    intros [= <- <-]. by rewrite (IH d' r').
Qed.

Lemma stops_expect (c : ascii) (t : string) : one_of c ".eE" = true -> stops t -> expect c t = None.
Proof.
  intros Hc Ht. destruct t as [|d t]; [done|]. destruct Ht as [_ Ht]. cbn.
  destruct (Ascii.eqb d c) eqn:E; [|done]. bool_prop. congruence.
Qed.

Lemma expect_app (c : ascii) (s t : string) :
  s <> "" -> expect c (s ++ t) = match expect c s with Some r => Some (r ++ t) | None => None end.
Proof. destruct s as [|d s]; [done|]. cbn. by case_bool. Qed.

Lemma num_int_app (s i r t : string) :
  stops t -> num_int s = Some (i, r) -> num_int (s ++ t) = Some (i, r ++ t).
Proof.
  intros Ht. unfold num_int. destruct s as [|c s]; [done|]. rewrite expect_app by done.
  destruct (expect "0" (String c s)); [by intros [= <- <-]|].
  destruct (span_digits (String c s)) as [d r'] eqn:E. rewrite (span_digits_app _ _ _ t Ht E).
  case_bool; [done|]. by intros [= <- <-].
Qed.

Lemma num_frac_app (s f r t : string) :
  stops t -> num_frac s = Some (f, r) -> num_frac (s ++ t) = Some (f, r ++ t).
Proof.
  intros Ht. unfold num_frac. destruct (decide (s = "")) as [->|Hs].
  { intros [= <- <-]. cbn. by rewrite stops_expect. }
  rewrite expect_app by done. destruct (expect "." s) as [s'|]; [|by intros [= <- <-]].
  destruct (span_digits s') as [d r'] eqn:E. rewrite (span_digits_app _ _ _ t Ht E).
  case_bool; [done|]. by intros [= <- <-].
Qed.

Lemma num_exp_app (s e r t : string) :
  stops t -> num_exp s = Some (e, r) -> num_exp (s ++ t) = Some (e, r ++ t).
Proof.
  intros Ht. destruct s as [|c s].
  { intros [= <- <-]. destruct t as [|d t]; [done|]. destruct Ht as [_ Ht].
    unfold one_of, contains_char in Ht. cbn [string_existsb] in Ht.
    apply orb_false_elim in Ht as [_ Ht]. apply orb_false_elim in Ht as [He Ht].
    apply orb_false_elim in Ht as [HE _]. cbn [num_exp String.append]. by rewrite He, HE. }
  cbn [num_exp String.append]. case_bool; [|by intros [= <- <-]].
  destruct s as [|c2 s]; cbn [String.append].
  { done. }
  case_bool.
  - destruct (span_digits s) as [d r'] eqn:E. rewrite (span_digits_app _ _ _ t Ht E).
    case_bool; [done|]. by intros [= <- <-].
  - destruct (span_digits (String c2 s)) as [d r'] eqn:E.
    change (String c2 (s ++ t)) with (String c2 s ++ t). rewrite (span_digits_app _ _ _ t Ht E).
    case_bool; [done|]. by intros [= <- <-].
Qed.

Lemma num_literal_app (s v r t : string) :
  stops t -> num_literal s = Some (v, r) -> num_literal (s ++ t) = Some (v, r ++ t).
Proof.
  intros Ht. unfold num_literal. destruct (decide (s = "")) as [->|Hs]; [done|].
  rewrite expect_app by done. intros H.
  assert (forall sg s1, ('(i, s2) ← num_int s1; '(f, s3) ← num_frac s2; '(e, s4) ← num_exp s3;
            Some (sg ++ i ++ f ++ e, s4)) = Some (v, r) ->
          ('(i, s2) ← num_int (s1 ++ t); '(f, s3) ← num_frac s2; '(e, s4) ← num_exp s3;
            Some (sg ++ i ++ f ++ e, s4)) = Some (v, r ++ t)) as Hb.
  { intros sg s1. destruct (num_int s1) as [[i s2]|] eqn:E1; [|done]. cbn [mbind option_bind].
    rewrite (num_int_app _ _ _ t Ht E1). cbn [mbind option_bind].
    destruct (num_frac s2) as [[f s3]|] eqn:E2; [|done]. cbn [mbind option_bind].
    rewrite (num_frac_app _ _ _ t Ht E2). cbn [mbind option_bind].
    destruct (num_exp s3) as [[e s4]|] eqn:E3; [|done]. cbn [mbind option_bind].
    rewrite (num_exp_app _ _ _ t Ht E3). cbn [mbind option_bind]. by intros [= <- <-]. }
  destruct (expect "-" s) as [s1|]; by apply Hb.
Qed.

(** The text of a number is one. *)
Definition is_number (t : string) : Prop := num_literal t = Some (t, "").

(** A value whose numbers are well formed and which does not nest too deep. *)
Fixpoint well_formed (v : value) : Prop :=
  match v with
  | Num t => is_number t
  | Arr l => (fix all l := match l with [] => True | x :: l => well_formed x /\ all l end) l
  | Obj l => (fix all l := match l with [] => True | x :: l => well_formed (snd x) /\ all l end) l
  | _ => True
  end.

Fixpoint nesting (v : value) : Z :=
  match v with
  | Arr l => 1 + (fix deepest l := match l with [] => 0 | x :: l => Z.max (nesting x) (deepest l) end) l
  | Obj l => 1 + (fix deepest l := match l with [] => 0 | x :: l => Z.max (nesting (snd x)) (deepest l) end) l
  | _ => 0
  end%Z.

Lemma digit_not_special (c : ascii) :
  is_digit c = true \/ c = "-"%char ->
  is_json_space c = false /\ Ascii.eqb c "{" = false /\ Ascii.eqb c "[" = false
  /\ Ascii.eqb c char_dquote = false /\ Ascii.eqb c "n" = false /\ Ascii.eqb c "t" = false
  /\ Ascii.eqb c "f" = false /\ Ascii.eqb c "]" = false.
Proof.
  intros H.
  pose proof (all_bytes_spec (fun c => negb (is_digit c || Ascii.eqb c "-")
    || (negb (is_json_space c) && negb (Ascii.eqb c "{") && negb (Ascii.eqb c "[")
        && negb (Ascii.eqb c char_dquote) && negb (Ascii.eqb c "n") && negb (Ascii.eqb c "t")
        && negb (Ascii.eqb c "f") && negb (Ascii.eqb c "]"))) c eq_refl) as Hc.
  cbn beta in Hc. assert (is_digit c || Ascii.eqb c "-" = true) as E.
  { apply orb_true_iff. destruct H as [?| ->]; [by left|by right]. }
  rewrite E in Hc. cbn [negb orb] in Hc. repeat (apply andb_prop in Hc as [Hc ?]).
  by repeat split; apply negb_true_iff.
Qed.

Lemma number_head (t : string) :
  is_number t -> exists c u, t = String c u /\ (is_digit c = true \/ c = "-"%char).
Proof.
  unfold is_number, num_literal. destruct t as [|c u]; [done|]. intros H. exists c, u. split; [done|].
  cbn [expect] in H. destruct (Ascii.eqb c "-") eqn:E; [bool_prop; by right|].
  left. destruct (is_digit c) eqn:Ed; [done|]. unfold num_int in H. cbn in H.
  destruct (Ascii.eqb c "0") eqn:E0; [bool_prop; by subst|]. by rewrite Ed in H.
Qed.

Section NestedInd.
Context (P : value -> Prop) (Hleaf : forall v, match v with Arr _ | Obj _ => True | _ => P v end).
Context (Harr : forall l, Forall P l -> P (Arr l)).
Context (Hobj : forall l, Forall (fun kv => P (snd kv)) l -> P (Obj l)).

Lemma value_nested_ind : forall v, P v.
Proof using All.
  fix IH 1. intros v. destruct v as [|b|t|s|l|l]; [apply (Hleaf Null)|apply (Hleaf (Bool b))
    |apply (Hleaf (Num t))|apply (Hleaf (Str s))| |].
  - apply Harr. induction l as [|x l IHl]; constructor; [apply IH|apply IHl].
  - apply Hobj. induction l as [|[k x] l IHl]; constructor; [apply IH|apply IHl].
Qed.
End NestedInd.

Lemma nesting_nonneg (v : value) : (0 <= nesting v)%Z.
Proof.
  revert v. apply value_nested_ind; [by intros []|intros l H..];
    destruct H as [|x l Hx _]; cbn [nesting] in *; lia.
Qed.

(** Fuel that is enough to read [v]. *)
Fixpoint cost (v : value) : nat :=
  match v with
  | Arr l => S ((fix total l := match l with [] => 0 | x :: l => S (cost x + total l) end) l)
  | Obj l => S ((fix total l := match l with [] => 0 | x :: l => S (cost (snd x) + total l) end) l)
  | _ => 1
  end%nat.

Lemma Marshal_head (v : value) :
  well_formed v -> exists c u, Marshal v = String c u /\ is_json_space c = false /\ Ascii.eqb c "]" = false.
Proof.
  intros Hv. destruct v as [|[]|t|s|l|l]; cbn [Marshal]; try by eexists _, _.
  destruct (number_head t Hv) as (c & u & -> & Hc). exists c, u. apply digit_not_special in Hc. tauto.
Qed.

Lemma skip_head (c : ascii) (u : string) : is_json_space c = false -> skip_space (String c u) = String c u.
Proof. cbn. by intros ->. Qed.

Definition reads_back (v : value) : Prop :=
  forall n d rest, well_formed v -> (d + nesting v <= maxNestingDepth)%Z -> stops rest ->
    (cost v <= n)%nat -> parse_value n d (Marshal v ++ rest) = Some (coerce v, rest).

Lemma stops_closing (c : ascii) (t : string) :
  is_digit c = false -> one_of c ".eE" = false -> stops (String c t).
Proof. done. Qed.

Lemma parse_elements_Marshal (x : value) (l : list value) :
  Forall reads_back (x :: l) ->
  forall n d rest, well_formed (Arr (x :: l)) -> (d - 1 + nesting (Arr (x :: l)) <= maxNestingDepth)%Z ->
    (cost (Arr (x :: l)) <= S n)%nat ->
    parse_elements n d (Join (map Marshal (x :: l)) "," ++ String "]" rest) = Some (map coerce (x :: l), rest).
Proof.
  revert x. induction l as [|y l IH]; intros x Hall n d rest Hw Hd Hn;
    apply Forall_cons in Hall as [Hx Hall]; destruct Hw as [Hwx Hw];
    (destruct n as [|n]; [cbn in Hn; lia|]); cbn [parse_elements].
  - change (Join (map Marshal [x]) ",") with (Marshal x).
    rewrite Hx; [done|done|cbn in Hd; lia|done|cbn in Hn; lia].
  - change (Join (map Marshal (x :: y :: l)) ",") with (Marshal x ++ String "," (Join (map Marshal (y :: l)) ",")).
    rewrite <- str_app_assoc. rewrite Hx; [|done|cbn in *; lia|done|cbn in *; lia].
    cbn [mbind option_bind String.append]. rewrite skip_head by done. cbn [Ascii.eqb Bool.eqb].
    change (Ascii.eqb "," ",") with true. cbn iota.
    rewrite IH; [done|done|done|cbn in *; lia|cbn in *; lia].
Qed.

(** White space before a value or a member. *)
Definition blank (s : string) : Prop := string_forallb is_json_space s = true.

Lemma skip_blank (ws s : string) : blank ws -> skip_space (ws ++ s) = skip_space s.
Proof. unfold blank. induction ws as [|c ws IH]; cbn; [done|]. intros H. bool_prop. case_bool; [auto|done]. Qed.

Lemma parse_value_blank (n : nat) (d : Z) (ws s : string) :
  blank ws -> parse_value n d (ws ++ s) = parse_value n d s.
Proof. intros Hw. destruct n as [|n]; [done|]. cbn [parse_value]. by rewrite skip_blank. Qed.

Lemma parse_member (n : nat) (d : Z) (ws k sp : string) (x : value) (t : string) :
  blank ws -> blank sp -> well_formed x -> reads_back x -> stops t -> (cost x <= n)%nat ->
  (d + nesting x <= maxNestingDepth)%Z ->
  parse_members (S n) d (ws ++ quote k ++ ":" ++ sp ++ Marshal x ++ t)
  = match skip_space t with
    | "" => None
    | String c r1 =>
        if Ascii.eqb c "," then
          '(l, r2) ← parse_members n d r1; Some ((to_valid k, coerce x) :: l, r2)
        else if Ascii.eqb c "}" then Some ([(to_valid k, coerce x)], r1)
        else None
    end.
Proof.
  intros Hws Hsp Hwx Hx Ht Hn Hd. cbn [parse_members]. rewrite skip_blank by done.
  unfold quote. cbn [String.append]. rewrite skip_head by done.
  cbn [expect]. rewrite Ascii.eqb_refl. cbn [mbind option_bind].
  rewrite str_body_quote. cbn [mbind option_bind String.append]. rewrite skip_head by done.
  cbn [expect]. rewrite Ascii.eqb_refl. cbn [mbind option_bind]. rewrite parse_value_blank by done.
  rewrite Hx by done. cbn [mbind option_bind]. by rewrite to_valid_idem.
Qed.

Lemma parse_members_Marshal (kx : string * value) (l : list (string * value)) :
  Forall (fun kv => reads_back (snd kv)) (kx :: l) ->
  forall n d rest, well_formed (Obj (kx :: l)) -> (d - 1 + nesting (Obj (kx :: l)) <= maxNestingDepth)%Z ->
    (cost (Obj (kx :: l)) <= S n)%nat ->
    parse_members n d
      (Join (map (fun kv => quote (fst kv) ++ ":" ++ Marshal (snd kv)) (kx :: l)) "," ++ String "}" rest)
    = Some (map (fun kv => (to_valid (fst kv), coerce (snd kv))) (kx :: l), rest).
Proof.
  assert (forall n d kx t, well_formed (snd kx) -> reads_back (snd kx) -> stops t ->
    (cost (snd kx) <= n)%nat -> (d + nesting (snd kx) <= maxNestingDepth)%Z ->
    parse_members (S n) d ((quote (fst kx) ++ ":" ++ Marshal (snd kx)) ++ t)
    = match skip_space t with
      | "" => None
      | String c r1 =>
          if Ascii.eqb c "," then
            '(l, r2) ← parse_members n d r1; Some ((to_valid (fst kx), coerce (snd kx)) :: l, r2)
          else if Ascii.eqb c "}" then Some ([(to_valid (fst kx), coerce (snd kx))], r1)
          else None
      end) as Hone.
  { intros n d [k x] t Hwx Hx Ht Hn Hd. rewrite <- !str_app_assoc.
    by apply (parse_member n d "" k "" x t). }
  revert kx. induction l as [|ky l IH]; intros kx Hall n d rest Hw Hd Hn;
    apply Forall_cons in Hall as [Hx Hall]; destruct Hw as [Hwx Hw];
    (destruct n as [|n]; [cbn in Hn; lia|]).
  - cbn [map Join]. rewrite Hone; [done|done|done|done|cbn in Hn; lia|cbn in Hd; lia].
  - change (Join (map ?f (kx :: ky :: l)) ",") with (f kx ++ String "," (Join (map f (ky :: l)) ",")).
    rewrite <- str_app_assoc. rewrite Hone; [|done|done|done|cbn in *; lia|cbn in *; lia].
    cbn [String.append]. rewrite skip_head by done. change (Ascii.eqb "," ",") with true. cbn iota.
    rewrite IH; [done|done|done|cbn in *; lia|cbn in *; lia].
Qed.

Lemma parse_Marshal (v : value) : reads_back v.
Proof.
  revert v. apply value_nested_ind.
  - intros v. destruct v as [|b|t|s|l|l]; try done; intros [|n] d rest Hw Hd Hs Hn; try (cbn in Hn; lia).
    + by destruct rest.
    + by destruct b, rest.
    + destruct (number_head t Hw) as (c & u & -> & Hc). apply digit_not_special in Hc.
      destruct Hc as (H1 & H2 & H3 & H4 & H5 & H6 & H7 & _).
      cbn [Marshal parse_value String.append]. rewrite skip_head, H2, H3, H4, H5, H6, H7 by done.
      change (String c (u ++ rest)) with (String c u ++ rest).
      by rewrite (num_literal_app _ _ _ _ Hs Hw).
    + cbn [Marshal parse_value]. unfold quote. cbn [String.append]. rewrite skip_head by done.
      change (Ascii.eqb char_dquote "{") with false. change (Ascii.eqb char_dquote "[") with false.
      rewrite Ascii.eqb_refl. cbn iota. rewrite str_body_quote. cbn. by rewrite to_valid_idem.
  - intros l IH [|n] d rest Hw Hd Hs Hn; [cbn in Hn; lia|]. cbn [Marshal parse_value String.append].
    rewrite skip_head by done. change (Ascii.eqb "[" "{") with false. change (Ascii.eqb "[" "[") with true.
    cbn iota. assert ((maxNestingDepth <=? d)%Z = false) as ->.
    { apply Z.leb_gt. destruct l; cbn [nesting] in Hd; [lia|].
      pose proof (nesting_nonneg v). lia. }
    rewrite <- str_app_assoc. cbn [String.append]. destruct l as [|x l]; [done|].
    destruct (Marshal_head x) as (c & u & Hx & Hc1 & Hc2); [apply Hw|].
    assert (expect "]" (skip_space (Join (map Marshal (x :: l)) "," ++ String "]" rest)) = None) as ->.
    { destruct l as [|y l]; cbn [map Join]; rewrite Hx; cbn [String.append];
        rewrite skip_head by done; cbn [expect]; by rewrite Hc2. }
    rewrite parse_elements_Marshal; [done|done|done|lia|lia].
  - intros l IH [|n] d rest Hw Hd Hs Hn; [cbn in Hn; lia|]. cbn [Marshal parse_value String.append].
    rewrite skip_head by done. change (Ascii.eqb "{" "{") with true. cbn iota.
    assert ((maxNestingDepth <=? d)%Z = false) as ->.
    { apply Z.leb_gt. destruct l as [|[k v] l]; cbn [nesting] in Hd; [lia|].
      cbn [snd] in Hd. pose proof (nesting_nonneg v). lia. }
    rewrite <- str_app_assoc. cbn [String.append]. destruct l as [|[k x] l]; [done|].
    assert (forall t, expect "}" (skip_space (Join (map (fun kv => quote (fst kv) ++ ":" ++ Marshal (snd kv))
              ((k, x) :: l)) "," ++ t)) = None) as ->.
    { intros t. destruct l as [|y l]; cbn [map Join fst snd]; unfold quote; cbn [String.append];
        by rewrite skip_head. }
    rewrite parse_members_Marshal; [done|done|done|lia|lia].
Qed.

Lemma well_formed_Arr (l : list value) : Forall well_formed l -> well_formed (Arr l).
Proof. by induction 1. Qed.

Lemma well_formed_Obj (l : list (string * value)) :
  Forall (fun kv => well_formed (snd kv)) l -> well_formed (Obj l).
Proof. by induction 1. Qed.

Lemma nesting_Arr (l : list value) (n : Z) :
  (0 <= n)%Z -> Forall (fun v => nesting v <= n)%Z l -> (nesting (Arr l) <= 1 + n)%Z.
Proof. intros Hn. induction 1; cbn in *; lia. Qed.

Lemma nesting_Obj (l : list (string * value)) (n : Z) :
  (0 <= n)%Z -> Forall (fun kv => nesting (snd kv) <= n)%Z l -> (nesting (Obj l) <= 1 + n)%Z.
Proof. intros Hn. induction 1; cbn in *; lia. Qed.

(** Round trip: what [json.Marshal] writes, [json.Unmarshal] and a decoder read. *)
Lemma parse_text_rest (v : value) (rest : string) :
  well_formed v -> (nesting v <= maxNestingDepth)%Z -> stops rest ->
  parse_value (json_fuel (Marshal v ++ rest)) 0 (Marshal v ++ rest) = Some (coerce v, rest).
Proof.
  intros Hw Hd Hs.
  pose proof (parse_Marshal v (Nat.max (json_fuel (Marshal v ++ rest)) (cost v)) 0%Z rest Hw ltac:(lia) Hs
                ltac:(lia)) as H.
  by rewrite (proj1 (parse_fuel _) (Nat.max (json_fuel (Marshal v ++ rest)) (cost v)))
    by (unfold json_fuel; lia).
Qed.

Lemma parse_text (v : value) :
  well_formed v -> (nesting v <= maxNestingDepth)%Z ->
  parse_value (json_fuel (Marshal v)) 0 (Marshal v) = Some (coerce v, "").
Proof.
  intros Hw Hd. pose proof (parse_text_rest v "" Hw Hd Logic.I) as H. by rewrite str_app_nil_r in H.
Qed.

Lemma Unmarshal_Marshal (v : value) :
  well_formed v -> (nesting v <= maxNestingDepth)%Z -> Unmarshal (Marshal v) = Some (coerce v).
Proof. intros Hw Hd. unfold Unmarshal. by rewrite parse_text. Qed.

Lemma Decode_Marshal (v : value) :
  well_formed v -> (nesting v <= maxNestingDepth)%Z -> Decode (Marshal v) = Some (coerce v).
Proof. intros Hw Hd. unfold Decode. by rewrite parse_text. Qed.

(** A decoder leaves what follows the value. *)
Lemma Decode_Marshal_rest (v : value) (rest : string) :
  well_formed v -> (nesting v <= maxNestingDepth)%Z -> stops rest ->
  Decode (Marshal v ++ rest) = Some (coerce v).
Proof. intros Hw Hd Hs. unfold Decode. by rewrite parse_text_rest. Qed.

Lemma is_ascii_valid (s : string) : is_ascii s = true -> valid_utf8 s = true.
Proof.
  unfold is_ascii, valid_utf8. induction s as [|c s IH]; cbn; [done|]. intros H. bool_prop.
  case_bool; [|done]. cbn. by apply IH.
Qed.

(** The text of an integer is a number. *)
Lemma span_digits_all (s : string) : string_forallb is_digit s = true -> span_digits s = (s, "").
Proof. induction s as [|c s IH]; cbn; [done|]. intros H. bool_prop. case_bool; [|done]. by rewrite IH. Qed.

Lemma Itoa_is_number (z : Z) : is_number (Itoa z).
Proof.
  assert (forall n sg s, expect "-" s = None -> s = string_of_N n ->
    ('(i, s2) ← num_int s; '(f, s3) ← num_frac s2; '(e, s4) ← num_exp s3;
       Some (sg ++ i ++ f ++ e, s4)) = Some (sg ++ s, "")) as H.
  { intros n sg s _ ->. destruct (string_of_N_spec n) as (c & d & -> & Hd & _ & H0).
    assert (num_int (String c d) = Some (String c d, "")) as ->.
    { unfold num_int. cbn [expect]. destruct (Ascii.eqb c "0") eqn:E; bool_prop.
      - destruct (H0 E) as [_ ->]. by rewrite E.
      - by rewrite (span_digits_all (String c d) Hd). }
    cbn. by rewrite !str_app_nil_r. }
  unfold is_number, Itoa, num_literal. case_bool.
  - cbn [expect]. change (Ascii.eqb "-" "-") with true. cbn iota.
    apply (H (Z.to_N (- z)) "-"); [|done].
    destruct (string_of_N_spec (Z.to_N (- z))) as (c & d & -> & Hd & _). cbn in *.
    bool_prop. destruct (Ascii.eqb c "-") eqn:E; [bool_prop; by subst|done].
  - destruct (string_of_N_spec (Z.to_N z)) as (c & d & E & Hd & _).
    assert (expect "-" (string_of_N (Z.to_N z)) = None) as Hn.
    { rewrite E. cbn in *. bool_prop. destruct (Ascii.eqb c "-") eqn:E2; [bool_prop; by subst|done]. }
    rewrite Hn. by apply (H (Z.to_N z) "").
Qed.

Lemma decode_int_Itoa (z old : Z) :
  (min_int64 <= z <= max_int64)%Z -> decode_int (Num (Itoa z)) old = Some z.
Proof. intros H. cbn. by rewrite ParseInt_Itoa. Qed.
