(* ===== verification/Schema.v ===== *)
(** * The jobs and job_events tables

    [Job] is the row of table [jobs] (package db's schema, scanned by every SELECT of
    package queue into its struct Job); [sql.NullString] and [sql.NullInt64] are options.
    A timestamp column holds RFC 3339 text in UTC with whole seconds; the model keeps the
    second it denotes, whose order is the text's for the years 0 to 9999. *)

From S2P Require Import Prelude GoStrings.

#[local] Open Scope string_scope.

(** ** Job statuses *)

Definition StatusQueued := "queued".
Definition StatusResolving := "resolving".
Definition StatusDownloading := "downloading".
Definition StatusPaused := "paused".
Definition StatusDecrypting := "decrypting".
Definition StatusDecryptFail := "decrypt_failed".
Definition StatusCompleted := "completed".
Definition StatusFailed := "failed".
Definition StatusDeleted := "deleted".

Definition statuses : list string :=
  [StatusQueued; StatusResolving; StatusDownloading; StatusPaused; StatusDecrypting;
   StatusDecryptFail; StatusCompleted; StatusFailed; StatusDeleted].

(** ** Rows *)

Record Job : Type := mkJob {
  ID : Z;
  URL : string;
  Site : string;
  OutDir : string;
  Name : string;
  ArchivePassword : option string;
  ResolvedURL : option string;
  Filename : option string;
  SizeBytes : option Z;
  BytesDone : Z;
  DownloadSpeed : option Z;
  EtaSeconds : option Z;
  Status : string;
  Error : option string;
  ErrorCode : option string;
  Engine : string;
  EngineGID : option string;
  Attempts : Z;
  MaxAttempts : Z;
  NextRetryAt : option Z;
  CreatedAt : Z;
  UpdatedAt : Z;
  StartedAt : option Z;
  CompletedAt : option Z;
  DeletedAt : option Z
}.

Record EventRow : Type := mkEvent {
  EvID : Z;
  EvJobID : Z;
  EvLevel : string;
  EvMessage : string;
  EvCreatedAt : Z
}.

(** ** Column assignment: [j <| Col := v |>] is one entry of an UPDATE's SET list *)

Ltac derive_job := derive_assign
        constr:((mkJob, ID, URL, Site, OutDir, Name, ArchivePassword, ResolvedURL, Filename, SizeBytes,
          BytesDone, DownloadSpeed, EtaSeconds, Status, Error, ErrorCode, Engine, EngineGID,
          Attempts, MaxAttempts, NextRetryAt, CreatedAt, UpdatedAt, StartedAt, CompletedAt,
          DeletedAt)).

#[global] Instance assign_ID : Assign ID. Proof. derive_job. Defined.
#[global] Instance assign_URL : Assign URL. Proof. derive_job. Defined.
#[global] Instance assign_Site : Assign Site. Proof. derive_job. Defined.
#[global] Instance assign_OutDir : Assign OutDir. Proof. derive_job. Defined.
#[global] Instance assign_Name : Assign Name. Proof. derive_job. Defined.
#[global] Instance assign_ArchivePassword : Assign ArchivePassword. Proof. derive_job. Defined.
#[global] Instance assign_ResolvedURL : Assign ResolvedURL. Proof. derive_job. Defined.
#[global] Instance assign_Filename : Assign Filename. Proof. derive_job. Defined.
#[global] Instance assign_SizeBytes : Assign SizeBytes. Proof. derive_job. Defined.
#[global] Instance assign_BytesDone : Assign BytesDone. Proof. derive_job. Defined.
#[global] Instance assign_DownloadSpeed : Assign DownloadSpeed. Proof. derive_job. Defined.
#[global] Instance assign_EtaSeconds : Assign EtaSeconds. Proof. derive_job. Defined.
#[global] Instance assign_Status : Assign Status. Proof. derive_job. Defined.
#[global] Instance assign_Error : Assign Error. Proof. derive_job. Defined.
#[global] Instance assign_ErrorCode : Assign ErrorCode. Proof. derive_job. Defined.
#[global] Instance assign_Engine : Assign Engine. Proof. derive_job. Defined.
#[global] Instance assign_EngineGID : Assign EngineGID. Proof. derive_job. Defined.
#[global] Instance assign_Attempts : Assign Attempts. Proof. derive_job. Defined.
#[global] Instance assign_MaxAttempts : Assign MaxAttempts. Proof. derive_job. Defined.
#[global] Instance assign_NextRetryAt : Assign NextRetryAt. Proof. derive_job. Defined.
#[global] Instance assign_CreatedAt : Assign CreatedAt. Proof. derive_job. Defined.
#[global] Instance assign_UpdatedAt : Assign UpdatedAt. Proof. derive_job. Defined.
#[global] Instance assign_StartedAt : Assign StartedAt. Proof. derive_job. Defined.
#[global] Instance assign_CompletedAt : Assign CompletedAt. Proof. derive_job. Defined.
#[global] Instance assign_DeletedAt : Assign DeletedAt. Proof. derive_job. Defined.

(** The tables, with the counters of [sqlite_sequence] (AUTOINCREMENT never reuses an id).
    A table is a list in rowid order, the order in which SQLite scans it. *)
Record Db : Type := mkDb {
  jobs : list Job;
  events : list EventRow;
  seq_jobs : Z;
  seq_events : Z
}.

Definition empty_db : Db := mkDb [] [] 0 0.
