(* ===== verification/DbOpen.v ===== *)
(** * internal/db/db.go: opening the database

    The daemon creates its tables when they are missing, and adds to a table of an earlier
    version the columns that came later.  A catalogue has the tables with their columns, in
    order, and the stored rows; a row holds the columns it was written with, a column added
    later reads as its default. *)

From S2P Require Import Prelude GoStrings GoError.

#[local] Open Scope string_scope.

Record Table : Type := mkTable {
  columns : list (string * string);           (* name and declaration *)
  rows : list (gmap string string)
}.

Record Catalog : Type := mkCatalog {
  tables : gmap string Table;
  indexes : gset string
}.

Definition table_names (t : Table) : list string := map fst (columns t).

(** ** Statements *)

Inductive statement : Type :=
  | CreateTable (name : string) (cols : list (string * string))    (* IF NOT EXISTS *)
  | CreateIndex (name : string)                                    (* IF NOT EXISTS *)
  | AddColumn (table col decl : string).

Definition exec_statement (s : statement) (c : Catalog) : Catalog * res unit :=
  match s with
  | CreateTable name cols =>
      match tables c !! name with
      | Some _ => (c, inr tt)
      | None => (mkCatalog (<[name := mkTable cols []]> (tables c)) (indexes c), inr tt)
      end
  | CreateIndex name => (mkCatalog (tables c) ({[name]} ∪ indexes c), inr tt)
  | AddColumn table col decl =>
      match tables c !! table with
      | None => (c, inl (ENew ("no such table: " ++ table)))
      | Some t =>
          if bool_decide (col ∈ table_names t)
          then (c, inl (ENew ("duplicate column name: " ++ col)))
          else (mkCatalog (<[table := mkTable (columns t ++ [(col, decl)])%list (rows t)]> (tables c))
                  (indexes c), inr tt)
      end
  end.

Definition job_columns : list (string * string) :=
  [("id", "INTEGER PRIMARY KEY AUTOINCREMENT"); ("url", "TEXT NOT NULL"); ("site", "TEXT");
   ("out_dir", "TEXT NOT NULL"); ("name", "TEXT"); ("archive_password", "TEXT");
   ("resolved_url", "TEXT"); ("filename", "TEXT"); ("size_bytes", "INTEGER");
   ("bytes_done", "INTEGER DEFAULT 0"); ("download_speed", "INTEGER DEFAULT 0");
   ("eta_seconds", "INTEGER"); ("status", "TEXT NOT NULL"); ("error", "TEXT");
   ("error_code", "TEXT"); ("engine", "TEXT DEFAULT 'aria2'"); ("engine_gid", "TEXT");
   ("attempts", "INTEGER DEFAULT 0"); ("max_attempts", "INTEGER DEFAULT 5");
   ("next_retry_at", "TEXT"); ("created_at", "TEXT NOT NULL"); ("updated_at", "TEXT NOT NULL");
   ("started_at", "TEXT"); ("completed_at", "TEXT"); ("deleted_at", "TEXT")].

Definition event_columns : list (string * string) :=
  [("id", "INTEGER PRIMARY KEY AUTOINCREMENT"); ("job_id", "INTEGER NOT NULL");
   ("level", "TEXT NOT NULL"); ("message", "TEXT NOT NULL"); ("created_at", "TEXT NOT NULL")].

Definition schema : list statement :=
  [CreateTable "jobs" job_columns; CreateIndex "idx_jobs_status"; CreateIndex "idx_jobs_retry";
   CreateTable "job_events" event_columns; CreateIndex "idx_job_events_job_id"].

(** ** Opening

    [faults] says which statements fail, in the order they are sent. *)

Definition act_on (c : Catalog) (faults : nat -> option error) (n : nat) (s : statement)
  : Catalog * res unit :=
  match faults n with
  | Some err => (c, inl err)
  | None => exec_statement s c
  end.

(** A text of statements stops at the first that fails; what the earlier ones did stays. *)
Fixpoint exec_all (faults : nat -> option error) (n : nat) (l : list statement) (c : Catalog)
  : Catalog * res unit :=
  match l with
  | [] => (c, inr tt)
  | s :: rest =>
      match act_on c faults n s with
      | (c', inl err) => (c', inl err)
      | (c', inr _) => exec_all faults (S n) rest c'
      end
  end.

(** PRAGMA table_info is statement [n], ALTER TABLE is statement [S n]. *)
Definition ensureColumn (faults : nat -> option error) (n : nat) (name colType : string) (c : Catalog)
  : Catalog * res unit :=
  match faults n with
  | Some err => (c, inl err)
  | None =>
      let hasCol := match tables c !! "jobs" with
                    | Some t => bool_decide (name ∈ table_names t)
                    | None => false
                    end in
      if hasCol then (c, inr tt) else act_on c faults (S n) (AddColumn "jobs" name colType)
  end.

Definition later_columns : list (string * string) :=
  [("deleted_at", "TEXT"); ("download_speed", "INTEGER DEFAULT 0"); ("eta_seconds", "INTEGER");
   ("archive_password", "TEXT")].

Fixpoint ensure_all (faults : nat -> option error) (n : nat) (l : list (string * string)) (c : Catalog)
  : Catalog * res unit :=
  match l with
  | [] => (c, inr tt)
  | (name, colType) :: rest =>
      match ensureColumn faults n name colType c with
      | (c', inl err) => (c', inl err)
      | (c', inr _) => ensure_all faults (S (S n)) rest c'
      end
  end.

Definition Open (faults : nat -> option error) (c : Catalog) : Catalog * res unit :=
  match exec_all faults 0 schema c with
  | (c', inl err) => (c', inl err)
  | (c', inr _) => ensure_all faults (length schema) later_columns c'
  end.

(** ** What opening does to a database *)

(** Nothing is lost: the rows and the columns stay, new columns come after the old ones and
    no name comes twice. *)
Definition grows (t t' : Table) : Prop :=
  rows t' = rows t /\ columns t `prefix_of` columns t' /\ (NoDup (table_names t) -> NoDup (table_names t')).

#[global] Instance grows_PreOrder : PreOrder grows.
Proof.
  split; [intros t; by split_and!|]. intros t1 t2 t3 (H1 & H2 & H3) (H4 & H5 & H6).
  split; [congruence|]. split; [by etrans|auto].
Qed.

Definition kept (c c' : Catalog) : Prop :=
  forall name t, tables c !! name = Some t -> exists t', tables c' !! name = Some t' /\ grows t t'.

#[global] Instance kept_PreOrder : PreOrder kept.
Proof.
  split; [intros c name t H; by exists t|]. intros c1 c2 c3 H1 H2 name t Ht.
  destruct (H1 name t Ht) as (t' & Ht' & G). destruct (H2 name t' Ht') as (t'' & Ht'' & G').
  exists t''. split; [done|by etrans].
Qed.

Lemma exec_statement_kept (s : statement) (c : Catalog) : kept c (fst (exec_statement s c)).
Proof.
  destruct s as [name cols|name|table col decl]; cbn [exec_statement].
  - destruct (tables c !! name) eqn:E; [done|]. intros n t Ht. exists t. split; [|done]. cbn.
    by rewrite lookup_insert_ne by congruence.
  - intros n t Ht. by exists t.
  - destruct (tables c !! table) as [t|] eqn:E; [|done]. case_bool; [done|]. bool_prop. cbn.
    intros n t0 Ht. destruct (decide (n = table)) as [->|Hn].
    + rewrite Ht in E. injection E as ->. eexists. cbn. rewrite lookup_insert_eq. split; [done|].
      split; [done|]. split; [by apply prefix_app_r|]. unfold table_names. cbn. rewrite map_app. cbn.
      intros Hd. apply NoDup_app. split; [done|]. split; [|by apply NoDup_singleton].
      intros x Hx Hs. apply list_elem_of_singleton in Hs as ->. done.
    + exists t0. cbn. by rewrite lookup_insert_ne.
Qed.

Lemma act_on_kept (c : Catalog) (faults : nat -> option error) (n : nat) (s : statement) :
  kept c (fst (act_on c faults n s)).
Proof. unfold act_on. destruct (faults n); [done|apply exec_statement_kept]. Qed.

Lemma exec_all_kept (faults : nat -> option error) (n : nat) (l : list statement) (c : Catalog) :
  kept c (fst (exec_all faults n l c)).
Proof.
  revert n c. induction l as [|s l IH]; intros n c; [done|]. cbn [exec_all].
  pose proof (act_on_kept c faults n s) as H. destruct (act_on c faults n s) as [c' [e|[]]]; [done|].
  etrans; [exact H|apply IH].
Qed.

Definition has_column (col : string) (c : Catalog) : Prop :=
  exists t, tables c !! "jobs" = Some t /\ col ∈ table_names t.

Lemma kept_column (col : string) (c c' : Catalog) : kept c c' -> has_column col c -> has_column col c'.
Proof.
  intros Hk (t & Ht & Hc). destruct (Hk _ _ Ht) as (t' & Ht' & _ & Hp & _). exists t'. split; [done|].
  unfold table_names in *. destruct Hp as [l ->]. rewrite map_app. apply elem_of_app. by left.
Qed.

(** One column: nothing is lost, and it is there unless a statement failed. *)
Lemma ensureColumn_spec (faults : nat -> option error) (n : nat) (name decl : string) (c : Catalog) :
  is_Some (tables c !! "jobs") ->
  let '(c', r) := ensureColumn faults n name decl c in
  kept c c' /\ indexes c' = indexes c /\ (r = inr tt -> has_column name c')
  /\ (faults n = None -> faults (S n) = None -> r = inr tt)
  /\ (has_column name c -> c' = c).
Proof.
  intros [t Ht]. unfold ensureColumn. destruct (faults n); [by split_and!|]. rewrite Ht. case_bool; bool_prop.
  - split; [done|]. split; [done|]. split; [by exists t|by split].
  - unfold act_on. destruct (faults (S n)) as [e|]; [by split_and!|].
    pose proof (exec_statement_kept (AddColumn "jobs" name decl) c) as Hk. revert Hk. cbn [exec_statement].
    rewrite Ht. rewrite bool_decide_false by done. intros Hk. split; [exact Hk|].
    split; [done|]. split; [|split; [done|]].
    + intros _. eexists. cbn. rewrite lookup_insert_eq. split; [done|]. unfold table_names. cbn.
      rewrite map_app. apply elem_of_app. right. by left.
    + intros (t' & Ht' & Hc). congruence.
Qed.

Lemma ensure_all_spec (l : list (string * string)) (faults : nat -> option error) (n : nat) (c : Catalog) :
  is_Some (tables c !! "jobs") ->
  let '(c', r) := ensure_all faults n l c in
  kept c c' /\ indexes c' = indexes c
  /\ (r = inr tt -> forall col, col ∈ map fst l -> has_column col c')
  /\ ((forall i, faults i = None) -> r = inr tt)
  /\ ((forall col, col ∈ map fst l -> has_column col c) -> c' = c).
Proof.
  revert n c. induction l as [|[name decl] l IH]; intros n c Hj; cbn [ensure_all map fst].
  { split_and!; try done. intros _ col Hc. by apply elem_of_nil in Hc. }
  pose proof (ensureColumn_spec faults n name decl c Hj) as H.
  destruct (ensureColumn faults n name decl c) as [c1 [e|[]]]; destruct H as (Hk & Hi & Hr & Hf & Hid).
  { split_and!; [done|done|done|intros Hn; by rewrite (Hf (Hn _) (Hn _))|]. intros Hc. apply Hid, Hc. by left. }
  assert (is_Some (tables c1 !! "jobs")) as Hj1 by (destruct (Hr eq_refl) as (t & Ht & _); by exists t).
  specialize (IH (S (S n)) c1 Hj1). destruct (ensure_all faults (S (S n)) l c1) as [c2 r2].
  destruct IH as (Hk2 & Hi2 & Hr2 & Hf2 & Hid2). split; [by etrans|]. split; [congruence|].
  split; [|split; [done|]].
  - intros -> col [->|Hc]%elem_of_cons; [|by apply Hr2]. apply (kept_column _ c1 c2 Hk2). by apply Hr.
  - intros Hc. rewrite Hid in * by (apply Hc; by left). apply Hid2. intros col Hin. apply Hc. by right.
Qed.

(** The statements of the schema create what is missing, and cannot fail but by a fault. *)
Definition created (s : statement) (c : Catalog) : Prop :=
  match s with
  | CreateTable name _ => is_Some (tables c !! name)
  | CreateIndex name => name ∈ indexes c
  | AddColumn _ _ _ => False
  end.

Definition creates (s : statement) : Prop :=
  match s with AddColumn _ _ _ => False | _ => True end.

Lemma created_kept (s : statement) (c c' : Catalog) :
  kept c c' -> indexes c ⊆ indexes c' -> created s c -> created s c'.
Proof.
  intros Hk Hi. destruct s as [name cols|name|]; cbn; [|set_solver|done].
  intros [t Ht]. destruct (Hk _ _ Ht) as (t' & ? & _). by exists t'.
Qed.

Lemma exec_create (s : statement) (c : Catalog) :
  creates s ->
  snd (exec_statement s c) = inr tt /\ created s (fst (exec_statement s c))
  /\ indexes c ⊆ indexes (fst (exec_statement s c))
  /\ (created s c -> fst (exec_statement s c) = c)
  /\ forall t, tables (fst (exec_statement s c)) !! "jobs" = Some t ->
       tables c !! "jobs" = Some t \/ exists cols, s = CreateTable "jobs" cols /\ t = mkTable cols [].
Proof.
  destruct s as [name cols|name|]; [| |done]; intros _; cbn [exec_statement].
  - destruct (tables c !! name) as [t|] eqn:E; cbn.
    + split_and!; [done|by exists t|done|done|auto].
    + rewrite lookup_insert_eq. split_and!; [done|by eexists|done|intros [t Ht]; congruence|].
      intros t. destruct (decide (name = "jobs")) as [->|Hn].
      * rewrite lookup_insert_eq. intros [= <-]. right. by exists cols.
      * rewrite lookup_insert_ne by done. auto.
  - cbn. split_and!; [done|by apply elem_of_union_l, elem_of_singleton|apply union_subseteq_r| |auto].
    intros H. destruct c as [tb ix]; cbn in *. f_equal.
    by apply subseteq_union_1_L, singleton_subseteq_l.
Qed.

Lemma exec_all_create (l : list statement) (faults : nat -> option error) (n : nat) (c : Catalog) :
  Forall creates l ->
  let '(c', r) := exec_all faults n l c in
  kept c c' /\ indexes c ⊆ indexes c'
  /\ (r = inr tt -> Forall (fun s => created s c') l)
  /\ ((forall i, faults i = None) -> r = inr tt)
  /\ (Forall (fun s => created s c) l -> c' = c)
  /\ forall t, tables c' !! "jobs" = Some t ->
       tables c !! "jobs" = Some t \/ exists cols, CreateTable "jobs" cols ∈ l /\ t = mkTable cols [].
Proof.
  revert n c. induction l as [|s l IH]; intros n c Hl; cbn [exec_all].
  { split_and!; try done. auto. }
  apply Forall_cons in Hl as [Hs Hl]. unfold act_on. destruct (faults n) as [e|] eqn:Ef.
  { split_and!; try done; [intros Hn; by rewrite Hn in Ef|auto]. }
  destruct (exec_create s c Hs) as (Hr & Hc & Hi & Hid & Hj).
  pose proof (exec_statement_kept s c) as Hk. destruct (exec_statement s c) as [c1 r1]. cbn in *. subst r1.
  specialize (IH (S n) c1 Hl). destruct (exec_all faults (S n) l c1) as [c2 r2].
  destruct IH as (Hk2 & Hi2 & Hr2 & Hf2 & Hid2 & Hj2). split; [by etrans|]. split; [by etrans|].
  split; [|split; [done|split]].
  - intros ->. apply Forall_cons. split; [exact (created_kept s c1 c2 Hk2 Hi2 Hc)|by apply Hr2].
  - intros [H1 H2]%Forall_cons. rewrite (Hid H1) in *. by apply Hid2.
  - intros t [Ht|(cols & Hin & ->)]%Hj2; [|right; exists cols; split; [by right|done]].
    apply Hj in Ht as [Ht|(cols & -> & ->)]; [by left|]. right. exists cols. split; [by left|done].
Qed.

(** The columns that the table of an earlier version may lack. *)
Definition newer : list string := ["deleted_at"; "download_speed"; "eta_seconds"; "archive_password"].

(** A database of this version or an earlier one. *)
Definition earlier_version (c : Catalog) : Prop :=
  forall t, tables c !! "jobs" = Some t ->
    forall col, col ∈ map fst job_columns -> col ∉ newer -> col ∈ table_names t.

(** A database ready for the store. *)
Definition ready (c : Catalog) : Prop :=
  (forall col, col ∈ map fst job_columns -> has_column col c) /\ Forall (fun s => created s c) schema.

Lemma open_ready (c : Catalog) : ready c -> Open (fun _ => None) c = (c, inr tt).
Proof.
  intros [Hcol Hs]. unfold Open. assert (Forall creates schema) as Hcr by (repeat constructor).
  pose proof (exec_all_create schema (fun _ => None) 0 c Hcr) as H1.
  destruct (exec_all (fun _ => None) 0 schema c) as [c1 r1].
  destruct H1 as (_ & _ & _ & Hf1 & Hid1 & _). rewrite (Hf1 (fun _ => eq_refl)), (Hid1 Hs).
  assert (is_Some (tables c !! "jobs")) as Hj by by apply Forall_cons in Hs as [? _].
  pose proof (ensure_all_spec later_columns (fun _ => None) (length schema) c Hj) as H2.
  destruct (ensure_all (fun _ => None) (length schema) later_columns c) as [c2 r2].
  destruct H2 as (_ & _ & _ & Hf2 & Hid2). rewrite (Hf2 (fun _ => eq_refl)), Hid2; [done|].
  intros col Hin. apply Hcol. apply list_elem_of_In. apply list_elem_of_In in Hin. cbn in *. tauto.
Qed.

(** C34. Opening the database, whichever of its statements fail.  No table, column or row of
    the file is lost and no column comes twice.  When no statement fails opening succeeds,
    and the database of an earlier version, or an empty file, then has every table, column
    and index of the schema, so that opening it again changes nothing.  When one fails, what
    was done so far is a database that the next start can open. *)
Theorem Open_spec (faults : nat -> option error) (c : Catalog) (Hc : earlier_version c) :
  let '(c', r) := Open faults c in
  kept c c' /\ earlier_version c'
  /\ (r = inr tt -> ready c' /\ Open (fun _ => None) c' = (c', inr tt))
  /\ ((forall n, faults n = None) -> r = inr tt).
Proof.
  assert (Forall creates schema) as Hcr by (repeat constructor).
  pose proof (exec_all_create schema faults 0 c Hcr) as H1. unfold Open.
  destruct (exec_all faults 0 schema c) as [c1 r1]. destruct H1 as (Hk1 & Hi1 & Hr1 & Hf1 & _ & Hj1).
  assert (earlier_version c1) as Hc1.
  { intros t Ht col Hin Hl. apply Hj1 in Ht as [Ht|(cols & Hs & ->)].
    - by apply (Hc t).
    - assert (cols = job_columns) as ->; [|done].
      unfold schema in Hs. repeat (apply elem_of_cons in Hs as [Hs|Hs]; [by simplify_eq|]).
      by apply elem_of_nil in Hs. }
  destruct r1 as [e|[]]; [by split_and!; try done; intros Hn; rewrite (Hf1 Hn) in *|].
  specialize (Hr1 eq_refl).
  assert (is_Some (tables c1 !! "jobs")) as Hj by by apply Forall_cons in Hr1 as [? _].
  pose proof (ensure_all_spec later_columns faults (length schema) c1 Hj) as H2.
  destruct (ensure_all faults (length schema) later_columns c1) as [c2 r2].
  destruct H2 as (Hk2 & Hi2 & Hr2 & Hf2 & _). split; [by etrans|].
  assert (earlier_version c2) as Hc2.
  { destruct Hj as [t1 Ht1]. intros t Ht col Hin Hl.
    destruct (kept_column col c1 c2 Hk2) as (t' & Ht' & Hcol); [exists t1; split; [done|by apply Hc1]|].
    congruence. }
  split; [done|]. split; [|done]. intros ->. specialize (Hr2 eq_refl).
  assert (is_Some (tables c2 !! "jobs")) as Hj2.
  { destruct Hj as [t1 Ht1]. destruct (Hk2 _ _ Ht1) as (t2 & ? & _). by exists t2. }
  assert (ready c2) as Hready.
  { split.
    - intros col Hin. destruct (decide (col ∈ newer)) as [Hl|Hl]; [by apply Hr2|].
      destruct Hj2 as [t Ht]. exists t. split; [done|by apply Hc2].
    - eapply Forall_impl; [exact Hr1|]. intros s Hs. apply (created_kept s c1 c2 Hk2); [by rewrite Hi2|done]. }
  split; [done|]. apply open_ready; done.
Qed.

(** The first version's table, with one job in it. *)
Definition old_jobs : Table :=
  mkTable (List.filter (fun c => negb (bool_decide (fst c ∈ newer))) job_columns)
    [{["url" := "https://host/f.bin"]}].

Lemma Open_spec_witness :
  exists c', Open (fun _ => None) (mkCatalog {["jobs" := old_jobs]} ∅) = (c', inr tt)
    /\ (rows <$> tables c' !! "jobs") = Some [{["url" := "https://host/f.bin"]}]
    /\ has_column "archive_password" c'.
Proof.
  pose proof (Open_spec (fun _ => None) (mkCatalog {["jobs" := old_jobs]} ∅)) as H.
  destruct (Open (fun _ => None) (mkCatalog {["jobs" := old_jobs]} ∅)) as [c' r]. destruct H as (Hk & _ & Hr & Hok).
  - intros t Ht col Hin Hl. cbn in Ht. rewrite lookup_singleton_eq in Ht. injection Ht as <-.
    apply list_elem_of_In, in_map_iff in Hin as (x & <- & Hx). apply list_elem_of_In, in_map_iff.
    exists x. split; [reflexivity|]. apply filter_In. split; [exact Hx|].
    apply negb_true_iff, bool_decide_eq_false. exact Hl.
  - specialize (Hok (fun _ => eq_refl)) as ->. destruct (Hr eq_refl) as [[Hcol _] _].
    exists c'. split; [reflexivity|]. split.
    + destruct (Hk "jobs" old_jobs) as (t' & -> & Hrows & _); [apply lookup_singleton_eq|].
      cbn. by rewrite Hrows.
    + apply Hcol. apply list_elem_of_In. cbn. tauto.
Defined.
