(* ===== verification/Files.v ===== *)
(** * Package os: the files the daemon reads and writes itself

    A name denotes an inode, an open file is an inode with an offset, and an inode lives as
    long as something refers to it, as on the Linux file systems of the container.  [file_act]
    is the effect of one system call.  The environment [FileEnv] may make any call fail,
    decides how many bytes a read returns or a failing write still wrote, and draws the
    random part of a temporary file's name. *)

From S2P Require Import Prelude GoStrings GoPath GoError.

#[local] Open Scope string_scope.

(** A byte is a Z from 0 to 255. *)
Abbreviation bytes := (list Z).

Record Inode : Type := mkInode { content : bytes; perm : Z }.

Record FileSys : Type := mkFileSys {
  names : gmap string nat;
  inodes : list Inode;
  handles : gmap nat (nat * nat);       (* an open file: its inode and offset *)
  next_handle : nat
}.

Definition no_files : FileSys := mkFileSys ∅ [] ∅ 0.

Ltac derive_fs := derive_assign constr:((mkFileSys, names, inodes, handles, next_handle)).

#[global] Instance assign_names : Assign names. Proof. derive_fs. Defined.
#[global] Instance assign_inodes : Assign inodes. Proof. derive_fs. Defined.
#[global] Instance assign_handles : Assign handles. Proof. derive_fs. Defined.
#[global] Instance assign_next_handle : Assign next_handle. Proof. derive_fs. Defined.

Inductive file_req : Type :=
  | FOpen (path : string)                   (* os.Open *)
  | FStat (h : nat)                         (* f.Stat().Mode().Perm() *)
  | FCreateTemp (dir pattern : string)      (* os.CreateTemp *)
  | FChmod (h : nat) (mode : Z)
  | FRead (h : nat) (cap : nat)             (* f.Read of a buffer of [cap] bytes *)
  | FWrite (h : nat) (data : bytes)
  | FSync (h : nat)
  | FClose (h : nat)
  | FRename (old new : string).

(** [FRead] returns the bytes and an error, both of which a caller looks at. *)
Definition file_resp (r : file_req) : Type :=
  match r with
  | FOpen _ => res nat
  | FStat _ => res Z
  | FCreateTemp _ _ => res (nat * string)
  | FRead _ _ => (bytes * option error)%type
  | _ => res unit
  end.

Record FileEnv : Type := mkFileEnv {
  file_fault : nat -> option error;
  io_count : nat -> nat;
  temp_random : nat -> string
}.

Definition err_closed : error := ENew "file already closed".
Definition err_exist : error := ENew "file exists".
Definition err_pattern : error := ENew "pattern contains path separator".

(** The name [os.CreateTemp] builds: the random part replaces the last star of the pattern,
    or follows the pattern. *)
Definition temp_name (dir pattern random : string) : string :=
  let '(prefix, suffix) :=
    match LastIndex pattern "*" with
    | Some i => (take_str i pattern, drop_str (S i) pattern)
    | None => (pattern, "")
    end in
  (if HasSuffix dir "/" then dir else dir ++ "/") ++ prefix ++ random ++ suffix.

Definition open_inode (fs : FileSys) (i : nat) : FileSys * nat :=
  (fs <| handles := <[next_handle fs := (i, 0)]> (handles fs) |>
      <| next_handle := S (next_handle fs) |>, next_handle fs).

Definition set_offset (fs : FileSys) (h i off : nat) : FileSys :=
  fs <| handles := <[h := (i, off)]> (handles fs) |>.

Definition overwrite (c : bytes) (off : nat) (data : bytes) : bytes :=
  (take off c ++ data ++ drop (off + length data) c)%list.

Definition write_inode (fs : FileSys) (h i off : nat) (data : bytes) : FileSys :=
  set_offset
    (fs <| inodes := alter (fun f => mkInode (overwrite (content f) off data) (perm f)) i (inodes fs) |>)
    h i (off + length data).

(** A read returns at least one byte unless the file is at its end. *)
Definition read_size (fe : FileEnv) (n cap rest : nat) : nat :=
  Nat.min (Nat.min cap rest) (Nat.max 1 (io_count fe n)).

Definition file_act (fe : FileEnv) (n : nat) (fs : FileSys) (r : file_req)
  : FileSys * file_resp r :=
  match r return FileSys * file_resp r with
  | FOpen path =>
      match file_fault fe n, names fs !! path with
      | Some err, _ => (fs, inl err)
      | None, None => (fs, inl (ESentinel ErrNotExist))
      | None, Some i => let '(fs', h) := open_inode fs i in (fs', inr h)
      end
  | FStat h =>
      match file_fault fe n, handles fs !! h with
      | Some err, _ => (fs, inl err)
      | None, None => (fs, inl err_closed)
      | None, Some (i, _) => (fs, inr (default 0%Z (perm <$> inodes fs !! i)))
      end
  | FCreateTemp dir pattern =>
      let name := temp_name dir pattern (temp_random fe n) in
      if contains_char pattern char_slash then (fs, inl err_pattern)
      else match file_fault fe n, names fs !! name with
      | Some err, _ => (fs, inl err)
      | None, Some _ => (fs, inl err_exist)
      | None, None =>
          let i := length (inodes fs) in
          let '(fs', h) := open_inode
            (fs <| names := <[name := i]> (names fs) |>
                <| inodes := (inodes fs ++ [mkInode [] 384%Z])%list |>) i in
          (fs', inr (h, name))
      end
  | FChmod h mode =>
      match file_fault fe n, handles fs !! h with
      | Some err, _ => (fs, inl err)
      | None, None => (fs, inl err_closed)
      | None, Some (i, _) =>
          (fs <| inodes := alter (fun f => mkInode (content f) mode) i (inodes fs) |>, inr tt)
      end
  | FRead h cap =>
      match file_fault fe n, handles fs !! h with
      | Some err, _ => (fs, ([], Some err))
      | None, None => (fs, ([], Some err_closed))
      | None, Some (i, off) =>
          let rest := drop off (default [] (content <$> inodes fs !! i)) in
          if (length rest =? 0)%nat then (fs, ([], Some (ESentinel EOF)))
          else
            let k := read_size fe n cap (length rest) in
            (set_offset fs h i (off + k), (take k rest, None))
      end
  | FWrite h data =>
      match handles fs !! h, file_fault fe n with
      | None, _ => (fs, inl err_closed)
      | Some (i, off), Some err =>
          (write_inode fs h i off (take (io_count fe n) data), inl err)
      | Some (i, off), None => (write_inode fs h i off data, inr tt)
      end
  | FSync h =>
      match file_fault fe n, handles fs !! h with
      | Some err, _ => (fs, inl err)
      | None, None => (fs, inl err_closed)
      | None, Some _ => (fs, inr tt)
      end
  | FClose h =>
      match handles fs !! h with
      | None => (fs, inl err_closed)
      | Some _ =>
          (fs <| handles := delete h (handles fs) |>,
           match file_fault fe n with Some err => inl err | None => inr tt end)
      end
  | FRename old new =>
      match file_fault fe n, names fs !! old with
      | Some err, _ => (fs, inl err)
      | None, None => (fs, inl (ESentinel ErrNotExist))
      | None, Some i => (fs <| names := <[new := i]> (delete old (names fs)) |>, inr tt)
      end
  end.

(** [os.Remove] of a file. *)
Definition remove_name (fs : FileSys) (path : string) : FileSys :=
  fs <| names := delete path (names fs) |>.

(** What a name shows: its content and permissions. *)
Definition read_file (fs : FileSys) (path : string) : option Inode :=
  names fs !! path ≫= fun i => inodes fs !! i.

(** Names and open files denote inodes that exist, and handles are fresh. *)
Record fs_ok (fs : FileSys) : Prop := {
  fs_names : forall p i, names fs !! p = Some i -> (i < length (inodes fs))%nat;
  fs_handles : forall h x, handles fs !! h = Some x -> (h < next_handle fs)%nat
}.

(** No call fails, and a read fills its buffer as far as the file goes. *)
Definition calm_files : FileEnv := mkFileEnv (fun _ => None) (fun _ => 4096) (fun _ => "1").
