(* ===== verification/Aes.v ===== *)
(** * Packages crypto/aes and crypto/cipher, as the MEGA decryptor uses them

    AES with a 128-bit key after FIPS 197, and the counter mode stream over any block cipher.
    Bytes are Zs from 0 to 255 and blocks lists of sixteen of them, in the order of the
    standard (column by column). *)

From S2P Require Import Prelude.

#[local] Open Scope Z_scope.
#[local] Open Scope list_scope.

Definition xor_bytes (a b : list Z) : list Z := zip_with Z.lxor a b.

(** ** The byte field *)

Definition xtime (b : Z) : Z :=
  let s := Z.shiftl b 1 in
  if Z.testbit s 8 then Z.lxor s 0x11b else s.

Fixpoint gmul_bits (n : nat) (a b : Z) : Z :=
  match n with
  | O => 0
  | S n => Z.lxor (if Z.odd b then a else 0) (gmul_bits n (xtime a) (Z.shiftr b 1))
  end.

Definition gmul (a b : Z) : Z := gmul_bits 8 a b.

(** The inverse of a byte, and 0 for 0: its 254th power. *)
Definition ginv (a : Z) : Z :=
  let a2 := gmul a a in
  let a3 := gmul a2 a in
  let a6 := gmul a3 a3 in
  let a12 := gmul a6 a6 in
  let a15 := gmul a12 a3 in
  let a30 := gmul a15 a15 in
  let a60 := gmul a30 a30 in
  let a120 := gmul a60 a60 in
  let a126 := gmul a120 a6 in
  let a127 := gmul a126 a in
  gmul a127 a127.

Definition rotl8 (b : Z) (n : Z) : Z := Z.land (Z.lor (Z.shiftl b n) (Z.shiftr b (8 - n))) 255.

Definition sub_byte (b : Z) : Z :=
  let i := ginv b in
  Z.lxor (Z.lxor (Z.lxor (Z.lxor (Z.lxor i (rotl8 i 1)) (rotl8 i 2)) (rotl8 i 3)) (rotl8 i 4)) 0x63.

Definition sbox : list Z := Eval vm_compute in map sub_byte (seqZ 0 256).

Definition SubByte (b : Z) : Z := nth (Z.to_nat b) sbox 0.

(** ** The rounds *)

Definition SubBytes (s : list Z) : list Z := map SubByte s.

Definition ShiftRows (s : list Z) : list Z :=
  map (fun i => nth i s 0)
    [0%nat; 5%nat; 10%nat; 15%nat; 4%nat; 9%nat; 14%nat; 3%nat;
     8%nat; 13%nat; 2%nat; 7%nat; 12%nat; 1%nat; 6%nat; 11%nat].

Fixpoint MixColumns (s : list Z) : list Z :=
  match s with
  | a :: b :: c :: d :: rest =>
      Z.lxor (Z.lxor (gmul 2 a) (gmul 3 b)) (Z.lxor c d)
      :: Z.lxor (Z.lxor a (gmul 2 b)) (Z.lxor (gmul 3 c) d)
      :: Z.lxor (Z.lxor a b) (Z.lxor (gmul 2 c) (gmul 3 d))
      :: Z.lxor (Z.lxor (gmul 3 a) b) (Z.lxor c (gmul 2 d))
      :: MixColumns rest
  | rest => rest
  end.

(** The next round key from the one before, with the round's constant. *)
Definition next_round_key (k : list Z) (rcon : Z) : list Z :=
  match k with
  | [a0; a1; a2; a3; b0; b1; b2; b3; c0; c1; c2; c3; d0; d1; d2; d3] =>
      let w0 := [Z.lxor a0 (Z.lxor (SubByte d1) rcon); Z.lxor a1 (SubByte d2);
                 Z.lxor a2 (SubByte d3); Z.lxor a3 (SubByte d0)] in
      let w1 := xor_bytes [b0; b1; b2; b3] w0 in
      let w2 := xor_bytes [c0; c1; c2; c3] w1 in
      let w3 := xor_bytes [d0; d1; d2; d3] w2 in
      w0 ++ w1 ++ w2 ++ w3
  | _ => k
  end.

Definition rcons : list Z := [1; 2; 4; 8; 16; 32; 64; 128; 27; 54].

Fixpoint round_keys (k : list Z) (rcs : list Z) : list (list Z) :=
  match rcs with
  | [] => []
  | rc :: rest => let k' := next_round_key k rc in k' :: round_keys k' rest
  end.

Fixpoint aes_rounds (keys : list (list Z)) (s : list Z) : list Z :=
  match keys with
  | [] => s
  | [k] => xor_bytes (ShiftRows (SubBytes s)) k
  | k :: rest => aes_rounds rest (xor_bytes (MixColumns (ShiftRows (SubBytes s))) k)
  end.

(** [aes.NewCipher(key).Encrypt] for a key of sixteen bytes. *)
Definition aes_encrypt (key block : list Z) : list Z :=
  aes_rounds (round_keys key rcons) (xor_bytes block key).

(** FIPS 197, appendix C.1. *)
Example aes_fips197 :
  aes_encrypt (seqZ 0 16)
    [0x00; 0x11; 0x22; 0x33; 0x44; 0x55; 0x66; 0x77; 0x88; 0x99; 0xaa; 0xbb; 0xcc; 0xdd; 0xee; 0xff]
  = [0x69; 0xc4; 0xe0; 0xd8; 0x6a; 0x7b; 0x04; 0x30; 0xd8; 0xcd; 0xb7; 0x80; 0x70; 0xb4; 0xc5; 0x5a].
Proof. vm_compute. reflexivity. Qed.

(** ** Counter mode *)

(** A block read as a big-endian number, and back. *)
Definition be_value (b : list Z) : Z := foldl (fun acc x => acc * 256 + x) 0 b.

Definition be_block (n : Z) : list Z :=
  map (fun i => (n / 256 ^ (15 - i)) mod 256) (seqZ 0 16).

Section Ctr.
Context (Encrypt : list Z -> list Z).

(** The key stream's byte at [pos]: the counter starts at [iv] and wraps at 128 bits. *)
Definition ctr_byte (iv : list Z) (pos : nat) : Z :=
  let n := (be_value iv + Z.of_nat (pos / 16)) mod 2 ^ 128 in
  nth (pos mod 16) (Encrypt (be_block n)) 0.

(** [stream.XORKeyStream] on a stream that has already produced [pos] bytes. *)
Definition XORKeyStream (iv : list Z) (pos : nat) (data : list Z) : list Z :=
  imap (fun i b => Z.lxor b (ctr_byte iv (pos + i))) data.

Lemma XORKeyStream_length (iv : list Z) (pos : nat) (data : list Z) :
  length (XORKeyStream iv pos data) = length data.
Proof. apply length_imap. Qed.

Lemma XORKeyStream_app (iv : list Z) (pos : nat) (a b : list Z) :
  XORKeyStream iv pos (a ++ b)
  = XORKeyStream iv pos a ++ XORKeyStream iv (pos + length a) b.
Proof.
  unfold XORKeyStream. rewrite imap_app. f_equal. apply imap_ext. intros i x _. unfold compose.
  do 2 f_equal. lia.
Qed.

(** Decrypting is encrypting again. *)
Lemma XORKeyStream_twice (iv : list Z) (pos : nat) (a : list Z) :
  XORKeyStream iv pos (XORKeyStream iv pos a) = a.
Proof.
  apply list_eq. intros i. unfold XORKeyStream. rewrite !list_lookup_imap.
  destruct (a !! i) as [x|]; [|done]. cbn. f_equal.
  by rewrite Z.lxor_assoc, Z.lxor_nilpotent, Z.lxor_0_r.
Qed.
End Ctr.
