(* ===== verification/GoBase64.v ===== *)
(** * Package encoding/base64: RawURLEncoding

    The URL alphabet without padding.  As in Go the decoder skips line ends and ignores the
    unused bits of the last character. *)

From S2P Require Import Prelude GoStrings.

#[local] Open Scope Z_scope.
#[local] Open Scope list_scope.

Definition alphabet_url (v : Z) : ascii :=
  if v <? 26 then ascii_of_N (Z.to_N (65 + v))
  else if v <? 52 then ascii_of_N (Z.to_N (71 + v))
  else if v <? 62 then ascii_of_N (Z.to_N (v - 4))
  else if v =? 62 then "-"%char else "_"%char.

Definition sextet (c : ascii) : option Z :=
  if is_upper c then Some (byte_code c - 65)
  else if is_lower c then Some (byte_code c - 71)
  else if is_digit c then Some (byte_code c + 4)
  else if Ascii.eqb c "-" then Some 62
  else if Ascii.eqb c "_" then Some 63
  else None.

Definition is_line_end (c : ascii) : bool := (byte_code c =? 10) || (byte_code c =? 13).

(** The values of the characters, or the position of one that is outside the alphabet. *)
Fixpoint sextets (pos : nat) (s : string) : nat + list Z :=
  match s with
  | EmptyString => inr []
  | String c s' =>
      if is_line_end c then sextets (S pos) s'
      else match sextet c with
           | None => inl pos
           | Some v => match sextets (S pos) s' with
                       | inl i => inl i
                       | inr l => inr (v :: l)
                       end
           end
  end.

Fixpoint decode_sextets (l : list Z) : option (list Z) :=
  match l with
  | [] => Some []
  | [_] => None
  | [a; b] => Some [a * 4 + b / 16]
  | [a; b; c] => Some [a * 4 + b / 16; (b mod 16) * 16 + c / 4]
  | a :: b :: c :: d :: rest =>
      r ← decode_sextets rest;
      Some (a * 4 + b / 16 :: (b mod 16) * 16 + c / 4 :: (c mod 4) * 64 + d :: r)
  end.

(** [RawURLEncoding.DecodeString], or the offset in its CorruptInputError. *)
Definition DecodeString (s : string) : nat + list Z :=
  match sextets 0 s with
  | inl i => inl i
  | inr l => match decode_sextets l with
             | None => inl (String.length s - 1)%nat
             | Some b => inr b
             end
  end.

Fixpoint encode_sextets (l : list Z) : list Z :=
  match l with
  | [] => []
  | [x] => [x / 4; (x mod 4) * 16]
  | [x; y] => [x / 4; (x mod 4) * 16 + y / 16; (y mod 16) * 4]
  | x :: y :: z :: rest =>
      x / 4 :: (x mod 4) * 16 + y / 16 :: (y mod 16) * 4 + z / 64 :: z mod 64 :: encode_sextets rest
  end.

Fixpoint string_of_sextets (l : list Z) : string :=
  match l with
  | [] => EmptyString
  | v :: l => String (alphabet_url v) (string_of_sextets l)
  end.

(** [RawURLEncoding.EncodeToString]. *)
Definition EncodeToString (l : list Z) : string := string_of_sextets (encode_sextets l).

Definition is_byte (b : Z) : Prop := 0 <= b < 256.
Definition is_sextet (v : Z) : Prop := 0 <= v < 64.

(** A property of the 64 values, by computing it on each. *)
Lemma sextet_cases (P : Z -> bool) (v : Z) :
  forallb P (seqZ 0 64) = true -> is_sextet v -> P v = true.
Proof.
  intros H Hv. rewrite forallb_forall in H. apply H. apply list_elem_of_In, elem_of_seqZ.
  unfold is_sextet in Hv. lia.
Qed.

Lemma sextet_alphabet (v : Z) :
  is_sextet v -> sextet (alphabet_url v) = Some v /\ is_line_end (alphabet_url v) = false.
Proof.
  intros Hv.
  pose proof (sextet_cases (fun v => bool_decide (sextet (alphabet_url v) = Some v)
    && negb (is_line_end (alphabet_url v))) v eq_refl Hv) as H.
  cbn beta in H. bool_prop. by split.
Qed.

Lemma list_ind3 (P : list Z -> Prop) :
  P [] -> (forall x, P [x]) -> (forall x y, P [x; y]) ->
  (forall x y z l, P l -> P (x :: y :: z :: l)) -> forall l, P l.
Proof.
  intros H0 H1 H2 H3. assert (forall n l, (length l <= n)%nat -> P l) as H; [|intros l; by eapply H].
  induction n as [|n IH]; intros l Hl; [destruct l; [done|cbn in Hl; lia]|].
  destruct l as [|x [|y [|z l]]]; [done|done|done|]. apply H3, IH. cbn in Hl. lia.
Qed.

Lemma encode_sextets_range (l : list Z) :
  Forall is_byte l -> Forall is_sextet (encode_sextets l).
Proof.
  unfold is_byte, is_sextet. induction l as [|x|x y|x y z l IH] using list_ind3; cbn; intros H;
    repeat match goal with H : Forall _ (_ :: _) |- _ => apply Forall_cons in H as [? H] end;
    repeat (apply Forall_cons; split; [Z.to_euclidean_division_equations; lia|]); auto.
Qed.

Lemma decode_encode_sextets (l : list Z) :
  Forall is_byte l -> decode_sextets (encode_sextets l) = Some l.
Proof.
  unfold is_byte. induction l as [|x|x y|x y z l IH] using list_ind3; cbn; intros H;
    repeat match goal with H : Forall _ (_ :: _) |- _ => apply Forall_cons in H as [? H] end;
    [done| | |rewrite IH by done; cbn];
    repeat f_equal; Z.to_euclidean_division_equations; lia.
Qed.

Lemma sextets_string (l : list Z) (pos : nat) :
  Forall is_sextet l -> sextets pos (string_of_sextets l) = inr l.
Proof.
  intros H. revert pos. induction H as [|v l Hv _ IH]; intros pos; [done|]. cbn.
  destruct (sextet_alphabet v Hv) as [-> ->]. by rewrite IH.
Qed.

Lemma DecodeString_Encode (l : list Z) :
  Forall is_byte l -> DecodeString (EncodeToString l) = inr l.
Proof.
  intros H. unfold DecodeString, EncodeToString.
  rewrite sextets_string by by apply encode_sextets_range. by rewrite decode_encode_sextets.
Qed.
