(* ===== verification/AesInv.v ===== *)
(** * Packages crypto/aes and crypto/cipher: decryption and block chaining

    The inverse cipher of FIPS 197 and the CBC mode, as the MEGA resolver uses them to read a
    file's name.  The inverse cipher undoes the cipher ([aes_decrypt_encrypt]), and so does
    the mode ([CBC_decrypt_encrypt]). *)

From Stdlib Require Import Btauto.
From S2P Require Import Prelude GoStrings GoBase64 Aes.

#[local] Open Scope Z_scope.
#[local] Open Scope list_scope.

Definition inv_sbox : list Z :=
  Eval vm_compute in
    map (fun v => Z.of_nat (default 0%nat (fst <$> list_find (fun x => x = v) sbox))) (seqZ 0 256).

Definition InvSubByte (b : Z) : Z := nth (Z.to_nat b) inv_sbox 0.

Definition InvSubBytes (s : list Z) : list Z := map InvSubByte s.

Definition InvShiftRows (s : list Z) : list Z :=
  map (fun i => nth i s 0)
    [0%nat; 13%nat; 10%nat; 7%nat; 4%nat; 1%nat; 14%nat; 11%nat;
     8%nat; 5%nat; 2%nat; 15%nat; 12%nat; 9%nat; 6%nat; 3%nat].

Fixpoint InvMixColumns (s : list Z) : list Z :=
  match s with
  | a :: b :: c :: d :: rest =>
      Z.lxor (Z.lxor (gmul 14 a) (gmul 11 b)) (Z.lxor (gmul 13 c) (gmul 9 d))
      :: Z.lxor (Z.lxor (gmul 9 a) (gmul 14 b)) (Z.lxor (gmul 11 c) (gmul 13 d))
      :: Z.lxor (Z.lxor (gmul 13 a) (gmul 9 b)) (Z.lxor (gmul 14 c) (gmul 11 d))
      :: Z.lxor (Z.lxor (gmul 11 a) (gmul 13 b)) (Z.lxor (gmul 9 c) (gmul 14 d))
      :: InvMixColumns rest
  | rest => rest
  end.

(** The rounds backwards, the last round key first. *)
Fixpoint aes_inv_rounds (keys : list (list Z)) (s : list Z) : list Z :=
  match keys with
  | [] => s
  | [k] => InvSubBytes (InvShiftRows (xor_bytes s k))
  | k :: rest => InvSubBytes (InvShiftRows (InvMixColumns (xor_bytes (aes_inv_rounds rest s) k)))
  end.

(** [aes.NewCipher(key).Decrypt] for a key of sixteen bytes. *)
Definition aes_decrypt (key block : list Z) : list Z :=
  xor_bytes (aes_inv_rounds (round_keys key rcons) block) key.

(** FIPS 197, appendix C.1. *)
Example aes_inv_fips197 :
  aes_decrypt (seqZ 0 16)
    [0x69; 0xc4; 0xe0; 0xd8; 0x6a; 0x7b; 0x04; 0x30; 0xd8; 0xcd; 0xb7; 0x80; 0x70; 0xb4; 0xc5; 0x5a]
  = [0x00; 0x11; 0x22; 0x33; 0x44; 0x55; 0x66; 0x77; 0x88; 0x99; 0xaa; 0xbb; 0xcc; 0xdd; 0xee; 0xff].
Proof. vm_compute. reflexivity. Qed.

(** ** Cipher block chaining *)

Section Cbc.
Context (Encrypt Decrypt : list Z -> list Z).

(** [n] blocks of sixteen bytes. *)
Fixpoint cbc_encrypt (n : nat) (prev data : list Z) : list Z :=
  match n with
  | O => []
  | S n => let c := Encrypt (xor_bytes (take 16 data) prev) in c ++ cbc_encrypt n c (drop 16 data)
  end.

Fixpoint cbc_decrypt (n : nat) (prev data : list Z) : list Z :=
  match n with
  | O => []
  | S n => let c := take 16 data in
           xor_bytes (Decrypt c) prev ++ cbc_decrypt n c (drop 16 data)
  end.

(** [NewCBCDecrypter(block, iv).CryptBlocks] on whole blocks, and the encrypter. *)
Definition CBCEncrypt (iv data : list Z) : list Z := cbc_encrypt (length data / 16) iv data.
Definition CBCDecrypt (iv data : list Z) : list Z := cbc_decrypt (length data / 16) iv data.
End Cbc.

(** ** The inverse cipher undoes the cipher *)

Definition is_block (s : list Z) : Prop := length s = 16%nat /\ Forall is_byte s.

(** A property of the 256 bytes, by computing it on each. *)
Lemma byte_cases (P : Z -> bool) (b : Z) : forallb P (seqZ 0 256) = true -> is_byte b -> P b = true.
Proof.
  intros H Hb. rewrite forallb_forall in H. apply H. apply list_elem_of_In, elem_of_seqZ.
  unfold is_byte in Hb. lia.
Qed.

Lemma byte_eq (f g : Z -> Z) (b : Z) :
  forallb (fun x => f x =? g x) (seqZ 0 256) = true -> is_byte b -> f b = g b.
Proof. intros H Hb. apply Z.eqb_eq. by apply (byte_cases (fun x => f x =? g x)). Qed.


Lemma is_byte_bits (b : Z) : is_byte b <-> 0 <= b /\ forall i, 8 <= i -> Z.testbit b i = false.
Proof.
  unfold is_byte. split.
  - intros [H1 H2]. split; [done|]. intros i Hi. destruct (decide (b = 0)) as [->|Hb]; [apply Z.bits_0|].
    apply Z.bits_above_log2; [done|]. apply Z.log2_lt_pow2; [lia|].
    pose proof (Z.pow_le_mono_r 2 8 i ltac:(lia) ltac:(lia)). lia.
  - intros [H1 H2]. split; [done|]. destruct (Z_lt_ge_dec b 256) as [|H]; [done|]. exfalso.
    assert (8 <= Z.log2 b) as Hl by (apply Z.log2_le_pow2; lia).
    pose proof (H2 _ Hl) as Hf. rewrite Z.bit_log2 in Hf by lia. done.
Qed.

Lemma lxor_byte (a b : Z) : is_byte a -> is_byte b -> is_byte (Z.lxor a b).
Proof.
  rewrite !is_byte_bits. intros [Ha1 Ha2] [Hb1 Hb2]. split; [by apply Z.lxor_nonneg|].
  intros i Hi. by rewrite Z.lxor_spec, Ha2, Hb2.
Qed.

Lemma xor_block (s k : list Z) : is_block s -> is_block k -> is_block (xor_bytes s k).
Proof.
  intros [Hs1 Hs2] [Hk1 Hk2]. split.
  - unfold xor_bytes. rewrite length_zip_with. lia.
  - clear Hs1 Hk1. revert k Hk2. induction Hs2 as [|a s Ha _ IH]; intros k Hk; [constructor|].
    destruct Hk as [|b k Hb Hk]; [constructor|]. constructor; [by apply lxor_byte|by apply IH].
Qed.

Lemma xor_twice (s k : list Z) : length s = length k -> xor_bytes (xor_bytes s k) k = s.
Proof.
  revert k. induction s as [|a s IH]; intros [|b k] H; try done. cbn in *. f_equal; [|apply IH; lia].
  by rewrite Z.lxor_assoc, Z.lxor_nilpotent, Z.lxor_0_r.
Qed.

Lemma SubByte_byte (b : Z) : is_byte b -> is_byte (SubByte b) /\ InvSubByte (SubByte b) = b.
Proof.
  intros Hb. pose proof (byte_cases (fun b => (0 <=? SubByte b) && (SubByte b <? 256)
    && (InvSubByte (SubByte b) =? b)) b ltac:(vm_compute; reflexivity) Hb) as H. cbn beta in H.
  bool_prop. by split.
Qed.

Lemma SubBytes_block (s : list Z) :
  is_block s -> is_block (SubBytes s) /\ InvSubBytes (SubBytes s) = s.
Proof.
  intros [H1 H2]. unfold is_block, SubBytes, InvSubBytes. rewrite length_map. rewrite H1.
  split; [split; [done|]|]; clear H1; induction H2 as [|b s Hb _ IH]; cbn; try constructor; try done.
  - by apply SubByte_byte.
  - f_equal; [by apply SubByte_byte|done].
Qed.

Ltac split_block s H :=
  destruct H as [H ?]; do 16 (destruct s as [|? s]; [discriminate H|]); destruct s; [clear H|discriminate H].

Lemma ShiftRows_block (s : list Z) :
  is_block s -> is_block (ShiftRows s) /\ InvShiftRows (ShiftRows s) = s.
Proof.
  intros H. split_block s H. repeat match goal with H : Forall _ (_ :: _) |- _ =>
    apply Forall_cons in H as [? H] end. split; [|done]. split; [done|].
  by repeat (apply Forall_cons; split).
Qed.

(** Multiplication in the byte field is additive. *)
Lemma gmul_lxor (a x y : Z) : gmul a (Z.lxor x y) = Z.lxor (gmul a x) (gmul a y).
Proof.
  unfold gmul. generalize 8%nat. intros n. revert a x y.
  induction n as [|n IH]; intros a x y; cbn [gmul_bits]; [done|].
  rewrite Z.shiftr_lxor, IH. assert (Z.odd (Z.lxor x y) = xorb (Z.odd x) (Z.odd y)) as ->.
  { rewrite <- !Z.bit0_odd. apply Z.lxor_spec. }
  apply Z.bits_inj'. intros i Hi. rewrite !Z.lxor_spec.
  destruct (Z.odd x), (Z.odd y); cbn [xorb]; rewrite ?Z.bits_0; btauto.
Qed.

Definition sum4 (a b c d : Z) : Z := Z.lxor (Z.lxor a b) (Z.lxor c d).

Lemma sum4_transpose (a1 a2 a3 a4 b1 b2 b3 b4 c1 c2 c3 c4 d1 d2 d3 d4 : Z) :
  sum4 (sum4 a1 b1 c1 d1) (sum4 a2 b2 c2 d2) (sum4 a3 b3 c3 d3) (sum4 a4 b4 c4 d4)
  = sum4 (sum4 a1 a2 a3 a4) (sum4 b1 b2 b3 b4) (sum4 c1 c2 c3 c4) (sum4 d1 d2 d3 d4).
Proof. apply Z.bits_inj'. intros i Hi. unfold sum4. rewrite !Z.lxor_spec. btauto. Qed.

(** A row of the product, from its entries. *)
Lemma sum4_row (a1 a2 a3 a4 b1 b2 b3 b4 c1 c2 c3 c4 d1 d2 d3 d4 A B C D : Z) :
  sum4 a1 a2 a3 a4 = A -> sum4 b1 b2 b3 b4 = B -> sum4 c1 c2 c3 c4 = C -> sum4 d1 d2 d3 d4 = D ->
  sum4 (sum4 a1 b1 c1 d1) (sum4 a2 b2 c2 d2) (sum4 a3 b3 c3 d3) (sum4 a4 b4 c4 d4) = sum4 A B C D.
Proof. intros <- <- <- <-. apply sum4_transpose. Qed.

Lemma gmul_sum4 (k a b c d : Z) :
  gmul k (sum4 a b c d) = sum4 (gmul k a) (gmul k b) (gmul k c) (gmul k d).
Proof. unfold sum4. by rewrite !gmul_lxor. Qed.

(** The products of the two matrices, entry by entry. *)
Lemma mix_products (x : Z) :
  is_byte x ->
  sum4 (gmul 14 (gmul 2 x)) (gmul 11 x) (gmul 13 x) (gmul 9 (gmul 3 x)) = x
  /\ sum4 (gmul 14 (gmul 3 x)) (gmul 11 (gmul 2 x)) (gmul 13 x) (gmul 9 x) = 0
  /\ sum4 (gmul 14 x) (gmul 11 (gmul 3 x)) (gmul 13 (gmul 2 x)) (gmul 9 x) = 0
  /\ sum4 (gmul 14 x) (gmul 11 x) (gmul 13 (gmul 3 x)) (gmul 9 (gmul 2 x)) = 0
  /\ sum4 (gmul 9 (gmul 2 x)) (gmul 14 x) (gmul 11 x) (gmul 13 (gmul 3 x)) = 0
  /\ sum4 (gmul 9 (gmul 3 x)) (gmul 14 (gmul 2 x)) (gmul 11 x) (gmul 13 x) = x
  /\ sum4 (gmul 9 x) (gmul 14 (gmul 3 x)) (gmul 11 (gmul 2 x)) (gmul 13 x) = 0
  /\ sum4 (gmul 9 x) (gmul 14 x) (gmul 11 (gmul 3 x)) (gmul 13 (gmul 2 x)) = 0
  /\ sum4 (gmul 13 (gmul 2 x)) (gmul 9 x) (gmul 14 x) (gmul 11 (gmul 3 x)) = 0
  /\ sum4 (gmul 13 (gmul 3 x)) (gmul 9 (gmul 2 x)) (gmul 14 x) (gmul 11 x) = 0
  /\ sum4 (gmul 13 x) (gmul 9 (gmul 3 x)) (gmul 14 (gmul 2 x)) (gmul 11 x) = x
  /\ sum4 (gmul 13 x) (gmul 9 x) (gmul 14 (gmul 3 x)) (gmul 11 (gmul 2 x)) = 0
  /\ sum4 (gmul 11 (gmul 2 x)) (gmul 13 x) (gmul 9 x) (gmul 14 (gmul 3 x)) = 0
  /\ sum4 (gmul 11 (gmul 3 x)) (gmul 13 (gmul 2 x)) (gmul 9 x) (gmul 14 x) = 0
  /\ sum4 (gmul 11 x) (gmul 13 (gmul 3 x)) (gmul 9 (gmul 2 x)) (gmul 14 x) = 0
  /\ sum4 (gmul 11 x) (gmul 13 x) (gmul 9 (gmul 3 x)) (gmul 14 (gmul 2 x)) = x.
Proof.
  intros Hx. repeat split;
    match goal with |- ?l = ?r =>
      let f := eval pattern x in l in let g := eval pattern x in r in
      lazymatch f with ?f' _ => lazymatch g with
        | ?g' x => apply (byte_eq f' g' x); [vm_compute; reflexivity|exact Hx]
        | _ => apply (byte_eq f' (fun _ => r) x); [vm_compute; reflexivity|exact Hx] end end
    end.
Qed.

Lemma gmul_byte (k x : Z) : k = 2 \/ k = 3 -> is_byte x -> is_byte (gmul k x).
Proof.
  intros Hk Hx. pose proof (byte_cases (fun x => (0 <=? gmul 2 x) && (gmul 2 x <? 256)
    && (0 <=? gmul 3 x) && (gmul 3 x <? 256)) x ltac:(vm_compute; reflexivity) Hx) as H. cbn beta in H.
  bool_prop. by destruct Hk as [-> | ->].
Qed.

Lemma mix_column (a b c d : Z) (rest : list Z) :
  is_byte a -> is_byte b -> is_byte c -> is_byte d ->
  InvMixColumns (MixColumns (a :: b :: c :: d :: rest))
  = a :: b :: c :: d :: InvMixColumns (MixColumns rest).
Proof.
  intros Ha Hb Hc Hd.
  set (p := sum4 (gmul 2 a) (gmul 3 b) c d). set (q := sum4 a (gmul 2 b) (gmul 3 c) d).
  set (u := sum4 a b (gmul 2 c) (gmul 3 d)). set (v := sum4 (gmul 3 a) b c (gmul 2 d)).
  transitivity (sum4 (gmul 14 p) (gmul 11 q) (gmul 13 u) (gmul 9 v)
    :: sum4 (gmul 9 p) (gmul 14 q) (gmul 11 u) (gmul 13 v)
    :: sum4 (gmul 13 p) (gmul 9 q) (gmul 14 u) (gmul 11 v)
    :: sum4 (gmul 11 p) (gmul 13 q) (gmul 9 u) (gmul 14 v) :: InvMixColumns (MixColumns rest));
    [reflexivity|]. unfold p, q, u, v.
  rewrite !gmul_sum4.
  destruct (mix_products a Ha) as (A1 & _ & _ & _ & A5 & _ & _ & _ & A9 & _ & _ & _ & A13 & _).
  destruct (mix_products b Hb) as (_ & B2 & _ & _ & _ & B6 & _ & _ & _ & B10 & _ & _ & _ & B14 & _).
  destruct (mix_products c Hc) as (_ & _ & C3 & _ & _ & _ & C7 & _ & _ & _ & C11 & _ & _ & _ & C15 & _).
  destruct (mix_products d Hd) as (_ & _ & _ & D4 & _ & _ & _ & D8 & _ & _ & _ & D12 & _ & _ & _ & D16).
  rewrite (sum4_row _ _ _ _ _ _ _ _ _ _ _ _ _ _ _ _ _ _ _ _ A1 B2 C3 D4),
    (sum4_row _ _ _ _ _ _ _ _ _ _ _ _ _ _ _ _ _ _ _ _ A5 B6 C7 D8),
    (sum4_row _ _ _ _ _ _ _ _ _ _ _ _ _ _ _ _ _ _ _ _ A9 B10 C11 D12),
    (sum4_row _ _ _ _ _ _ _ _ _ _ _ _ _ _ _ _ _ _ _ _ A13 B14 C15 D16).
  unfold sum4. by rewrite !Z.lxor_0_r, !Z.lxor_0_l.
Qed.

Lemma MixColumns_block (s : list Z) :
  is_block s -> is_block (MixColumns s) /\ InvMixColumns (MixColumns s) = s.
Proof.
  intros H. split_block s H. repeat match goal with H : Forall _ (_ :: _) |- _ =>
    apply Forall_cons in H as [? H] end. split; [|by rewrite !mix_column].
  split; [done|]. cbn [MixColumns].
  repeat (apply Forall_cons; split);
    repeat first [apply gmul_byte; [auto|] | apply lxor_byte | done | apply Forall_nil_2].
Qed.

Definition good_keys (keys : list (list Z)) : Prop := Forall is_block keys.

Lemma aes_rounds_block (keys : list (list Z)) (s : list Z) :
  good_keys keys -> is_block s -> is_block (aes_rounds keys s) /\ aes_inv_rounds keys (aes_rounds keys s) = s.
Proof.
  intros Hk. revert s. induction Hk as [|k keys Hk Hks IH]; intros s Hs; [done|].
  destruct (SubBytes_block s Hs) as [H1 E1]. destruct (ShiftRows_block _ H1) as [H2 E2].
  destruct keys as [|k2 keys].
  - cbn [aes_rounds aes_inv_rounds]. split; [by apply xor_block|].
    rewrite xor_twice; [by rewrite E2, E1|]. by rewrite (proj1 H2), (proj1 Hk).
  - destruct (MixColumns_block _ H2) as [H3 E3].
    change (aes_rounds (k :: k2 :: keys) s)
      with (aes_rounds (k2 :: keys) (xor_bytes (MixColumns (ShiftRows (SubBytes s))) k)).
    destruct (IH (xor_bytes (MixColumns (ShiftRows (SubBytes s))) k)) as [H4 E4]; [by apply xor_block|].
    split; [done|].
    change (aes_inv_rounds (k :: k2 :: keys) ?x)
      with (InvSubBytes (InvShiftRows (InvMixColumns (xor_bytes (aes_inv_rounds (k2 :: keys) x) k)))).
    rewrite E4, xor_twice; [by rewrite E3, E2, E1|]. by rewrite (proj1 H3), (proj1 Hk).
Qed.

Lemma next_round_key_block (k : list Z) (rc : Z) :
  is_block k -> is_byte rc -> is_block (next_round_key k rc).
Proof.
  intros H Hr. split_block k H. repeat match goal with H : Forall _ (_ :: _) |- _ =>
    apply Forall_cons in H as [? H] end. split; [done|]. cbn [next_round_key].
  unfold xor_bytes. cbn [zip_with app].
  repeat (apply Forall_cons; split);
    repeat first [apply lxor_byte | apply SubByte_byte | done]; constructor.
Qed.

Lemma round_keys_block (k : list Z) : is_block k -> good_keys (round_keys k rcons).
Proof.
  assert (forall rcs k, Forall is_byte rcs -> is_block k -> good_keys (round_keys k rcs)) as H.
  { intros rcs k' Hr. revert k'. induction Hr as [|rc rcs Hrc _ IH]; intros k' Hk; [constructor|].
    cbn [round_keys]. constructor; [by apply next_round_key_block|]. apply IH.
    by apply next_round_key_block. }
  apply H. unfold rcons, is_byte. repeat constructor; done.
Qed.

Lemma aes_decrypt_encrypt (key block : list Z) :
  is_block key -> is_block block ->
  is_block (aes_encrypt key block) /\ aes_decrypt key (aes_encrypt key block) = block.
Proof.
  intros Hk Hb. unfold aes_encrypt, aes_decrypt.
  destruct (aes_rounds_block (round_keys key rcons) (xor_bytes block key)) as [H1 H2];
    [by apply round_keys_block|by apply xor_block|].
  split; [done|]. rewrite H2. apply xor_twice. by rewrite (proj1 Hb), (proj1 Hk).
Qed.

(** ** Chaining undoes chaining *)

Section CbcSpec.
Context (Encrypt Decrypt : list Z -> list Z).
Context (HE : forall b, is_block b -> is_block (Encrypt b) /\ Decrypt (Encrypt b) = b).

Lemma cbc_decrypt_encrypt (n : nat) (prev data : list Z) :
  is_block prev -> length data = (16 * n)%nat -> Forall is_byte data ->
  length (cbc_encrypt Encrypt n prev data) = (16 * n)%nat
  /\ Forall is_byte (cbc_encrypt Encrypt n prev data)
  /\ cbc_decrypt Decrypt n prev (cbc_encrypt Encrypt n prev data) = data.
Proof using HE.
  revert prev data. induction n as [|n IH]; intros prev data Hp Hl Hd; cbn [cbc_encrypt cbc_decrypt].
  - destruct data; [done|discriminate Hl].
  - assert (is_block (take 16 data)) as Ht.
    { split; [rewrite length_take; lia|by apply Forall_take]. }
    destruct (HE (xor_bytes (take 16 data) prev)) as [Hc1 Hc2]; [by apply xor_block|].
    set (c := Encrypt (xor_bytes (take 16 data) prev)) in *.
    destruct (IH c (drop 16 data)) as (I1 & I2 & I3); [done|rewrite length_drop; lia|by apply Forall_drop|].
    split; [rewrite length_app, I1, (proj1 Hc1); lia|]. split; [apply Forall_app; split; [apply Hc1|done]|].
    rewrite take_app_length', drop_app_length' by (symmetry; apply Hc1). rewrite I3, Hc2, xor_twice.
    + apply take_drop.
    + by rewrite (proj1 Ht), (proj1 Hp).
Qed.

Lemma CBC_decrypt_encrypt (iv data : list Z) :
  is_block iv -> (length data mod 16 = 0)%nat -> Forall is_byte data ->
  length (CBCEncrypt Encrypt iv data) = length data
  /\ Forall is_byte (CBCEncrypt Encrypt iv data)
  /\ CBCDecrypt Decrypt iv (CBCEncrypt Encrypt iv data) = data.
Proof using HE.
  intros Hi Hm Hd. unfold CBCEncrypt, CBCDecrypt.
  assert (length data = 16 * (length data / 16))%nat as Hl.
  { pose proof (Nat.div_mod_eq (length data) 16). lia. }
  destruct (cbc_decrypt_encrypt (length data / 16) iv data Hi Hl Hd) as (H1 & H2 & H3).
  rewrite H1, <- Hl. by split.
Qed.
End CbcSpec.
