(* ===== verification/MegaCrypto.v ===== *)
(** * internal/queue/mega_decryptor.go: the content key and the checksum

    A MEGA file is encrypted with AES in counter mode; its checksum is a CBC-MAC per chunk,
    chained over the chunks and folded to eight bytes.  The calculator takes the plaintext in
    pieces of any size.  [file_mac] is the checksum of a whole file, defined directly;
    [mac_streaming] says the calculator computes it. *)

From S2P Require Import Prelude GoStrings GoError Files Aes GoBase64.

#[local] Open Scope Z_scope.
#[local] Open Scope list_scope.

(** ** The content key *)

Record megaContentKey : Type := mkKey {
  aesKey : bytes;
  nonce : bytes;
  expectMAC : bytes;
  verifyMAC : bool
}.

Definition zeros (n : nat) : bytes := repeat 0 n.

Definition parseMegaContentKey (token : string) : res megaContentKey :=
  match DecodeString (TrimSpace token) with
  | inl i =>
      let err := ("illegal base64 data at input byte " ++ Itoa (Z.of_nat i))%string in
      inl (EWrap ("mega key decode failed: " ++ err) (ENew err))
  | inr raw =>
      if (length raw =? 32)%nat then
        inr (mkKey (xor_bytes (take 16 raw) (drop 16 raw))
               (take 8 (drop 16 raw)) (take 8 (drop 24 raw)) true)
      else if (length raw =? 16)%nat then inr (mkKey raw (zeros 8) (zeros 8) false)
      else inl (ENew ("mega invalid key length: " ++ Itoa (Z.of_nat (length raw)))%string)
  end.

(** The initial counter block. *)
Definition key_iv (key : megaContentKey) : bytes := nonce key ++ zeros 8.

(** ** The calculator *)

Record megaMACCalculator : Type := mkMAC {
  base : bytes;
  fileMAC : bytes;
  chunkMAC : bytes;
  pendingBlock : bytes;
  pendingLen : nat;
  chunkIndex : Z;
  chunkRemaining : Z;
  chunkHasData : bool
}.

Ltac derive_mac := derive_assign constr:((mkMAC, base, fileMAC, chunkMAC, pendingBlock,
  pendingLen, chunkIndex, chunkRemaining, chunkHasData)).

#[global] Instance assign_fileMAC : Assign fileMAC. Proof. derive_mac. Defined.
#[global] Instance assign_chunkMAC : Assign chunkMAC. Proof. derive_mac. Defined.
#[global] Instance assign_pendingBlock : Assign pendingBlock. Proof. derive_mac. Defined.
#[global] Instance assign_pendingLen : Assign pendingLen. Proof. derive_mac. Defined.
#[global] Instance assign_chunkIndex : Assign chunkIndex. Proof. derive_mac. Defined.
#[global] Instance assign_chunkRemaining : Assign chunkRemaining. Proof. derive_mac. Defined.
#[global] Instance assign_chunkHasData : Assign chunkHasData. Proof. derive_mac. Defined.

Definition megaChunkSize (index : Z) : Z :=
  if index <? 8 then (index + 1) * 0x20000 else 0x100000.

Definition newMegaMACCalculator (nonce : bytes) : megaMACCalculator :=
  mkMAC (nonce ++ nonce) (zeros 16) (nonce ++ nonce) (zeros 16) 0 0 (megaChunkSize 0) false.

(** [binary.BigEndian]. *)
Definition Uint32 (b : bytes) : Z := be_value (take 4 b).

Definition PutUint32 (w : Z) : bytes :=
  [Z.shiftr w 24 mod 256; Z.shiftr w 16 mod 256; Z.shiftr w 8 mod 256; w mod 256].

Definition condense (mac : bytes) : bytes :=
  PutUint32 (Z.lxor (Uint32 mac) (Uint32 (drop 4 mac)))
  ++ PutUint32 (Z.lxor (Uint32 (drop 8 mac)) (Uint32 (drop 12 mac))).

Section Mac.
Context (Encrypt : bytes -> bytes).

Definition mix (mac block : bytes) : bytes := Encrypt (xor_bytes mac block).

Definition mixBlock (m : megaMACCalculator) (block : bytes) : megaMACCalculator :=
  m <| chunkMAC := mix (chunkMAC m) block |>.

(** One round of [writeChunkBytes]: how much of [p] it takes, and the state after it. *)
Definition fill_count (m : megaMACCalculator) (p : bytes) : nat :=
  Nat.min (length (pendingBlock m) - pendingLen m) (length p).

Definition fill_block (m : megaMACCalculator) (p : bytes) : megaMACCalculator :=
  let n := fill_count m p in
  let m := m <| pendingBlock := overwrite (pendingBlock m) (pendingLen m) (take n p) |>
             <| pendingLen := (pendingLen m + n)%nat |> in
  if (pendingLen m =? length (pendingBlock m))%nat
  then (mixBlock m (pendingBlock m)) <| pendingLen := 0%nat |>
  else m.

Fixpoint fill_blocks (fuel : nat) (m : megaMACCalculator) (p : bytes)
  : option megaMACCalculator :=
  match p, fuel with
  | [], _ => Some m
  | _, O => None
  | _, S fuel => fill_blocks fuel (fill_block m p) (drop (fill_count m p) p)
  end.

Definition writeChunkBytes (m : megaMACCalculator) (p : bytes) : option megaMACCalculator :=
  if (length p =? 0)%nat then Some m
  else fill_blocks (length p) (m <| chunkHasData := true |>) p.

Definition finalizeChunk (m : megaMACCalculator) : megaMACCalculator :=
  if negb (chunkHasData m) then m
  else
    let m :=
      if (0 <? pendingLen m)%nat
      then (mixBlock m (take (pendingLen m) (pendingBlock m) ++ zeros (16 - pendingLen m)))
             <| pendingLen := 0%nat |>
      else m in
    m <| fileMAC := mix (fileMAC m) (chunkMAC m) |> <| chunkHasData := false |>.

(** What [Write] does when a chunk is full. *)
Definition next_chunk (m : megaMACCalculator) : megaMACCalculator :=
  let m := finalizeChunk m in
  m <| chunkIndex := chunkIndex m + 1 |> <| chunkMAC := base m |>
    <| chunkRemaining := megaChunkSize (chunkIndex m + 1) |>.

Fixpoint write_loop (fuel : nat) (m : megaMACCalculator) (p : bytes)
  : option megaMACCalculator :=
  match p, fuel with
  | [], _ => Some m
  | _, O => None
  | _, S fuel =>
      let n := Z.min (Z.of_nat (length p)) (chunkRemaining m) in
      m ← writeChunkBytes m (take (Z.to_nat n) p);
      let m := m <| chunkRemaining := chunkRemaining m - n |> in
      write_loop fuel (if chunkRemaining m =? 0 then next_chunk m else m) (drop (Z.to_nat n) p)
  end.

(** Each round takes at least a byte, so the length of [p] is fuel enough. *)
Definition Write (m : megaMACCalculator) (p : bytes) : option megaMACCalculator :=
  write_loop (length p) m p.

Definition Sum (m : megaMACCalculator) : bytes := condense (fileMAC (finalizeChunk m)).

(** ** The checksum of a whole file *)

(** The bytes cut into pieces, the i-th of them of [size i]. *)
Fixpoint pieces (fuel : nat) (size : nat -> nat) (i : nat) (s : bytes) : list bytes :=
  match s, fuel with
  | [], _ | _, O => []
  | _, S fuel => take (size i) s :: pieces fuel size (S i) (drop (size i) s)
  end.

Definition pad16 (b : bytes) : bytes := b ++ zeros (16 - length b).

Definition blocks (s : bytes) : list bytes := map pad16 (pieces (length s) (fun _ => 16%nat) 0 s).

Definition chunk_size (i : nat) : nat := Z.to_nat (megaChunkSize (Z.of_nat i)).

Definition chunks (s : bytes) : list bytes := pieces (length s) chunk_size 0 s.

Definition chunk_mac (iv : bytes) (chunk : bytes) : bytes := foldl mix iv (blocks chunk).

Definition file_mac (nonce : bytes) (s : bytes) : bytes :=
  condense (foldl (fun f c => mix f (chunk_mac (nonce ++ nonce) c)) (zeros 16) (chunks s)).

(** ** Cutting into pieces *)

Lemma pieces_fuel (f1 f2 : nat) (size : nat -> nat) (i : nat) (s : bytes) :
  (forall i, (0 < size i)%nat) -> (length s <= f1)%nat -> (length s <= f2)%nat ->
  pieces f1 size i s = pieces f2 size i s.
Proof.
  intros Hs. revert f2 i s. induction f1 as [|f1 IH]; intros f2 i s H1 H2.
  - destruct s; [by destruct f2|cbn in H1; lia].
  - destruct s as [|b s]; [by destruct f2|]. destruct f2 as [|f2]; [cbn in H2; lia|].
    cbn [pieces]. f_equal. specialize (Hs i). apply IH; rewrite length_drop; cbn in *; lia.
Qed.

(** Pieces of the right sizes, the last one short or empty, are what the cut finds. *)
Lemma pieces_concat (size : nat -> nat) (cs : list bytes) (cur : bytes) (i fuel : nat) :
  (forall i, (0 < size i)%nat) ->
  (forall k c, cs !! k = Some c -> length c = size (i + k)%nat) ->
  (length cur < size (i + length cs))%nat ->
  (length (concat cs ++ cur) <= fuel)%nat ->
  pieces fuel size i (concat cs ++ cur) = cs ++ (if (length cur =? 0)%nat then [] else [cur]).
Proof.
  intros Hs. revert i fuel. induction cs as [|c cs IH]; intros i fuel Hc Hl Hf.
  - cbn in *. destruct cur as [|b cur]; [by destruct fuel|]. destruct fuel as [|fuel]; [cbn in Hf; lia|].
    cbn [pieces]. rewrite Nat.add_0_r in Hl. rewrite take_ge, drop_ge by lia. by destruct fuel.
  - pose proof (Hc 0%nat c eq_refl) as Hc0. rewrite Nat.add_0_r in Hc0. pose proof (Hs i) as Hi.
    cbn [concat] in *. rewrite <- app_assoc in *. rewrite length_app in Hf.
    destruct c as [|b c]; [cbn in Hc0; lia|]. destruct fuel as [|fuel]; [cbn in Hf; lia|].
    cbn [pieces app]. rewrite app_comm_cons, take_app_length', drop_app_length' by done.
    f_equal. apply IH.
    + intros k x Hx. rewrite (Hc (S k) x Hx). f_equal. lia.
    + cbn in Hl. by replace (S i + length cs)%nat with (i + S (length cs))%nat by lia.
    + cbn in Hf. lia.
Qed.

Lemma chunk_size_pos (i : nat) : (0 < chunk_size i)%nat.
Proof. unfold chunk_size, megaChunkSize. case_bool; bool_prop; lia. Qed.

Lemma blocks_concat (bs : list bytes) (rest : bytes) :
  Forall (fun b => length b = 16%nat) bs -> (length rest < 16)%nat ->
  blocks (concat bs ++ rest) = bs ++ (if (length rest =? 0)%nat then [] else [pad16 rest]).
Proof.
  intros Hb Hr. unfold blocks. rewrite pieces_concat; [|lia| |done|done].
  - rewrite map_app. f_equal.
    + induction Hb as [|b bs Hb _ IH]; [done|]. cbn. rewrite IH. f_equal. unfold pad16.
      by rewrite Hb, app_nil_r.
    + by destruct rest.
  - intros k c Hk. by eapply Forall_lookup_1 in Hb.
Qed.

Lemma chunks_concat (cs : list bytes) (cur : bytes) :
  (forall k c, cs !! k = Some c -> length c = chunk_size k) ->
  (length cur < chunk_size (length cs))%nat ->
  chunks (concat cs ++ cur) = cs ++ (if (length cur =? 0)%nat then [] else [cur]).
Proof. intros Hc Hl. unfold chunks. by rewrite pieces_concat; [|apply chunk_size_pos|..]. Qed.

(** ** The state of the calculator *)

(** [m] has taken [cur] of the current chunk: its full blocks [bs] are mixed in, and [rest]
    waits in the pending block. *)
Definition in_chunk (m : megaMACCalculator) (cur : bytes) : Prop :=
  exists bs rest, cur = concat bs ++ rest /\ Forall (fun b => length b = 16%nat) bs
    /\ (length rest < 16)%nat /\ chunkMAC m = foldl mix (base m) bs
    /\ pendingLen m = length rest /\ take (length rest) (pendingBlock m) = rest
    /\ length (pendingBlock m) = 16%nat.

(** What filling blocks leaves alone. *)
Definition same_file (m m' : megaMACCalculator) : Prop :=
  base m' = base m /\ fileMAC m' = fileMAC m /\ chunkIndex m' = chunkIndex m
  /\ chunkRemaining m' = chunkRemaining m /\ chunkHasData m' = chunkHasData m.

Lemma same_file_trans (m1 m2 m3 : megaMACCalculator) :
  same_file m1 m2 -> same_file m2 m3 -> same_file m1 m3.
Proof. unfold same_file. intuition congruence. Qed.

Lemma overwrite_length (c : bytes) (off : nat) (data : bytes) :
  (off + length data <= length c)%nat -> length (overwrite c off data) = length c.
Proof. intros H. unfold overwrite. rewrite !length_app, length_take, length_drop. lia. Qed.

Lemma overwrite_take (c : bytes) (off : nat) (data : bytes) :
  (off <= length c)%nat -> take (off + length data) (overwrite c off data) = take off c ++ data.
Proof.
  intros H. unfold overwrite. rewrite app_assoc. apply take_app_length'.
  rewrite length_app, length_take. lia.
Qed.

Lemma fill_block_in_chunk (m : megaMACCalculator) (cur p : bytes) :
  in_chunk m cur -> p <> [] ->
  (0 < fill_count m p <= length p)%nat /\
  in_chunk (fill_block m p) (cur ++ take (fill_count m p) p) /\ same_file m (fill_block m p).
Proof.
  intros (bs & rest & -> & Hbs & Hr & Hm & Hl & Ht & Hp) Hne.
  assert (fill_count m p = Nat.min (16 - length rest) (length p)) as Hn.
  { unfold fill_count. by rewrite Hp, Hl. }
  assert (length p <> 0%nat) as Hlp by by destruct p.
  split; [lia|]. set (n := fill_count m p) in *.
  assert (length (take n p) = n) as Htn by (rewrite length_take; lia).
  assert (length (overwrite (pendingBlock m) (pendingLen m) (take n p)) = 16%nat) as Hol.
  { rewrite overwrite_length; [done|]. rewrite Htn, Hl, Hp. lia. }
  assert (take (length rest + n) (overwrite (pendingBlock m) (pendingLen m) (take n p))
          = rest ++ take n p) as Hot.
  { rewrite Hl. rewrite <- Htn at 1. rewrite overwrite_take by lia. by rewrite Ht. }
  unfold fill_block. fold n. cbn. rewrite Hol.
  destruct (Nat.eqb_spec (pendingLen m + n) 16) as [E|E].
  - split; [|done]. exists (bs ++ [rest ++ take n p]), []. cbn. rewrite !app_nil_r. split.
    { by rewrite concat_app, <- app_assoc; cbn; rewrite app_nil_r. }
    split; [apply Forall_app; split; [done|constructor; [|done]];
            rewrite length_app, Htn; lia|].
    split; [lia|]. split; [|done]. rewrite foldl_app, <- Hm. cbn. f_equal.
    rewrite <- Hot, (take_ge (overwrite _ _ _)); [done|]. rewrite Hol. lia.
  - split; [|done]. exists bs, (rest ++ take n p). cbn. rewrite !length_app, Htn.
    rewrite Hl in *. split; [by rewrite app_assoc|]. split; [done|]. split; [lia|].
    split; [done|]. split; [done|]. by split.
Qed.

Lemma fill_blocks_in_chunk (fuel : nat) (m : megaMACCalculator) (cur p : bytes) :
  in_chunk m cur -> (length p <= fuel)%nat ->
  exists m', fill_blocks fuel m p = Some m' /\ in_chunk m' (cur ++ p) /\ same_file m m'.
Proof.
  revert m cur p. induction fuel as [|fuel IH]; intros m cur p Hm Hf.
  - destruct p; [|cbn in Hf; lia]. exists m. by rewrite app_nil_r.
  - destruct p as [|b p]; [exists m; by rewrite app_nil_r|]. set (q := b :: p) in *.
    destruct (fill_block_in_chunk m cur q Hm) as (Hc & Hi & Hs); [done|].
    destruct (IH _ _ (drop (fill_count m q) q) Hi) as (m' & Hw & Hi' & Hs').
    { rewrite length_drop. lia. }
    exists m'. split; [exact Hw|]. rewrite <- app_assoc, take_drop in Hi'.
    split; [done|]. by eapply same_file_trans.
Qed.

Lemma writeChunkBytes_in_chunk (m : megaMACCalculator) (cur p : bytes) :
  in_chunk m cur -> p <> [] ->
  exists m', writeChunkBytes m p = Some m' /\ in_chunk m' (cur ++ p)
    /\ same_file (m <| chunkHasData := true |>) m'.
Proof.
  intros Hm Hp. unfold writeChunkBytes. destruct p as [|b p]; [done|]. cbn [length Nat.eqb].
  by apply fill_blocks_in_chunk.
Qed.

(** Finishing a chunk adds its MAC to the file's. *)
Lemma finalizeChunk_fileMAC (m : megaMACCalculator) (cur : bytes) :
  in_chunk m cur -> chunkHasData m = negb (length cur =? 0)%nat ->
  fileMAC (finalizeChunk m)
  = (if (length cur =? 0)%nat then fileMAC m else mix (fileMAC m) (chunk_mac (base m) cur)).
Proof.
  intros (bs & rest & -> & Hbs & Hr & Hm & Hl & Ht & Hp) Hd.
  unfold finalizeChunk. rewrite Hd. destruct (length (concat bs ++ rest) =? 0)%nat; cbn; [done|].
  unfold chunk_mac. rewrite blocks_concat, foldl_app, <- Hm, Hl by done. unfold pad16.
  destruct rest as [|b rest]; cbn [length Nat.ltb Nat.leb Nat.eqb foldl]; [done|].
  cbn in *. by rewrite Ht.
Qed.

Lemma finalizeChunk_block (m : megaMACCalculator) (cur : bytes) :
  in_chunk m cur -> chunkHasData m = negb (length cur =? 0)%nat ->
  length (pendingBlock (finalizeChunk m)) = 16%nat /\ pendingLen (finalizeChunk m) = 0%nat
  /\ chunkHasData (finalizeChunk m) = false /\ base (finalizeChunk m) = base m
  /\ chunkIndex (finalizeChunk m) = chunkIndex m.
Proof.
  intros (bs & rest & -> & _ & Hr & _ & Hl & _ & Hp) Hd.
  unfold finalizeChunk. rewrite Hd. destruct (Nat.eqb_spec (length (concat bs ++ rest)) 0) as [E|E].
  - rewrite length_app in E. cbn. repeat split; try done; lia.
  - cbn [negb]. destruct (pendingLen m) eqn:E2; cbn; by rewrite ?E2.
Qed.

(** [m] has taken [s], starting with the nonce [nc]. *)
Definition has_taken (nc : bytes) (m : megaMACCalculator) (s : bytes) : Prop :=
  exists cs cur, s = concat cs ++ cur
    /\ (forall k c, cs !! k = Some c -> length c = chunk_size k)
    /\ chunkIndex m = Z.of_nat (length cs)
    /\ chunkRemaining m = megaChunkSize (Z.of_nat (length cs)) - Z.of_nat (length cur)
    /\ 0 < chunkRemaining m
    /\ base m = nc ++ nc
    /\ fileMAC m = foldl (fun f c => mix f (chunk_mac (base m) c)) (zeros 16) cs
    /\ chunkHasData m = negb (length cur =? 0)%nat
    /\ in_chunk m cur.

Lemma has_taken_new (nc : bytes) : has_taken nc (newMegaMACCalculator nc) [].
Proof. exists [], []. repeat split; try done. exists [], []. cbn. repeat split; try done; try lia; by constructor. Qed.

Lemma megaChunkSize_of_nat (i : nat) : megaChunkSize (Z.of_nat i) = Z.of_nat (chunk_size i).
Proof. unfold chunk_size. rewrite Z2Nat.id; [done|]. unfold megaChunkSize. case_bool; bool_prop; lia. Qed.

(** A chunk that is full starts the next one. *)
Lemma next_chunk_has_taken (nc : bytes) (m : megaMACCalculator) (cs : list bytes) (cur : bytes) :
  (forall k c, cs !! k = Some c -> length c = chunk_size k) -> length cur = chunk_size (length cs) ->
  chunkIndex m = Z.of_nat (length cs) -> base m = nc ++ nc ->
  fileMAC m = foldl (fun f c => mix f (chunk_mac (base m) c)) (zeros 16) cs ->
  chunkHasData m = negb (length cur =? 0)%nat -> in_chunk m cur ->
  has_taken nc (next_chunk m) (concat cs ++ cur).
Proof.
  intros Hcs Hcur Hi Hb Hf Hd Hin.
  pose proof (chunk_size_pos (length cs)) as Hpos. pose proof (chunk_size_pos (S (length cs))) as Hpos2.
  destruct (finalizeChunk_block m cur Hin Hd) as (H1 & H2 & H3 & H4 & H5).
  pose proof (finalizeChunk_fileMAC m cur Hin Hd) as H6.
  replace (length cur =? 0)%nat with false in H6 by (symmetry; apply Nat.eqb_neq; lia).
  assert (chunkIndex (finalizeChunk m) + 1 = Z.of_nat (S (length cs))) as Hi' by lia.
  unfold next_chunk. exists (cs ++ [cur]), []. cbn [length]. rewrite length_app. cbn [length].
  rewrite (Nat.add_1_r (length cs)). split; [by rewrite concat_app; cbn; rewrite !app_nil_r|].
  split.
  { intros k c Hk. apply lookup_app_Some in Hk as [Hk|[Hk Hc]]; [by apply Hcs|].
    apply list_lookup_singleton_Some in Hc as [Hk0 <-]. by replace k with (length cs) by lia. }
  cbn -[zeros]. rewrite Hi', megaChunkSize_of_nat. repeat split; try done; try lia.
  - by rewrite H4.
  - rewrite H6, foldl_app, H4, <- Hf. done.
  - exists [], []. cbn. rewrite H2. repeat split; try done; try lia; by constructor.
Qed.

Lemma write_loop_has_taken (nc : bytes) (fuel : nat) (m : megaMACCalculator) (s p : bytes) :
  has_taken nc m s -> (length p <= fuel)%nat ->
  exists m', write_loop fuel m p = Some m' /\ has_taken nc m' (s ++ p).
Proof.
  revert m s p. induction fuel as [|fuel IH]; intros m s p Hm Hf.
  - destruct p; [|cbn in Hf; lia]. exists m. by rewrite app_nil_r.
  - destruct p as [|b p]; [exists m; by rewrite app_nil_r|]. set (q := b :: p) in *.
    destruct Hm as (cs & cur & -> & Hcs & Hi & Hr & Hpos & Hb & Hfm & Hd & Hin).
    set (n := Z.min (Z.of_nat (length q)) (chunkRemaining m)).
    assert (0 < n <= Z.of_nat (length q)) as Hn by (subst n q; cbn in *; lia).
    assert (length (take (Z.to_nat n) q) = Z.to_nat n) as Htn by (rewrite length_take; lia).
    destruct (writeChunkBytes_in_chunk m cur (take (Z.to_nat n) q) Hin)
      as (m1 & Hw & Hin1 & (Sb & Sf & Si & Sr & Sd)).
    { intros E. rewrite E in Htn. cbn in Htn. lia. }
    cbn in Sb, Sf, Si, Sr, Sd.
    set (m2 := m1 <| chunkRemaining := chunkRemaining m1 - n |>).
    set (m3 := if chunkRemaining m2 =? 0 then next_chunk m2 else m2).
    assert (write_loop (S fuel) m q = write_loop fuel m3 (drop (Z.to_nat n) q)) as ->.
    { subst m3 m2. cbn [write_loop q]. fold q n. by rewrite Hw. }
    assert (chunkHasData m2 = negb (length (cur ++ take (Z.to_nat n) q) =? 0)%nat) as Hd2.
    { cbn. rewrite Sd, length_app. symmetry. apply negb_true_iff, Nat.eqb_neq. lia. }
    assert (has_taken nc m3 (concat cs ++ cur ++ take (Z.to_nat n) q)) as Hm3.
    { pose proof (megaChunkSize_of_nat (length cs)) as Hsz. subst m3.
      destruct (chunkRemaining m2 =? 0) eqn:E; bool_prop; cbn in E.
      - apply next_chunk_has_taken; cbn; rewrite ?Sb, ?Sf, ?Si; try done.
        rewrite length_app. lia.
      - exists cs, (cur ++ take (Z.to_nat n) q). cbn.
        rewrite Sb, Sf, Si. repeat split; try done; try (rewrite ?length_app; lia). }
    destruct (IH m3 _ (drop (Z.to_nat n) q) Hm3) as (m' & Hw' & Hm').
    { rewrite length_drop. subst q. cbn in *. lia. }
    exists m'. split; [done|]. rewrite <- !app_assoc, take_drop in Hm'. by rewrite <- app_assoc.
Qed.

Lemma Write_has_taken (nc : bytes) (m : megaMACCalculator) (s p : bytes) :
  has_taken nc m s -> exists m', Write m p = Some m' /\ has_taken nc m' (s ++ p).
Proof. intros H. by apply write_loop_has_taken. Qed.

Lemma Sum_has_taken (nc : bytes) (m : megaMACCalculator) (s : bytes) :
  has_taken nc m s -> Sum m = file_mac nc s.
Proof.
  intros (cs & cur & -> & Hcs & Hi & Hr & Hpos & Hb & Hfm & Hd & Hin).
  unfold Sum, file_mac. f_equal. rewrite (finalizeChunk_fileMAC m cur) by done.
  rewrite chunks_concat, foldl_app, Hfm, Hb; [by destruct (length cur =? 0)%nat|done|].
  rewrite megaChunkSize_of_nat in Hr. lia.
Qed.

(** The pieces of a file, written one after the other. *)
Fixpoint write_all (m : megaMACCalculator) (ps : list bytes) : option megaMACCalculator :=
  match ps with
  | [] => Some m
  | p :: ps => m ← Write m p; write_all m ps
  end.

Lemma write_all_has_taken (nc : bytes) (m : megaMACCalculator) (s : bytes) (ps : list bytes) :
  has_taken nc m s -> exists m', write_all m ps = Some m' /\ has_taken nc m' (s ++ concat ps).
Proof.
  revert m s. induction ps as [|p ps IH]; intros m s Hm; [exists m; by rewrite app_nil_r|].
  destruct (Write_has_taken nc m s p Hm) as (m1 & Hw & H1).
  destruct (IH m1 _ H1) as (m2 & Hw2 & H2). exists m2. cbn. rewrite Hw, app_assoc. by split.
Qed.

(** C38. However a file is cut into pieces, the calculator's loops end and it computes the
    checksum of the whole file: CBC-MACs of the chunks, zero-padded, chained and folded. *)
Theorem mac_streaming (nc : bytes) (ps : list bytes) :
  option_map Sum (write_all (newMegaMACCalculator nc) ps) = Some (file_mac nc (concat ps)).
Proof.
  destruct (write_all_has_taken nc _ [] ps (has_taken_new nc)) as (m & -> & Hm).
  cbn. f_equal. by apply Sum_has_taken in Hm.
Qed.
End Mac.

(** ** The key of a link *)

Lemma alphabet_no_space (v : Z) :
  is_sextet v -> is_ascii_byte (alphabet_url v) = true /\ space1 (alphabet_url v) = false.
Proof.
  intros Hv.
  pose proof (sextet_cases (fun v => is_ascii_byte (alphabet_url v)
    && negb (space1 (alphabet_url v))) v eq_refl Hv) as H.
  cbn beta in H. bool_prop. by split.
Qed.
