(* ===== verification/MegaLink.v ===== *)
(** * MEGA links

    The parsing of a link that internal/queue/mega_decryptor.go and internal/resolver/mega.go
    share but for the texts of its errors. *)

From S2P Require Import Prelude GoStrings GoUrl GoError GoBase64.

#[local] Open Scope string_scope.

Definition is_token_char (c : ascii) : bool :=
  is_lower c || is_upper c || is_digit c || Ascii.eqb c "-" || Ascii.eqb c "_".

Definition isValidMegaToken (v : string) : bool :=
  if String.eqb v "" then false else string_forallb is_token_char v.

(** The file id and key a parsed link names, each empty when missing. *)
Definition link_tokens (u : url) : string * string :=
  let path := trim_char char_slash (Path u) in
  let fragment := TrimSpace (Fragment u) in
  if HasPrefix path "file/" then
    (match split_char char_slash path with
     | _ :: id :: _ => TrimSpace id
     | _ => ""
     end, TrimSpace fragment)
  else if HasPrefix fragment "!" then
    match split_char "!" (TrimPrefix fragment "!") with
    | id :: key :: _ => (TrimSpace id, TrimSpace key)
    | _ => ("", "")
    end
  else ("", "").

(** [parseMegaFileLink] with the texts of its two errors. *)
Definition parse_link (raw required invalid : string) : res (string * string) :=
  match Parse raw with
  | inl e => inl (ENew e)
  | inr u =>
      let '(fileID, fileKey) := link_tokens u in
      if String.eqb fileID "" || String.eqb fileKey "" then inl (ENew required)
      else if negb (isValidMegaToken fileID) || negb (isValidMegaToken fileKey)
      then inl (ENew invalid)
      else inr (fileID, fileKey)
  end.

(** ** Tokens go through a URL unchanged *)

Lemma byte_code_inj (c d : ascii) : byte_code c = byte_code d -> c = d.
Proof.
  unfold byte_code. intros H. apply N2Z.inj in H.
  by rewrite <- (ascii_N_embedding c), <- (ascii_N_embedding d), H.
Qed.

(** What token characters are not. *)
Lemma token_char_plain (c : ascii) :
  is_token_char c = true ->
  is_ascii_byte c = true /\ space1 c = false /\ Ascii.eqb char_slash c = false
  /\ Ascii.eqb "#" c = false /\ Ascii.eqb "?" c = false /\ Ascii.eqb "!" c = false
  /\ Ascii.eqb "%" c = false /\ Ascii.eqb "+" c = false
  /\ ((byte_code c <? 32) || (byte_code c =? 127))%Z = false
  /\ shouldEscape c encodePath = false /\ shouldEscape c encodeFragment = false.
Proof.
  intros Hc.
  pose proof (all_bytes_spec (fun c => negb (is_token_char c) ||
    (is_ascii_byte c && negb (space1 c) && negb (Ascii.eqb char_slash c)
     && negb (Ascii.eqb "#" c) && negb (Ascii.eqb "?" c) && negb (Ascii.eqb "!" c)
     && negb (Ascii.eqb "%" c) && negb (Ascii.eqb "+" c)
     && negb ((byte_code c <? 32) || (byte_code c =? 127))%Z
     && negb (shouldEscape c encodePath) && negb (shouldEscape c encodeFragment))) c eq_refl) as H.
  cbn beta in H. rewrite Hc in H. cbn [negb orb] in H.
  repeat (apply andb_prop in H as [H ?]). repeat split; try done; by apply negb_true_iff.
Qed.

Section Token.
Context (t : string) (Ht : string_forallb is_token_char t = true).

Lemma token_no_char (d : ascii) :
  (forall c, is_token_char c = true -> Ascii.eqb d c = false) -> contains_char t d = false.
Proof using Ht.
  intros Hd. revert Ht. induction t as [|c s IH]; [done|]. cbn. intros H. bool_prop.
  unfold contains_char. cbn. rewrite Hd by done. by apply IH.
Qed.

Lemma token_no_ctl : has_ctl t = false.
Proof using Ht.
  revert Ht. unfold has_ctl. induction t as [|c s IH]; [done|]. cbn. intros H. bool_prop.
  rewrite IH by done. destruct (token_char_plain c) as (_ & _ & _ & _ & _ & _ & _ & _ & Hc & _); [done|].
  by rewrite Hc.
Qed.

Lemma token_escape (m : encoding) :
  m = encodePath \/ m = encodeFragment -> unescape t m = Some t /\ escape t m = t.
Proof using Ht.
  intros Hm. revert Ht. induction t as [|c s IH]; [done|]. cbn [string_forallb]. intros H.
  bool_prop. destruct IH as [IH1 IH2]; [done|].
  destruct (token_char_plain c) as (_ & _ & _ & _ & _ & _ & H1 & H2 & _ & H3 & H4); [done|].
  cbn [unescape escape]. rewrite Ascii.eqb_sym, H1, Ascii.eqb_sym, H2.
  destruct Hm as [-> | ->]; rewrite ?H3, ?H4; cbn [is_host_mode andb]; by rewrite IH1, IH2.
Qed.

Lemma token_TrimSpace : TrimSpace t = t.
Proof using Ht.
  revert Ht. intros Ht. destruct t as [|a s]; [done|]. cbn in Ht. bool_prop.
  destruct (token_char_plain a) as (Ha1 & Ha2 & _); [done|].
  destruct (rev_str s) as [|b r] eqn:E.
  - apply (f_equal rev_str) in E. rewrite rev_str_involutive in E. cbn in E. subst s.
    unfold TrimSpace, is_ascii_byte in *. bool_prop. cbn. rewrite Ha2. cbn. by rewrite Ha2.
  - apply (f_equal rev_str) in E. rewrite rev_str_involutive, rev_str_cons in E. subst s.
    match goal with H : string_forallb _ (_ ++ _) = true |- _ =>
      rewrite string_forallb_app in H; cbn in H; bool_prop end.
    destruct (token_char_plain b) as (Hb1 & Hb2 & _); [done|].
    by apply TrimSpace_id.
Qed.
End Token.

(** ** The two forms of a public link *)

Lemma Parse_with_fragment (head frag : string) (u : url) :
  contains_char head "#" = false -> parse_nofrag head = inr u -> frag <> "" ->
  unescape frag encodeFragment = Some frag ->
  exists u', Parse (head ++ String "#" frag) = inr u' /\ Path u' = Path u /\ Fragment u' = frag.
Proof.
  intros Hh Hp Hne Hu. unfold Parse, decode_path. rewrite Cut_char, Hp by done.
  apply String.eqb_neq in Hne. rewrite Hne, Hu. by eexists.
Qed.

Lemma parse_nofrag_file (id : string) :
  string_forallb is_token_char id = true ->
  exists u, parse_nofrag ("https://mega.nz/file/" ++ id) = inr u /\ Path u = "/file/" ++ id.
Proof.
  intros Hid. destruct (token_escape id Hid encodePath) as [Hu He]; [by left|].
  assert (has_ctl ("https://mega.nz/file/" ++ id) = false) as H1.
  { unfold has_ctl. rewrite string_existsb_app. by apply (token_no_ctl id Hid). }
  assert (contains_char ("//mega.nz/file/" ++ id) "?" = false) as H2.
  { rewrite contains_char_app, (token_no_char id Hid); [done|].
    intros c Hc. by destruct (token_char_plain c Hc) as (_ & _ & _ & _ & H & _). }
  assert (getScheme ("https://mega.nz/file/" ++ id) = Some ("https", "//mega.nz/file/" ++ id)) as H3
    by reflexivity.
  assert (parseAuthority "mega.nz" = inr (None, "mega.nz")) as H4 by (vm_compute; reflexivity).
  assert (decode_path ("/file/" ++ id) encodePath = Some ("/file/" ++ id, "")) as H5.
  { assert (unescape ("/file/" ++ id) encodePath = Some ("/file/" ++ id)) as Hu'.
    { transitivity (String.append "/file/" <$> unescape id encodePath); [|by rewrite Hu].
      cbn. by destruct (unescape id encodePath). }
    assert (escape ("/file/" ++ id) encodePath = "/file/" ++ id) as He'.
    { change (escape ("/file/" ++ id) encodePath) with ("/file/" ++ escape id encodePath).
      by rewrite He. }
    unfold decode_path. by rewrite Hu', He', String.eqb_refl. }
  unfold parse_nofrag. rewrite H1, H3. unfold split_query. rewrite Cut_char_none by done.
  cbn -[decode_path parseAuthority]. rewrite H4. cbn -[decode_path].
  change (String "/" (String "f" _)) with ("/file/" ++ id). rewrite H5. by eexists.
Qed.

Lemma valid_token (v : string) :
  isValidMegaToken v = true <-> v <> "" /\ string_forallb is_token_char v = true.
Proof.
  unfold isValidMegaToken. destruct (String.eqb v "") eqn:E; bool_prop; [|tauto].
  split; [done|tauto].
Qed.

Ltac in_list := repeat first [by left|right].

Lemma token_no (t : string) (d : ascii) :
  string_forallb is_token_char t = true -> d ∈ [char_slash; "#"; "?"; "!"; "%"; "+"]%char ->
  contains_char t d = false.
Proof.
  intros Ht Hd. apply token_no_char; [done|]. intros c Hc. apply token_char_plain in Hc.
  rewrite !elem_of_cons, elem_of_nil in Hd.
  destruct Hc as (_ & _ & H1 & H2 & H3 & H4 & H5 & H6 & _).
  by destruct Hd as [-> |[-> |[-> |[-> |[-> |[-> |[]]]]]]].
Qed.

Lemma trim_left_char_id (c : ascii) (s : string) :
  contains_char s c = false -> trim_left_char c s = s.
Proof.
  destruct s as [|d s]; [done|]. unfold contains_char. cbn. intros H. apply orb_false_elim in H as [H _]. by rewrite H.
Qed.

Lemma link_tokens_file (id key : string) (u : url) :
  isValidMegaToken id = true -> isValidMegaToken key = true ->
  Path u = "/file/" ++ id -> Fragment u = key -> link_tokens u = (id, key).
Proof.
  intros [Hne Hid]%valid_token [Hk Hkey]%valid_token Hp Hf. unfold link_tokens. rewrite Hp, Hf.
  assert (trim_char char_slash ("/file/" ++ id) = "file/" ++ id) as ->.
  { unfold trim_char, trim_right_char.
    change (trim_left_char char_slash ("/file/" ++ id)) with ("file/" ++ id).
    rewrite rev_str_app. destruct (rev_str id) as [|c r] eqn:E.
    { apply (f_equal rev_str) in E. by rewrite rev_str_involutive in E. }
    assert (contains_char (rev_str id) char_slash = false) as Hc.
    { rewrite contains_char_rev. apply token_no; [done|]. by left. }
    rewrite E in Hc. unfold contains_char in Hc. cbn [string_existsb] in Hc.
    apply orb_false_elim in Hc as [Hc _]. cbn [String.append trim_left_char]. rewrite Hc.
    change (String c (r ++ rev_str "file/")) with (String c r ++ rev_str "file/").
    by rewrite <- E, rev_str_app, !rev_str_involutive. }
  assert (split_char char_slash ("file/" ++ id) = ["file"; id]) as ->.
  { change ("file/" ++ id) with ("file" ++ String char_slash id).
    rewrite split_char_app, split_char_no_sep; [done| |done].
    apply token_no; [done|]. by left. }
  change (HasPrefix ("file/" ++ id) "file/") with (HasPrefix id "").
  destruct id as [|c id]; [done|]. cbn [HasPrefix].
  by rewrite (token_TrimSpace _ Hid), !(token_TrimSpace _ Hkey).
Qed.

Lemma link_tokens_old (id key : string) (u : url) :
  isValidMegaToken id = true -> isValidMegaToken key = true ->
  Path u = "/" -> Fragment u = "!" ++ id ++ "!" ++ key -> link_tokens u = (id, key).
Proof.
  intros [Hne Hid]%valid_token [Hk Hkey]%valid_token Hp Hf. unfold link_tokens. rewrite Hp, Hf.
  assert (TrimSpace ("!" ++ id ++ "!" ++ key) = "!" ++ id ++ "!" ++ key) as ->.
  { destruct (rev_str key) as [|b r] eqn:E; apply (f_equal rev_str) in E;
      rewrite rev_str_involutive in E; [done|]. rewrite rev_str_cons in E. subst key.
    rewrite string_forallb_app in Hkey. cbn in Hkey. bool_prop.
    destruct (token_char_plain b) as (Hb1 & Hb2 & _); [done|].
    rewrite (str_app_assoc "!" (rev_str r)), (str_app_assoc id). cbn [String.append].
    by apply TrimSpace_id. }
  cbn [trim_char HasPrefix String.append].
  change (trim_char char_slash "/") with "". cbn [HasPrefix].
  change (HasPrefix (String "!" (id ++ String "!" key)) "!") with (HasPrefix (id ++ String "!" key) "").
  assert (HasPrefix (id ++ String "!" key) "" = true) as -> by by destruct id.
  change (TrimPrefix (String "!" (id ++ String "!" key)) "!") with
    (if HasPrefix (id ++ String "!" key) "" then id ++ String "!" key else String "!" (id ++ String "!" key)).
  assert (HasPrefix (id ++ String "!" key) "" = true) as -> by by destruct id.
  rewrite split_char_app, split_char_no_sep; [|apply token_no; [done|in_list]..].
  by rewrite (token_TrimSpace _ Hid), !(token_TrimSpace _ Hkey).
Qed.

Lemma parse_link_tokens (raw required invalid id key : string) (u : url) :
  Parse raw = inr u -> link_tokens u = (id, key) ->
  isValidMegaToken id = true -> isValidMegaToken key = true ->
  parse_link raw required invalid = inr (id, key).
Proof.
  intros Hp Hl Hid Hkey. unfold parse_link. rewrite Hp, Hl, Hid, Hkey.
  apply valid_token in Hid as [Hid _]. apply valid_token in Hkey as [Hkey _].
  apply String.eqb_neq in Hid, Hkey. by rewrite Hid, Hkey.
Qed.

(** Both public forms give the id and the key back. *)
Lemma parse_link_file (required invalid id key : string) :
  isValidMegaToken id = true -> isValidMegaToken key = true ->
  parse_link ("https://mega.nz/file/" ++ id ++ "#" ++ key) required invalid = inr (id, key).
Proof.
  intros Hid Hkey. pose proof Hid as [Hne Hid']%valid_token. pose proof Hkey as [Hk Hkey']%valid_token.
  destruct (parse_nofrag_file id Hid') as (u & Hu & Hp).
  destruct (Parse_with_fragment ("https://mega.nz/file/" ++ id) key u) as (u' & Hu' & Hp' & Hf); try done.
  - rewrite contains_char_app, (token_no id "#" Hid'); [done|in_list].
  - apply token_escape; [done|by right].
  - rewrite <- str_app_assoc in Hu'. eapply parse_link_tokens; [exact Hu'| |done|done].
    apply link_tokens_file; try done. by rewrite Hp'.
Qed.

Lemma parse_link_old (required invalid id key : string) :
  isValidMegaToken id = true -> isValidMegaToken key = true ->
  parse_link ("https://mega.nz/#!" ++ id ++ "!" ++ key) required invalid = inr (id, key).
Proof.
  intros Hid Hkey. pose proof Hid as [Hne Hid']%valid_token. pose proof Hkey as [Hk Hkey']%valid_token.
  destruct (Parse_with_fragment "https://mega.nz/" ("!" ++ id ++ "!" ++ key)
    (mkURL "https" "" None "mega.nz" "/" "" false false "" "" "")) as (u' & Hu' & Hp' & Hf); try done.
  - destruct (token_escape id Hid' encodeFragment) as [H1 _]; [by right|].
    destruct (token_escape key Hkey' encodeFragment) as [H2 _]; [by right|].
    assert (forall a, string_forallb is_token_char a = true ->
      unescape (a ++ String "!" key) encodeFragment = Some (a ++ String "!" key)) as Happ.
    { clear -H2. induction a as [|c a IH]; intros Ha; cbn [String.append].
      - cbn. by rewrite H2.
      - cbn [string_forallb] in Ha. bool_prop.
        destruct (token_char_plain c) as (_ & _ & _ & _ & _ & _ & Hc1 & Hc2 & _); [done|].
        cbn [unescape]. rewrite Ascii.eqb_sym, Hc1, Ascii.eqb_sym, Hc2. cbn [is_host_mode andb].
        by rewrite IH. }
    transitivity (String "!" <$> unescape (id ++ String "!" key) encodeFragment); [|by rewrite Happ].
    cbn. by destruct (unescape _ _).
  - eapply parse_link_tokens; [exact Hu'| |done|done]. by apply link_tokens_old.
Qed.

(** What is accepted is a pair of tokens. *)
Lemma parse_link_valid (raw required invalid id key : string) :
  parse_link raw required invalid = inr (id, key) ->
  isValidMegaToken id = true /\ isValidMegaToken key = true.
Proof.
  unfold parse_link. destruct (Parse raw) as [e|u]; [done|]. destruct (link_tokens u) as [i k].
  destruct (String.eqb i "" || String.eqb k ""); [done|].
  destruct (negb (isValidMegaToken i) || negb (isValidMegaToken k)) eqn:E; [done|].
  intros [= <- <-]. bool_prop. by split.
Qed.

(** ** Links with a given key *)

(** The bytes of a file key. *)
Definition raw_key (raw : list Z) : Prop :=
  Forall is_byte raw /\ (length raw = 32%nat \/ length raw = 16%nat).

(** The two forms of a public link to the file [id]. *)
Definition public_link (id : string) (raw : list Z) (link : string) : Prop :=
  link = "https://mega.nz/file/" ++ id ++ "#" ++ EncodeToString raw
  \/ link = "https://mega.nz/#!" ++ id ++ "!" ++ EncodeToString raw.

Lemma alphabet_token (v : Z) : is_sextet v -> is_token_char (alphabet_url v) = true.
Proof. apply (sextet_cases (fun v => is_token_char (alphabet_url v))). reflexivity. Qed.

Lemma EncodeToString_token (raw : list Z) :
  Forall is_byte raw -> string_forallb is_token_char (EncodeToString raw) = true.
Proof.
  intros H. apply encode_sextets_range in H. unfold EncodeToString.
  induction H as [|v l Hv _ IH]; [done|]. cbn. by rewrite alphabet_token, IH.
Qed.

Lemma EncodeToString_valid (raw : list Z) :
  raw_key raw -> isValidMegaToken (EncodeToString raw) = true.
Proof.
  intros [Hb Hl]. apply valid_token. split; [|by apply EncodeToString_token].
  destruct raw as [|x [|y [|z r]]]; try (cbn in Hl; lia). by cbn.
Qed.

Lemma token_is_ascii (t : string) : string_forallb is_token_char t = true -> is_ascii t = true.
Proof.
  unfold is_ascii. induction t as [|c t IH]; cbn; [done|]. intros H. bool_prop.
  rewrite IH by done. by destruct (token_char_plain c) as [-> _].
Qed.

Lemma parse_link_public (required invalid id link : string) (raw : list Z) :
  isValidMegaToken id = true -> raw_key raw -> public_link id raw link ->
  parse_link link required invalid = inr (id, EncodeToString raw).
Proof.
  intros Hid Hraw [-> | ->]; [apply parse_link_file|apply parse_link_old]; try done;
    by apply EncodeToString_valid.
Qed.
