(* ===== verification/Effects.v ===== *)
(** * Programs, the world they act on, and their two semantics

    The daemon's functions are values of [prog A]: a tree of calls to what is outside the Go
    code (the clock, SQLite, aria2's RPC, the file system, child processes) or shared between
    its goroutines (the settings, the runner's pending set and semaphore).  [run] executes
    one program alone.  Because a program is a tree of single calls, [step_thread] can also
    run many of them interleaved, one call at a time, which is how the HTTP handlers, the
    runner's tick and the decrypt goroutines share the store.

    The environment [Env] answers every outside call, and may make any SQL statement fail;
    nothing is assumed of it unless a theorem says so. *)

From S2P Require Import Prelude GoStrings GoError Schema Files.

(** ** What the calls carry *)

(** [downloader.Status]. *)
Record AriaStatus : Type := mkStatus {
  StGID : string;
  StStatus : string;
  StTotalLength : string;
  StCompletedLen : string;
  StDownloadSpeed : string;
  StErrorCode : string;
  StErrorMessage : string;
  StFiles : list string
}.

(** Requests to the [Downloader] interface, and what each returns. *)
Inductive aria_req : Type :=
  | AddURI (uri : string) (options : gmap string string)
  | TellStatus (gid : string)
  | PauseGid (gid : string)
  | UnpauseGid (gid : string)
  | RemoveGid (gid : string).

Definition aria_resp (r : aria_req) : Type :=
  match r with
  | AddURI _ _ => res string
  | TellStatus _ => res AriaStatus
  | _ => res unit
  end.

(** The runner's [decryptTask]. *)
Record decryptTask : Type := mkTask {
  jobID : Z;
  megaPath : string;
  archivePath : string;
  taskOutDir : string;
  password : string;
  rawURL : string;
  site : string;
  decryptMega : bool;
  decryptArch : bool
}.

(** The mutable fields of [api.Settings]. *)
Record SettingsState : Type := mkSettings {
  Concurrency : Z;
  SetMaxAttempts : Z;
  AutoDecrypt : bool
}.

(** An HTTP request the daemon sends, and what came back: the status and the body. *)
Record net_req : Type := mkNetReq {
  NetMethod : string;
  NetURL : string;
  NetHeaders : list (string * string);
  NetBody : string
}.

Record net_resp : Type := mkNetResp { NetStatus : Z; NetText : string }.

(** Requests to package os: settings.json, and the directories the browser shows. *)
Inductive os_req : Type :=
  | ReadFile (path : string)
  | WriteFile (path data : string)
  | StatDir (path : string)             (* os.Stat and IsDir *)
  | ReadDir (path : string)             (* the entries' names, and which are directories *)
  | MkdirAll (path : string).

Definition os_resp (r : os_req) : Type :=
  match r with
  | ReadFile _ => res string
  | StatDir _ => res bool
  | ReadDir _ => res (list (string * bool))
  | _ => res unit
  end.

(** ** Calls and programs *)

Inductive ev : Type -> Type :=
  | Now : ev Z
  | Sql {X : Type} (q : Db -> Db * res X) : ev (res X)
  | TxBegin : ev (res unit)
  | TxCommit : ev (res unit)
  | TxRollback : ev unit
  | Aria (r : aria_req) : ev (aria_resp r)
  | OsRemove (path : string) : ev (res unit)
  | File (r : file_req) : ev (file_resp r)
  | CtxErr : ev (option error)
  | OsStat (path : string) : ev (res unit)
  | RunTool (command : string) (args : list string) : ev (string * option error)
  | LookPath (command : string) : ev (res unit)
  | RangeMap (m : gmap string string) : ev (list (string * string))
  | GetSettings : ev SettingsState
  | UpdateSettings (u : SettingsState -> SettingsState * res unit) : ev (res unit)
  | Os (r : os_req) : ev (os_resp r)
  | Net (r : net_req) : ev (res net_resp)
  | NextRequestID : ev Z                (* atomic.AddUint64 on the MEGA resolver's counter *)
  | GoDecrypt (t : decryptTask) : ev unit
  | PendingAdd (id : Z) : ev bool
  | PendingDel (id : Z) : ev unit
  | SemAcquire (capacity : Z) : ev bool
  | SemRelease (capacity : Z) : ev unit.

(** [Panic] is a run-time panic, such as a slice out of range: no code recovers from one. *)
Inductive prog (A : Type) : Type :=
  | Ret (a : A)
  | Panic
  | Vis {X : Type} (e : ev X) (k : X -> prog A).
Arguments Ret {A} a.
Arguments Panic {A}.
Arguments Vis {A X} e k.

Fixpoint bind {A B} (p : prog A) (f : A -> prog B) : prog B :=
  match p with
  | Ret a => f a
  | Panic => Panic
  | Vis e k => Vis e (fun x => bind (k x) f)
  end.

Definition call {X} (e : ev X) : prog X := Vis e Ret.

(** [x, err := p; if err != nil { return err }; ...] *)
Definition bind_err {A B} (p : prog (res A)) (f : A -> prog (res B)) : prog (res B) :=
  bind p (fun r => match r with inl e => Ret (inl e) | inr x => f x end).

Declare Scope prog_scope.
Delimit Scope prog_scope with prog.
Bind Scope prog_scope with prog.
#[global] Open Scope prog_scope.
Notation "x <- p ;; q" := (bind p (fun x => q))
  (at level 100, p at next level, q at level 200, right associativity) : prog_scope.
Notation "x <-? p ;; q" := (bind_err p (fun x => q))
  (at level 100, p at next level, q at level 200, right associativity) : prog_scope.
Notation "p ;; q" := (bind p (fun _ => q))
  (at level 100, q at level 200, right associativity) : prog_scope.

(** The value of an expression that may panic ([None]). *)
Definition or_panic {A} (x : option A) : prog A :=
  match x with Some a => Ret a | None => Panic end.

(** A [range] loop whose body is a program. *)
Fixpoint for_each {A} (l : list A) (body : A -> prog unit) : prog unit :=
  match l with
  | [] => Ret tt
  | x :: l' => body x ;; for_each l' body
  end.

(** ** The world *)

Record World : Type := mkWorld {
  db : Db;
  tx : option Db;                 (* the image a rollback of the open transaction restores *)
  clock : nat;                    (* calls made so far: the environment's index *)
  requests : list aria_req;       (* requests sent to aria2, the last first *)
  threads : list decryptTask;     (* decrypt goroutines started, the last first *)
  pending : gset Z;               (* Runner.decryptPending *)
  sem : option Z;                 (* tokens of Runner.decryptSem; None before its creation *)
  settings : SettingsState;
  files : FileSys;
  request_id : Z                  (* the MEGA resolver's count of its requests *)
}.

Ltac derive_world :=
  derive_assign constr:((mkWorld, db, tx, clock, requests, threads, pending, sem, settings, files, request_id)).

#[global] Instance assign_db : Assign db. Proof. derive_world. Defined.
#[global] Instance assign_tx : Assign tx. Proof. derive_world. Defined.
#[global] Instance assign_clock : Assign clock. Proof. derive_world. Defined.
#[global] Instance assign_requests : Assign requests. Proof. derive_world. Defined.
#[global] Instance assign_threads : Assign threads. Proof. derive_world. Defined.
#[global] Instance assign_pending : Assign pending. Proof. derive_world. Defined.
#[global] Instance assign_sem : Assign sem. Proof. derive_world. Defined.
#[global] Instance assign_settings : Assign settings. Proof. derive_world. Defined.
#[global] Instance assign_files : Assign files. Proof. derive_world. Defined.
#[global] Instance assign_request_id : Assign request_id. Proof. derive_world. Defined.

(** The environment's answer to the n-th call.  A removal it lets succeed takes the name away;
    the files that aria2 and the extraction tools write are not in [files]. *)
Record Env : Type := mkEnv {
  now_at : nat -> Z;
  sql_fault : nat -> option error;
  aria_at : nat -> forall r : aria_req, aria_resp r;
  remove_at : nat -> string -> res unit;
  stat_at : nat -> string -> res unit;
  tool_at : nat -> string -> list string -> string * option error;
  lookpath_at : nat -> string -> res unit;
  range_at : nat -> gmap string string -> list (string * string);
  cancelled_at : nat -> bool;
  files_env : FileEnv;
  os_at : nat -> forall r : os_req, os_resp r;
  net_at : nat -> net_req -> res net_resp
}.

(** The effect of one call, the call's index already counted.  A failed statement changes
    nothing.  Writes inside a transaction go to [db] at once and are undone from [tx]. *)
Definition act {X} (env : Env) (n : nat) (w : World) (e : ev X) : World * X :=
  match e in ev X return World * X with
  | Now => (w, now_at env n)
  | Sql q =>
      match sql_fault env n with
      | Some err => (w, inl err)
      | None => let '(d, r) := q (db w) in (w <| db := d |>, r)
      end
  | TxBegin =>
      match sql_fault env n with
      | Some err => (w, inl err)
      | None => (w <| tx := Some (db w) |>, inr tt)
      end
  | TxCommit =>
      match sql_fault env n with
      | Some err => (w <| db := default (db w) (tx w) |> <| tx := None |>, inl err)
      | None => (w <| tx := None |>, inr tt)
      end
  | TxRollback => (w <| db := default (db w) (tx w) |> <| tx := None |>, tt)
  | Aria r => (w <| requests := r :: requests w |>, aria_at env n r)
  | OsRemove p =>
      (match remove_at env n p with
       | inr _ => w <| files := remove_name (files w) p |>
       | inl _ => w
       end, remove_at env n p)
  | File r => let '(fs, x) := file_act (files_env env) n (files w) r in (w <| files := fs |>, x)
  | CtxErr => (w, if cancelled_at env n then Some (ENew "context canceled") else None)
  | OsStat p => (w, stat_at env n p)
  | RunTool c args => (w, tool_at env n c args)
  | LookPath c => (w, lookpath_at env n c)
  | RangeMap m => (w, range_at env n m)
  | GetSettings => (w, settings w)
  | UpdateSettings u => let '(s, r) := u (settings w) in (w <| settings := s |>, r)
  | Os r => (w, os_at env n r)
  | Net r => (w, net_at env n r)
  | NextRequestID =>
      let id := ((request_id w + 1) mod 2 ^ 64)%Z in (w <| request_id := id |>, id)
  | GoDecrypt t => (w <| threads := t :: threads w |>, tt)
  | PendingAdd id =>
      if bool_decide (id ∈ pending w) then (w, false)
      else (w <| pending := {[id]} ∪ pending w |>, true)
  | PendingDel id => (w <| pending := pending w ∖ {[id]} |>, tt)
  | SemAcquire capacity =>
      let tokens := default capacity (sem w) in
      if cancelled_at env n then (w <| sem := Some tokens |>, false)
      else if (0 <? tokens)%Z then (w <| sem := Some (tokens - 1)%Z |>, true)
      else (w <| sem := Some tokens |>, false)
  | SemRelease capacity => (w <| sem := Some (default capacity (sem w) + 1)%Z |>, tt)
  end.

Definition handle {X} (env : Env) (w : World) (e : ev X) : World * X :=
  act env (clock w) (w <| clock := S (clock w) |>) e.

(** ** One program alone: the world it leaves, and its result unless it panicked *)

Fixpoint run {A} (env : Env) (p : prog A) (w : World) : World * option A :=
  match p with
  | Ret a => (w, Some a)
  | Panic => (w, None)
  | Vis e k => let '(w', x) := handle env w e in run env (k x) w'
  end.

(** ** Interleaved threads *)

Record thread : Type := mkThread { result_type : Type; code : prog result_type }.

(** A goroutine waits on the semaphore until a token is free or its context is done. *)
Definition blocked {X} (env : Env) (w : World) (e : ev X) : bool :=
  match e with
  | SemAcquire capacity => negb (cancelled_at env (clock w)) && (default capacity (sem w) <=? 0)%Z
  | _ => false
  end.

Definition step_thread (env : Env) (w : World) (t : thread) : option (World * thread) :=
  match code t with
  | Ret _ | Panic => None
  | Vis e k =>
      if blocked env w e then None
      else let '(w', x) := handle env w e in Some (w', mkThread (result_type t) (k x))
  end.

(** A thread's turn: one call, or a whole transaction (SQLite serialises transactions; a
    statement refused because another connection holds the lock is a [sql_fault]). *)
Inductive turn (env : Env) : World -> thread -> World -> thread -> Prop :=
  | turn_call w t w' t' :
      step_thread env w t = Some (w', t') -> tx w' = None -> turn env w t w' t'
  | turn_tx w t w1 t1 w' t' :
      step_thread env w t = Some (w1, t1) -> tx w1 <> None ->
      turn env w1 t1 w' t' -> turn env w t w' t'.

(** A pool of goroutines: a thread takes its turn, and the goroutines it started with [go]
    join the pool ([spawn] is their code); or a new [client] thread arrives, which is an HTTP
    request or a tick of the runner; or the process dies, by a panic or killed, and is
    started again: the tables stay, with an open transaction rolled back, and every
    goroutine and all the memory of the process is gone.  The settings are whatever
    settings.json holds, and the MEGA resolver counts its requests from [id], the time. *)
Definition restart (s : SettingsState) (id : Z) (w : World) : World :=
  w <| db := default (db w) (tx w) |> <| tx := None |> <| pending := ∅ |> <| sem := None |>
    <| files := (files w) <| handles := ∅ |> |> <| settings := s |>
    <| request_id := id |>.

Inductive pool_step (env : Env) (client : thread -> Prop) (spawn : decryptTask -> thread)
  : World * list thread -> World * list thread -> Prop :=
  | pool_turn w w' t t' before after started :
      turn env w t w' t' ->
      threads w' = started ++ threads w ->
      pool_step env client spawn (w, before ++ t :: after)
        (w', before ++ t' :: after ++ map spawn started)
  | pool_client w ts t :
      client t -> pool_step env client spawn (w, ts) (w, t :: ts)
  | pool_restart w ts s id :
      pool_step env client spawn (w, ts) (restart s id w, []).

(** ** Running a sequence of programs *)

Lemma bind_Ret {A B} (a : A) (f : A -> prog B) : bind (Ret a) f = f a.
Proof. done. Qed.

Lemma run_bind {A B} (env : Env) (p : prog A) (f : A -> prog B) (w : World) :
  run env (bind p f) w =
  let '(w', r) := run env p w in
  match r with Some a => run env (f a) w' | None => (w', None) end.
Proof.
  revert w. induction p as [a| |X e k IH]; intros w; simpl; [done|done|].
  destruct (handle env w e) as [w' x]. apply IH.
Qed.

Lemma run_bind_err {A B} (env : Env) (p : prog (res A)) (f : A -> prog (res B)) (w : World) :
  run env (bind_err p f) w =
  let '(w', r) := run env p w in
  match r with
  | Some (inl e) => (w', Some (inl e))
  | Some (inr x) => run env (f x) w'
  | None => (w', None)
  end.
Proof.
  unfold bind_err. rewrite run_bind. destruct (run env p w) as [w' [[e|x]|]]; done.
Qed.

Lemma run_call {X} (env : Env) (e : ev X) (w : World) :
  run env (call e) w = let '(w', x) := handle env w e in (w', Some x).
Proof. done. Qed.

(** ** Step-wise invariants

    [safe I p]: whatever the world answers, every call of [p] preserves [I].  Such a program
    preserves [I] alone and interleaved with any other safe programs. *)

Definition step_ok (I : World -> Prop) {X} (e : ev X) : Prop :=
  forall env w, I w -> I (fst (handle env w e)).

Fixpoint safe (I : World -> Prop) {A} (p : prog A) : Prop :=
  match p with
  | Ret _ | Panic => True
  | Vis e k => step_ok I e /\ forall x, safe I (k x)
  end.

Section Safe.
Context (I : World -> Prop).

Lemma safe_Ret {A} (a : A) : safe I (Ret a).
Proof. done. Qed.

Lemma safe_bind {A B} (p : prog A) (f : A -> prog B) :
  safe I p -> (forall a, safe I (f a)) -> safe I (bind p f).
Proof.
  intros Hp Hf. induction p as [a| |X e k IH]; simpl in *; [apply Hf|done|].
  destruct Hp as [He Hk]. split; [done|]. intros x. by apply IH.
Qed.

Lemma safe_bind_err {A B} (p : prog (res A)) (f : A -> prog (res B)) :
  safe I p -> (forall a, safe I (f a)) -> safe I (bind_err p f).
Proof. intros Hp Hf. apply safe_bind; [done|]. intros [e|a]; [done|apply Hf]. Qed.

Lemma safe_or_panic {A} (x : option A) : safe I (or_panic x).
Proof. by destruct x. Qed.

Lemma safe_call {X} (e : ev X) : step_ok I e -> safe I (call e).
Proof. intros He. by split. Qed.

Lemma safe_for_each {A} (l : list A) (body : A -> prog unit) :
  (forall a, safe I (body a)) -> safe I (for_each l body).
Proof. intros Hb. induction l as [|x l IH]; simpl; [done|]. by apply safe_bind. Qed.

Lemma safe_run {A} (env : Env) (p : prog A) (w : World) :
  safe I p -> I w -> I (fst (run env p w)).
Proof.
  revert w. induction p as [a| |X e k IH]; intros w Hs Hw; simpl in *; [done|done|].
  destruct Hs as [He Hk]. specialize (He env w Hw).
  destruct (handle env w e) as [w' x]. by apply IH.
Qed.

Lemma safe_step (env : Env) (w w' : World) (t t' : thread) :
  safe I (code t) -> I w -> step_thread env w t = Some (w', t') ->
  I w' /\ safe I (code t').
Proof.
  unfold step_thread. destruct t as [A p]; simpl. destruct p as [a| |X e k]; [done|done|].
  intros [He Hk] Hw. destruct (blocked env w e); [done|].
  specialize (He env w Hw). destruct (handle env w e) as [w1 x]. intros H. simplify_eq/=.
  split; [done|apply Hk].
Qed.

Lemma safe_turn (env : Env) (w w' : World) (t t' : thread) :
  turn env w t w' t' -> safe I (code t) -> I w -> I w' /\ safe I (code t').
Proof.
  induction 1 as [w t w' t' Hs _|w t w1 t1 w' t' Hs _ _ IH]; intros Ht Hw.
  - by eapply safe_step.
  - destruct (safe_step _ _ _ _ _ Ht Hw Hs). by apply IH.
Qed.

(** A pool of safe threads stays one, whatever the world is. *)
Lemma safe_step_code (env : Env) (w w' : World) (t t' : thread) :
  safe I (code t) -> step_thread env w t = Some (w', t') -> safe I (code t').
Proof.
  unfold step_thread. destruct t as [A p]; simpl. destruct p as [a| |X e k]; [done|done|].
  intros [_ Hk]. destruct (blocked env w e); [done|]. destruct (handle env w e) as [w1 x].
  intros H. simplify_eq/=. apply Hk.
Qed.

Lemma safe_pool_code (env : Env) (client : thread -> Prop) (spawn : decryptTask -> thread) s s' :
  (forall t, client t -> safe I (code t)) -> (forall t, safe I (code (spawn t))) ->
  rtc (pool_step env client spawn) s s' ->
  Forall (fun t => safe I (code t)) (snd s) -> Forall (fun t => safe I (code t)) (snd s').
Proof.
  intros Hc Hsp. induction 1 as [s|s s1 s' Hstep _ IH]; [done|]. intros Hts. apply IH; clear IH.
  destruct Hstep as [w w' t t' l1 l2 st Hturn _|w ts t Ht|w ts set id]; cbn [snd] in *.
  - apply Forall_app in Hts as [H1 Hts]. apply Forall_cons in Hts as [Ht H2].
    apply Forall_app; split; [done|]. apply Forall_cons; split.
    + clear - Hturn Ht. induction Hturn; eauto using safe_step_code.
    + apply Forall_app; split; [done|]. apply Forall_map, Forall_forall. intros x _. apply Hsp.
  - apply Forall_cons; split; [by apply Hc|done].
  - constructor.
Qed.

(** Any interleaving of safe clients and safe goroutines preserves the invariant. *)
Lemma safe_pool (env : Env) (client : thread -> Prop) (spawn : decryptTask -> thread) s s' :
  (forall t, client t -> safe I (code t)) -> (forall t, safe I (code (spawn t))) ->
  (forall s id w, I w -> I (restart s id w)) ->
  rtc (pool_step env client spawn) s s' ->
  I (fst s) -> Forall (fun t => safe I (code t)) (snd s) ->
  I (fst s') /\ Forall (fun t => safe I (code t)) (snd s').
Proof.
  intros Hc Hsp Hre Hsteps. induction Hsteps as [s|s s1 s' Hstep _ IH]; [done|].
  intros Hw Hts. apply IH; clear IH; destruct Hstep as [w w' t t' l1 l2 st Hturn _|w ts t Ht|w ts set id];
    simpl in *.
  - apply Forall_app in Hts as [_ Hts]. apply Forall_cons in Hts as [Ht _].
    exact (proj1 (safe_turn _ _ _ _ _ Hturn Ht Hw)).
  - done.
  - by apply Hre.
  - apply Forall_app in Hts as [H1 Hts]. apply Forall_cons in Hts as [Ht H2].
    destruct (safe_turn _ _ _ _ _ Hturn Ht Hw) as [_ Ht'].
    apply Forall_app; split; [done|]. apply Forall_cons; split; [done|].
    apply Forall_app; split; [done|]. apply Forall_forall. intros x Hx.
    apply list_elem_of_fmap in Hx as (y & -> & _). apply Hsp.
  - apply Forall_cons; split; [by apply Hc|done].
  - constructor.
Qed.
End Safe.

(** Between turns no transaction is open. *)
Lemma pool_tx (env : Env) (client : thread -> Prop) (spawn : decryptTask -> thread) s s' :
  rtc (pool_step env client spawn) s s' -> tx (fst s) = None -> tx (fst s') = None.
Proof.
  induction 1 as [s|s s1 s' Hstep _ IH]; [done|]. intros Hw. apply IH; clear IH.
  destruct Hstep as [w w' t t' l1 l2 st Hturn _| |]; cbn [fst] in *; [|done|done].
  clear Hw. by induction Hturn.
Qed.

(** ** Every result of a program *)

(** Whatever the calls answer, a result of [p] satisfies [P]. *)
Fixpoint rets {A} (P : A -> Prop) (p : prog A) : Prop :=
  match p with
  | Ret a => P a
  | Panic => True
  | Vis _ k => forall x, rets P (k x)
  end.

Lemma rets_bind {A B} (P : B -> Prop) (p : prog A) (f : A -> prog B) :
  (forall a, rets P (f a)) -> rets P (bind p f).
Proof. intros Hf. induction p as [a| |X e k IH]; cbn; [apply Hf|done|]. intros x. apply IH. Qed.

Lemma rets_run {A} (P : A -> Prop) (p : prog A) (env : Env) (w : World) :
  rets P p -> match snd (run env p w) with Some a => P a | None => True end.
Proof.
  revert w. induction p as [a| |X e k IH]; intros w; [done..|]. cbn. intros H.
  destruct (handle env w e) as [w' x]. by apply IH.
Qed.

(** ** Calls that leave the store and the runner's state alone *)

(** Everything of the world but the call counter. *)
Definition same_core (w w' : World) : Prop :=
  db w' = db w /\ tx w' = tx w /\ requests w' = requests w /\ threads w' = threads w
  /\ pending w' = pending w /\ sem w' = sem w /\ settings w' = settings w.

(** [quiet p]: no call of [p] changes the core of the world.  The resolvers and decryptors
    (network, file system and child processes only) are quiet. *)
Definition quiet {A} (p : prog A) : Prop := forall w0, safe (same_core w0) p.

Lemma same_core_refl (w : World) : same_core w w.
Proof. done. Qed.

Lemma quiet_run {A} (env : Env) (p : prog A) (w : World) :
  quiet p -> same_core w (fst (run env p w)).
Proof. intros Hq. eapply safe_run; [apply Hq|apply same_core_refl]. Qed.

Lemma quiet_safe {A} (I : World -> Prop) (p : prog A) :
  (forall w w', same_core w w' -> I w -> I w') -> quiet p -> safe I p.
Proof.
  intros HI. induction p as [a| |X e k IH]; [done|done|]. intros Hq. split.
  - intros env w Hw. destruct (Hq w) as [He _]. eapply HI; [|done].
    apply He. apply same_core_refl.
  - intros x. apply IH. intros w0. destruct (Hq w0) as [_ Hk]. apply Hk.
Qed.

Lemma quiet_bind {A B} (p : prog A) (f : A -> prog B) :
  quiet p -> (forall a, quiet (f a)) -> quiet (bind p f).
Proof. intros Hp Hf w0. apply safe_bind; [apply Hp|]. intros a. apply Hf. Qed.

Lemma quiet_Ret {A} (a : A) : quiet (Ret a).
Proof. intros w0. exact Logic.I. Qed.

Lemma quiet_or_panic {A} (x : option A) : quiet (or_panic x).
Proof. intros w0. apply safe_or_panic. Qed.

Lemma quiet_call_out {X} (e : ev X) :
  match e with
  | OsStat _ | RunTool _ _ | LookPath _ | OsRemove _ | RangeMap _ | Now | GetSettings
  | File _ | CtxErr | Os _ | Net _ | NextRequestID => True
  | _ => False
  end -> quiet (call e).
Proof.
  intros He w0. split; [|done]. intros env w Hw. destruct e; try done; unfold handle; cbn.
  - by destruct (remove_at _ _ _).
  - by destruct (file_act _ _ _ _).
Qed.

(** An invariant of the tables, also of the image an open transaction would restore. *)
Definition db_inv (P : Db -> Prop) (w : World) : Prop :=
  P (db w) /\ forall d, tx w = Some d -> P d.

Definition sql_ok (P : Db -> Prop) {X} (q : Db -> Db * res X) : Prop :=
  forall d, P d -> P (fst (q d)).

(** Only SQL statements can break it. *)
Lemma step_ok_db_inv (P : Db -> Prop) {X} (e : ev X) :
  match e with Sql q => sql_ok P q | _ => True end -> step_ok (db_inv P) e.
Proof.
  intros He env w [Hd Ht]. destruct e; unfold handle; cbn; try by split.
  - destruct (sql_fault env (clock w)); [by split|]. specialize (He _ Hd).
    destruct (q (db w)) as [d r]. by split.
  - destruct (sql_fault env (clock w)); [by split|]. split; [done|]. cbn. by intros d [= <-].
  - destruct (sql_fault env (clock w)); [|by split]. split; [|done]. cbn.
    destruct (tx w); cbn; auto.
  - split; [|done]. cbn. destruct (tx w); cbn; auto.
  - by destruct (remove_at _ _ _).
  - by destruct (file_act _ _ _ _).
  - by destruct (u (settings w)).
  - case_bool; by split.
  - repeat case_bool; by split.
Qed.

Lemma db_inv_core (P : Db -> Prop) (w w' : World) :
  same_core w w' -> db_inv P w -> db_inv P w'.
Proof. intros (Hd & Ht & _) [H1 H2]. unfold db_inv. by rewrite Hd, Ht. Qed.

Lemma db_inv_restart (P : Db -> Prop) (s : SettingsState) (id : Z) (w : World) :
  db_inv P w -> db_inv P (restart s id w).
Proof. intros [H1 H2]. split; [|done]. unfold restart. cbn. destruct (tx w); cbn; auto. Qed.

(** The system calls of the handlers, all succeeding. *)
Definition calm_os (n : nat) (r : os_req) : os_resp r :=
  match r with
  | ReadFile _ => inl (ESentinel ErrNotExist)
  | StatDir _ => inr true
  | ReadDir _ => inr []
  | _ => inr tt
  end.

(** Every HTTP request of the daemon is refused. *)
Definition no_net (n : nat) (r : net_req) : res net_resp := inl (ENew "connection refused").

(** A fault-free database: every statement succeeds unless a constraint refuses it. *)
Definition no_faults (env : Env) : Prop := forall n, sql_fault env n = None.

#[export] Hint Resolve safe_Ret safe_bind safe_bind_err safe_call safe_for_each
  safe_or_panic quiet_Ret quiet_bind quiet_or_panic same_core_refl : dlq.
