(* ===== verification/Aria2.v ===== *)
(** * internal/downloader/aria2.go: the JSON-RPC client of aria2

    A request of the interface [Downloader] becomes one or more HTTP requests to aria2's RPC
    endpoint.  [aria_client] is the client as an implementation of that interface, whose
    requests the rest of the daemon makes with the call [Aria]. *)

From S2P Require Import Prelude GoStrings GoUrl GoError GoJson Schema Files Effects.

#[local] Open Scope string_scope.

Record Aria2Client : Type := mkAria2 { RpcEndpoint : string; Secret : string }.

Definition NewAria2Client (endpoint secret : string) : Aria2Client := mkAria2 endpoint secret.

(** ** One call *)

Record rpcError : Type := mkRpcError { RpcCode : Z; RpcMessage : string }.

(** [Result] is nil when the answer has none. *)
Record rpcResponse : Type := mkRpcResponse { Result : option value; RpcErr : option rpcError }.

Definition error_fields : list (field rpcError) :=
  [("code", fun v e => n ← decode_int v (RpcCode e); Some (mkRpcError n (RpcMessage e)));
   ("message", fun v e => s ← decode_string v (RpcMessage e); Some (mkRpcError (RpcCode e) s))].

(** The error is a pointer: [null] makes it nil, an object fills what it points to. *)
Definition decode_error (v : value) (old : option rpcError) : option (option rpcError) :=
  match v with
  | Null => Some None
  | _ => e ← decode_struct error_fields v (default (mkRpcError 0 "") old); Some (Some e)
  end.

Definition response_fields : list (field rpcResponse) :=
  [("result", fun v r => Some (mkRpcResponse (Some v) (RpcErr r)));
   ("error", fun v r => e ← decode_error v (RpcErr r); Some (mkRpcResponse (Result r) e))].

Definition rpc_body (method : string) (params : list value) : string :=
  Marshal (Obj [("jsonrpc", Str "2.0"); ("id", Str "dlq"); ("method", Str method);
                ("params", Arr params)]).

(** The secret, when there is one, goes before the parameters. *)
Definition rpc_params (a : Aria2Client) (params : list value) : list value :=
  if String.eqb (Secret a) "" then params else Str ("token:" ++ Secret a) :: params.

Definition rpc_request (a : Aria2Client) (method : string) (params : list value) : net_req :=
  mkNetReq "POST" (RpcEndpoint a) [("Content-Type", "application/json")]
    (rpc_body method (rpc_params a params)).

Section Client.
Context `{UC : Unicode} `{JE : JsonErrors}.

Definition isGIDNotFoundMessage (msg : string) : bool :=
  if String.eqb msg "" then false
  else let lower := ToLower msg in
       Contains lower "not found" || Contains lower "no such download"
       || Contains lower "cannot be found".

Definition isActionNotAllowedMessage (msg : string) : bool :=
  if String.eqb msg "" then false
  else let lower := ToLower msg in
       Contains lower "cannot be paused now" || Contains lower "cannot be unpaused now"
       || Contains lower "cannot be resumed now" || Contains lower "cannot be removed now".

Definition rpc_error (e : rpcError) : error :=
  let baseErr := ENew ("aria2_rpc_error:" ++ Itoa (RpcCode e) ++ ":" ++ RpcMessage e) in
  if isGIDNotFoundMessage (RpcMessage e) then errorf_wrap AriaErrGIDNotFound baseErr
  else if isActionNotAllowedMessage (RpcMessage e) then errorf_wrap AriaErrActionNotAllowed baseErr
  else baseErr.

(** What the client makes of an answer's text: the raw result, or the error. *)
Definition read_rpc (text : string) : res (option value) :=
  match v ← Decode text; decode_struct response_fields v (mkRpcResponse None None) with
  | None => inl (json_error text)
  | Some r => match RpcErr r with Some e => inl (rpc_error e) | None => inr (Result r) end
  end.

Definition rpc (a : Aria2Client) (method : string) (params : list value) : prog (res (option value)) :=
  resp <-? call (Net (rpc_request a method params)) ;;
  Ret (read_rpc (NetText resp)).

(** [a.call(ctx, method, params, nil)], and with a variable that [dec] decodes the result to. *)
Definition rpc_nil (a : Aria2Client) (method : string) (params : list value) : prog (res unit) :=
  _ <-? rpc a method params ;; Ret (inr tt).

Definition rpc_out {X} (a : Aria2Client) (method : string) (params : list value)
    (dec : value -> option X) : prog (res X) :=
  result <-? rpc a method params ;;
  Ret (match result with
       | None => inl (json_error "")
       | Some v => match dec v with Some x => inr x | None => inl (json_error (Marshal v)) end
       end).

(** ** The requests *)

(** A map is written with its keys in order. *)
Definition options_value (options : gmap string string) : value :=
  Obj (map (fun k => (k, Str (default "" (options !! k))))
         (merge_sort string_le (map fst (map_to_list options)))).

Definition client_AddURI (a : Aria2Client) (uri : string) (options : gmap string string)
    : prog (res string) :=
  rpc_out a "aria2.addUri" [Arr [Str uri]; options_value options] (fun v => decode_string v "").

Definition path_fields : list (field string) := [("path", decode_string)].

Definition decode_files (v : value) (old : list string) : option (list string) :=
  match v with
  | Null => Some []
  | Arr l => mapM (fun f => decode_struct path_fields f "") l
  | _ => None
  end.

Definition status_field (name : string) (get : AriaStatus -> string)
    (set : string -> AriaStatus -> AriaStatus) : field AriaStatus :=
  (name, fun v st => s ← decode_string v (get st); Some (set s st)).

Ltac derive_status := derive_assign constr:((mkStatus, StGID, StStatus, StTotalLength,
  StCompletedLen, StDownloadSpeed, StErrorCode, StErrorMessage, StFiles)).

#[local] Instance assign_StGID : Assign StGID. Proof. derive_status. Defined.
#[local] Instance assign_StStatus : Assign StStatus. Proof. derive_status. Defined.
#[local] Instance assign_StTotalLength : Assign StTotalLength. Proof. derive_status. Defined.
#[local] Instance assign_StCompletedLen : Assign StCompletedLen. Proof. derive_status. Defined.
#[local] Instance assign_StDownloadSpeed : Assign StDownloadSpeed. Proof. derive_status. Defined.
#[local] Instance assign_StErrorCode : Assign StErrorCode. Proof. derive_status. Defined.
#[local] Instance assign_StErrorMessage : Assign StErrorMessage. Proof. derive_status. Defined.
#[local] Instance assign_StFiles : Assign StFiles. Proof. derive_status. Defined.

Definition status_fields : list (field AriaStatus) :=
  [status_field "gid" StGID (fun s st => st <| StGID := s |>);
   status_field "status" StStatus (fun s st => st <| StStatus := s |>);
   status_field "totalLength" StTotalLength (fun s st => st <| StTotalLength := s |>);
   status_field "completedLength" StCompletedLen (fun s st => st <| StCompletedLen := s |>);
   status_field "downloadSpeed" StDownloadSpeed (fun s st => st <| StDownloadSpeed := s |>);
   status_field "errorCode" StErrorCode (fun s st => st <| StErrorCode := s |>);
   status_field "errorMessage" StErrorMessage (fun s st => st <| StErrorMessage := s |>);
   ("files", fun v st => l ← decode_files v (StFiles st); Some (st <| StFiles := l |>))].

Definition empty_status : AriaStatus := mkStatus "" "" "" "" "" "" "" [].

Definition client_TellStatus (a : Aria2Client) (gid : string) : prog (res AriaStatus) :=
  st <-? rpc_out a "aria2.tellStatus"
           [Str gid; Arr (map Str ["gid"; "status"; "totalLength"; "completedLength";
                                   "downloadSpeed"; "errorCode"; "errorMessage"; "files"])]
           (fun v => decode_struct status_fields v empty_status) ;;
  if String.eqb (StGID st) "" then Ret (inl (ENew "aria2_empty_status")) else Ret (inr st).

(** The three lists of downloads, of which the daemon asks for none. *)
Definition list_keys : value :=
  Arr (map Str ["gid"; "status"; "totalLength"; "completedLength"; "errorCode"; "errorMessage"]).

Definition decode_statuses (v : value) : option (list AriaStatus) :=
  match v with
  | Null => Some []
  | Arr l => mapM (fun x => decode_struct status_fields x empty_status) l
  | _ => None
  end.

Definition client_TellActive (a : Aria2Client) : prog (res (list AriaStatus)) :=
  rpc_out a "aria2.tellActive" [list_keys] decode_statuses.

Definition client_TellWaiting (a : Aria2Client) (offset num : Z) : prog (res (list AriaStatus)) :=
  rpc_out a "aria2.tellWaiting" [Num (Itoa offset); Num (Itoa num); list_keys] decode_statuses.

Definition client_TellStopped (a : Aria2Client) (offset num : Z) : prog (res (list AriaStatus)) :=
  rpc_out a "aria2.tellStopped" [Num (Itoa offset); Num (Itoa num); list_keys] decode_statuses.

Definition client_Pause (a : Aria2Client) (gid : string) : prog (res unit) :=
  rpc_nil a "aria2.pause" [Str gid].

Definition client_Unpause (a : Aria2Client) (gid : string) : prog (res unit) :=
  rpc_nil a "aria2.unpause" [Str gid].

(** [forceErr != nil && !errors.Is(forceErr, ErrGIDNotFound)]. *)
Definition unless_not_found (r : res unit) : option error :=
  match r with
  | inl err => if errors_Is err AriaErrGIDNotFound then None else Some err
  | inr _ => None
  end.

(** The last step: the entry of the stopped download goes too. *)
Definition cleanup_result (a : Aria2Client) (gid : string) : prog (res unit) :=
  r <- rpc_nil a "aria2.removeDownloadResult" [Str gid] ;;
  Ret (match unless_not_found r with Some err => inl err | None => inr tt end).

Definition client_Remove (a : Aria2Client) (gid : string) : prog (res unit) :=
  r <- rpc_nil a "aria2.remove" [Str gid] ;;
  match r with
  | inr _ => cleanup_result a gid
  | inl err =>
      if errors_Is err AriaErrActionNotAllowed then
        forced <- rpc_nil a "aria2.forceRemove" [Str gid] ;;
        match unless_not_found forced with
        | Some forceErr => Ret (inl forceErr)
        | None => cleanup_result a gid
        end
      else if errors_Is err AriaErrGIDNotFound then cleanup_result a gid
      else Ret (inl err)
  end.

(** The client behind the interface [Downloader]. *)
Definition aria_client (a : Aria2Client) (r : aria_req) : prog (aria_resp r) :=
  match r return prog (aria_resp r) with
  | AddURI uri options => client_AddURI a uri options
  | TellStatus gid => client_TellStatus a gid
  | PauseGid gid => client_Pause a gid
  | UnpauseGid gid => client_Unpause a gid
  | RemoveGid gid => client_Remove a gid
  end.

(** ** The messages on the wire *)

(** What a server of JSON-RPC 2.0 answers: a result, or an error. *)
Definition rpc_result (v : value) : value :=
  Obj [("id", Str "dlq"); ("jsonrpc", Str "2.0"); ("result", v)].

Definition rpc_failure (e : rpcError) : value :=
  Obj [("id", Str "dlq"); ("jsonrpc", Str "2.0");
       ("error", Obj [("code", Num (Itoa (RpcCode e))); ("message", Str (RpcMessage e))])].

Lemma read_rpc_result (v : value) :
  well_formed v -> (nesting v < maxNestingDepth)%Z ->
  read_rpc (Marshal (rpc_result v)) = inr (Some (coerce v)).
Proof.
  intros Hw Hn. pose proof (nesting_nonneg v). unfold read_rpc.
  rewrite Decode_Marshal; [done|done|]. unfold maxNestingDepth in *. cbn. lia.
Qed.

Lemma decode_failure (t : value) (m : string) :
  decode_struct response_fields
    (Obj [("id", Str "dlq"); ("jsonrpc", Str "2.0");
          ("error", Obj [("code", t); ("message", Str m)])]) (mkRpcResponse None None)
  = (n ← decode_int t 0; Some (mkRpcResponse None (Some (mkRpcError n m)))).
Proof.
  cbv -[decode_int]. by destruct (decode_int t 0).
Qed.

Lemma read_rpc_failure (e : rpcError) :
  (min_int64 <= RpcCode e <= max_int64)%Z ->
  read_rpc (Marshal (rpc_failure e)) = inl (rpc_error (mkRpcError (RpcCode e) (to_valid (RpcMessage e)))).
Proof.
  intros Hc. unfold read_rpc. rewrite Decode_Marshal; [|repeat split; apply Itoa_is_number|done].
  change (coerce (rpc_failure e)) with (rpc_failure (mkRpcError (RpcCode e) (to_valid (RpcMessage e)))).
  cbn [mbind option_bind]. unfold rpc_failure. cbn [RpcCode RpcMessage].
  by rewrite decode_failure, decode_int_Itoa.
Qed.

Lemma errors_Is_rpc_error (e : rpcError) :
  errors_Is (rpc_error e) AriaErrGIDNotFound = isGIDNotFoundMessage (RpcMessage e)
  /\ errors_Is (rpc_error e) AriaErrActionNotAllowed
     = negb (isGIDNotFoundMessage (RpcMessage e)) && isActionNotAllowedMessage (RpcMessage e).
Proof.
  unfold rpc_error. destruct (isGIDNotFoundMessage _), (isActionNotAllowedMessage _); by cbn.
Qed.

(** C27. What the client writes and reads on the wire: the body of its request is read back by a
    JSON decoder as the JSON-RPC call of the method, with the secret's token, when there is a
    secret, as the first parameter before the method's own; an answer with a result gives the
    caller that result; and an answer with an error gives an error that is
    [ErrGIDNotFound] or [ErrActionNotAllowed] exactly by the words of its message. *)
Theorem rpc_wire (a : Aria2Client) (method : string) (params : list value) (v : value) (e : rpcError)
  (Hp : well_formed (Arr params)) (Hd : (nesting (Arr params) < maxNestingDepth)%Z)
  (Hv : well_formed v) (Hn : (nesting v < maxNestingDepth)%Z)
  (Hc : (min_int64 <= RpcCode e <= max_int64)%Z) (Hm : valid_utf8 (RpcMessage e) = true) :
  (Decode (NetBody (rpc_request a method params))
   = Some (Obj [("jsonrpc", Str "2.0"); ("id", Str "dlq"); ("method", Str (to_valid method));
                ("params", Arr (if String.eqb (Secret a) "" then map coerce params
                                else Str (to_valid ("token:" ++ Secret a)) :: map coerce params))]))
  /\ read_rpc (Marshal (rpc_result v)) = inr (Some (coerce v))
  /\ exists err, read_rpc (Marshal (rpc_failure e)) = inl err
      /\ errors_Is err AriaErrGIDNotFound = isGIDNotFoundMessage (RpcMessage e)
      /\ errors_Is err AriaErrActionNotAllowed
         = negb (isGIDNotFoundMessage (RpcMessage e)) && isActionNotAllowedMessage (RpcMessage e).
Proof.
  split; [|split; [by apply read_rpc_result|]].
  - unfold rpc_request, rpc_body, rpc_params. cbn [NetBody]. pose proof (nesting_nonneg (Arr params)).
    destruct (String.eqb (Secret a) ""); rewrite Decode_Marshal; try done;
      try (unfold maxNestingDepth in *; cbn in *; lia); cbn -[String.append]; by repeat split.
  - rewrite read_rpc_failure by done. rewrite (valid_utf8_to_valid _ Hm).
    destruct e. eexists. split; [reflexivity|]. apply errors_Is_rpc_error.
Qed.

(** ** Every answer the client can give *)

(** The promise of the interface [Downloader] that the queue relies on: a status names its
    download, and a removal does not fail because there is nothing to remove. *)
Definition downloader_contract (r : aria_req) : aria_resp r -> Prop :=
  match r return aria_resp r -> Prop with
  | TellStatus _ => fun x => forall st, x = inr st -> StGID st <> ""
  | RemoveGid _ => fun x => forall err, x = inl err -> errors_Is err AriaErrGIDNotFound = false
  | _ => fun _ => True
  end.

Lemma rets_True {A} (p : prog A) : rets (fun _ => True) p.
Proof. induction p as [a| |X e k IH]; cbn; auto. Qed.

Lemma cleanup_rets (a : Aria2Client) (gid : string) :
  rets (downloader_contract (RemoveGid gid)) (cleanup_result a gid).
Proof.
  apply rets_bind. intros [err|x]; cbn; [|done]. destruct (errors_Is err AriaErrGIDNotFound) eqn:E; [done|].
  by intros e [= <-].
Qed.

Lemma client_rets (a : Aria2Client) (r : aria_req) : rets (downloader_contract r) (aria_client a r).
Proof.
  destruct r; try apply rets_True; cbn [aria_client].
  - apply rets_bind. intros [err|st]; [done|]. destruct (String.eqb _ "") eqn:E; [done|].
    bool_prop. by intros ? [= <-].
  - apply rets_bind. intros [err|x]; [|apply cleanup_rets].
    destruct (errors_Is err AriaErrActionNotAllowed).
    + apply rets_bind. intros [fe|x]; [|apply cleanup_rets]. cbn.
      destruct (errors_Is fe AriaErrGIDNotFound) eqn:E; [apply cleanup_rets|]. by intros e [= <-].
    + destruct (errors_Is err AriaErrGIDNotFound) eqn:E; [apply cleanup_rets|]. by intros e [= <-].
Qed.

(** ** Removing a download *)

(** What the request of one call comes to, at the index of that call. *)
Definition outcome (env : Env) (n : nat) (a : Aria2Client) (method gid : string) : res unit :=
  match net_at env n (rpc_request a method [Str gid]) with
  | inl err => inl err
  | inr resp => match read_rpc (NetText resp) with inl err => inl err | inr _ => inr tt end
  end.

Definition refused (r : res unit) : bool :=
  match r with inl err => errors_Is err AriaErrActionNotAllowed | inr _ => false end.

(** There is nothing of the download left: it was taken away, or was not there. *)
Definition gone (r : res unit) : bool :=
  match r with inl err => errors_Is err AriaErrGIDNotFound | inr _ => true end.

Lemma run_rpc_nil (env : Env) (w : World) (a : Aria2Client) (method gid : string) :
  run env (rpc_nil a method [Str gid]) w
  = (w <| clock := S (clock w) |>, Some (outcome env (clock w) a method gid)).
Proof.
  unfold rpc_nil, rpc, outcome. cbn -[rpc_request]. unfold handle. cbn -[rpc_request].
  destruct (net_at _ _ _) as [err|resp]; [done|]. cbn. by destruct (read_rpc _).
Qed.

Lemma run_cleanup (env : Env) (w : World) (a : Aria2Client) (gid : string) :
  let r := outcome env (clock w) a "aria2.removeDownloadResult" gid in
  run env (cleanup_result a gid) w
  = (w <| clock := S (clock w) |>, Some (if gone r then inr tt else r)).
Proof.
  cbv zeta. unfold cleanup_result. rewrite run_bind, run_rpc_nil. cbn -[outcome].
  destruct (outcome _ _ _ _ _) as [err|[]]; cbn; [|done].
  by destruct (errors_Is err AriaErrGIDNotFound).
Qed.

(** Removing a download, whatever aria2 answers: [remove] is asked first, [forceRemove] only
    when it was refused as not allowed now, and the entry among the stopped downloads is always
    asked to go at the end, unless an earlier request failed; the removal succeeds exactly when
    each request was granted or found nothing to remove, and otherwise gives the error of the
    last request sent.  It is two requests, three with [forceRemove], one when [remove] fails. *)
Theorem client_Remove_spec (env : Env) (w : World) (a : Aria2Client) (gid : string) :
  let remove := outcome env (clock w) a "aria2.remove" gid in
  let forced := outcome env (S (clock w)) a "aria2.forceRemove" gid in
  let entry n := outcome env (n + clock w) a "aria2.removeDownloadResult" gid in
  let after n x := (w <| clock := n + clock w |>, Some x) in
  run env (client_Remove a gid) w
  = if refused remove
    then if gone forced then after 3 (if gone (entry 2) then inr tt else entry 2) else after 2 forced
    else if gone remove then after 2 (if gone (entry 1) then inr tt else entry 1)
    else after 1 remove.
Proof.
  cbv zeta. unfold client_Remove. rewrite run_bind, run_rpc_nil.
  destruct (outcome _ _ _ "aria2.remove" _) as [err|[]]; cbn [refused gone]; [|by rewrite run_cleanup].
  destruct (errors_Is err AriaErrActionNotAllowed).
  - rewrite run_bind, run_rpc_nil. cbn -[outcome cleanup_result gone].
    destruct (outcome _ _ _ "aria2.forceRemove" _) as [fe|[]]; cbn -[outcome cleanup_result];
      [|by rewrite run_cleanup]. destruct (errors_Is fe AriaErrGIDNotFound); [by rewrite run_cleanup|done].
  - destruct (errors_Is err AriaErrGIDNotFound); [by rewrite run_cleanup|done].
Qed.
End Client.

#[local] Instance Aria2Unicode : Unicode := {| unicode_lower := ascii_lower |}.
#[local] Instance Aria2JsonErrors : JsonErrors := {| json_error_text := fun _ => "invalid JSON" |}.

(** aria2 with a secret, and its answer when it does not know the download. *)
Lemma rpc_wire_witness :
  let a := mkAria2 "http://127.0.0.1:6800/jsonrpc" "s3cret" in
  Decode (NetBody (rpc_request a "aria2.remove" [Str "2089b05ecca3d829"]))
  = Some (Obj [("jsonrpc", Str "2.0"); ("id", Str "dlq"); ("method", Str "aria2.remove");
               ("params", Arr [Str "token:s3cret"; Str "2089b05ecca3d829"])])
  /\ exists err,
       read_rpc (Marshal (rpc_failure (mkRpcError 1 "GID 2089b05ecca3d829 is not found"))) = inl err
       /\ errors_Is err AriaErrGIDNotFound = true.
Proof.
  destruct (rpc_wire (mkAria2 "http://127.0.0.1:6800/jsonrpc" "s3cret") "aria2.remove"
              [Str "2089b05ecca3d829"] (Str "OK") (mkRpcError 1 "GID 2089b05ecca3d829 is not found")
              ltac:(repeat split) ltac:(reflexivity) Logic.I ltac:(reflexivity)
              ltac:(split; vm_compute; discriminate) ltac:(vm_compute; reflexivity))
    as (Hd & _ & err & He & Hn & _).
  split; [exact Hd|]. exists err. split; [exact He|]. rewrite Hn. vm_compute. reflexivity.
Defined.
