(* ===== verification/AriaRefine.v ===== *)
(** * The daemon with its aria2 client refines the daemon over the interface [Downloader]

    Everything that is proved of the queue is proved for programs that ask the interface
    [Downloader] ([Aria]), whose answers nothing is assumed of.  The daemon gives its runner
    and service the JSON-RPC client (cmd/dlqd/main.go 36-38).  [with_client] is a program with each
    of its requests to the interface replaced by the client's code for it, and the theorem is
    the simulation that carries what was proved over: whatever the network answers, the
    program with the client does what the program over the interface does for some answers
    of a downloader, and these answers are the client's. *)

From S2P Require Import Prelude GoStrings GoError GoJson Schema Files Effects Aria2.

#[local] Open Scope string_scope.

Section Refinement.
Context `{UC : Unicode} `{JE : JsonErrors} (a : Aria2Client).

Definition client_ev {X} (e : ev X) : prog X :=
  match e in ev X return prog X with
  | Aria r => aria_client a r
  | e' => call e'
  end.

Fixpoint with_client {A} (p : prog A) : prog A :=
  match p with
  | Ret x => Ret x
  | Panic => Panic
  | Vis e k => bind (client_ev e) (fun x => with_client (k x))
  end.

(** ** The downloader that the client is *)

(** The client's answer to [r] when its first call is the [n]-th: it depends on the
    environment only. *)
Definition client_answer (env : Env) (n : nat) (r : aria_req) (w : World) : option (aria_resp r) :=
  snd (run env (aria_client a r) (w <| clock := n |>)).

(** ** Only requests of the network *)

(** A program whose calls are all HTTP requests. *)
Fixpoint net_only {A} (p : prog A) : Prop :=
  match p with
  | Ret _ => True
  | Panic => False
  | Vis e k => match e with Net _ => True | _ => False end /\ forall x, net_only (k x)
  end.

Lemma net_only_bind {A B} (p : prog A) (f : A -> prog B) :
  net_only p -> (forall x, net_only (f x)) -> net_only (bind p f).
Proof. induction p as [x| |X e k IH]; cbn; [auto|done|]. intros [He Hk] Hf. split; auto. Qed.

Lemma net_only_bind_err {A B} (p : prog (res A)) (f : A -> prog (res B)) :
  net_only p -> (forall x, net_only (f x)) -> net_only (bind_err p f).
Proof. intros Hp Hf. apply net_only_bind; [done|]. intros [e|x]; [done|apply Hf]. Qed.

(** Such a program moves the clock only, and does so by the clock it starts from. *)
Lemma run_net_only {A} (env : Env) (p : prog A) (n : nat) :
  net_only p ->
  exists n' x, n <= n' /\ forall w, clock w = n -> run env p w = (w <| clock := n' |>, Some x).
Proof.
  revert n. induction p as [x| |X e k IH]; intros n; cbn; [|done|].
  - intros _. exists n, x. split; [done|]. intros [] <-. reflexivity.
  - intros [He Hk]. destruct e; try done.
    destruct (IH (net_at env n r) (S n) (Hk _)) as (n' & x & Hn & H). exists n', x. split; [lia|].
    intros w Hw. unfold handle. cbn. rewrite Hw. by rewrite H.
Qed.

Lemma net_only_call (r : net_req) : net_only (call (Net r)).
Proof. by split. Qed.

Lemma net_only_rpc (method : string) (params : list value) : net_only (rpc a method params).
Proof. apply net_only_bind_err; [apply net_only_call|done]. Qed.

Lemma net_only_rpc_nil (method : string) (params : list value) : net_only (rpc_nil a method params).
Proof. apply net_only_bind_err; [apply net_only_rpc|done]. Qed.

Lemma net_only_rpc_out {X} (method : string) (params : list value) (dec : value -> option X) :
  net_only (rpc_out a method params dec).
Proof. apply net_only_bind_err; [apply net_only_rpc|done]. Qed.

Lemma net_only_cleanup (gid : string) : net_only (cleanup_result a gid).
Proof. apply net_only_bind; [apply net_only_rpc_nil|done]. Qed.

Lemma net_only_client (r : aria_req) : net_only (aria_client a r).
Proof.
  destruct r; cbn [aria_client]; try apply net_only_rpc_nil; [apply net_only_rpc_out|..].
  - apply net_only_bind_err; [apply net_only_rpc_out|]. intros st. by case_bool.
  - apply net_only_bind; [apply net_only_rpc_nil|]. intros [err|x]; [|apply net_only_cleanup].
    case_bool; [|case_bool; [apply net_only_cleanup|done]].
    apply net_only_bind; [apply net_only_rpc_nil|]. intros forced.
    destruct (unless_not_found forced); [done|apply net_only_cleanup].
Qed.

(** ** The environment of the program over the interface *)

Definition no_answer (r : aria_req) : aria_resp r :=
  match r return aria_resp r with
  | AddURI _ _ | TellStatus _ | PauseGid _ | UnpauseGid _ | RemoveGid _ => inl (ENew "")
  end.

(** Its call number [n] is answered as the environment answers call number [index n], and a
    request to the downloader as the client, started there, answers it. *)
Definition behind (env : Env) (index : nat -> nat) (w : World) : Env := {|
  now_at n := now_at env (index n);
  sql_fault n := sql_fault env (index n);
  aria_at n r := default (no_answer r) (client_answer env (index n) r w);
  remove_at n := remove_at env (index n);
  stat_at n := stat_at env (index n);
  tool_at n := tool_at env (index n);
  lookpath_at n := lookpath_at env (index n);
  range_at n := range_at env (index n);
  cancelled_at n := cancelled_at env (index n);
  files_env := {| file_fault n := file_fault (files_env env) (index n);
                  io_count n := io_count (files_env env) (index n);
                  temp_random n := temp_random (files_env env) (index n) |};
  os_at n := os_at env (index n);
  net_at n := net_at env (index n)
|}.

(** The worlds of the two runs: all but the count of calls and the requests to the interface. *)
Definition hide (c : nat) (q : list aria_req) (w : World) : World :=
  w <| clock := c |> <| requests := q |>.

(** ** The simulation *)

Lemma file_act_behind (env : Env) (index : nat -> nat) (w0 : World) (n : nat) fs (r : file_req) :
  file_act (files_env (behind env index w0)) n fs r = file_act (files_env env) (index n) fs r.
Proof. by destruct r. Qed.

Lemma act_hide {X} (env : Env) (index : nat -> nat) (w0 : World) (n : nat) c q (w : World) (e : ev X) :
  match e with Aria _ => False | _ => True end ->
  act env (index n) (hide c q w) e
  = (hide c q (fst (act (behind env index w0) n w e)), snd (act (behind env index w0) n w e)).
Proof.
  intros He. destruct w, e; try done; unfold hide; cbn -[behind file_act]; rewrite ?file_act_behind;
    cbn -[file_act].
  - by destruct (sql_fault _ _); [|destruct (q0 _)].
  - by destruct (sql_fault _ _).
  - by destruct (sql_fault _ _).
  - by destruct (remove_at _ _ _).
  - by destruct (file_act _ _ _ _).
  - by destruct (u _).
  - by case_bool.
  - by repeat case_bool.
Qed.

Lemma answered (env : Env) (index : nat -> nat) (w0 w : World) (n : nat) (r : aria_req) :
  clock w = index n ->
  exists n', index n <= n'
    /\ run env (aria_client a r) w
       = (w <| clock := n' |>, Some (aria_at (behind env index w0) n r)).
Proof.
  intros Hc. destruct (run_net_only env (aria_client a r) (index n) (net_only_client r))
    as (n' & x & Hn & H). exists n'. split; [done|]. rewrite H by done.
  cbn. unfold client_answer. rewrite H by done. done.
Qed.

Lemma act_clock {X} (env : Env) (n : nat) (w : World) (e : ev X) :
  clock (fst (act env n w e)) = clock w.
Proof.
  destruct e; cbn; try done.
  - by destruct (sql_fault _ _); [|destruct (q _)].
  - by destruct (sql_fault _ _).
  - by destruct (sql_fault _ _).
  - by destruct (remove_at _ _ _).
  - by destruct (file_act _ _ _ _).
  - by destruct (u _).
  - by case_bool.
  - by repeat case_bool.
Qed.

(** Environments that agree from a call on are one to a program that starts there. *)
Lemma run_agree {A} (env env' : Env) (p : prog A) (w : World) :
  (forall n X (e : ev X) w', clock w <= n -> act env n w' e = act env' n w' e) ->
  run env p w = run env' p w.
Proof.
  revert w. induction p as [x| |X e k IH]; intros w H; [done..|]. cbn. unfold handle.
  rewrite <- (H (clock w)) by done.
  pose proof (act_clock env (clock w) (w <| clock := S (clock w) |>) e) as Hc.
  destruct (act _ _ _ _) as [w' x]. cbn in Hc. apply IH. intros n Y e' w2 Hn. apply H. lia.
Qed.

Lemma behind_agree {X} (env : Env) (index index' : nat -> nat) (w0 : World) (n : nat) (w : World)
    (e : ev X) :
  index n = index' n -> act (behind env index w0) n w e = act (behind env index' w0) n w e.
Proof.
  intros Hi. destruct e; try (cbn -[client_answer file_act]; by rewrite ?Hi).
  cbn -[behind file_act]. by rewrite !file_act_behind, Hi.
Qed.

(** The index of a run: the first call answered as call [n], the later ones by [index]. *)
Definition from (c n : nat) (index : nat -> nat) (i : nat) : nat := if Nat.leb i c then n else index i.

Definition monotone_from (c : nat) (index : nat -> nat) : Prop :=
  forall i j, c <= i <= j -> index i <= index j.

Lemma monotone_step (c n : nat) (index : nat -> nat) :
  n <= index (S c) -> monotone_from (S c) index -> monotone_from c (from c n index).
Proof.
  intros Hn Hm i j Hij. unfold from. destruct (Nat.leb_spec i c), (Nat.leb_spec j c); try lia.
  - pose proof (Hm (S c) j). lia.
  - apply Hm. lia.
Qed.

Lemma run_from {A} (env : Env) (index : nat -> nat) (c n : nat) (w0 w : World) (p : prog A) :
  c < clock w -> run (behind env (from c n index) w0) p w = run (behind env index w0) p w.
Proof.
  intros Hc. apply run_agree. intros m X e w' Hm. apply behind_agree. unfold from.
  destruct (Nat.leb_spec m c); [lia|done].
Qed.

Lemma client_ev_step {X} (env : Env) (w0 : World) (c : nat) (q : list aria_req) (w : World) (e : ev X) :
  exists c', c <= c' /\ forall index, index (clock w) = c ->
    run env (client_ev e) (hide c q w)
    = (hide c' q (fst (handle (behind env index w0) w e)),
       Some (snd (handle (behind env index w0) w e))).
Proof.
  assert (match e with Aria _ => False | _ => True end ->
    forall index, index (clock w) = c ->
    run env (call e) (hide c q w)
    = (hide (S c) q (fst (handle (behind env index w0) w e)),
       Some (snd (handle (behind env index w0) w e)))) as Hcall.
  { intros He index Hi. rewrite run_call. unfold handle.
    pose proof (act_hide env index w0 (clock w) (S c) q (w <| clock := S (clock w) |>) e He) as H.
    rewrite Hi in H.
    change (act env (clock (hide c q w)) _ e)
      with (act env c (hide (S c) q (w <| clock := S (clock w) |>)) e).
    rewrite H. by destruct (act _ _ _ _). }
  destruct e; try (exists (S c); split; [lia|by apply Hcall]).
  destruct (answered env (fun _ => c) w0 (hide c q w) (clock w) r eq_refl) as (c' & Hc & H).
  exists c'. split; [done|]. intros index Hi. cbn [client_ev]. rewrite H.
  f_equal. cbn. by rewrite Hi.
Qed.

Lemma simulation {A} (env : Env) (w0 : World) (p : prog A) (c : nat) (q : list aria_req) (w : World) :
  exists index, c <= index (clock w) /\ monotone_from (clock w) index
    /\ exists c', run env (with_client p) (hide c q w)
         = (hide c' q (fst (run (behind env index w0) p w)), snd (run (behind env index w0) p w)).
Proof.
  revert c q w. induction p as [x| |X e k IH]; intros c q w.
  - exists (fun _ => c). split; [done|]. split; [by intros ? ? ?|]. by exists c.
  - exists (fun _ => c). split; [done|]. split; [by intros ? ? ?|]. by exists c.
  - destruct (client_ev_step env w0 c q w e) as (c1 & Hc1 & Hstep).
    specialize (Hstep (fun _ => c) eq_refl) as Hfirst.
    pose proof (act_clock (behind env (fun _ => c) w0) (clock w) (w <| clock := S (clock w) |>) e) as Hclk.
    fold (handle (behind env (fun _ => c) w0) w e) in Hclk. cbn in Hclk.
    destruct (handle (behind env (fun _ => c) w0) w e) as [w1 x] eqn:E1. cbn [fst snd] in *.
    destruct (IH x c1 q w1) as (index & Hi & Hm & c' & Hrun). rewrite Hclk in *.
    exists (from (clock w) c index). split; [by unfold from; rewrite Nat.leb_refl|].
    split; [apply monotone_step; [lia|done]|]. exists c'.
    cbn [with_client]. rewrite run_bind, Hfirst, Hrun. cbn [run].
    assert (handle (behind env (from (clock w) c index) w0) w e = (w1, x)) as ->.
    { rewrite <- E1. apply behind_agree. unfold from. by rewrite Nat.leb_refl. }
    by rewrite run_from by lia.
Qed.

(** C10. Refinement: a program run with the JSON-RPC client does what the program over the
    interface [Downloader] does in some environment: the same result or panic, and the same
    world up to the count of the calls and the log of the requests to the interface.  In that environment every
    other call is answered as in the real one, in the same order, and each request to the
    downloader is answered by the client, whose statuses are never nameless and whose
    removals never fail for a missing download.  So what is proved of the service and the
    runner for every environment holds for the daemon with its client. *)
Theorem with_client_refines {A} (env : Env) (p : prog A) (w : World) :
  exists index, monotone_from (clock w) index
  /\ (forall n r, client_answer env (index n) r w = Some (aria_at (behind env index w) n r)
        /\ downloader_contract r (aria_at (behind env index w) n r))
  /\ let '(w1, r1) := run env (with_client p) w in
     let '(w2, r2) := run (behind env index w) p w in
     r1 = r2 /\ w1 = w2 <| clock := clock w1 |> <| requests := requests w1 |>.
Proof.
  destruct (simulation env w p (clock w) (requests w) w) as (index & _ & Hm & c' & Hrun).
  exists index. split; [done|]. split.
  - intros n r. destruct (answered env index w (w <| clock := index n |>) n r ltac:(by destruct w))
      as (n' & _ & H). pose proof (rets_run _ _ env (w <| clock := index n |>) (client_rets a r)) as Hr.
    unfold client_answer. by rewrite H in *.
  - replace (hide (clock w) (requests w) w) with w in Hrun by by destruct w.
    rewrite Hrun. by destruct (run (behind env index w) p w) as [w2 r2].
Qed.
End Refinement.
