(* ===== verification/Settings.v ===== *)
(** * internal/api/settings.go: the run-time settings

    A request changes them by a map of decoded JSON values.  A JSON number decodes to a finite
    float64, which is a mantissa times a power of two. *)

From S2P Require Import Prelude GoStrings GoPath GoError GoJson Schema Effects.

#[local] Open Scope string_scope.

(** ** Decoded JSON values

    A request's values are what encoding/json decodes into an [interface{}]. *)

(** The finite float64 [mantissa * 2 ^ exponent]. *)
Record float64 : Type := mkFloat { mantissa : Z; exponent : Z }.

#[warnings="-register-all"]
Inductive json : Type :=
  | JNull
  | JBool (b : bool)
  | JNumber (f : float64)
  | JString (s : string)
  | JArray (l : list json)
  | JObject (l : list (string * json)).

(** [f] times [2 ^ -exponent] when that is positive: both sides of a comparison are scaled. *)
Definition scale (f : float64) : Z := (2 ^ Z.max 0 (- exponent f))%Z.

Definition scaled (f : float64) : Z := (mantissa f * 2 ^ Z.max 0 (exponent f))%Z.

(** [int(math.Trunc(f))]. *)
Definition Trunc (f : float64) : Z := Z.quot (scaled f) (scale f).

(** [f == math.Trunc(f)], [f < z] and [f > z]. *)
Definition is_integer (f : float64) : bool := (scaled f =? Trunc f * scale f)%Z.
Definition float_ltb (f : float64) (z : Z) : bool := (scaled f <? z * scale f)%Z.
Definition float_gtb (f : float64) (z : Z) : bool := (z * scale f <? scaled f)%Z.

(** [f] is the integer [z]. *)
Definition float_is (f : float64) (z : Z) : Prop := scaled f = (z * scale f)%Z.

(** ** Updating *)

Definition defaultSettings : SettingsState := mkSettings 2 5 true.

(** An integer field of the request, or its old value when the request has none. *)
Definition int_field (updates : gmap string json) (key : string) (lo hi old : Z) : res Z :=
  match updates !! key with
  | None => inr old
  | Some (JNumber f) =>
      if negb (is_integer f) then inl (ENew (key ++ " must be an integer"))
      else if float_ltb f lo || float_gtb f hi
      then inl (ENew (key ++ " must be between " ++ Itoa lo ++ " and " ++ Itoa hi))
      else inr (Trunc f)
  | Some _ => inl (ENew (key ++ " must be a number"))
  end.

Definition bool_field (updates : gmap string json) (key : string) (old : bool) : res bool :=
  match updates !! key with
  | None => inr old
  | Some (JBool b) => inr b
  | Some _ => inl (ENew (key ++ " must be a boolean"))
  end.

(** The fields are checked and set one after the other. *)
Definition Update (updates : gmap string json) (s : SettingsState) : SettingsState * res unit :=
  match int_field updates "concurrency" 1 10 (Concurrency s) with
  | inl err => (s, inl err)
  | inr concurrency =>
      let s := mkSettings concurrency (SetMaxAttempts s) (AutoDecrypt s) in
      match int_field updates "max_attempts" 1 20 (SetMaxAttempts s) with
      | inl err => (s, inl err)
      | inr maxAttempts =>
          let s := mkSettings (Concurrency s) maxAttempts (AutoDecrypt s) in
          match bool_field updates "auto_decrypt" (AutoDecrypt s) with
          | inl err => (s, inl err)
          | inr autoDecrypt =>
              (mkSettings (Concurrency s) (SetMaxAttempts s) autoDecrypt, inr tt)
          end
      end
  end.

(** ** The settings' file *)

Definition setting_line (key : string) (v : value) : string :=
  nl ++ "  " ++ quote key ++ ": " ++ Marshal v.

(** [json.MarshalIndent(s, "", "  ")]: the exported fields in their order. *)
Definition settings_text (s : SettingsState) : string :=
  "{" ++ Join [setting_line "concurrency" (Num (Itoa (Concurrency s)));
               setting_line "max_attempts" (Num (Itoa (SetMaxAttempts s)));
               setting_line "auto_decrypt" (Bool (AutoDecrypt s))] "," ++ nl ++ "}".

Definition save_settings (path : string) (s : SettingsState) : prog (res unit) :=
  made <- call (Os (MkdirAll (Dir path))) ;;
  match made with
  | inl err => Ret (inl (EWrap ("create settings dir: " ++ error_text err) err))
  | inr _ =>
      written <- call (Os (WriteFile path (settings_text s))) ;;
      Ret (match written with
           | inl err => inl (EWrap ("write settings: " ++ error_text err) err)
           | inr _ => inr tt
           end)
  end.

(** [Settings.Save] writes the values it reads under the lock. *)
Definition Save (path : string) : prog (res unit) :=
  s <- call GetSettings ;;
  save_settings path s.

Definition settings_fields : list (field SettingsState) :=
  [("concurrency", fun v s => n ← decode_int v (Concurrency s);
                              Some (mkSettings n (SetMaxAttempts s) (AutoDecrypt s)));
   ("max_attempts", fun v s => n ← decode_int v (SetMaxAttempts s);
                               Some (mkSettings (Concurrency s) n (AutoDecrypt s)));
   ("auto_decrypt", fun v s => b ← decode_bool v (AutoDecrypt s);
                               Some (mkSettings (Concurrency s) (SetMaxAttempts s) b))].

Section Load.
Context `{JE : JsonErrors}.

Definition read_settings (text : string) (s : SettingsState) : res SettingsState :=
  match v ← Unmarshal text; decode_struct settings_fields v s with
  | Some s => inr s
  | None => inl (json_error text)
  end.

Definition load (path : string) (s : SettingsState) : prog (res SettingsState) :=
  data <-? call (Os (ReadFile path)) ;;
  Ret (read_settings data s).

Definition settings_path (stateDir : string) : string := path_Join2 stateDir "settings.json".

Definition NewSettings (stateDir : string) : prog (res SettingsState) :=
  loaded <- load (settings_path stateDir) defaultSettings ;;
  match loaded with
  | inr s => Ret (inr s)
  | inl err =>
      if errors_Is err ErrNotExist then
        saved <- save_settings (settings_path stateDir) defaultSettings ;;
        Ret (match saved with
             | inl err => inl (EWrap ("save default settings: " ++ error_text err) err)
             | inr _ => inr defaultSettings
             end)
      else Ret (inl (EWrap ("load settings: " ++ error_text err) err))
  end.
End Load.

(** ** What an update does *)

(** The value asked for a field: an integer in the range, or the old one. *)
Definition asks_int (updates : gmap string json) (key : string) (lo hi old z : Z) : Prop :=
  match updates !! key with
  | None => z = old
  | Some v => exists f, v = JNumber f /\ float_is f z /\ (lo <= z <= hi)%Z
  end.

Definition asks_bool (updates : gmap string json) (key : string) (old b : bool) : Prop :=
  match updates !! key with
  | None => b = old
  | Some v => v = JBool b
  end.

Lemma scale_pos (f : float64) : (0 < scale f)%Z.
Proof. unfold scale. apply Z.pow_pos_nonneg; lia. Qed.

Lemma float_is_unique (f : float64) (y z : Z) : float_is f y -> float_is f z -> y = z.
Proof. unfold float_is. pose proof (scale_pos f). intros H1 H2. nia. Qed.

Lemma float_is_Trunc (f : float64) (z : Z) : float_is f z -> Trunc f = z.
Proof.
  unfold float_is, Trunc. intros ->. apply Z.quot_mul. pose proof (scale_pos f). lia.
Qed.

Lemma int_field_spec (updates : gmap string json) (key : string) (lo hi old : Z) :
  match int_field updates key lo hi old with
  | inr z => asks_int updates key lo hi old z
  | inl _ => forall z, ~ asks_int updates key lo hi old z
  end.
Proof.
  unfold int_field, asks_int. destruct (updates !! key) as [v|]; [|done].
  destruct v as [| |f| | |]; try by intros z (f' & ? & _).
  unfold is_integer, float_ltb, float_gtb. pose proof (scale_pos f) as Hp.
  destruct (scaled f =? Trunc f * scale f)%Z eqn:Ei; bool_prop; cbn [negb].
  - destruct (_ || _) eqn:Er.
    + intros z (f' & [= <-] & Hz & Hr). pose proof (float_is_Trunc f z Hz) as Ht. unfold float_is in Hz.
      apply orb_true_iff in Er as [Er|Er]; bool_prop; nia.
    + bool_prop. exists f. split; [done|]. split; [done|]. nia.
  - intros z (f' & [= <-] & Hz & _). pose proof (float_is_Trunc f z Hz) as Ht.
    unfold float_is in Hz. congruence.
Qed.

Lemma asks_int_unique updates key lo hi old y z :
  asks_int updates key lo hi old y -> asks_int updates key lo hi old z -> y = z.
Proof.
  unfold asks_int. destruct (updates !! key) as [v|]; [|congruence].
  intros (f & -> & H1 & _) (f' & [= <-] & H2 & _). by eapply float_is_unique.
Qed.

Lemma bool_field_spec (updates : gmap string json) (key : string) (old : bool) :
  match bool_field updates key old with
  | inr b => asks_bool updates key old b
  | inl _ => forall b, ~ asks_bool updates key old b
  end.
Proof.
  unfold bool_field, asks_bool. destruct (updates !! key) as [v|]; [|done]. by destruct v.
Qed.

(** The settings the handlers leave: within the bounds they promise. *)
Definition settings_ok (s : SettingsState) : Prop :=
  (1 <= Concurrency s <= 10)%Z /\ (1 <= SetMaxAttempts s <= 20)%Z.

Lemma asks_int_range updates key lo hi old z :
  (lo <= old <= hi)%Z -> asks_int updates key lo hi old z -> (lo <= z <= hi)%Z.
Proof.
  unfold asks_int. destruct (updates !! key) as [v|]; [|lia]. by intros _ (f & _ & _ & H).
Qed.

(** C24. An update succeeds exactly when every field it names has an admissible value: an
    integral number from 1 to 10 for the concurrency and from 1 to 20 for the attempts, a
    boolean for the extraction; then the settings are the ones asked for and the other fields
    keep their values.  A refused update may still have changed the fields before the refused
    one: with a bad [max_attempts] a good [concurrency] is in force all the same.  Either way
    settings in bounds stay in bounds. *)
Theorem Update_spec (updates : gmap string json) (s : SettingsState) :
  let '(s', r) := Update updates s in
  (settings_ok s -> settings_ok s') /\
  (r = inr tt <-> exists c m a, asks_int updates "concurrency" 1 10 (Concurrency s) c
                 /\ asks_int updates "max_attempts" 1 20 (SetMaxAttempts s) m
                 /\ asks_bool updates "auto_decrypt" (AutoDecrypt s) a) /\
  (r = inr tt -> asks_int updates "concurrency" 1 10 (Concurrency s) (Concurrency s')
                 /\ asks_int updates "max_attempts" 1 20 (SetMaxAttempts s) (SetMaxAttempts s')
                 /\ asks_bool updates "auto_decrypt" (AutoDecrypt s) (AutoDecrypt s')) /\
  (forall e c, r = inl e -> asks_int updates "concurrency" 1 10 (Concurrency s) c ->
     Concurrency s' = c
     /\ forall m, asks_int updates "max_attempts" 1 20 (SetMaxAttempts s) m -> SetMaxAttempts s' = m).
Proof.
  unfold Update, settings_ok.
  pose proof (int_field_spec updates "concurrency" 1 10 (Concurrency s)) as H1.
  pose proof (int_field_spec updates "max_attempts" 1 20 (SetMaxAttempts s)) as H2.
  pose proof (bool_field_spec updates "auto_decrypt" (AutoDecrypt s)) as H3.
  destruct (int_field _ "concurrency" _ _ _) as [e1|c1]; cbn [SetMaxAttempts AutoDecrypt Concurrency].
  { split; [done|]. split; [|split; [done|]].
    - split; [done|]. intros (c & m & a & Hc & _). by apply H1 in Hc.
    - intros e c _ Hc. by apply H1 in Hc. }
  destruct (int_field _ "max_attempts" _ _ _) as [e2|m2]; cbn [SetMaxAttempts AutoDecrypt Concurrency].
  { split; [intros [Hs1 Hs2]; split; [by eapply asks_int_range|done]|]. split; [|split; [done|]].
    - split; [done|]. intros (c & m & a & _ & Hm & _). by apply H2 in Hm.
    - intros e c _ Hc. split; [by eapply asks_int_unique|]. intros m Hm. by apply H2 in Hm. }
  destruct (bool_field _ _ _) as [e3|a3]; cbn [SetMaxAttempts AutoDecrypt Concurrency].
  - split; [intros [Hs1 Hs2]; split; by eapply asks_int_range|]. split; [|split; [done|]].
    + split; [done|]. intros (c & m & a & _ & _ & Ha). by apply H3 in Ha.
    + intros e c _ Hc. split; [by eapply asks_int_unique|]. intros m Hm. by eapply asks_int_unique.
  - split; [intros [Hs1 Hs2]; split; by eapply asks_int_range|]. split; [|split; [done|done]].
    split; [|done]. intros _. by exists c1, m2, a3.
Qed.

(** ** The file read back *)

Lemma line_app (key : string) (v : value) (t : string) :
  setting_line key v ++ t = (nl ++ "  ") ++ quote key ++ ":" ++ " " ++ Marshal v ++ t.
Proof. unfold setting_line. by rewrite <- !str_app_assoc. Qed.

Lemma read_line (n : nat) (key : string) (v : value) (t : string) :
  well_formed v -> nesting v = 0%Z -> stops t -> (cost v <= n)%nat ->
  parse_members (S n) 1 (setting_line key v ++ t)
  = match skip_space t with
    | "" => None
    | String c r1 =>
        if Ascii.eqb c "," then
          '(l, r2) ← parse_members n 1 r1; Some ((to_valid key, coerce v) :: l, r2)
        else if Ascii.eqb c "}" then Some ([(to_valid key, coerce v)], r1)
        else None
    end.
Proof.
  intros Hw Hn Ht Hc. rewrite line_app. apply parse_member; try done; [apply parse_Marshal|].
  rewrite Hn. done.
Qed.

Definition settings_value (s : SettingsState) : value :=
  Obj [("concurrency", Num (Itoa (Concurrency s))); ("max_attempts", Num (Itoa (SetMaxAttempts s)));
       ("auto_decrypt", Bool (AutoDecrypt s))].

Lemma fuel_left (c1 c2 c3 : ascii) (u : string) :
  exists n, json_fuel (String c1 (String c2 (String c3 u))) = S (S (S (S (S (S n))))).
Proof. exists (2 * String.length u + 1). unfold json_fuel. cbn [String.length]. lia. Qed.

Lemma settings_text_parses (s : SettingsState) : Unmarshal (settings_text s) = Some (settings_value s).
Proof.
  unfold Unmarshal.
  assert (exists n, json_fuel (settings_text s) = S (S (S (S (S (S n)))))) as [n ->] by apply fuel_left.
  unfold settings_text. cbn [Join]. rewrite <- !str_app_assoc. cbn [parse_value String.append].
  rewrite skip_head by done. change (Ascii.eqb "{" "{") with true. cbn iota.
  change (maxNestingDepth <=? 0)%Z with false. cbn iota.
  assert (forall k v t, expect "}" (skip_space (setting_line k v ++ t)) = None) as ->.
  { intros k v t. rewrite line_app, skip_blank by done. unfold quote. cbn [String.append].
    by rewrite skip_head. }
  change (0 + 1)%Z with 1%Z.
  rewrite read_line by (try apply Itoa_is_number; try done; cbn; lia).
  rewrite skip_head by done. change (Ascii.eqb "," ",") with true. cbn iota.
  rewrite read_line by (try apply Itoa_is_number; try done; cbn; lia).
  rewrite skip_head by done. change (Ascii.eqb "," ",") with true. cbn iota.
  rewrite read_line by (try done; cbn; lia). done.
Qed.

(** What [Save] writes, [load] reads back, whatever the settings were before. *)
Lemma read_settings_text `{JE : JsonErrors} (s old : SettingsState) :
  (min_int64 <= Concurrency s <= max_int64)%Z -> (min_int64 <= SetMaxAttempts s <= max_int64)%Z ->
  read_settings (settings_text s) old = inr s.
Proof.
  intros Hc Hm. unfold read_settings. rewrite settings_text_parses. cbn [mbind option_bind].
  destruct s as [c m b], old as [c0 m0 b0]. unfold settings_value. cbn [Concurrency SetMaxAttempts AutoDecrypt] in *.
  pose proof (decode_int_Itoa c c0 Hc) as H1. pose proof (decode_int_Itoa m m0 Hm) as H2.
  generalize dependent (Num (Itoa c)). generalize dependent (Num (Itoa m)). intros tm H2 tc H1.
  cbv -[decode_int]. by rewrite H1, H2.
Qed.

Lemma settings_ok_int64 (s : SettingsState) :
  settings_ok s ->
  (min_int64 <= Concurrency s <= max_int64)%Z /\ (min_int64 <= SetMaxAttempts s <= max_int64)%Z.
Proof. unfold settings_ok, min_int64, max_int64. lia. Qed.

