(* ===== verification/Status.v ===== *)
(** * internal/queue/status.go: which site a job belongs to, and its displayed status *)

From S2P Require Import Prelude GoStrings GoUrl Schema.

#[local] Open Scope string_scope.

Section Status.
  Context `{Unicode}.

Definition url_host_contains (rawURL : string) (names : list string) : bool :=
  match Parse rawURL with
  | inr u =>
      let host := ToLower (TrimSpace (Hostname u)) in
      existsb (Contains host) names
  | inl _ => false
  end.

Definition IsWebshareJob (site rawURL : string) : bool :=
  if EqualFold_ascii (TrimSpace site) "webshare" then true
  else
    let rawURL := TrimSpace rawURL in
    if String.eqb rawURL "" then false
    else if url_host_contains rawURL ["webshare.cz"] then true
    else Contains (ToLower rawURL) "webshare.cz".

Definition IsMegaJob (site rawURL : string) : bool :=
  if EqualFold_ascii (TrimSpace site) "mega" then true
  else
    let rawURL := TrimSpace rawURL in
    if String.eqb rawURL "" then false
    else if url_host_contains rawURL ["mega.nz"; "mega.co.nz"] then true
    else
      let lower := ToLower rawURL in
      Contains lower "mega.nz" || Contains lower "mega.co.nz".

Definition DisplayStatus (status site rawURL : string) : string :=
  if String.eqb status StatusPaused && IsWebshareJob site rawURL then "stopped" else status.

End Status.
