(* ===== verification/Paths.v ===== *)
(** * internal/queue/paths.go: output directories and file names *)

From S2P Require Import Prelude GoStrings GoPath GoError.

#[local] Open Scope string_scope.

(** The body of [cleanOutDir]'s loop: is [clean] inside [root]? *)
Definition root_allows (clean root : string) : bool :=
  match Rel (Clean root) clean with
  | None => false
  | Some rel => negb (String.eqb rel ".." || HasPrefix rel "../")
  end.

Definition cleanOutDir (outDir : string) (allowedRoots : list string) : res string :=
  if String.eqb outDir "" then inl (ENew "missing out_dir")
  else if (length allowedRoots =? 0)%nat then inl (ENew "no DATA_* volumes configured")
  else
    let clean := Clean outDir in
    if negb (IsAbs clean) then inl (ENew "out_dir must be absolute")
    else if existsb (root_allows clean) allowedRoots then inr clean
    else inl (ENew "out_dir is not within an allowed DATA_* volume").

Definition cleanUserFilename (name : string) : res string :=
  if String.eqb name "" then inr ""
  else if IsAbs name || ContainsAny name [char_slash; char_backslash]
  then inl (ENew "name must not contain path separators")
  else
    let clean := Clean name in
    if String.eqb clean "." || String.eqb clean ".." || String.eqb clean "/"
    then inl (ENew "invalid name")
    else inr clean.

Definition sanitizeFilename (name : string) : string :=
  if String.eqb name "" then ""
  else
    let base := Base (TrimSpace name) in
    if String.eqb base "" || String.eqb base "." || String.eqb base "/" then ""
    else if ContainsAny base [char_slash; char_backslash] then ""
    else base.

(** ** Containment *)

Lemma dotdot_join_escapes (bs ts : list string) :
  bs <> [] ->
  String.eqb (path_join (dotdots bs ++ ts)%list) ".."
  || HasPrefix (path_join (dotdots bs ++ ts)%list) "../" = true.
Proof.
  intros Hbs. destruct bs as [|b bs]; [done|]. simpl.
  destruct (dotdots bs ++ ts)%list as [|x l]; [done|].
  apply orb_true_iff. right. apply HasPrefix_iff. by exists (path_join (x :: l)).
Qed.

Lemma proper_join_inside (l : list string) :
  Forall proper_elem l ->
  String.eqb (path_join l) ".." || HasPrefix (path_join l) "../" = false.
Proof.
  intros Hl. destruct Hl as [|e l (H1 & H2 & H3 & H4) Hl]; [done|].
  apply orb_false_iff. destruct l as [|x l]; unfold path_join; cbn [Join].
  - split; [by apply String.eqb_neq|]. destruct (HasPrefix e "../") eqn:E; [|done].
    apply HasPrefix_iff in E as [r ->]. done.
  - split.
    + apply String.eqb_neq. intros Heq. assert (contains_char ".." char_slash = true) as Hc; [|done].
      rewrite <- Heq, contains_char_app. unfold contains_char at 2. simpl. by rewrite orb_true_r.
    + destruct (HasPrefix _ "../") eqn:E; [|done]. exfalso.
      apply HasPrefix_iff in E as [r Hr]. clear Hl.
      destruct e as [|a [|b [|c e]]]; simpl in Hr; simplify_eq/=; try done.
Qed.

Lemma root_allows_iff (clean root : string) (l : list string) :
  Forall proper_elem l -> clean = String char_slash (path_join l) ->
  root_allows clean root = true
  <-> IsAbs root = true /\ exists rest, l = (clean_list root ++ rest)%list.
Proof.
  intros Hl ->. unfold root_allows, Rel.
  rewrite (Clean_rooted (String _ _)) by apply IsAbs_cons.
  rewrite clean_list_rooted, IsAbs_cons by done.
  destruct (IsAbs root) eqn:Hr.
  - rewrite Clean_idem_abs by done. rewrite Clean_rooted by done.
    set (r := clean_list root). assert (Forall proper_elem r) as Hpr by by apply clean_list_proper.
    destruct (String.eqb (String char_slash (path_join l)) _) eqn:E.
    + split; [intros _; split; [done|]|done]. bool_prop. apply (f_equal elems_of) in E.
      rewrite !elems_of_rooted in E by done. exists []. by rewrite app_nil_r.
    + change (String.eqb (String char_slash (path_join r)) ".") with false. cbn iota.
      rewrite IsAbs_cons. cbn [Bool.eqb negb]. rewrite !elems_of_rooted by done.
      destruct (strip_common r l) as [bs ts] eqn:Es.
      pose proof (strip_common_spec _ _ _ _ Es) as (c & Hc1 & Hc2).
      assert (Forall proper_elem ts) as Hts.
      { rewrite Hc2 in Hl. by apply Forall_app in Hl as [_ ?]. }
      assert (bs = [] <-> exists rest, l = (r ++ rest)%list) as Hiff.
      { split; [intros ->; exists ts; by rewrite Hc2, Hc1, app_nil_r|].
        intros [rest ->]. rewrite strip_common_app in Es. by simplify_eq. }
      destruct bs as [|b bs].
      * rewrite proper_join_inside by done. split; [intros _|done]. split; [done|]. by apply Hiff.
      * assert (~ exists rest, l = (r ++ rest)%list) as Hno by (intros Hex; by apply Hiff in Hex).
        split; [|by intros (_ & Hex)].
        pose proof (dotdot_join_escapes (b :: bs) ts) as Hd.
        destruct (String.eqb b ".." && _); [done|]. by rewrite Hd.
  - assert (IsAbs (Clean root) = false) as Hcr.
    { destruct (IsAbs (Clean root)) eqn:E; [|done]. apply IsAbs_Clean in E. by rewrite Hr in E. }
    split; [|by intros []].
    destruct (IsAbs (Clean (Clean root))) eqn:E2; [apply IsAbs_Clean in E2; congruence|].
    destruct (String.eqb _ (Clean (Clean root))) eqn:E.
    { bool_prop. rewrite <- E, IsAbs_cons in E2. done. }
    assert (IsAbs (if String.eqb (Clean (Clean root)) "." then "" else Clean (Clean root)) = false) as ->.
    { by destruct (String.eqb _ "."). }
    done.
Qed.

Lemma cleanOutDir_iff (outDir : string) (allowedRoots : list string) (p : string) :
  cleanOutDir outDir allowedRoots = inr p
  <-> p = Clean outDir /\ IsAbs outDir = true
      /\ exists root rest, root ∈ allowedRoots /\ IsAbs root = true
                           /\ clean_list outDir = (clean_list root ++ rest)%list.
Proof.
  unfold cleanOutDir. split.
  - destruct (String.eqb outDir "") eqn:E1; [done|].
    destruct (_ =? 0)%nat; [done|].
    destruct (IsAbs (Clean outDir)) eqn:E2; simpl; [|done]. apply IsAbs_Clean in E2.
    destruct (existsb _ _) eqn:E3; [|done]. intros [= <-]. split; [done|]. split; [done|].
    apply existsb_exists in E3 as (root & Hin & Hr). exists root.
    apply (root_allows_iff _ _ (clean_list outDir)) in Hr as (Ha & rest & Hrest).
    + exists rest. by rewrite list_elem_of_In.
    + by apply clean_list_proper.
    + by apply Clean_rooted.
  - intros (-> & Ha & root & rest & Hin & Hra & Hrest).
    destruct (String.eqb outDir "") eqn:E1; [by destruct outDir|].
    destruct allowedRoots as [|r0 roots0] eqn:Er; [by apply elem_of_nil in Hin|].
    rewrite <- Er in *. replace (length allowedRoots =? 0)%nat with false by by rewrite Er.
    rewrite (Clean_rooted outDir Ha) at 1. rewrite IsAbs_cons. cbn [negb].
    destruct (existsb _ _) eqn:E3; [done|]. exfalso.
    apply not_true_iff_false in E3. apply E3. apply existsb_exists. exists root.
    rewrite <- list_elem_of_In. split; [done|].
    apply (root_allows_iff _ _ (clean_list outDir)).
    + by apply clean_list_proper.
    + by apply Clean_rooted.
    + eauto.
Qed.

(** C29. [cleanOutDir] accepts exactly the absolute directories that lie, element by element,
    under some absolute allowed root, and returns their cleaned form: no spelling of "..",
    "." or doubled separators leads outside the roots, and nothing inside them is refused. *)
Theorem cleanOutDir_spec (outDir : string) (allowedRoots : list string) (p : string) :
  cleanOutDir outDir allowedRoots = inr p
  <-> p = Clean outDir /\ IsAbs outDir = true
      /\ exists root rest, root ∈ allowedRoots /\ IsAbs root = true
                           /\ clean_list outDir = (clean_list root ++ rest)%list.
Proof. apply cleanOutDir_iff. Qed.

Lemma cleanOutDir_spec_example :
  cleanOutDir "/data/tv/../tv//show/." ["/data/movies"; "/data/tv/"] = inr "/data/tv/show"
  /\ cleanOutDir "/data/tv/../../etc" ["/data/tv"] =
       inl (ENew "out_dir is not within an allowed DATA_* volume").
Proof. by vm_compute. Qed.

Lemma ContainsAny_seps (s : string) :
  ContainsAny s [char_slash; char_backslash]
  = contains_char s char_slash || contains_char s char_backslash.
Proof.
  unfold ContainsAny, contains_char.
  induction s as [|c s IH]; [done|]. cbn [string_existsb]. rewrite IH. cbn [existsb].
  rewrite (Ascii.eqb_sym c char_slash), (Ascii.eqb_sym c char_backslash).
  by destruct (Ascii.eqb char_slash c), (Ascii.eqb char_backslash c),
    (string_existsb (Ascii.eqb char_slash) s).
Qed.

(** [cleanUserFilename] accepts the empty name (none given) and exactly the names that are a
    single path element, not "." or "..", without a backslash; it returns the name itself,
    so a name a user gives is stored unchanged or refused. *)
Lemma cleanUserFilename_iff (name n : string) :
  cleanUserFilename name = inr n
  <-> n = name /\ (name = "" \/ (proper_elem name /\ contains_char name char_backslash = false)).
Proof.
  unfold cleanUserFilename. destruct (String.eqb name "") eqn:E1; bool_prop.
  { subst. split; [intros [= <-]; by split; [|left]|]. by intros [-> _]. }
  rewrite ContainsAny_seps. destruct (contains_char name char_slash) eqn:Es.
  { rewrite orb_true_r. split; [done|]. intros [_ [?|[(_ & _ & _ & H) _]]]; congruence. }
  rewrite (IsAbs_no_slash _ Es). cbn [orb]. destruct (contains_char name char_backslash) eqn:Eb.
  { split; [done|]. intros [_ [?|[_ H]]]; congruence. }
  destruct (decide (name = ".")) as [->|H1]; [split; [done|]; by intros [_ [?|[(_ & ? & _) _]]]|].
  destruct (decide (name = "..")) as [->|H2]; [split; [done|]; by intros [_ [?|[(_ & _ & ? & _) _]]]|].
  assert (proper_elem name) as Hp by done. rewrite Clean_proper by done.
  replace (String.eqb name ".") with false by (symmetry; by apply String.eqb_neq).
  replace (String.eqb name "..") with false by (symmetry; by apply String.eqb_neq).
  replace (String.eqb name "/") with false by (symmetry; apply String.eqb_neq; by intros ->).
  cbn [orb]. split; [intros [= <-]; split; [done|by right]|]. by intros [-> _].
Qed.

Lemma cleanUserFilename_same (name n : string) : cleanUserFilename name = inr n -> n = name.
Proof. intros H. by apply cleanUserFilename_iff in H as [? _]. Qed.

Lemma sanitizeFilename_cases (name : string) :
  sanitizeFilename name = "" \/ sanitizeFilename name = ".."
  \/ (proper_elem (sanitizeFilename name)
      /\ contains_char (sanitizeFilename name) char_backslash = false).
Proof.
  unfold sanitizeFilename. destruct (String.eqb name ""); [by left|].
  set (base := Base (TrimSpace name)).
  destruct (_ || _ || _) eqn:E; [by left|].
  destruct (ContainsAny _ _) eqn:E2; [by left|]. rewrite ContainsAny_seps in E2. bool_prop.
  right. destruct (decide (base = "..")); [by left|by right].
Qed.

(** A name [sanitizeFilename] returns, other than "" and "..", is one proper path element
    without a backslash, so joined to an absolute output directory it names an entry directly
    inside that directory. *)
Theorem sanitizeFilename_inside (name dir : string) :
  sanitizeFilename name <> "" -> sanitizeFilename name <> ".." -> IsAbs dir = true ->
  contains_char (sanitizeFilename name) char_backslash = false
  /\ elems_of (path_Join2 dir (sanitizeFilename name))
     = (clean_list dir ++ [sanitizeFilename name])%list.
Proof.
  intros H1 H2 Hd. destruct (sanitizeFilename_cases name) as [?|[?|[Hp Hb]]]; [done..|].
  split; [done|]. by apply elems_of_Join2_proper.
Qed.

Lemma sanitizeFilename_inside_witness :
  sanitizeFilename " dir/a b.mkv " = "a b.mkv"
  /\ elems_of (path_Join2 "/data/tv" (sanitizeFilename " dir/a b.mkv ")) = ["data"; "tv"; "a b.mkv"].
Proof.
  split; [by vm_compute|].
  destruct (sanitizeFilename_inside " dir/a b.mkv " "/data/tv") as [_ H];
    [by vm_compute..|]. rewrite H. by vm_compute.
Defined.

(** A resolver's file name whose last element is ".." passes [sanitizeFilename]
    unchanged, and joined to the job's output directory it names that directory's parent:
    unlike [cleanUserFilename], this function does not refuse "..". *)
Theorem sanitizeFilename_dotdot (name dir : string) (l : list string) (e : string) :
  Base (TrimSpace name) = ".." -> IsAbs dir = true -> clean_list dir = (l ++ [e])%list ->
  sanitizeFilename name = ".." /\ elems_of (path_Join2 dir (sanitizeFilename name)) = l.
Proof.
  intros Hb Hd Hl. assert (sanitizeFilename name = "..") as ->.
  { unfold sanitizeFilename. rewrite Hb. by destruct name. }
  split; [done|]. by eapply elems_of_Join2_dotdot.
Qed.

Lemma sanitizeFilename_dotdot_witness :
  sanitizeFilename "a/.." = ".."
  /\ elems_of (path_Join2 "/data/tv" (sanitizeFilename "a/..")) = ["data"].
Proof.
  apply (sanitizeFilename_dotdot "a/.." "/data/tv" ["data"] "tv"); by vm_compute.
Defined.
