(* ===== verification/DaemonEnv.v ===== *)
(** * cmd/dlqd/main.go: what the daemon takes from its environment variables

    The directories jobs may download to are the container paths of the volume mappings in
    the variables [DATA_*]. *)

From S2P Require Import Prelude GoStrings GoPath GoError Paths.

#[local] Open Scope string_scope.

Section DaemonEnv.
(** [os.Environ()]: the entries key=value. *)
Context (environ : list string).

(** [os.Getenv]: the first entry of the key counts. *)
Definition Getenv (key : string) : string :=
  match List.find (fun e => HasPrefix e (key ++ "=")) environ with
  | Some e => drop_str (String.length (key ++ "=")) e
  | None => ""
  end.

Definition getenv (key def : string) : string :=
  let v := Getenv key in if negb (String.eqb v "") then v else def.

Definition httpListenAddr : string :=
  let v := Getenv "DLQ_HTTP_ADDR" in
  if negb (String.eqb v "") then v
  else
    let host := Getenv "DLQ_HTTP_HOST" in
    let host := if String.eqb host "" then "0.0.0.0" else host in
    let port := Getenv "DLQ_HTTP_PORT" in
    let port := if String.eqb port "" then "8099" else port in
    host ++ ":" ++ port.

(** The container's side of a volume mapping host:container or host:container:mode. *)
Definition containerPathFromMount (mount : string) : string :=
  if String.eqb mount "" then ""
  else if negb (Contains mount ":") then mount
  else
    let parts := split_char ":" mount in
    if (length parts <? 2)%nat then ""
    else if (length parts =? 2)%nat then TrimSpace (nth 1 parts "")
    else
      let last := TrimSpace (nth (length parts - 1) parts "") in
      if Contains last "/" then last else TrimSpace (nth (length parts - 2) parts "").

(** The path an entry contributes, when it is a mapping. *)
Definition entry_path (env : string) : option string :=
  if negb (HasPrefix env "DATA_") then None
  else
    let '(_, value, found) := Cut env "=" in
    if negb found then None
    else
      let mount := TrimSpace value in
      if String.eqb mount "" then None
      else
        let containerPath := containerPathFromMount mount in
        if String.eqb containerPath "" then None else Some containerPath.

(** The loop over the entries, [out] the last first. *)
Fixpoint presets_loop (entries : list string) (seen : gset string) (out : list string) : list string :=
  match entries with
  | [] => out
  | env :: rest =>
      match entry_path env with
      | None => presets_loop rest seen out
      | Some path =>
          if bool_decide (path ∈ seen) then presets_loop rest seen out
          else presets_loop rest ({[path]} ∪ seen) (path :: out)
      end
  end.

Definition outDirPresetsFromEnv : list string :=
  merge_sort string_le (rev (presets_loop environ ∅ [])).

(** ** The presets are the container paths *)

Lemma presets_loop_spec (entries : list string) (seen : gset string) (out : list string) :
  NoDup out -> (forall p, p ∈ out <-> p ∈ seen) ->
  NoDup (presets_loop entries seen out)
  /\ forall p, p ∈ presets_loop entries seen out
       <-> p ∈ out \/ exists env, env ∈ entries /\ entry_path env = Some p.
Proof.
  revert seen out. induction entries as [|env rest IH]; intros seen out Hd Hs; cbn [presets_loop].
  { split; [done|]. intros p. split; [auto|]. intros [?|(env & Hin & _)]; [done|by apply elem_of_nil in Hin]. }
  assert (forall (o : list string) q, (q ∈ o \/ exists e, e ∈ rest /\ entry_path e = Some q)
            \/ entry_path env = Some q
          <-> q ∈ o \/ exists e, e ∈ env :: rest /\ entry_path e = Some q) as Hsplit.
  { intros o q. setoid_rewrite elem_of_cons. split.
    - intros [[?|(e & ? & ?)]|?]; eauto 6.
    - intros [?|(e & [->|?] & ?)]; eauto 6. }
  destruct (entry_path env) as [path|] eqn:E.
  2: { destruct (IH seen out Hd Hs) as [H1 H2]. split; [done|]. intros p. rewrite <- Hsplit, H2.
       by intuition. }
  case_bool; bool_prop.
  - destruct (IH seen out Hd Hs) as [H1 H2]. split; [done|]. intros p. rewrite <- Hsplit, H2.
    split; [auto|]. intros [?|[= ->]]; [done|]. left. by apply Hs.
  - destruct (IH ({[path]} ∪ seen) (path :: out)) as [H1 H2].
    { apply NoDup_cons. split; [|done]. by rewrite Hs. }
    { intros p. by rewrite elem_of_cons, Hs, elem_of_union, elem_of_singleton. }
    split; [done|]. intros p. rewrite H2, <- Hsplit, elem_of_cons. split.
    + intros [[->|?]|?]; auto.
    + intros [[?|?]|[= ->]]; auto.
Qed.

Lemma outDirPresets_In (p : string) :
  p ∈ outDirPresetsFromEnv <-> exists env, env ∈ environ /\ entry_path env = Some p.
Proof.
  destruct (presets_loop_spec environ ∅ []) as [_ H]; [constructor|set_solver|].
  unfold outDirPresetsFromEnv. rewrite (merge_sort_Permutation string_le), list_elem_of_In, <- in_rev,
    <- list_elem_of_In, H. split; [intros [Hn|?]; [by apply elem_of_nil in Hn|done]|auto].
Qed.

Lemma outDirPresets_sorted : NoDup outDirPresetsFromEnv /\ Sorted string_le outDirPresetsFromEnv.
Proof.
  destruct (presets_loop_spec environ ∅ []) as [H _]; [constructor|set_solver|].
  unfold outDirPresetsFromEnv. split.
  - rewrite (merge_sort_Permutation string_le). by rewrite <- (Permutation_rev).
  - apply Sorted_merge_sort. intros a b. unfold string_le. apply String.leb_total.
Qed.
End DaemonEnv.

(** An entry counts when it is DATA_name=value with a mapping that names a path. *)
Lemma entry_path_iff (env p : string) :
  entry_path env = Some p
  <-> p <> "" /\ exists name value, env = "DATA_" ++ name ++ "=" ++ value
        /\ contains_char name "=" = false /\ containerPathFromMount (TrimSpace value) = p.
Proof.
  unfold entry_path. split.
  - destruct (HasPrefix env "DATA_") eqn:Ep; [|done]. apply HasPrefix_iff in Ep as [r ->]. cbn [negb].
    destruct (first_char r "=") as [Hn|(name & value & -> & Hn)].
    { by rewrite (Cut_char_none ("DATA_" ++ r) "=") by by rewrite contains_char_app, Hn. }
    rewrite (str_app_assoc "DATA_"), (Cut_char ("DATA_" ++ name) value "=") by by rewrite contains_char_app, Hn.
    cbn [negb]. destruct (String.eqb (TrimSpace value) ""); [done|]. case_bool; [done|].
    intros [= <-]. bool_prop. split; [done|]. exists name, value. by rewrite <- str_app_assoc.
  - intros (Hp & name & value & -> & Hn & <-).
    assert (HasPrefix ("DATA_" ++ name ++ "=" ++ value) "DATA_" = true) as -> by (apply HasPrefix_iff; eauto).
    change ("=" ++ value) with (String "=" value).
    rewrite (str_app_assoc "DATA_"), (Cut_char ("DATA_" ++ name) value "=") by by rewrite contains_char_app, Hn.
    cbn [negb]. destruct (String.eqb (TrimSpace value) "") eqn:E; bool_prop.
    { by rewrite E in Hp. }
    by apply String.eqb_neq in Hp as ->.
Qed.

(** ** Volume mappings *)

Lemma split_char_app_any (c : ascii) (a b : string) :
  split_char c (a ++ String c b) = (split_char c a ++ split_char c b)%list.
Proof.
  induction a as [|d a IH]; cbn [split_char String.append]; [by rewrite Ascii.eqb_refl|].
  destruct (Ascii.eqb c d); [by rewrite IH|]. rewrite IH.
  pose proof (split_char_nonempty c a). by destruct (split_char c a).
Qed.

Lemma mapping_has_colon (a b : string) : Contains (a ++ ":" ++ b) ":" = true.
Proof. apply Contains_iff. by exists a, b. Qed.

Lemma mapping_nonempty (a b : string) : String.eqb (a ++ ":" ++ b) "" = false.
Proof. apply String.eqb_neq. by destruct a. Qed.

(** The container's path of host:container and of host:container:mode; the host's path may be
    anything, with colons too. *)
Lemma mount_container (host path mode : string) :
  contains_char path ":" = false -> contains_char mode ":" = false ->
  Contains (TrimSpace path) "/" = true -> Contains (TrimSpace mode) "/" = false ->
  containerPathFromMount (host ++ ":" ++ path) = TrimSpace path
  /\ containerPathFromMount (host ++ ":" ++ path ++ ":" ++ mode) = TrimSpace path.
Proof.
  intros Hp Hm Hs Hns. unfold containerPathFromMount.
  rewrite !mapping_nonempty, !mapping_has_colon. cbn [negb].
  change (":" ++ path ++ ":" ++ mode) with (String ":" (path ++ String ":" mode)).
  change (":" ++ path) with (String ":" path). rewrite !split_char_app_any.
  rewrite (split_char_no_sep ":" path Hp), (split_char_no_sep ":" mode Hm).
  pose proof (split_char_nonempty ":" host) as Hne. set (hs := split_char ":" host) in *.
  assert (1 <= length hs) as Hl by (destruct hs; [done|cbn; lia]).
  rewrite !length_app. cbn [length].
  replace (length hs + 1 <? 2)%nat with false by (symmetry; apply Nat.ltb_ge; lia).
  replace (length hs + (1 + 1) <? 2)%nat with false by (symmetry; apply Nat.ltb_ge; lia).
  replace (length hs + (1 + 1) =? 2)%nat with false by (symmetry; apply Nat.eqb_neq; lia).
  assert (forall k (l : list string), nth (length hs + k) (hs ++ l)%list "" = nth k l "") as Hnth.
  { intros k l. rewrite app_nth2 by lia. f_equal. lia. }
  split.
  - destruct (length hs + 1 =? 2)%nat eqn:E.
    + apply Nat.eqb_eq in E. replace 1%nat with (length hs + 0)%nat at 1 by lia. by rewrite Hnth.
    + replace (length hs + 1 - 1)%nat with (length hs + 0)%nat by lia. rewrite Hnth. cbn [nth].
      by rewrite Hs.
  - cbn [app].
    replace (length hs + (1 + 1) - 1)%nat with (length hs + 1)%nat by lia.
    replace (length hs + (1 + 1) - 2)%nat with (length hs + 0)%nat by lia.
    rewrite !Hnth. cbn [nth]. by rewrite Hns.
Qed.

(** Where jobs may be downloaded to, from the daemon's environment: the presets are sorted
    and without duplicates, and an output directory is accepted, and cleaned, exactly when it
    is absolute and lies, element by element, in the absolute container path of the mapping
    of some variable DATA_name, which for a mapping host:path or host:path:mode is path. *)
Theorem daemon_out_dirs (environ : list string) (outDir : string) :
  let presets := outDirPresetsFromEnv environ in
  NoDup presets /\ Sorted string_le presets
  /\ (forall p, cleanOutDir outDir presets = inr p
        <-> p = Clean outDir /\ IsAbs outDir = true
            /\ exists name value rest, ("DATA_" ++ name ++ "=" ++ value) ∈ environ
               /\ contains_char name "=" = false
               /\ let root := containerPathFromMount (TrimSpace value) in
                  IsAbs root = true /\ clean_list outDir = (clean_list root ++ rest)%list)
  /\ forall host path mode,
       contains_char path ":" = false -> contains_char mode ":" = false ->
       Contains (TrimSpace path) "/" = true -> Contains (TrimSpace mode) "/" = false ->
       containerPathFromMount (host ++ ":" ++ path) = TrimSpace path
       /\ containerPathFromMount (host ++ ":" ++ path ++ ":" ++ mode) = TrimSpace path.
Proof.
  cbv zeta. destruct (outDirPresets_sorted environ) as [Hd Hs]. split; [done|]. split; [done|].
  split; [|exact mount_container].
  intros p. rewrite cleanOutDir_iff. split; intros (Hp & Ha & H); (split; [done|split; [done|]]).
  - destruct H as (root & rest & Hin & Hr & Hl). apply outDirPresets_In in Hin as (env & Hin & He).
    apply entry_path_iff in He as (_ & name & value & -> & Hn & <-). exists name, value, rest. auto.
  - destruct H as (name & value & rest & Hin & Hn & Hr & Hl).
    exists (containerPathFromMount (TrimSpace value)), rest. split; [|done].
    apply outDirPresets_In. eexists. split; [exact Hin|]. apply entry_path_iff.
    split; [intros H0; by rewrite H0 in Hr|]. by exists name, value.
Qed.

(** The mappings of the README, one of them twice and one read-only. *)
Example presets_sample :
  outDirPresetsFromEnv ["PATH=/bin"; "DATA_TV=/mnt/user/tvshows:/data/tvshows";
    "DATA_A=/mnt/movies:/data/movies:ro"; "DATA_B= /x:/data/tvshows "; "DATA_C="; "DATA_D"]
  = ["/data/movies"; "/data/tvshows"].
Proof. vm_compute. reflexivity. Qed.
