(* ===== verification/Store.v ===== *)
(** * internal/queue/store.go: the persistent queue

    Every method of [Store] is a program of SQL statements over [Db].  A statement is the
    function on the tables it denotes: [rows_where] for the rows a WHERE keeps (in rowid
    order), [update_where] for an UPDATE.  [db.Open]'s schema gives the column defaults of an
    inserted row, the AUTOINCREMENT ids and the foreign key of job_events. *)

From S2P Require Import Prelude GoStrings GoTime GoError Schema Effects.

#[local] Open Scope string_scope.

(** ** SQL statements *)

Definition rows_where (p : Job -> bool) (d : Db) : list Job := List.filter p (jobs d).

Definition update_rows (p : Job -> bool) (f : Job -> Job) (rows : list Job) : list Job :=
  map (fun j => if p j then f j else j) rows.

#[global] Instance assign_jobs : Assign jobs :=
  fun v d => mkDb v (events d) (seq_jobs d) (seq_events d).

Definition update_where (p : Job -> bool) (f : Job -> Job) (d : Db) : Db :=
  d <| jobs := update_rows p f (jobs d) |>.

Definition has_id (id : Z) (j : Job) : bool := (ID j =? id)%Z.

Definition find_job (id : Z) (d : Db) : option Job := head (rows_where (has_id id) d).

Definition limit_rows {A} (limit : Z) (l : list A) : list A :=
  if (0 <? limit)%Z then take (Z.to_nat limit) l else l.

(** [ExecContext] of a statement whose result is not read, and [QueryContext]. *)
Definition exec (u : Db -> Db) : prog (res unit) := call (Sql (fun d => (u d, inr tt))).
Definition query {X} (q : Db -> X) : prog (res X) := call (Sql (fun d => (d, inr (q d)))).

(** [QueryRowContext(...).Scan(...)]: [sql.ErrNoRows] when there is no row. *)
Definition query_row {X} (q : Db -> option X) : prog (res X) :=
  call (Sql (fun d => (d, match q d with Some x => inr x | None => inl (ESentinel ErrNoRows) end))).

Definition update_job (id : Z) (f : Job -> Job) : prog (res unit) :=
  exec (update_where (has_id id) f).

Definition now : prog Z := call Now.

(** ** Inserting and reading jobs *)

(** AUTOINCREMENT: one more than the largest id ever used or present. *)
Definition next_id (seq : Z) (ids : list Z) : Z := (foldr Z.max seq ids + 1)%Z.

Definition insert_job (row : Z -> Job) (d : Db) : Db * res Z :=
  let id := next_id (seq_jobs d) (map ID (jobs d)) in
  if (max_int64 <? id)%Z then (d, inl (ENew "database or disk is full (13)"))
  else
    (mkDb (jobs d ++ [row id])%list (events d) id (seq_events d), inr id).

(** The arguments of [CreateJob] are those fields of its *Job the INSERT lists. *)
Definition new_row (URL Site OutDir Name : string) (ArchivePassword : option string)
    (MaxAttempts : Z) (now : Z) (id : Z) : Job :=
  mkJob id URL Site OutDir Name ArchivePassword None None None 0 (Some 0%Z) None StatusQueued
    None None "aria2" None 0 MaxAttempts None now now None None None.

Definition CreateJob (URL Site OutDir Name : string) (ArchivePassword : option string)
    (MaxAttempts : Z) : prog (res Z) :=
  now <- now ;;
  call (Sql (insert_job (new_row URL Site OutDir Name ArchivePassword MaxAttempts now))).

Definition GetJob (id : Z) : prog (res Job) := query_row (find_job id).

Definition not_deleted (j : Job) : bool := bool_decide (DeletedAt j = None).

Definition list_filter (status : string) (includeDeleted : bool) (j : Job) : bool :=
  (includeDeleted || not_deleted j) && (String.eqb status "" || String.eqb (Status j) status).

Definition ListJobs (status : string) (includeDeleted : bool) : prog (res (list Job)) :=
  query (fun d => rev (rows_where (list_filter status includeDeleted) d)).

(** SQLite's TRIM removes spaces only. *)
Definition sql_trim (s : string) : string := trim_char " " s.

Definition pending_postprocess (j : Job) : bool :=
  not_deleted j
  && (String.eqb (Status j) StatusDecrypting
      || (String.eqb (Status j) StatusCompleted
          && match ArchivePassword j with
             | Some p => negb (String.eqb (sql_trim p) "")
             | None => false
             end)).

Definition ListPendingPostprocess (limit : Z) : prog (res (list Job)) :=
  query (fun d => limit_rows limit (rows_where pending_postprocess d)).

Definition ListPendingArchiveDecrypt (limit : Z) : prog (res (list Job)) :=
  ListPendingPostprocess limit.

(** ** Events *)

Definition insert_event (jobID : Z) (level msg : string) (now : Z) (d : Db) : Db * res unit :=
  match find_job jobID d with
  | None => (d, inl (ENew "constraint failed: FOREIGN KEY constraint failed (787)"))
  | Some _ =>
      let id := next_id (seq_events d) (map EvID (events d)) in
      if (max_int64 <? id)%Z then (d, inl (ENew "database or disk is full (13)"))
      else (mkDb (jobs d) (events d ++ [mkEvent id jobID level msg now])%list (seq_jobs d) id,
            inr tt)
  end.

Definition AddEvent (jobID : Z) (level msg : string) : prog (res unit) :=
  now <- now ;;
  call (Sql (insert_event jobID level msg now)).

Definition event_line (e : EventRow) : string :=
  format_rfc3339 (EvCreatedAt e) ++ " " ++ EvLevel e ++ " " ++ EvMessage e.

Definition ListEvents (jobID : Z) (limit : Z) : prog (res (list string)) :=
  query (fun d => limit_rows limit
    (map event_line (rev (List.filter (fun e => (EvJobID e =? jobID)%Z) (events d))))).

(** ** Scheduling *)

Definition due (next : option Z) (now : Z) : bool :=
  match next with Some t => (t <=? now)%Z | None => false end.

Definition retryable (now : Z) (j : Job) : bool :=
  String.eqb (Status j) StatusFailed && not_deleted j && due (NextRetryAt j) now
  && (Attempts j <? MaxAttempts j)%Z.

(** ORDER BY next_retry_at ASC; SQL leaves the order of equal times open. *)
Definition retry_before (a b : Job) : Prop :=
  (default 0 (NextRetryAt a) <= default 0 (NextRetryAt b))%Z.

#[global] Instance retry_before_dec a b : Decision (retry_before a b).
Proof. unfold retry_before. apply _. Defined.

Definition ListRetryableFailed (limit : Z) : prog (res (list Z)) :=
  now <- now ;;
  query (fun d => limit_rows limit (map ID (merge_sort retry_before (rows_where (retryable now) d)))).

Definition claimable (now : Z) (j : Job) : bool :=
  String.eqb (Status j) StatusQueued && not_deleted j
  && match NextRetryAt j with None => true | Some t => (t <=? now)%Z end.

Definition out_of_fuel : error := ENew "ClaimNextQueued: loop fuel exhausted".

(** UPDATE ... WHERE id = ? AND status = 'queued', and its RowsAffected. *)
Definition claim_update (id now : Z) (d : Db) : Db * res Z :=
  let hit j := has_id id j && String.eqb (Status j) StatusQueued in
  (update_where hit
     (fun j => j <| Status := StatusResolving |> <| UpdatedAt := now |> <| StartedAt := Some now |>) d,
   inr (Z.of_nat (List.length (rows_where hit d)))).

Fixpoint claim_loop (fuel : nat) (now : Z) : prog (res Job) :=
  match fuel with
  | O => Ret (inl out_of_fuel)
  | S fuel =>
      _ <-? call TxBegin ;;
      row <- query_row (fun d => head (rows_where (claimable now) d)) ;;
      match row with
      | inl err =>
          call TxRollback ;;
          if errors_Is err ErrNoRows then Ret (inl (ESentinel ErrNoRows)) else Ret (inl err)
      | inr j =>
          affected <- call (Sql (claim_update (ID j) now)) ;;
          match affected with
          | inl err => call TxRollback ;; Ret (inl err)
          | inr n =>
              if (n =? 0)%Z then call TxRollback ;; claim_loop fuel now
              else
                _ <-? call TxCommit ;;
                Ret (inr (j <| Status := StatusResolving |>))
          end
      end
  end.

Definition claim_fuel : nat := 64.

Definition ClaimNextQueued : prog (res Job) :=
  now <- now ;;
  claim_loop claim_fuel now.

(** ** Progress and outcomes *)

Definition UpdateResolving (id : Z) (resolvedURL filename : string) (sizeBytes : Z)
  : prog (res unit) :=
  now <- now ;;
  update_job id (fun j =>
    j <| ResolvedURL := Some resolvedURL |> <| Filename := Some filename |>
      <| SizeBytes := Some sizeBytes |> <| UpdatedAt := now |>).

Definition MarkDownloading (id : Z) (engine gid : string) : prog (res unit) :=
  now <- now ;;
  update_job id (fun j =>
    j <| Status := StatusDownloading |> <| Engine := engine |> <| EngineGID := Some gid |>
      <| UpdatedAt := now |>).

Definition MarkPaused (id : Z) : prog (res unit) :=
  now <- now ;;
  update_job id (fun j => j <| Status := StatusPaused |> <| UpdatedAt := now |>).

Definition MarkDownloadingStatus (id : Z) : prog (res unit) :=
  now <- now ;;
  update_job id (fun j => j <| Status := StatusDownloading |> <| UpdatedAt := now |>).

Definition UpdateProgress (id bytesDone : Z) (status : string) (speed etaSeconds : Z)
  : prog (res unit) :=
  now <- now ;;
  update_job id (fun j =>
    j <| BytesDone := bytesDone |> <| Status := status |> <| DownloadSpeed := Some speed |>
      <| EtaSeconds := Some etaSeconds |> <| UpdatedAt := now |>).

Definition MarkCompleted (id : Z) : prog (res unit) :=
  now <- now ;;
  update_job id (fun j =>
    j <| Status := StatusCompleted |>
      <| BytesDone := match SizeBytes j with
                      | Some size => if (BytesDone j =? 0)%Z then size else BytesDone j
                      | None => BytesDone j
                      end |>
      <| DownloadSpeed := Some 0%Z |> <| EtaSeconds := None |> <| Error := None |>
      <| ErrorCode := None |> <| UpdatedAt := now |> <| CompletedAt := Some now |>).

Definition decrypting_bytes (bytesDone : Z) (j : Job) : Z :=
  if (0 <? bytesDone)%Z then bytesDone else BytesDone j.

Definition MarkDecrypting (id bytesDone : Z) : prog (res unit) :=
  now <- now ;;
  update_job id (fun j =>
    j <| Status := StatusDecrypting |> <| BytesDone := decrypting_bytes bytesDone j |>
      <| DownloadSpeed := Some 0%Z |> <| EtaSeconds := None |> <| Error := None |>
      <| ErrorCode := None |> <| UpdatedAt := now |>).

Definition MarkDecryptingRetry (id bytesDone : Z) : prog (res unit) :=
  now <- now ;;
  update_job id (fun j =>
    j <| Status := StatusDecrypting |> <| BytesDone := decrypting_bytes bytesDone j |>
      <| DownloadSpeed := Some 0%Z |> <| EtaSeconds := None |> <| UpdatedAt := now |>).

Definition MarkPostprocessFailed (id : Z) (msg code : string) : prog (res unit) :=
  now <- now ;;
  let code := if String.eqb (TrimSpace code) "" then "archive_decrypt_failed" else code in
  update_job id (fun j =>
    j <| Status := StatusDecryptFail |> <| Error := Some msg |> <| ErrorCode := Some code |>
      <| DownloadSpeed := Some 0%Z |> <| EtaSeconds := None |> <| UpdatedAt := now |>
      <| CompletedAt := Some (default now (CompletedAt j)) |>).

Definition MarkDecryptFailed (id : Z) (msg : string) : prog (res unit) :=
  MarkPostprocessFailed id msg "archive_decrypt_failed".

Definition ClearArchivePassword (id : Z) : prog (res unit) :=
  now <- now ;;
  update_job id (fun j => j <| ArchivePassword := None |> <| UpdatedAt := now |>).

(** [nextRetry] is [None] for the zero time. *)
Definition MarkFailed (id : Z) (code msg : string) (nextRetry : option Z) : prog (res unit) :=
  now <- now ;;
  _ <-? update_job id (fun j =>
    j <| Status := StatusFailed |> <| Error := Some msg |> <| ErrorCode := Some code |>
      <| DownloadSpeed := Some 0%Z |> <| EtaSeconds := None |> <| UpdatedAt := now |>
      <| NextRetryAt := nextRetry |> <| Attempts := (Attempts j + 1)%Z |>) ;;
  row <-? query_row (fun d => (fun j => (Attempts j, MaxAttempts j)) <$> find_job id d) ;;
  let '(attempts, maxAttempts) := row in
  if (0 <? maxAttempts)%Z && (maxAttempts <=? attempts)%Z then
    let eventMsg :=
      if (maxAttempts <? attempts)%Z
      then "attempts exceeded max (" ++ Itoa maxAttempts ++ "); no further retries"
      else "max attempts reached (" ++ Itoa maxAttempts ++ "); no further retries" in
    AddEvent id "error" eventMsg ;;
    Ret (inr tt)
  else Ret (inr tt).

Definition requeue_row (now : Z) (j : Job) : Job :=
  j <| Status := StatusQueued |> <| Error := None |> <| ErrorCode := None |>
    <| NextRetryAt := None |> <| DeletedAt := None |> <| ResolvedURL := None |>
    <| Filename := None |> <| SizeBytes := None |> <| BytesDone := 0%Z |>
    <| DownloadSpeed := Some 0%Z |> <| EtaSeconds := None |> <| Engine := "aria2" |>
    <| EngineGID := None |> <| StartedAt := None |> <| CompletedAt := None |>
    <| UpdatedAt := now |>.

Definition Requeue (id : Z) : prog (res unit) :=
  now <- now ;;
  update_job id (requeue_row now).

Definition Remove (id : Z) : prog (res unit) :=
  now <- now ;;
  update_job id (fun j =>
    j <| Status := StatusDeleted |> <| DeletedAt := Some now |> <| UpdatedAt := now |>).

Definition ClearCompleted : prog (res unit) :=
  now <- now ;;
  exec (update_where (fun j => String.eqb (Status j) StatusCompleted)
    (fun j => j <| Status := StatusDeleted |> <| DeletedAt := Some now |> <| UpdatedAt := now |>)).

(** DELETE FROM jobs, with the foreign key's ON DELETE CASCADE. *)
Definition delete_all_jobs (d : Db) : Db :=
  mkDb [] (List.filter (fun e => negb (existsb (has_id (EvJobID e)) (jobs d))) (events d))
    (seq_jobs d) (seq_events d).

(** The body of [ClearAll] inside its transaction; [defer tx.Rollback()] runs after it. *)
Definition clear_all_tx : prog (res unit) :=
  _ <-? exec (fun d => mkDb (jobs d) [] (seq_jobs d) (seq_events d)) ;;
  _ <-? exec delete_all_jobs ;;
  seqName <- query (fun _ => "sqlite_sequence") ;;
  match seqName with
  | inr _ =>
      _ <-? exec (fun d => mkDb (jobs d) (events d) 0 0) ;;
      call TxCommit
  | inl _ => call TxCommit
  end.

Definition ClearAll : prog (res unit) :=
  _ <-? call TxBegin ;;
  r <- clear_all_tx ;;
  call TxRollback ;;
  Ret r.

(** ** The tables after a statement *)

Lemma find_job_Some (id : Z) (d : Db) (j : Job) :
  find_job id d = Some j -> j ∈ jobs d /\ ID j = id.
Proof.
  unfold find_job, rows_where. intros H. apply head_Some_elem_of in H.
  apply list_elem_of_In, filter_In in H as [Hin Hid].
  split; [by apply list_elem_of_In|]. unfold has_id in Hid. by bool_prop.
Qed.

Lemma find_job_None (id : Z) (d : Db) :
  find_job id d = None <-> forall j, j ∈ jobs d -> ID j <> id.
Proof.
  unfold find_job, rows_where. rewrite head_None. split.
  - intros H j Hin Hid. apply list_elem_of_In in Hin.
    assert (In j (List.filter (has_id id) (jobs d))) as Hf; [|by rewrite H in Hf].
    apply filter_In. split; [done|]. unfold has_id. by apply Z.eqb_eq.
  - intros H. destruct (List.filter _ _) as [|j l] eqn:E; [done|]. exfalso.
    assert (In j (List.filter (has_id id) (jobs d))) as Hin by (rewrite E; by left).
    apply filter_In in Hin as [Hin Hid]. unfold has_id in Hid. bool_prop.
    by apply (H j); [apply list_elem_of_In|].
Qed.

(** An UPDATE that keeps the ids changes a looked-up row in place. *)
Lemma find_update_rows (p : Job -> bool) (f : Job -> Job) (id : Z) (rows : list Job) :
  (forall j, ID (f j) = ID j) ->
  head (List.filter (has_id id) (update_rows p f rows))
  = (fun j => if p j then f j else j) <$> head (List.filter (has_id id) rows).
Proof.
  intros Hid. induction rows as [|j rows IH]; [done|]. simpl.
  assert (has_id id (if p j then f j else j) = has_id id j) as ->.
  { unfold has_id. destruct (p j); [by rewrite Hid|done]. }
  destruct (has_id id j); done.
Qed.

Lemma find_update_where (p : Job -> bool) (f : Job -> Job) (id : Z) (d : Db) :
  (forall j, ID (f j) = ID j) ->
  find_job id (update_where p f d) = (fun j => if p j then f j else j) <$> find_job id d.
Proof. intros Hid. by apply find_update_rows. Qed.

Lemma update_rows_ids (p : Job -> bool) (f : Job -> Job) (rows : list Job) :
  (forall j, ID (f j) = ID j) -> map ID (update_rows p f rows) = map ID rows.
Proof.
  intros Hid. unfold update_rows. rewrite map_map. apply map_ext. intros j.
  destruct (p j); [apply Hid|done].
Qed.

Lemma next_id_fresh (seq : Z) (ids : list Z) :
  (seq < next_id seq ids)%Z /\ Forall (fun i => (i < next_id seq ids)%Z) ids.
Proof.
  unfold next_id. induction ids as [|i ids [IH1 IH2]]; simpl; [split; [lia|done]|].
  split; [lia|]. apply Forall_cons. split; [lia|].
  eapply Forall_impl; [exact IH2|]. simpl. lia.
Qed.
