(* ===== verification/StoreInv.v ===== *)
(** * The invariant of the queue's tables, and the store's promise to its clients

    [DbOk roots] is what every reachable state of the tables satisfies.  Class [StoreSafe]
    is the interface the service and the runner are verified against: every method of the
    store preserves the client's invariant, call by call, so also under interleaving and
    when any statement fails. *)

From S2P Require Import Prelude GoStrings GoPath GoError Schema Effects Paths Store.

#[local] Open Scope string_scope.

(** ** The invariant *)

(** A password stored for a job is trimmed and not empty. *)
Definition password_ok (p : option string) : Prop :=
  match p with None => True | Some s => TrimSpace s = s /\ s <> "" end.

Record row_ok (roots : list string) (j : Job) : Prop := {
  row_id : (0 < ID j)%Z;
  row_status : Status j ∈ statuses;
  row_attempts : (0 <= Attempts j)%Z;
  row_max : (0 < MaxAttempts j)%Z;
  row_out_dir : cleanOutDir (OutDir j) roots = inr (OutDir j);
  row_name : cleanUserFilename (Name j) = inr (Name j);
  row_password : password_ok (ArchivePassword j);
  row_queued : Status j = StatusQueued ->
    DeletedAt j = None /\ NextRetryAt j = None /\ EngineGID j = None /\ BytesDone j = 0%Z
    /\ Error j = None /\ ErrorCode j = None;
  row_deleted : Status j = StatusDeleted -> DeletedAt j <> None;
  row_failed : Status j = StatusFailed ->
    Error j <> None /\ ErrorCode j <> None /\ (1 <= Attempts j)%Z;
  row_decrypt_failed : Status j = StatusDecryptFail ->
    Error j <> None /\ ErrorCode j <> None /\ CompletedAt j <> None
}.

Record DbOk (roots : list string) (d : Db) : Prop := {
  ok_ids : StronglySorted Z.lt (map ID (jobs d));
  ok_rows : Forall (row_ok roots) (jobs d);
  ok_event_ids : StronglySorted Z.lt (map EvID (events d));
  ok_events : Forall (fun e => EvJobID e ∈ map ID (jobs d)) (events d);
  ok_seq_jobs : (0 <= seq_jobs d)%Z;
  ok_seq_events : (0 <= seq_events d)%Z
}.

(** ** What the store promises *)

Class StoreSafe (I : World -> Prop) (new_ok : string -> string -> option string -> Z -> Prop) := {
  safe_core : forall w w', same_core w w' -> I w -> I w';
  safe_aria : forall r, safe I (call (Aria r));
  safe_go : forall t, safe I (call (GoDecrypt t));
  safe_pending_add : forall id, safe I (call (PendingAdd id));
  safe_pending_del : forall id, safe I (call (PendingDel id));
  safe_acquire : forall c, safe I (call (SemAcquire c));
  safe_release : forall c, safe I (call (SemRelease c));
  safe_CreateJob : forall url site out name pw n,
    new_ok out name pw n -> safe I (CreateJob url site out name pw n);
  safe_GetJob : forall id, safe I (GetJob id);
  safe_ListJobs : forall s b, safe I (ListJobs s b);
  safe_ListPendingPostprocess : forall n, safe I (ListPendingPostprocess n);
  safe_AddEvent : forall id l m, safe I (AddEvent id l m);
  safe_ListEvents : forall id n, safe I (ListEvents id n);
  safe_ListRetryableFailed : forall n, safe I (ListRetryableFailed n);
  safe_ClaimNextQueued : safe I ClaimNextQueued;
  safe_UpdateResolving : forall id u f n, safe I (UpdateResolving id u f n);
  safe_MarkDownloading : forall id e g, safe I (MarkDownloading id e g);
  safe_MarkPaused : forall id, safe I (MarkPaused id);
  safe_MarkDownloadingStatus : forall id, safe I (MarkDownloadingStatus id);
  safe_UpdateProgress : forall id b s v e,
    s = StatusCompleted \/ s = StatusDownloading -> safe I (UpdateProgress id b s v e);
  safe_MarkCompleted : forall id, safe I (MarkCompleted id);
  safe_MarkDecrypting : forall id b, safe I (MarkDecrypting id b);
  safe_MarkDecryptingRetry : forall id b, safe I (MarkDecryptingRetry id b);
  safe_MarkPostprocessFailed : forall id m c, safe I (MarkPostprocessFailed id m c);
  safe_ClearArchivePassword : forall id, safe I (ClearArchivePassword id);
  safe_MarkFailed : forall id c m r, safe I (MarkFailed id c m r);
  safe_Requeue : forall id, safe I (Requeue id);
  safe_Remove : forall id, safe I (Remove id);
  safe_ClearCompleted : safe I ClearCompleted
}.

(** A purge breaks invariants about what was there before. *)
Class StorePurge (I : World -> Prop) := safe_ClearAll : safe I ClearAll.

(** Safety of a client's program, call by call, from the store's promises. *)
Ltac client :=
  repeat lazymatch goal with
  | |- safe _ (Ret _) => apply safe_Ret
  | |- safe _ Panic => exact Logic.I
  | |- safe _ (bind _ _) => apply safe_bind; [|intros]
  | |- safe _ (bind_err _ _) => apply safe_bind_err; [|intros]
  | |- safe _ (Store.AddEvent _ _ _) => apply safe_AddEvent
  | |- safe _ (Store.GetJob _) => apply safe_GetJob
  | |- safe _ (Store.ListJobs _ _) => apply safe_ListJobs
  | |- safe _ (Store.ListEvents _ _) => apply safe_ListEvents
  | |- safe _ (Store.ListPendingPostprocess _) => apply safe_ListPendingPostprocess
  | |- safe _ (Store.ListRetryableFailed _) => apply safe_ListRetryableFailed
  | |- safe _ Store.ClaimNextQueued => apply safe_ClaimNextQueued
  | |- safe _ (Store.UpdateResolving _ _ _ _) => apply safe_UpdateResolving
  | |- safe _ (Store.MarkDownloading _ _ _) => apply safe_MarkDownloading
  | |- safe _ (Store.MarkFailed _ _ _ _) => apply safe_MarkFailed
  | |- safe _ (Store.MarkCompleted _) => apply safe_MarkCompleted
  | |- safe _ (Store.MarkDecrypting _ _) => apply safe_MarkDecrypting
  | |- safe _ (Store.MarkPostprocessFailed _ _ _) => apply safe_MarkPostprocessFailed
  | |- safe _ (Store.ClearArchivePassword _) => apply safe_ClearArchivePassword
  | |- safe _ (Store.UpdateProgress _ _ _ _ _) => apply safe_UpdateProgress; auto
  | |- safe _ (Store.Requeue _) => apply safe_Requeue
  | |- safe _ (Store.Remove _) => apply safe_Remove
  | |- safe _ (Store.MarkPaused _) => apply safe_MarkPaused
  | |- safe _ (Store.MarkDownloadingStatus _) => apply safe_MarkDownloadingStatus
  | |- safe _ (Store.MarkDecryptingRetry _ _) => apply safe_MarkDecryptingRetry
  | |- safe _ Store.ClearCompleted => apply safe_ClearCompleted
  | |- safe _ Store.ClearAll => apply safe_ClearAll
  | |- safe _ (call (Aria _)) => apply safe_aria
  | |- safe _ (call (GoDecrypt _)) => apply safe_go
  | |- safe _ (call (PendingAdd _)) => apply safe_pending_add
  | |- safe _ (call (PendingDel _)) => apply safe_pending_del
  | |- safe _ (call (SemAcquire _)) => apply safe_acquire
  | |- safe _ (call (SemRelease _)) => apply safe_release
  | |- safe _ (call _) => apply (quiet_safe _ _ safe_core), quiet_call_out; exact Logic.I
  | |- safe _ now => apply (quiet_safe _ _ safe_core), quiet_call_out; exact Logic.I
  | |- safe _ (or_panic _) => apply safe_or_panic
  | |- safe _ (for_each _ _) => apply safe_for_each; intros
  | |- safe _ (match ?x with _ => _ end) => destruct x eqn:?
  end.

(** What the service checks of a job before it asks the store to create it. *)
Definition new_job_ok (roots : list string) (out name : string) (pw : option string) (n : Z)
  : Prop :=
  cleanOutDir out roots = inr out /\ cleanUserFilename name = inr name
  /\ password_ok pw /\ (0 < n)%Z.

(** ** The statements preserve the invariant *)

Section DbOk.
Context (roots : list string).

Lemma DbOk_empty : DbOk roots empty_db.
Proof. split; simpl; try constructor; lia. Qed.

Lemma StronglySorted_snoc (l : list Z) (x : Z) :
  StronglySorted Z.lt l -> Forall (fun y => (y < x)%Z) l -> StronglySorted Z.lt (l ++ [x]).
Proof.
  intros Hs. induction Hs as [|y l Hs IH Hy]; intros Hx; simpl; [by repeat constructor|].
  apply Forall_cons in Hx as [Hyx Hx]. constructor; [by apply IH|].
  apply Forall_app. split; [done|]. by apply Forall_singleton.
Qed.

Lemma DbOk_update (p : Job -> bool) (f : Job -> Job) (d : Db) :
  (forall j, ID (f j) = ID j) -> (forall j, row_ok roots j -> row_ok roots (f j)) ->
  DbOk roots d -> DbOk roots (update_where p f d).
Proof.
  intros Hid Hf [H1 H2 H3 H4 H5 H6]. split; cbn; rewrite ?update_rows_ids by done; try done.
  unfold update_rows. apply Forall_map. eapply Forall_impl; [exact H2|].
  intros j Hj. simpl. destruct (p j); auto.
Qed.

Lemma DbOk_insert_job (row : Z -> Job) (d : Db) :
  (forall id, (0 < id)%Z -> ID (row id) = id /\ row_ok roots (row id)) ->
  DbOk roots d -> DbOk roots (fst (insert_job row d)).
Proof.
  intros Hrow [H1 H2 H3 H4 H5 H6]. unfold insert_job.
  destruct (next_id_fresh (seq_jobs d) (map ID (jobs d))) as [Hn1 Hn2].
  destruct (Hrow (next_id (seq_jobs d) (map ID (jobs d)))) as [Hid Hok]; [lia|].
  case_bool; [by split|]. split; cbn [fst jobs events seq_jobs seq_events]; try done; try lia.
  - rewrite map_app. simpl. rewrite Hid. by apply StronglySorted_snoc.
  - apply Forall_app. split; [done|]. by apply Forall_singleton.
  - eapply Forall_impl; [exact H4|]. intros e He. rewrite map_app. apply elem_of_app. by left.
Qed.

Lemma DbOk_insert_event (id : Z) (level msg : string) (t : Z) (d : Db) :
  DbOk roots d -> DbOk roots (fst (insert_event id level msg t d)).
Proof.
  intros [H1 H2 H3 H4 H5 H6]. unfold insert_event.
  destruct (find_job id d) as [j|] eqn:Ef; [|by split].
  destruct (next_id_fresh (seq_events d) (map EvID (events d))) as [Hn1 Hn2].
  case_bool; [by split|]. split; cbn [fst jobs events seq_jobs seq_events]; try done; try lia.
  - rewrite map_app. by apply StronglySorted_snoc.
  - apply Forall_app. split; [done|]. apply Forall_singleton. simpl.
    apply find_job_Some in Ef as [Hin <-]. exact (list_elem_of_fmap_2 ID _ _ Hin).
Qed.

Lemma DbOk_delete_events (d : Db) :
  DbOk roots d -> DbOk roots (mkDb (jobs d) [] (seq_jobs d) (seq_events d)).
Proof. intros []. split; simpl; try done; constructor. Qed.

Lemma DbOk_delete_all_jobs (d : Db) : DbOk roots d -> DbOk roots (delete_all_jobs d).
Proof.
  intros [H1 H2 H3 H4 H5 H6]. unfold delete_all_jobs.
  assert (List.filter (fun e => negb (existsb (has_id (EvJobID e)) (jobs d))) (events d) = []) as ->.
  { clear H3. induction H4 as [|e l He _ IH]; [done|]. simpl.
    replace (existsb (has_id (EvJobID e)) (jobs d)) with true; [done|]. symmetry.
    apply existsb_exists. apply (list_elem_of_fmap ID) in He as (j & Hj & Hin).
    exists j. split; [by apply list_elem_of_In|]. unfold has_id. by apply Z.eqb_eq. }
  split; simpl; try done; constructor.
Qed.

Lemma DbOk_reset_seq (d : Db) :
  DbOk roots d -> DbOk roots (mkDb (jobs d) (events d) 0 0).
Proof. intros []. by split. Qed.
End DbOk.

(** ** The store keeps its promise *)

Ltac store_safe :=
  repeat first
    [ apply safe_Ret
    | match goal with |- safe _ (match ?x with _ => _ end) => destruct x end
    | match goal with |- safe _ (let '(_, _) := ?x in _) => destruct x end
    | apply safe_bind; [|intros]
    | apply safe_bind_err; [|intros]
    | apply safe_call, step_ok_db_inv; try exact Logic.I ].

(** A status constant is one of [statuses]. *)
Ltac known_status := apply list_elem_of_In; vm_compute; tauto.

(** Each [row_ok] field of an updated row. *)
Ltac row_update :=
  intros ? []; constructor; cbn;
  first [ assumption | lia | done
        | (intros ?; first [discriminate | (split_and!; (done || lia))])
        | known_status ].

(** An invariant [P] of the tables that good updates of rows, new events and new jobs keep. *)
Section Closed.
Context (P : Db -> Prop) (good : (Job -> Job) -> Prop).
Context (Hupdate : forall p f d, good f -> P d -> P (update_where p f d)).
Context (Hevent : forall id level msg t d, P d -> P (fst (insert_event id level msg t d))).

Abbreviation Inv := (db_inv P).

Lemma safe_exec (u : Db -> Db) : (forall d, P d -> P (u d)) -> safe Inv (exec u).
Proof using Type. intros Hu. unfold exec. store_safe. exact Hu. Qed.

Lemma safe_query {X} (q : Db -> X) : safe Inv (query q).
Proof using Type. unfold query. store_safe. by intros d. Qed.

Lemma safe_query_row {X} (q : Db -> option X) : safe Inv (query_row q).
Proof using Type. unfold query_row. store_safe. by intros d. Qed.

Lemma safe_now : safe Inv now.
Proof using Type. unfold now. store_safe. Qed.

Lemma safe_update_job (id : Z) (f : Job -> Job) : good f -> safe Inv (update_job id f).
Proof using Hupdate. intros Hf. apply safe_exec. intros d Hd. by apply Hupdate. Qed.

(** The shape of most methods: read the clock, then one UPDATE by id. *)
Lemma safe_now_update (id : Z) (f : Z -> Job -> Job) :
  (forall t, good (f t)) -> safe Inv (t <- now ;; update_job id (f t)).
Proof using Hupdate. intros Hf. apply safe_bind; [apply safe_now|]. intros t. by apply safe_update_job. Qed.

Lemma safe_claim_loop (fuel : nat) (t : Z) :
  good (fun j => j <| Status := StatusResolving |> <| UpdatedAt := t |> <| StartedAt := Some t |>) ->
  safe Inv (claim_loop fuel t).
Proof using Hupdate.
  intros Hg. induction fuel as [|fuel IH]; cbn [claim_loop]; [done|].
  apply safe_bind_err; [store_safe|]. intros _.
  apply safe_bind; [apply safe_query_row|]. intros [err|j].
  { store_safe. }
  apply safe_bind; [store_safe; intros d Hd; by apply Hupdate|].
  intros [err|n]; [store_safe|]. case_bool; [|store_safe].
  apply safe_bind; [store_safe|]. intros _. exact IH.
Qed.

Lemma safe_AddEvent_inv (id : Z) (level msg : string) : safe Inv (AddEvent id level msg).
Proof using Hevent. unfold AddEvent. apply safe_bind; [apply safe_now|]. intros t. store_safe. intros d. apply Hevent. Qed.

Lemma safe_MarkFailed_inv (id : Z) (code msg : string) (next : option Z) :
  (forall t, good (fun j =>
     j <| Status := StatusFailed |> <| Error := Some msg |> <| ErrorCode := Some code |>
       <| DownloadSpeed := Some 0%Z |> <| EtaSeconds := None |> <| UpdatedAt := t |>
       <| NextRetryAt := next |> <| Attempts := (Attempts j + 1)%Z |>)) ->
  safe Inv (MarkFailed id code msg next).
Proof using Hupdate Hevent.
  intros Hg. unfold MarkFailed. apply safe_bind; [apply safe_now|]. intros t.
  apply safe_bind_err; [by apply safe_update_job|]. intros _.
  apply safe_bind_err; [apply safe_query_row|]. intros [a m]. case_bool; [|done].
  apply safe_bind; [apply safe_AddEvent_inv|done].
Qed.

Lemma safe_ClearCompleted_inv :
  (forall t, good (fun j => j <| Status := StatusDeleted |> <| DeletedAt := Some t |> <| UpdatedAt := t |>)) ->
  safe Inv ClearCompleted.
Proof using Hupdate.
  intros Hg. unfold ClearCompleted. apply safe_bind; [apply safe_now|]. intros t. apply safe_exec.
  intros d. by apply Hupdate.
Qed.

Lemma safe_CreateJob_closed (url site out name : string) (pw : option string) (n : Z) :
  (forall t d, P d -> P (fst (insert_job (new_row url site out name pw n t) d))) ->
  safe Inv (CreateJob url site out name pw n).
Proof using Type. intros Hi. unfold CreateJob. apply safe_bind; [apply safe_now|]. intros t. store_safe. intros d. apply Hi. Qed.
End Closed.

(** The store's promises for such an invariant; [good_row] shows that an update is good. *)
Ltac store_closed Hupdate Hevent Hinsert good_row :=
  split; intros;
  lazymatch goal with
  | |- db_inv _ _ => by eapply db_inv_core
  | |- safe _ (CreateJob _ _ _ _ _ _) => apply safe_CreateJob_closed; intros; apply Hinsert; assumption
  | |- safe _ (GetJob _) => apply safe_query_row
  | |- safe _ (ListJobs _ _) => apply safe_query
  | |- safe _ (ListPendingPostprocess _) => apply safe_query
  | |- safe _ (ListEvents _ _) => apply safe_query
  | |- safe _ (ListRetryableFailed _) => apply safe_bind; [apply safe_now|intros; apply safe_query]
  | |- safe _ (AddEvent _ _ _) => apply (safe_AddEvent_inv _ Hevent)
  | |- safe _ ClaimNextQueued =>
      apply safe_bind; [apply safe_now|intros; apply (safe_claim_loop _ _ Hupdate); good_row]
  | |- safe _ (MarkFailed _ _ _ _) => apply (safe_MarkFailed_inv _ _ Hupdate Hevent); good_row
  | |- safe _ ClearCompleted => apply (safe_ClearCompleted_inv _ _ Hupdate); good_row
  | |- safe _ (call _) => by store_safe
  | |- safe _ _ => apply (safe_now_update _ _ Hupdate); good_row
  end.

Section StoreSafe.
Context (roots : list string).

Lemma safe_ClearAll_inv : safe (db_inv (DbOk roots)) ClearAll.
Proof.
  unfold ClearAll, clear_all_tx. apply safe_bind_err; [store_safe|]. intros _.
  apply safe_bind; [|intros; store_safe].
  apply safe_bind_err; [apply safe_exec, DbOk_delete_events|]. intros _.
  apply safe_bind_err; [apply safe_exec, DbOk_delete_all_jobs|]. intros _.
  apply safe_bind; [apply safe_query|]. intros [e|s]; [store_safe|].
  apply safe_bind_err; [apply safe_exec, DbOk_reset_seq|]. intros _. store_safe.
Qed.

(** An update that keeps a row's id and its well-formedness. *)
Definition good_update (f : Job -> Job) : Prop :=
  (forall j, ID (f j) = ID j) /\ (forall j, row_ok roots j -> row_ok roots (f j)).

Lemma DbOk_good (p : Job -> bool) (f : Job -> Job) (d : Db) :
  good_update f -> DbOk roots d -> DbOk roots (update_where p f d).
Proof. intros []. by apply DbOk_update. Qed.

Lemma DbOk_create (url site out name : string) (pw : option string) (n t : Z) (d : Db) :
  new_job_ok roots out name pw n -> DbOk roots d -> DbOk roots (fst (insert_job (new_row url site out name pw n t) d)).
Proof.
  intros (H1 & H2 & H3 & H4). apply DbOk_insert_job. intros id Hid. split; [done|].
  constructor; cbn; try done; try lia. known_status.
Qed.

#[global] Instance StoreSafe_DbOk : StoreSafe (db_inv (DbOk roots)) (new_job_ok roots).
Proof.
  store_closed DbOk_good (DbOk_insert_event roots) DbOk_create
    ltac:(intros; split; [done|]; try match goal with H : _ \/ _ |- _ => destruct H as [-> | ->] end; row_update).
Qed.

#[global] Instance StorePurge_DbOk : StorePurge (db_inv (DbOk roots)).
Proof. exact safe_ClearAll_inv. Qed.
End StoreSafe.

(** ** What only an update of the settings changes *)

Definition is_update {X} (e : ev X) : Prop :=
  match e with UpdateSettings _ => True | _ => False end.

(** The store keeps any invariant that every call but an update of the settings keeps. *)
Section Frame.
Context (J : World -> Prop).
Context (HJ : forall X (e : ev X), ~ is_update e -> step_ok J e).

Lemma safe_frame_call {X} (e : ev X) : ~ is_update e -> safe J (call e).
Proof using HJ. intros He. by apply safe_call, HJ. Qed.

Ltac frame_safe :=
  repeat lazymatch goal with
  | |- safe _ (Ret _) => exact Logic.I
  | |- safe _ (bind _ _) => apply safe_bind; [|intros]
  | |- safe _ (bind_err _ _) => apply safe_bind_err; [|intros]
  | |- safe _ (call _) => apply safe_frame_call; intros []
  | |- safe _ (match ?x with _ => _ end) => destruct x
  end.

Lemma safe_frame_claim (fuel : nat) (t : Z) : safe J (claim_loop fuel t).
Proof using HJ.
  induction fuel as [|fuel IH]; cbn [claim_loop]; [done|]. unfold query_row. frame_safe. exact IH.
Qed.

Lemma StoreSafe_frame (HC : forall w w', same_core w w' -> J w -> J w') :
  StoreSafe J (fun _ _ _ _ => True).
Proof using HJ.
  split; intros; [by eapply HC|..];
    unfold CreateJob, GetJob, ListJobs, ListPendingPostprocess, AddEvent, ListEvents,
      ListRetryableFailed, ClaimNextQueued, UpdateResolving, MarkDownloading, MarkPaused,
      MarkDownloadingStatus, UpdateProgress, MarkCompleted, MarkDecrypting, MarkDecryptingRetry,
      MarkPostprocessFailed, ClearArchivePassword, MarkFailed, Requeue, Remove, ClearCompleted,
      update_job, exec, query, query_row, now;
    frame_safe; first [apply safe_frame_claim | unfold AddEvent, now; frame_safe].
Qed.
End Frame.

(** The settings stay as they are. *)
Definition same_settings (s : SettingsState) (w : World) : Prop := settings w = s.

#[global] Instance StoreSafe_settings (s : SettingsState) :
  StoreSafe (same_settings s) (fun _ _ _ _ => True).
Proof.
  apply StoreSafe_frame.
  - intros X e He env w Hw. unfold same_settings in *.
    destruct e; try (exfalso; apply He; exact Logic.I);
      unfold handle, act; cbn; repeat case_match; cbn; simplify_eq; done.
  - intros w w' (_ & _ & _ & _ & _ & _ & Hs) Hw. unfold same_settings in *. congruence.
Qed.

(** ** Reading changes nothing *)

Lemma query_quiet {X} (q : Db -> X) : quiet (query q).
Proof.
  intros w0. split; [|done]. intros e w Hw. unfold handle, act. cbn.
  destruct (sql_fault e (clock w)); [done|]. by destruct w.
Qed.

Lemma query_row_quiet {X} (q : Db -> option X) : quiet (query_row q).
Proof.
  intros w0. split; [|done]. intros e w Hw. unfold handle, act. cbn.
  destruct (sql_fault e (clock w)); [done|]. by destruct w.
Qed.
