(* ===== verification/StoreSpec.v ===== *)
(** * What the store's methods do

    Equations for the methods on a database without faults, and the theorems of the store:
    claiming, creating, failing, selecting retries, purging. *)

From S2P Require Import Prelude GoStrings GoError Schema Files Effects Store.

#[local] Open Scope string_scope.

(** The world after [k] calls that left the tables in state [d]. *)
Definition moved (w : World) (k : nat) (d : Db) : World :=
  w <| clock := (k + clock w)%nat |> <| db := d |>.

Lemma moved_moved (w : World) (k1 k2 : nat) (d1 d2 : Db) :
  moved (moved w k1 d1) k2 d2 = moved w (k2 + k1) d2.
Proof. unfold moved. cbn. by rewrite Nat.add_assoc. Qed.

Section Equations.
Context (env : Env) (Hnf : no_faults env).

Lemma run_now (w : World) : run env now w = (moved w 1 (db w), Some (now_at env (clock w))).
Proof. by destruct w. Qed.

Lemma run_Sql {X} (q : Db -> Db * res X) (w : World) :
  run env (call (Sql q)) w = (moved w 1 (fst (q (db w))), Some (snd (q (db w)))).
Proof. unfold call, handle, act. cbn. rewrite Hnf. by destruct (q (db w)). Qed.

Lemma run_exec (u : Db -> Db) (w : World) :
  run env (exec u) w = (moved w 1 (u (db w)), Some (inr tt)).
Proof. unfold exec. by rewrite run_Sql. Qed.

Lemma run_query {X} (q : Db -> X) (w : World) :
  run env (query q) w = (moved w 1 (db w), Some (inr (q (db w)))).
Proof. unfold query. by rewrite run_Sql. Qed.

Lemma run_query_row {X} (q : Db -> option X) (w : World) :
  run env (query_row q) w =
  (moved w 1 (db w),
   Some (match q (db w) with Some x => inr x | None => inl (ESentinel ErrNoRows) end)).
Proof. unfold query_row. by rewrite run_Sql. Qed.

Lemma run_now_update (id : Z) (f : Z -> Job -> Job) (w : World) :
  run env (t <- now ;; update_job id (f t)) w =
  (moved w 2 (update_where (has_id id) (f (now_at env (clock w))) (db w)), Some (inr tt)).
Proof. rewrite run_bind, run_now. unfold update_job. rewrite run_exec, moved_moved. done. Qed.

Lemma run_GetJob (id : Z) (w : World) :
  run env (GetJob id) w =
  (moved w 1 (db w),
   Some (match find_job id (db w) with Some j => inr j | None => inl (ESentinel ErrNoRows) end)).
Proof. apply run_query_row. Qed.

Lemma run_ListJobs (s : string) (b : bool) (w : World) :
  run env (ListJobs s b) w =
  (moved w 1 (db w), Some (inr (rev (rows_where (list_filter s b) (db w))))).
Proof. apply run_query. Qed.

Lemma run_AddEvent (id : Z) (level msg : string) (w : World) :
  run env (AddEvent id level msg) w =
  let q := insert_event id level msg (now_at env (clock w)) (db w) in
  (moved w 2 (fst q), Some (snd q)).
Proof. unfold AddEvent. rewrite run_bind, run_now, run_Sql, moved_moved. done. Qed.
End Equations.

(** The world but its tables, transaction and call counter. *)
Definition frame (w w' : World) : Prop :=
  requests w' = requests w /\ threads w' = threads w /\ pending w' = pending w
  /\ sem w' = sem w /\ settings w' = settings w.

(** Room for one more event row. *)
Definition events_room (d : Db) : Prop :=
  (next_id (seq_events d) (map EvID (events d)) <= max_int64)%Z.

Definition jobs_room (d : Db) : Prop :=
  (next_id (seq_jobs d) (map ID (jobs d)) <= max_int64)%Z.

Ltac room := apply Z.leb_le; vm_compute; reflexivity.

(** The row AddEvent appends. *)
Definition event_row (d : Db) (id : Z) (level msg : string) (t : Z) : EventRow :=
  mkEvent (next_id (seq_events d) (map EvID (events d))) id level msg t.

Definition add_event_db (id : Z) (level msg : string) (t : Z) (d : Db) : Db :=
  mkDb (jobs d) (events d ++ [event_row d id level msg t])%list (seq_jobs d)
    (next_id (seq_events d) (map EvID (events d))).

Lemma insert_event_ok (id : Z) (level msg : string) (t : Z) (d : Db) (j : Job) :
  find_job id d = Some j -> events_room d ->
  insert_event id level msg t d = (add_event_db id level msg t d, inr tt).
Proof.
  intros Hj Hr. unfold insert_event. rewrite Hj. unfold events_room in Hr.
  destruct (_ <? _)%Z eqn:E; [bool_prop; lia|done].
Qed.

(** Events never touch the jobs table. *)
Lemma insert_event_jobs (id : Z) (level msg : string) (t : Z) (d : Db) :
  jobs (fst (insert_event id level msg t d)) = jobs d.
Proof. unfold insert_event. by repeat case_match. Qed.

(** ** Unique ids *)

Lemma sorted_ids_unique (rows : list Job) (j1 j2 : Job) :
  StronglySorted Z.lt (map ID rows) -> j1 ∈ rows -> j2 ∈ rows -> ID j1 = ID j2 -> j1 = j2.
Proof.
  induction rows as [|j rows IH]; intros Hs H1 H2 Heq; [by apply elem_of_nil in H1|].
  simpl in Hs. apply StronglySorted_inv in Hs as [Hs Hj]. rewrite Forall_forall in Hj.
  assert (forall x, x ∈ rows -> (ID j < ID x)%Z) as Hlt.
  { intros x Hx. apply Hj. apply (list_elem_of_fmap_2 ID _ _ Hx). }
  apply elem_of_cons in H1 as [->|H1]; apply elem_of_cons in H2 as [->|H2]; [done| | |auto].
  - specialize (Hlt _ H2). lia.
  - specialize (Hlt _ H1). lia.
Qed.

Lemma update_rows_ext (p q : Job -> bool) (f : Job -> Job) (rows : list Job) :
  (forall j, j ∈ rows -> p j = q j) -> update_rows p f rows = update_rows q f rows.
Proof.
  intros H. unfold update_rows. apply map_ext_in. intros j Hj. rewrite H; [done|].
  by apply list_elem_of_In.
Qed.

Lemma rows_where_In (p : Job -> bool) (d : Db) (j : Job) :
  j ∈ rows_where p d <-> j ∈ jobs d /\ p j = true.
Proof. unfold rows_where. by rewrite !list_elem_of_In, filter_In. Qed.

Lemma sorted_filter (p : Job -> bool) (l : list Job) :
  StronglySorted Z.lt (map ID l) -> StronglySorted Z.lt (map ID (List.filter p l)).
Proof.
  induction l as [|x l IH]; [done|]. cbn. intros [Hs Hx]%StronglySorted_inv. destruct (p x); [|auto].
  cbn. constructor; [auto|]. rewrite Forall_forall in Hx |- *. intros z Hz.
  apply Hx. apply list_elem_of_fmap in Hz as (y & -> & Hy). apply list_elem_of_In, filter_In in Hy as [Hy _].
  by apply (list_elem_of_fmap_2 ID), list_elem_of_In.
Qed.

Lemma sorted_NoDup (l : list Z) : StronglySorted Z.lt l -> NoDup l.
Proof.
  induction 1 as [|x l Hs IH Hx]; constructor; [|done]. rewrite Forall_forall in Hx.
  intros H. specialize (Hx x H). lia.
Qed.

Lemma find_job_In (id : Z) (d : Db) (j : Job) :
  StronglySorted Z.lt (map ID (jobs d)) -> j ∈ jobs d -> ID j = id -> find_job id d = Some j.
Proof.
  intros Hs Hj Hid. destruct (find_job id d) as [x|] eqn:E.
  - apply find_job_Some in E as [Hx Hxid]. f_equal.
    apply (sorted_ids_unique (jobs d)); [done..|by rewrite Hxid].
  - exfalso. by apply (proj1 (find_job_None id d) E j).
Qed.

(** ** Claiming *)

Definition claimed (t : Z) (j : Job) : Job :=
  j <| Status := StatusResolving |> <| UpdatedAt := t |> <| StartedAt := Some t |>.

Definition next_claim (t : Z) (d : Db) : option Job := head (rows_where (claimable t) d).

Lemma claim_update_hits (d : Db) (t : Z) (j : Job) :
  StronglySorted Z.lt (map ID (jobs d)) -> next_claim t d = Some j ->
  exists n, claim_update (ID j) t d = (update_where (has_id (ID j)) (claimed t) d, inr n)
            /\ (n =? 0)%Z = false.
Proof.
  intros Hs Hj. apply head_Some_elem_of, rows_where_In in Hj as [Hin Hc].
  unfold claimable in Hc. bool_prop. eexists. split; [unfold claim_update; f_equal|].
  - unfold update_where. f_equal. apply update_rows_ext. intros x Hx.
    unfold has_id. destruct (ID x =? ID j)%Z eqn:E; [|done]. bool_prop.
    rewrite (sorted_ids_unique _ _ _ Hs Hx Hin E). by apply String.eqb_eq.
  - apply Z.eqb_neq. set (l := rows_where _ d).
    assert (j ∈ l) as Hl.
    { apply rows_where_In. split; [done|]. unfold has_id. rewrite Z.eqb_refl. by apply String.eqb_eq. }
    destruct l; [by apply elem_of_nil in Hl|]. simpl. lia.
Qed.

(** One run of the claim loop's first iteration, which never needs a second one. *)
Lemma claim_loop_run (env : Env) (fuel : nat) (t : Z) (w : World) :
  StronglySorted Z.lt (map ID (jobs (db w))) ->
  (let '(w', r) := run env (claim_loop (S fuel) t) w in
   frame w w' /\
   match r with
   | Some (inr j) => exists j0, next_claim t (db w) = Some j0
                         /\ j = j0 <| Status := StatusResolving |>
                         /\ db w' = update_where (has_id (ID j0)) (claimed t) (db w)
   | Some (inl e) => db w' = db w
              /\ (no_faults env -> e = ESentinel ErrNoRows /\ next_claim t (db w) = None)
   | None => False
   end).
Proof.
  intros Hs. cbn [claim_loop].
  rewrite run_bind_err, run_call. unfold handle at 1. cbn -[claim_loop claim_update].
  destruct (sql_fault env (clock w)) eqn:F1.
  { split; [done|]. split; [done|]. intros Hn; by rewrite Hn in F1. }
  cbn -[claim_loop claim_update].
  fold (next_claim t (db w)).
  destruct (sql_fault env (S (clock w))) eqn:F2; cbn -[claim_loop claim_update].
  { destruct (errors_Is _ _); cbn; (split; [done|]; split; [done|]; intros Hn; by rewrite Hn in F2). }
  destruct (next_claim t (db w)) as [j|] eqn:Hj; cbn -[claim_loop claim_update]; [|done].
  destruct (sql_fault env (S (S (clock w)))) eqn:F3; cbn -[claim_loop claim_update].
  { split; [done|]. split; [done|]; intros Hn; by rewrite Hn in F3. }
  destruct (claim_update_hits (db w) t j Hs Hj) as (n & -> & Hn0).
  cbn -[claim_loop]. rewrite Hn0. cbn -[claim_loop].
  destruct (sql_fault env (S (S (S (clock w))))) eqn:F4; cbn -[claim_loop].
  { split; [done|]. split; [done|]; intros Hn; by rewrite Hn in F4. }
  split; [done|]. by exists j.
Qed.

Lemma ClaimNextQueued_run (env : Env) (w : World) :
  StronglySorted Z.lt (map ID (jobs (db w))) ->
  let t := now_at env (clock w) in
  (let '(w', r) := run env ClaimNextQueued w in
   match r with
   | Some (inr j) => exists j0, next_claim t (db w) = Some j0
                         /\ j = j0 <| Status := StatusResolving |>
                         /\ db w' = update_where (has_id (ID j0)) (claimed t) (db w)
   | Some (inl e) => db w' = db w
              /\ (no_faults env -> e = ESentinel ErrNoRows /\ next_claim t (db w) = None)
   | None => False
   end) /\ frame w (fst (run env ClaimNextQueued w)).
Proof.
  intros Hs t. unfold ClaimNextQueued, claim_fuel. rewrite run_bind, run_now. fold t.
  pose proof (claim_loop_run env 63 t (moved w 1 (db w)) Hs) as H.
  destruct (run env (claim_loop 64 t) (moved w 1 (db w))) as [w' r]. by destruct H.
Qed.

(** A job that may be claimed at time [t]: queued, not deleted, and no retry time ahead. *)
Definition may_claim (t : Z) (j : Job) : Prop :=
  Status j = StatusQueued /\ DeletedAt j = None /\ forall n, NextRetryAt j = Some n -> (n <= t)%Z.

Lemma claimable_iff (t : Z) (j : Job) : claimable t j = true <-> may_claim t j.
Proof.
  unfold claimable, may_claim, not_deleted. rewrite !andb_true_iff, String.eqb_eq, bool_decide_eq_true.
  destruct (NextRetryAt j) as [n|].
  - rewrite Z.leb_le. split; [intros [[? ?] ?]; split_and!; try done; by intros m [= <-]|].
    intros (? & ? & H). auto.
  - split; [intros [[? ?] _]; done|]. intros (? & ? & _). auto.
Qed.

(** The first row of a filtered table with ascending ids has the smallest id. *)
Lemma next_claim_first (t : Z) (d : Db) (j : Job) :
  StronglySorted Z.lt (map ID (jobs d)) -> next_claim t d = Some j ->
  j ∈ jobs d /\ may_claim t j /\ forall x, x ∈ jobs d -> may_claim t x -> (ID j <= ID x)%Z.
Proof.
  intros Hs Hj. pose proof Hj as Hin. apply head_Some_elem_of, rows_where_In in Hin as [Hin Hc].
  apply claimable_iff in Hc. split; [done|]. split; [done|]. intros x Hx Hcx. apply claimable_iff in Hcx.
  unfold next_claim, rows_where in Hj. clear Hin Hc. induction (jobs d) as [|y l IH]; [done|].
  simpl in Hs. apply StronglySorted_inv in Hs as [Hs Hy]. rewrite Forall_forall in Hy. cbn in Hj.
  apply elem_of_cons in Hx as [->|Hx].
  - rewrite Hcx in Hj. cbn in Hj. by simplify_eq.
  - destruct (claimable t y).
    + cbn in Hj. simplify_eq. apply Z.lt_le_incl, Hy. apply (list_elem_of_fmap_2 ID _ _ Hx).
    + by apply IH.
Qed.

Lemma next_claim_nobody (t : Z) (d : Db) :
  next_claim t d = None -> forall x, x ∈ jobs d -> ~ may_claim t x.
Proof.
  unfold next_claim. intros H x Hx Hc. apply head_None in H. apply claimable_iff in Hc.
  assert (x ∈ rows_where (claimable t) d) as Hin by by apply rows_where_In.
  rewrite H in Hin. by apply elem_of_nil in Hin.
Qed.

(** C11. [ClaimNextQueued] on any database, even one whose statements fail.  When it returns a
    job, that is the job with the smallest id of those that may be claimed (queued, not
    deleted, no retry time ahead); it is now marked resolving, and no other row changed.
    When it returns an error the tables are exactly as before, and without faults the error
    is [sql.ErrNoRows] and no job may be claimed.  The claim loop never runs out of fuel. *)
Theorem ClaimNextQueued_spec (env : Env) (w : World) :
  StronglySorted Z.lt (map ID (jobs (db w))) ->
  let t := now_at env (clock w) in
  let '(w', r) := run env ClaimNextQueued w in
  match r with
  | Some (inr j) => exists j0, (j0 ∈ jobs (db w) /\ may_claim t j0
                          /\ forall x, x ∈ jobs (db w) -> may_claim t x -> (ID j0 <= ID x)%Z)
                        /\ j = j0 <| Status := StatusResolving |>
                        /\ db w' = update_where (has_id (ID j0)) (claimed t) (db w)
  | Some (inl e) => db w' = db w
             /\ (no_faults env -> e = ESentinel ErrNoRows /\ forall x, x ∈ jobs (db w) -> ~ may_claim t x)
  | None => False
  end.
Proof.
  intros Hs t. pose proof (proj1 (ClaimNextQueued_run env w Hs)) as H. cbn zeta in H. fold t in H.
  destruct (run env ClaimNextQueued w) as [w' [[e|j]|]]; [| |done].
  - destruct H as [H1 H2]. split; [done|]. intros Hnf. destruct (H2 Hnf) as [-> Hn].
    split; [done|]. by apply next_claim_nobody.
  - destruct H as (j0 & Hj & -> & Hd). exists j0. split; [by apply next_claim_first|done].
Qed.

(** A concrete queue for the witnesses: job 1 completed, job 2 queued, job 3 failed and due. *)
Definition sample_job (id : Z) (status : string) (next : option Z) : Job :=
  (new_row "https://example.com/f.bin" "" "/data/tv" "" None 5 100 id)
    <| Status := status |> <| NextRetryAt := next |> <| Attempts := 1%Z |>.

Definition sample_db : Db :=
  mkDb [sample_job 1 StatusCompleted None; sample_job 2 StatusQueued None;
        sample_job 3 StatusFailed (Some 150%Z)] [] 3 0.

Definition calm_env (t : Z) : Env :=
  mkEnv (fun _ => t) (fun _ => None)
    (fun _ r => match r return aria_resp r with
                | AddURI _ _ => inr "gid-1"
                | TellStatus g => inr (mkStatus g "active" "100" "40" "10" "" "" [])
                | _ => inr tt
                end)
    (fun _ _ => inr tt) (fun _ _ => inr tt) (fun _ _ _ => ("", None)) (fun _ _ => inr tt)
    (fun _ m => map_to_list m) (fun _ => false) calm_files calm_os no_net.

Definition sample_world (d : Db) : World := mkWorld d None 0 [] [] ∅ None (mkSettings 2 5 true) no_files 0.

Lemma sample_sorted : StronglySorted Z.lt (map ID (jobs sample_db)).
Proof. simpl. repeat constructor. Qed.

Lemma ClaimNextQueued_spec_witness :
  exists j0, ID j0 = 2%Z /\ may_claim 200 j0
    /\ snd (run (calm_env 200) ClaimNextQueued (sample_world sample_db))
       = Some (inr (j0 <| Status := StatusResolving |>)).
Proof.
  pose proof (ClaimNextQueued_spec (calm_env 200) (sample_world sample_db) sample_sorted) as H.
  assert (option_map (fun r => match r with inr j => ID j | inl _ => 0%Z end)
            (snd (run (calm_env 200) ClaimNextQueued (sample_world sample_db))) = Some 2%Z) as Hid
    by (vm_compute; reflexivity).
  destruct (run (calm_env 200) ClaimNextQueued (sample_world sample_db)) as [w' [[e|j]|]];
    [discriminate Hid| |destruct H].
  destruct H as (j0 & (_ & Hc & _) & -> & _). exists j0. split; [|split; [exact Hc|reflexivity]].
  injection Hid as Hid. exact Hid.
Defined.

(** ** Creating *)

Lemma fresh_filter_nil (rows : list Job) (id : Z) :
  Forall (fun i => (i < id)%Z) (map ID rows) -> List.filter (has_id id) rows = [].
Proof.
  induction rows as [|j rows IH]; intros H; [done|]. simpl in *.
  apply Forall_cons in H as [Hj H]. unfold has_id at 1.
  replace (ID j =? id)%Z with false by (symmetry; apply Z.eqb_neq; lia). by apply IH.
Qed.

(** A created job gets an id above every id in the table, is stored queued with the
    arguments and the schema's defaults as the last row, is what [GetJob] then returns and
    the first job [ListJobs] lists; no other row and no event changes. *)
Theorem CreateJob_get (env : Env) (w : World) (url site out name : string)
    (pw : option string) (n : Z) :
  no_faults env -> jobs_room (db w) ->
  let '(w', r) := run env (CreateJob url site out name pw n) w in
  exists id, r = Some (inr id) /\ Forall (fun i => (i < id)%Z) (map ID (jobs (db w)))
    /\ jobs (db w') = (jobs (db w) ++ [new_row url site out name pw n (now_at env (clock w)) id])%list
    /\ events (db w') = events (db w)
    /\ snd (run env (GetJob id) w') = Some (inr (new_row url site out name pw n (now_at env (clock w)) id))
    /\ snd (run env (ListJobs "" false) w')
       = Some (inr (new_row url site out name pw n (now_at env (clock w)) id
              :: rev (rows_where not_deleted (db w)))).
Proof.
  intros Hnf Hroom. unfold CreateJob. rewrite run_bind, run_now, run_Sql by done.
  set (t := now_at env (clock w)). unfold insert_job. change (db (moved w 1 (db w))) with (db w).
  unfold jobs_room in Hroom. set (id := next_id _ _) in *.
  destruct (max_int64 <? id)%Z eqn:E; [bool_prop; lia|]. cbn [fst snd].
  destruct (next_id_fresh (seq_jobs (db w)) (map ID (jobs (db w)))) as [_ Hf]. fold id in Hf.
  exists id. split; [done|]. split; [done|]. rewrite run_GetJob, run_ListJobs by done.
  cbn [snd db moved assign assign_db]. split; [done|]. split; [done|]. split.
  - unfold find_job, rows_where. cbn [db jobs]. rewrite List.filter_app, fresh_filter_nil by done.
    cbn. unfold has_id. by rewrite Z.eqb_refl.
  - do 2 f_equal. unfold rows_where. cbn [db jobs]. rewrite List.filter_app. cbn. rewrite rev_app_distr. cbn.
    f_equal. f_equal. apply List.filter_ext. intros j. unfold list_filter. cbn.
    by rewrite andb_true_r.
Qed.

Lemma CreateJob_get_witness :
  exists id, snd (run (calm_env 200) (CreateJob "u" "" "/data" "f" None 3) (sample_world sample_db))
             = Some (inr id) /\ id = 4%Z.
Proof.
  pose proof (CreateJob_get (calm_env 200) (sample_world sample_db) "u" "" "/data" "f" None 3
                ltac:(done) ltac:(room)) as H.
  destruct (run _ _ _) as [w' r] eqn:E. apply (f_equal snd) in E. cbn [snd] in E.
  destruct H as (id & Hr & _). exists id. split; [done|]. rewrite Hr in E.
  assert (snd (run (calm_env 200) (CreateJob "u" "" "/data" "f" None 3) (sample_world sample_db))
          = Some (inr 4%Z)) as E2 by (vm_compute; reflexivity).
  rewrite E2 in E. by injection E.
Defined.

(** ** Failing and retrying *)

Definition failed_row (code msg : string) (next : option Z) (t : Z) (j : Job) : Job :=
  j <| Status := StatusFailed |> <| Error := Some msg |> <| ErrorCode := Some code |>
    <| DownloadSpeed := Some 0%Z |> <| EtaSeconds := None |> <| UpdatedAt := t |>
    <| NextRetryAt := next |> <| Attempts := (Attempts j + 1)%Z |>.

Definition exhausted_message (j : Job) : option string :=
  if (0 <? MaxAttempts j)%Z && (MaxAttempts j <=? Attempts j + 1)%Z then
    Some ((if (MaxAttempts j <? Attempts j + 1)%Z then "attempts exceeded max ("
           else "max attempts reached (") ++ Itoa (MaxAttempts j) ++ "); no further retries")
  else None.

(** [MarkFailed] sets the failure columns of the job, stores the retry time it is given
    and counts one attempt, changing no other job; and it logs one error event exactly when
    that attempt reaches or passes the job's maximum, which of the two the text says. *)
Theorem MarkFailed_spec (env : Env) (w : World) (id : Z) (code msg : string)
    (next : option Z) (j : Job) :
  no_faults env -> find_job id (db w) = Some j -> events_room (db w) ->
  let '(w', r) := run env (MarkFailed id code msg next) w in
  r = Some (inr tt)
  /\ jobs (db w') = update_rows (has_id id) (failed_row code msg next (now_at env (clock w))) (jobs (db w))
  /\ map (fun e => (EvJobID e, EvLevel e, EvMessage e)) (events (db w'))
     = (map (fun e => (EvJobID e, EvLevel e, EvMessage e)) (events (db w))
        ++ match exhausted_message j with Some m => [(id, "error", m)] | None => [] end)%list.
Proof.
  intros Hnf Hj Hroom. unfold MarkFailed. rewrite run_bind, run_now.
  rewrite run_bind_err. unfold update_job. rewrite run_exec by done. cbn iota.
  set (t := now_at env (clock w)). set (d1 := update_where _ _ _).
  rewrite run_bind_err, run_query_row by done.
  rewrite !moved_moved. change (db (moved _ _ d1)) with d1.
  assert (find_job id d1 = Some (failed_row code msg next t j)) as Hj1.
  { unfold d1. rewrite find_update_where by done.
    change (find_job id (db (moved w 1 (db w)))) with (find_job id (db w)). rewrite Hj. cbn.
    apply find_job_Some in Hj as [_ Hid]. unfold has_id. by rewrite Hid, Z.eqb_refl. }
  rewrite Hj1. cbn [fmap option_fmap option_map]. cbn [failed_row Attempts MaxAttempts assign].
  unfold exhausted_message.
  change (MaxAttempts (failed_row code msg next t j)) with (MaxAttempts j).
  change (Attempts (failed_row code msg next t j)) with (Attempts j + 1)%Z.
  destruct (_ && _) eqn:Emax; [|by rewrite app_nil_r].
  rewrite run_bind, run_AddEvent by done. cbn zeta.
  change (db (moved _ _ d1)) with d1. rewrite (insert_event_ok _ _ _ _ _ _ Hj1) by done.
  cbn. split; [done|]. split; [done|]. rewrite map_app. cbn. by case_bool.
Qed.

Lemma MarkFailed_spec_witness :
  let j := (sample_job 2 StatusQueued None) <| MaxAttempts := 2%Z |> in
  let '(w', r) := run (calm_env 200) (MarkFailed 2 "c" "m" (Some 300%Z))
                    (sample_world (mkDb [j] [] 2 0)) in
  map EvMessage (events (db w')) = ["max attempts reached (2); no further retries"].
Proof.
  intros j.
  pose proof (MarkFailed_spec (calm_env 200) (sample_world (mkDb [j] [] 2 0)) 2 "c" "m" (Some 300%Z) j
                ltac:(done) ltac:(done) ltac:(room)) as H.
  destruct (run _ _ _) as [w' r]. destruct H as (_ & _ & H).
  apply (f_equal (map snd)) in H. rewrite map_map in H. etrans; [exact H|vm_compute; reflexivity].
Defined.

Lemma retry_before_total (a b : Job) : retry_before a b \/ retry_before b a.
Proof. unfold retry_before. lia. Qed.

#[global] Instance retry_before_Total : Total retry_before.
Proof. intros a b. apply retry_before_total. Qed.

#[global] Instance retry_before_Transitive : Transitive retry_before.
Proof. intros a b c. unfold retry_before. lia. Qed.

(** [ListRetryableFailed] without a limit returns the ids of exactly the failed, not
    deleted jobs whose retry time has come and that have attempts left, earliest retry time
    first: a job that used up its attempts is never selected again. *)
Theorem ListRetryableFailed_spec (env : Env) (w : World) :
  no_faults env ->
  exists rows, run env (ListRetryableFailed 0) w = (moved w 2 (db w), Some (inr (map ID rows)))
    /\ rows ≡ₚ rows_where (retryable (now_at env (clock w))) (db w)
    /\ StronglySorted retry_before rows
    /\ forall j, j ∈ rows <->
         j ∈ jobs (db w) /\ Status j = StatusFailed /\ DeletedAt j = None
         /\ (exists t, NextRetryAt j = Some t /\ (t <= now_at env (clock w))%Z)
         /\ (Attempts j < MaxAttempts j)%Z.
Proof.
  intros Hnf. set (t := now_at env (clock w)).
  exists (merge_sort retry_before (rows_where (retryable t) (db w))).
  assert (merge_sort retry_before (rows_where (retryable t) (db w))
          ≡ₚ rows_where (retryable t) (db w)) as Hp by apply merge_sort_Permutation.
  split; [|split; [done|split]].
  - unfold ListRetryableFailed. rewrite run_bind, run_now, run_query by done.
    by rewrite moved_moved.
  - apply StronglySorted_merge_sort; apply _.
  - intros j. rewrite Hp, rows_where_In. unfold retryable, due.
    rewrite !andb_true_iff, String.eqb_eq, Z.ltb_lt. unfold not_deleted. rewrite bool_decide_eq_true.
    destruct (NextRetryAt j) as [x|].
    + rewrite Z.leb_le. split; [intros (? & ((? & ?) & ?) & ?); eauto 10|].
      intros (? & ? & ? & (u & [= <-] & ?) & ?). auto.
    + split; [intros (_ & ((_ & _) & [=]) & _)|]. intros (_ & _ & _ & (u & [=] & _) & _).
Qed.

Lemma ListRetryableFailed_spec_witness :
  exists rows, run (calm_env 200) (ListRetryableFailed 0) (sample_world sample_db)
               = (moved (sample_world sample_db) 2 sample_db, Some (inr (map ID rows)))
               /\ map ID rows = [3%Z].
Proof.
  destruct (ListRetryableFailed_spec (calm_env 200) (sample_world sample_db) ltac:(done))
    as (rows & H & _). exists rows. split; [exact H|].
  assert (snd (run (calm_env 200) (ListRetryableFailed 0) (sample_world sample_db))
          = Some (inr [3%Z])) as E by (vm_compute; reflexivity).
  rewrite H in E. by injection E.
Defined.

(** ** Purging *)

(** [ClearAll] is one transaction: when it reports success there is no job and no event
    left, and without faults the id counters are reset as well, so the tables are those of a
    new database; when it reports an error (any statement or the commit failed) the tables
    are exactly as before. *)
Theorem ClearAll_atomic (env : Env) (w : World) :
  let '(w', r) := run env ClearAll w in
  match r with
  | Some (inr _) => jobs (db w') = [] /\ events (db w') = [] /\ (no_faults env -> db w' = empty_db)
  | Some (inl _) => db w' = db w /\ ~ no_faults env
  | None => False
  end.
Proof.
  unfold ClearAll, clear_all_tx.
  assert (forall n e, sql_fault env n = Some e -> ~ no_faults env) as Hf.
  { intros n e H Hn. by rewrite Hn in H. }
  rewrite run_bind_err, run_call. unfold handle, act. cbn.
  destruct (sql_fault env (clock w)) eqn:F1; [by split; eauto|]. cbn.
  unfold handle, act. cbn. destruct (sql_fault env (S (clock w))) eqn:F2; cbn; [by split; eauto|].
  unfold handle, act. cbn. destruct (sql_fault env (S (S (clock w)))) eqn:F3; cbn; [by split; eauto|].
  unfold handle, act. cbn. destruct (sql_fault env (S (S (S (clock w))))) eqn:F4; cbn.
  - unfold handle, act. cbn. destruct (sql_fault env (S (S (S (S (clock w)))))) eqn:F5; cbn; [by split; eauto|].
    split; [done|]. split; [done|]. intros Hn. by rewrite Hn in F4.
  - unfold handle, act. cbn. destruct (sql_fault env (S (S (S (S (clock w)))))) eqn:F5; cbn; [by split; eauto|].
    unfold handle, act. cbn.
    destruct (sql_fault env (S (S (S (S (S (clock w))))))) eqn:F6; cbn; [by split; eauto|].
    by split.
Qed.

(** After a purge the first job created is job 1 again. *)
Example ClearAll_then_create :
  snd (run (calm_env 200) (_ <-? ClearAll ;; CreateJob "u" "" "/data" "" None 3)
         (sample_world sample_db)) = Some (inr 1%Z).
Proof. vm_compute. reflexivity. Qed.
