(* ===== verification/Wp.v ===== *)
(** * Weakest preconditions for programs run alone

    [wp env p P w]: run from [w], [p] does not panic and ends in a world and with a result
    that satisfy [P].  The rules for the store's methods are for a fault-free database; they
    give the new tables and say that the rest of the world is the same ([frame]). *)

From S2P Require Import Prelude GoStrings GoError Schema Files Effects Store StoreSpec.

Definition wp {A} (env : Env) (p : prog A) (P : World -> A -> Prop) (w : World) : Prop :=
  match run env p w with
  | (w', Some a) => P w' a
  | (_, None) => False
  end.

#[global] Instance frame_PreOrder : PreOrder frame.
Proof.
  split; [by intros w|]. unfold frame. intros w1 w2 w3. intuition congruence.
Qed.

Lemma same_core_frame (w w' : World) : same_core w w' -> db w' = db w /\ frame w w'.
Proof. unfold same_core, frame. tauto. Qed.

(** A program that never panics alone. *)
Definition returns {A} (env : Env) (p : prog A) : Prop := forall w, snd (run env p w) <> None.

Section Rules.
Context (env : Env).

Lemma wp_Ret {A} (a : A) (P : World -> A -> Prop) (w : World) : P w a -> wp env (Ret a) P w.
Proof. done. Qed.

Lemma wp_bind {A B} (p : prog A) (f : A -> prog B) P (w : World) :
  wp env p (fun w' a => wp env (f a) P w') w -> wp env (bind p f) P w.
Proof. unfold wp. rewrite run_bind. by destruct (run env p w) as [w' [a|]]. Qed.

Lemma wp_bind_err {A B} (p : prog (res A)) (f : A -> prog (res B)) P (w : World) :
  wp env p (fun w' r => match r with inl e => P w' (inl e) | inr a => wp env (f a) P w' end) w ->
  wp env (bind_err p f) P w.
Proof. unfold wp. rewrite run_bind_err. by destruct (run env p w) as [w' [[e|a]|]]. Qed.

Lemma wp_mono {A} (p : prog A) (P Q : World -> A -> Prop) (w : World) :
  (forall w' a, P w' a -> Q w' a) -> wp env p P w -> wp env p Q w.
Proof. unfold wp. intros H. destruct (run env p w) as [w' [a|]]; [apply H|done]. Qed.

Lemma wp_quiet {A} (p : prog A) (P : World -> A -> Prop) (w : World) :
  quiet p -> returns env p -> (forall w' a, db w' = db w -> frame w w' -> P w' a) -> wp env p P w.
Proof.
  intros Hq Hr H. pose proof (quiet_run env p w Hq) as Hc. specialize (Hr w). unfold wp.
  destruct (run env p w) as [w' [a|]]; [|done]. apply same_core_frame in Hc as [H1 H2]. by apply H.
Qed.

Lemma wp_now (P : World -> Z -> Prop) (w : World) :
  (forall t w', db w' = db w -> frame w w' -> P w' t) -> wp env now P w.
Proof. intros H. unfold wp. rewrite run_now. by apply H. Qed.

Lemma wp_call_out {X} (e : ev X) (P : World -> X -> Prop) (w : World) :
  match e with
  | OsStat _ | RunTool _ _ | LookPath _ | OsRemove _ | RangeMap _ | Now => True
  | _ => False
  end ->
  (forall w' x, db w' = db w -> frame w w' -> P w' x) -> wp env (call e) P w.
Proof.
  intros He H. unfold wp, call. cbn. destruct e; try done; try by apply H.
  cbn. by destruct (remove_at _ _ _); apply H.
Qed.

Lemma wp_call {X} (e : ev X) (P : World -> X -> Prop) (w : World) :
  P (fst (handle env w e)) (snd (handle env w e)) -> wp env (call e) P w.
Proof. unfold wp, call. cbn. by destruct (handle env w e). Qed.

Lemma wp_settings (P : World -> SettingsState -> Prop) (w : World) :
  (forall w', db w' = db w -> frame w w' -> P w' (settings w)) -> wp env (call GetSettings) P w.
Proof. intros H. unfold wp. cbn. by apply H. Qed.

Lemma wp_aria (r : aria_req) (P : World -> aria_resp r -> Prop) (w : World) :
  (forall w', db w' = db w -> frame (w <| requests := r :: requests w |>) w' ->
   P w' (aria_at env (clock w) r)) -> wp env (call (Aria r)) P w.
Proof. intros H. unfold wp. cbn. by apply H. Qed.

Context (Hnf : no_faults env).

Lemma wp_exec (u : Db -> Db) (P : World -> res unit -> Prop) (w : World) :
  (forall w', db w' = u (db w) -> frame w w' -> P w' (inr tt)) -> wp env (exec u) P w.
Proof. intros H. unfold wp. rewrite run_exec by done. by apply H. Qed.

Lemma wp_query {X} (q : Db -> X) (P : World -> res X -> Prop) (w : World) :
  (forall w', db w' = db w -> frame w w' -> P w' (inr (q (db w)))) -> wp env (query q) P w.
Proof. intros H. unfold wp. rewrite run_query by done. by apply H. Qed.

Lemma wp_ListJobs (s : string) (b : bool) P (w : World) :
  (forall w', db w' = db w -> frame w w' ->
    P w' (inr (rev (rows_where (list_filter s b) (db w))))) -> wp env (ListJobs s b) P w.
Proof. intros H. by apply wp_query. Qed.

Lemma wp_GetJob (id : Z) P (w : World) :
  (forall w', db w' = db w -> frame w w' ->
    P w' (match find_job id (db w) with Some j => inr j | None => inl (ESentinel ErrNoRows) end)) ->
  wp env (GetJob id) P w.
Proof. intros H. unfold wp. rewrite run_GetJob by done. by apply H. Qed.

Lemma wp_now_update (id : Z) (f : Z -> Job -> Job) P (w : World) :
  (forall t w', db w' = update_where (has_id id) (f t) (db w) -> frame w w' -> P w' (inr tt)) ->
  wp env (t <- now ;; update_job id (f t)) P w.
Proof. intros H. unfold wp. rewrite run_now_update by done. by eapply H. Qed.

Lemma wp_AddEvent (id : Z) (level msg : string) P (w : World) :
  (forall t w', db w' = fst (insert_event id level msg t (db w)) -> frame w w' ->
     P w' (snd (insert_event id level msg t (db w)))) -> wp env (AddEvent id level msg) P w.
Proof. intros H. unfold wp. rewrite run_AddEvent by done. cbn zeta iota. by eapply H. Qed.

(** The same when only the jobs matter. *)
Lemma wp_AddEvent_jobs (id : Z) (level msg : string) P (w : World) :
  (forall w' r, jobs (db w') = jobs (db w) -> frame w w' -> P w' r) ->
  wp env (AddEvent id level msg) P w.
Proof.
  intros H. apply wp_AddEvent. intros t w' Hd Hf. apply H; [|done]. rewrite Hd.
  apply insert_event_jobs.
Qed.
Lemma wp_query_row {X} (q : Db -> option X) P (w : World) :
  (forall w', db w' = db w -> frame w w' ->
    P w' (match q (db w) with Some x => inr x | None => inl (ESentinel ErrNoRows) end)) ->
  wp env (query_row q) P w.
Proof. intros H. unfold wp. rewrite run_query_row by done. by apply H. Qed.

Lemma wp_MarkFailed (id : Z) (code msg : string) (next : option Z) P (w : World) :
  (forall t w' r, jobs (db w') = update_rows (has_id id) (failed_row code msg next t) (jobs (db w)) ->
     frame w w' -> P w' r) ->
  wp env (MarkFailed id code msg next) P w.
Proof.
  intros H. unfold MarkFailed. apply wp_bind, wp_now. intros t w1 H1 F1.
  apply wp_bind_err, wp_exec. intros w2 H2 F2.
  assert (jobs (db w2) = update_rows (has_id id) (failed_row code msg next t) (jobs (db w))) as Hj.
  { by rewrite H2, H1. }
  apply wp_bind_err, wp_query_row. intros w3 H3 F3.
  assert (frame w w3) as F by (etrans; [exact F1|etrans; [exact F2|exact F3]]).
  destruct (_ <$> _) as [[a m]|]; [|apply (H t); [by rewrite H3|done]].
  destruct (_ && _); [|apply (H t); [by rewrite H3|done]].
  apply wp_bind, wp_AddEvent_jobs. intros w4 r H4 F4. apply (H t); [by rewrite H4, H3|by etrans].
Qed.

Lemma wp_Claim P (w : World) :
  StronglySorted Z.lt (map ID (jobs (db w))) ->
  (forall t w' r, frame w w' ->
     match next_claim t (db w) with
     | Some j => r = inr (j <| Status := StatusResolving |>)
                 /\ db w' = update_where (has_id (ID j)) (claimed t) (db w)
     | None => r = inl (ESentinel ErrNoRows) /\ db w' = db w
     end -> P w' r) ->
  wp env ClaimNextQueued P w.
Proof.
  intros Hs H. pose proof (ClaimNextQueued_run env w Hs) as [Hr Hfr].
  unfold wp. destruct (run env ClaimNextQueued w) as [w' [[e|j]|]]; [| |done].
  - destruct Hr as (H1 & H2). destruct (H2 Hnf) as [-> H3].
    apply (H (now_at env (clock w))); [done|]. by rewrite H3.
  - destruct Hr as (j0 & H1 & -> & H2).
    apply (H (now_at env (clock w))); [done|]. by rewrite H1.
Qed.
End Rules.
