(* ===== verification/StoreMap.v ===== *)
(** * The store as a map

    What the store promises, without tables, statements and rowids: a finite map from the id
    of a job to its row and its log.  Every method of the store refines its counterpart on
    the map, on every well-formed database whose statements do not fail. *)

From S2P Require Import Prelude GoStrings GoTime GoError Schema Effects Store StoreInv StoreSpec Wp.

#[local] Open Scope string_scope.

(** ** The abstract state *)

(** A line of a job's log: when, how severe, what. *)
Abbreviation note := (Z * string * string)%type.

Abbreviation book := (gmap Z (Job * list note)).

Definition note_of (e : EventRow) : note := (EvCreatedAt e, EvLevel e, EvMessage e).

Definition log_of (d : Db) (id : Z) : list note :=
  map note_of (List.filter (fun e => (EvJobID e =? id)%Z) (events d)).

(** The map that the tables stand for. *)
Definition abs (d : Db) : book := list_to_map (map (fun j => (ID j, (j, log_of d (ID j)))) (jobs d)).

Lemma abs_lookup (d : Db) (id : Z) : abs d !! id = (fun j => (j, log_of d id)) <$> find_job id d.
Proof.
  unfold abs, find_job, rows_where. generalize (log_of d) as lg. intros lg.
  induction (jobs d) as [|j l IH]; [done|]. cbn [map List.filter]. rewrite list_to_map_cons.
  unfold has_id at 1. destruct (ID j =? id)%Z eqn:E; bool_prop.
  - subst. by rewrite lookup_insert_eq.
  - by rewrite lookup_insert_ne.
Qed.

(** ** The abstract operations *)

Definition on_row (f : Job -> Job) (e : Job * list note) : Job * list note := (f (fst e), snd e).

Definition add_note (n : note) (e : Job * list note) : Job * list note := (fst e, (snd e ++ [n])%list).

Lemma abs_update (id : Z) (f : Job -> Job) (d : Db) :
  (forall j, ID (f j) = ID j) -> abs (update_where (has_id id) f d) = alter (on_row f) id (abs d).
Proof.
  intros Hf. apply map_eq. intros i. rewrite abs_lookup, find_update_where by done.
  change (log_of (update_where (has_id id) f d)) with (log_of d).
  destruct (decide (i = id)) as [->|Hi].
  - rewrite lookup_alter_eq, abs_lookup. destruct (find_job id d) as [j|] eqn:E; [|done].
    apply find_job_Some in E as [_ E]. cbn. unfold has_id. by rewrite E, Z.eqb_refl.
  - rewrite lookup_alter_ne, abs_lookup by done. destruct (find_job i d) as [j|] eqn:E; [|done].
    apply find_job_Some in E as [_ E]. cbn. unfold has_id.
    destruct (ID j =? id)%Z eqn:E2; [bool_prop; congruence|done].
Qed.

Lemma abs_update_all (p : Job -> bool) (f : Job -> Job) (d : Db) :
  (forall j, ID (f j) = ID j) ->
  abs (update_where p f d) = (fun e => if p (fst e) then on_row f e else e) <$> abs d.
Proof.
  intros Hf. apply map_eq. intros i. rewrite lookup_fmap, !abs_lookup, find_update_where by done.
  change (log_of (update_where p f d)) with (log_of d). destruct (find_job i d) as [j|]; [|done].
  cbn. by destruct (p j).
Qed.

Lemma abs_event (id : Z) (level msg : string) (t : Z) (d : Db) :
  abs (add_event_db id level msg t d) = alter (add_note (t, level, msg)) id (abs d).
Proof.
  apply map_eq. intros i. rewrite abs_lookup.
  change (find_job i (add_event_db id level msg t d)) with (find_job i d).
  assert (log_of (add_event_db id level msg t d) i
          = log_of d i ++ (if (id =? i)%Z then [(t, level, msg)] else []))%list as ->.
  { unfold log_of, add_event_db. cbn [events]. rewrite List.filter_app, map_app. cbn. by destruct (id =? i)%Z. }
  destruct (decide (i = id)) as [->|Hi].
  - rewrite lookup_alter_eq, abs_lookup, Z.eqb_refl. by destruct (find_job id d).
  - rewrite lookup_alter_ne, abs_lookup by done. replace (id =? i)%Z with false; [by rewrite app_nil_r|].
    symmetry. apply Z.eqb_neq. congruence.
Qed.

Lemma log_of_fresh (roots : list string) (id : Z) (d : Db) :
  DbOk roots d -> find_job id d = None -> log_of d id = [].
Proof.
  intros [_ _ _ He _ _] Hn. unfold log_of. replace (List.filter _ (events d)) with (@nil EventRow); [done|].
  symmetry. induction He as [|e l He _ IH]; [done|]. cbn. destruct (EvJobID e =? id)%Z eqn:E; [|done].
  exfalso. bool_prop. subst. apply list_elem_of_fmap in He as (j & E & Hj).
  by apply (proj1 (find_job_None _ _) Hn j).
Qed.

Lemma abs_insert (roots : list string) (row : Z -> Job) (d : Db) (id : Z) :
  DbOk roots d -> ID (row id) = id -> Forall (fun i => (i < id)%Z) (map ID (jobs d)) ->
  abs (mkDb (jobs d ++ [row id]) (events d) id (seq_events d)) = <[id := (row id, [])]> (abs d).
Proof.
  intros Hok Hid Hf. assert (find_job id d = None) as Hn.
  { apply find_job_None. intros j Hj E. rewrite Forall_forall in Hf. specialize (Hf (ID j)).
    rewrite E in Hf. pose proof (Hf ltac:(rewrite <- E; by apply (list_elem_of_fmap_2 ID))). lia. }
  apply map_eq. intros i. rewrite abs_lookup.
  change (log_of (mkDb (jobs d ++ [row id]) (events d) id (seq_events d))) with (log_of d).
  unfold find_job, rows_where. cbn [jobs]. rewrite List.filter_app. cbn [List.filter]. unfold has_id at 2. rewrite Hid.
  destruct (decide (i = id)) as [->|Hi].
  - rewrite lookup_insert_eq, Z.eqb_refl, (log_of_fresh roots) by done.
    unfold find_job, rows_where in Hn. apply head_None in Hn. by rewrite Hn.
  - rewrite lookup_insert_ne, abs_lookup by done. replace (id =? i)%Z with false; [by rewrite app_nil_r|].
    symmetry. apply Z.eqb_neq. congruence.
Qed.

(** ** The methods *)

(** What an UPDATE of one row says. *)
Inductive change : Type :=
  | Resolving (url filename : string) (size : Z)
  | Downloading (engine gid : string)
  | Paused
  | Unpaused
  | Progress (bytes : Z) (status : string) (speed eta : Z)
  | Completed
  | Decrypting (bytes : Z)
  | DecryptingRetry (bytes : Z)
  | PostprocessFailed (msg code : string)
  | PasswordCleared
  | Requeued
  | Removed.

(** The methods of [Store], by the type of their results. *)
Inductive method : Type -> Type :=
  | MCreate (url site out name : string) (password : option string) (maxAttempts : Z) : method Z
  | MGet (id : Z) : method Job
  | MList (status : string) (includeDeleted : bool) : method (list Job)
  | MPending (limit : Z) : method (list Job)
  | MEvent (id : Z) (level msg : string) : method unit
  | MEvents (id limit : Z) : method (list string)
  | MRetryable (limit : Z) : method (list Z)
  | MClaim : method Job
  | MChange (id : Z) (c : change) : method unit
  | MFailed (id : Z) (code msg : string) (nextRetry : option Z) : method unit
  | MClearCompleted : method unit
  | MClearAll : method unit.

Definition change_prog (id : Z) (c : change) : prog (res unit) :=
  match c with
  | Resolving u f n => UpdateResolving id u f n
  | Downloading e g => MarkDownloading id e g
  | Paused => MarkPaused id
  | Unpaused => MarkDownloadingStatus id
  | Progress b st v e => UpdateProgress id b st v e
  | Completed => MarkCompleted id
  | Decrypting b => MarkDecrypting id b
  | DecryptingRetry b => MarkDecryptingRetry id b
  | PostprocessFailed m c => MarkPostprocessFailed id m c
  | PasswordCleared => ClearArchivePassword id
  | Requeued => Requeue id
  | Removed => Remove id
  end.

Definition impl {X} (m : method X) : prog (res X) :=
  match m with
  | MCreate u s o n p k => CreateJob u s o n p k
  | MGet id => GetJob id
  | MList st b => ListJobs st b
  | MPending n => ListPendingPostprocess n
  | MEvent id l m => AddEvent id l m
  | MEvents id n => ListEvents id n
  | MRetryable n => ListRetryableFailed n
  | MClaim => ClaimNextQueued
  | MChange id c => change_prog id c
  | MFailed id c m n => MarkFailed id c m n
  | MClearCompleted => ClearCompleted
  | MClearAll => ClearAll
  end.

(** ** What each method promises *)

Definition changed (c : change) (t : Z) (j : Job) : Job :=
  let j := j <| UpdatedAt := t |> in
  match c with
  | Resolving u f n => j <| ResolvedURL := Some u |> <| Filename := Some f |> <| SizeBytes := Some n |>
  | Downloading e g => j <| Status := StatusDownloading |> <| Engine := e |> <| EngineGID := Some g |>
  | Paused => j <| Status := StatusPaused |>
  | Unpaused => j <| Status := StatusDownloading |>
  | Progress b st v e =>
      j <| Status := st |> <| BytesDone := b |> <| DownloadSpeed := Some v |> <| EtaSeconds := Some e |>
  | Completed =>
      j <| Status := StatusCompleted |> <| CompletedAt := Some t |>
        <| BytesDone := match SizeBytes j with
                        | Some size => if (BytesDone j =? 0)%Z then size else BytesDone j
                        | None => BytesDone j
                        end |>
        <| DownloadSpeed := Some 0%Z |> <| EtaSeconds := None |> <| Error := None |> <| ErrorCode := None |>
  | Decrypting b =>
      j <| Status := StatusDecrypting |> <| BytesDone := if (0 <? b)%Z then b else BytesDone j |>
        <| DownloadSpeed := Some 0%Z |> <| EtaSeconds := None |> <| Error := None |> <| ErrorCode := None |>
  | DecryptingRetry b =>
      j <| Status := StatusDecrypting |> <| BytesDone := if (0 <? b)%Z then b else BytesDone j |>
        <| DownloadSpeed := Some 0%Z |> <| EtaSeconds := None |>
  | PostprocessFailed m c =>
      j <| Status := StatusDecryptFail |> <| Error := Some m |>
        <| ErrorCode := Some (if String.eqb (TrimSpace c) "" then "archive_decrypt_failed" else c) |>
        <| DownloadSpeed := Some 0%Z |> <| EtaSeconds := None |>
        <| CompletedAt := Some (default t (CompletedAt j)) |>
  | PasswordCleared => j <| ArchivePassword := None |>
  | Requeued =>
      mkJob (ID j) (URL j) (Site j) (OutDir j) (Name j) (ArchivePassword j) None None None 0 (Some 0%Z) None
        StatusQueued None None "aria2" None (Attempts j) (MaxAttempts j) None (CreatedAt j) t None None None
  | Removed => j <| Status := StatusDeleted |> <| DeletedAt := Some t |>
  end.

(** The rows of the book that [p] selects, by ascending id. *)
Definition lists (p : Job -> bool) (M : book) (l : list Job) : Prop :=
  StronglySorted Z.lt (map ID l)
  /\ forall j, j ∈ l <-> exists lg, M !! ID j = Some (j, lg) /\ p j = true.

Definition note_line (n : note) : string :=
  let '(t, level, msg) := n in format_rfc3339 t ++ " " ++ level ++ " " ++ msg.

Definition no_rows {X} : res X := inl (ESentinel ErrNoRows).

Definition promised {X} (m : method X) (M M' : book) : res X -> Prop :=
  match m in method X return res X -> Prop with
  | MCreate u s o n p k => fun r => exists t id, r = inr id /\ (forall i, is_Some (M !! i) -> (i < id)%Z)
      /\ M' = <[id := (new_row u s o n p k t id, [])]> M
  | MGet id => fun r => M' = M /\ r = match M !! id with Some (j, _) => inr j | None => no_rows end
  | MList st b => fun r => M' = M /\ exists l, r = inr (rev l) /\ lists (list_filter st b) M l
  | MPending n => fun r => M' = M /\ exists l, r = inr (limit_rows n l) /\ lists pending_postprocess M l
  | MEvent id level msg => fun r => exists t,
      match M !! id with
      | Some _ => r = inr tt /\ M' = alter (add_note (t, level, msg)) id M
      | None => (exists e, r = inl e) /\ M' = M
      end
  | MEvents id n => fun r => M' = M
      /\ r = inr (limit_rows n (map note_line (rev (match M !! id with Some (_, lg) => lg | None => [] end))))
  | MRetryable n => fun r => M' = M /\ exists t l rows, r = inr (limit_rows n (map ID l))
      /\ lists (retryable t) M rows /\ l ≡ₚ rows /\ StronglySorted retry_before l
  | MClaim => fun r => exists t,
      (exists j lg, M !! ID j = Some (j, lg) /\ may_claim t j
         /\ (forall i x, M !! i = Some x -> may_claim t (fst x) -> (ID j <= i)%Z)
         /\ r = inr (j <| Status := StatusResolving |>) /\ M' = alter (on_row (claimed t)) (ID j) M)
      \/ (forall i x, M !! i = Some x -> ~ may_claim t (fst x)) /\ r = no_rows /\ M' = M
  | MChange id c => fun r => exists t, r = inr tt /\ M' = alter (on_row (changed c t)) id M
  | MFailed id code msg next => fun r => exists t t',
      let M1 := alter (on_row (failed_row code msg next t)) id M in
      match M !! id with
      | None => r = no_rows /\ M' = M
      | Some (j, _) => r = inr tt /\ M' = match exhausted_message j with
                                         | Some m => alter (add_note (t', "error", m)) id M1
                                         | None => M1
                                         end
      end
  | MClearCompleted => fun r => exists t, r = inr tt
      /\ M' = (fun e => if String.eqb (Status (fst e)) StatusCompleted then on_row (changed Removed t) e else e) <$> M
  | MClearAll => fun r => r = inr tt /\ M' = ∅
  end.

(** ** The refinement *)

Section Refines.
Context (roots : list string) (env : Env) (Hnf : no_faults env) (w : World).
Context (Hok : DbOk roots (db w)).

Lemma abs_rows (p : Job -> bool) : lists p (abs (db w)) (rows_where p (db w)).
Proof using Hok.
  destruct Hok as [Hs _ _ _ _ _]. split.
  - unfold rows_where. induction (jobs (db w)) as [|j l IH]; [constructor|]. cbn in *.
    apply StronglySorted_inv in Hs as [Hs Hj]. specialize (IH Hs). destruct (p j); [|done]. cbn. constructor; [done|].
    rewrite Forall_forall in Hj. apply Forall_forall. intros i Hi. apply Hj.
    apply list_elem_of_fmap in Hi as (x & -> & Hx). apply list_elem_of_In, filter_In in Hx as [Hx _].
    apply (list_elem_of_fmap_2 ID), list_elem_of_In, Hx.
  - intros j. rewrite rows_where_In. split.
    + intros [Hj Hp]. exists (log_of (db w) (ID j)). by rewrite abs_lookup, (find_job_In (ID j) _ j).
    + intros (lg & H & Hp). rewrite abs_lookup in H. destruct (find_job (ID j) (db w)) as [x|] eqn:E; [|done].
      cbn in H. injection H as -> _. by apply find_job_Some in E as [E _].
Qed.

Lemma abs_row (id : Z) (j : Job) (lg : list note) :
  abs (db w) !! id = Some (j, lg) -> find_job id (db w) = Some j /\ j ∈ jobs (db w) /\ ID j = id.
Proof using Type.
  rewrite abs_lookup. destruct (find_job id (db w)) as [x|] eqn:E; [|done]. intros [= -> _]. split; [done|].
  by apply find_job_Some.
Qed.

Definition refines {X} (m : method X) : Prop :=
  wp env (impl m) (fun w' r => frame w w' /\ promised m (abs (db w)) (abs (db w')) r) w.

Lemma refines_change (id : Z) (c : change) : refines (MChange id c).
Proof using Hnf.
  assert (forall (f : Z -> Job -> Job) (p : prog (res unit)), p = (t <- now ;; update_job id (f t)) ->
            (forall t j, ID (f t j) = ID j) -> (forall t, f t = changed c t) ->
            wp env p (fun w' r => frame w w' /\ promised (MChange id c) (abs (db w)) (abs (db w')) r) w) as H.
  { intros f p -> Hid Hf. apply wp_now_update; [done|]. intros t w' Hd F. split; [done|]. exists t. split; [done|].
    rewrite Hd, abs_update by done. by rewrite Hf. }
  unfold refines. cbn [impl]. destruct c; cbn [change_prog]; (eapply H; [reflexivity|reflexivity|reflexivity]).
Qed.

Lemma refines_CreateJob (url site out name : string) (pw : option string) (n : Z) :
  jobs_room (db w) -> refines (MCreate url site out name pw n).
Proof using Hnf Hok.
  intros Hr. unfold refines. cbn [impl]. unfold CreateJob. apply wp_bind, wp_now. intros t w1 Hd1 F1.
  unfold wp. rewrite run_Sql by done. unfold insert_job. rewrite Hd1.
  destruct (next_id_fresh (seq_jobs (db w)) (map ID (jobs (db w)))) as [_ Hf]. unfold jobs_room in Hr.
  set (id := next_id _ _) in *. destruct (max_int64 <? id)%Z eqn:E; [bool_prop; lia|].
  split; [exact F1|]. exists t, id. split; [done|]. split; [|by apply (abs_insert roots)].
  intros i [[j lg] Hi]. apply abs_row in Hi as (_ & Hj & <-). rewrite Forall_forall in Hf.
  by apply Hf, (list_elem_of_fmap_2 ID).
Qed.

Lemma refines_AddEvent (id : Z) (level msg : string) :
  events_room (db w) -> refines (MEvent id level msg).
Proof using Hnf.
  intros Hr. unfold refines. cbn [impl]. apply wp_AddEvent; [done|]. intros t w' Hd F. split; [done|]. exists t.
  rewrite abs_lookup. destruct (find_job id (db w)) as [j|] eqn:E; cbn [fmap option_fmap option_map].
  - rewrite (insert_event_ok _ _ _ _ _ j E Hr) in *. split; [done|]. by rewrite Hd, <- abs_event.
  - rewrite Hd. unfold insert_event. rewrite E. split; [by eexists|done].
Qed.

Lemma refines_ListJobs (st : string) (b : bool) : refines (MList st b).
Proof using Hnf Hok.
  apply wp_ListJobs; [done|]. intros w' Hd F. split; [done|]. cbn [promised]. rewrite Hd. split; [done|].
  eexists. split; [done|apply abs_rows].
Qed.

Lemma refines_ListPending (n : Z) : refines (MPending n).
Proof using Hnf Hok.
  apply wp_query; [done|]. intros w' Hd F. split; [done|]. cbn [promised]. rewrite Hd. split; [done|].
  eexists. split; [done|apply abs_rows].
Qed.

Lemma refines_GetJob (id : Z) : refines (MGet id).
Proof using Hnf.
  apply wp_GetJob; [done|]. intros w' Hd F. split; [done|]. cbn [promised]. rewrite Hd, abs_lookup. split; [done|].
  by destruct (find_job id (db w)).
Qed.

Lemma refines_ListEvents (id n : Z) : refines (MEvents id n).
Proof using Hnf Hok.
  apply wp_query; [done|]. intros w' Hd F. split; [done|]. cbn [promised]. rewrite Hd, abs_lookup. split; [done|].
  assert (match (fun j => (j, log_of (db w) id)) <$> find_job id (db w) with
          | Some (_, lg) => lg
          | None => []
          end = log_of (db w) id) as ->.
  { destruct (find_job id (db w)) eqn:E; [done|]. cbn. by rewrite (log_of_fresh roots). }
  unfold log_of. by rewrite <- map_rev, map_map.
Qed.

Lemma refines_ListRetryableFailed (n : Z) : refines (MRetryable n).
Proof using Hnf Hok.
  apply wp_bind, wp_now. intros t w1 Hd1 F1. apply wp_query; [done|]. intros w' Hd F. split; [by etrans|].
  cbn [promised]. rewrite Hd, Hd1. split; [done|]. eexists t, _, (rows_where (retryable t) (db w)).
  split; [done|]. split; [apply abs_rows|]. split; [apply merge_sort_Permutation|].
  apply StronglySorted_merge_sort; apply _.
Qed.

Lemma refines_Claim : refines MClaim.
Proof using Hnf Hok.
  apply wp_Claim; [done|by destruct Hok|]. intros t w' r F H. split; [done|]. exists t.
  destruct (next_claim t (db w)) as [j|] eqn:E.
  - left. destruct H as [-> Hd]. destruct (next_claim_first t (db w) j) as (Hj & Hc & Hmin); [by destruct Hok|done|].
    exists j, (log_of (db w) (ID j)). split.
    { rewrite abs_lookup, (find_job_In (ID j) _ j); [done|by destruct Hok|done..]. }
    split; [done|]. split; [|by rewrite Hd, abs_update].
    intros i [x lg] Hi Hx. apply abs_row in Hi as (_ & Hi & <-). by apply Hmin.
  - right. destruct H as [-> ->]. split; [|done]. intros i [x lg] Hi. apply abs_row in Hi as (_ & Hi & _).
    by apply (next_claim_nobody t (db w)).
Qed.

Lemma refines_MarkFailed (id : Z) (code msg : string) (next : option Z) :
  events_room (db w) -> refines (MFailed id code msg next).
Proof using Hnf.
  intros Hr. unfold refines. cbn [impl]. unfold MarkFailed. apply wp_bind, wp_now. intros t w1 Hd1 F1.
  apply wp_bind_err, wp_exec; [done|]. intros w2 Hd2 F2. apply wp_bind_err, wp_query_row; [done|].
  intros w3 Hd3 F3. assert (frame w w3) as F by (etrans; [exact F1|etrans; [exact F2|exact F3]]).
  assert (db w3 = update_where (has_id id) (failed_row code msg next t) (db w)) as Hd by (by rewrite Hd3, Hd2, Hd1).
  assert (abs (db w3) = alter (on_row (failed_row code msg next t)) id (abs (db w))) as Ha
    by (by rewrite Hd, abs_update).
  rewrite Hd2, Hd1, find_update_where by done. cbn [promised].
  destruct (find_job id (db w)) as [j|] eqn:E; cbn [fmap option_fmap option_map].
  - pose proof (find_job_Some _ _ _ E) as [_ Hid]. assert (has_id id j = true) as Hh by (unfold has_id; by rewrite Hid, Z.eqb_refl). rewrite Hh.
    assert (abs (db w) !! id = Some (j, log_of (db w) id)) as Hj by (by rewrite abs_lookup, E).
    assert (forall p : prog (res unit), p = match exhausted_message j with
                                            | Some m => AddEvent id "error" m ;; Ret (inr tt)
                                            | None => Ret (inr tt)
                                            end ->
      wp env p (fun w' r => frame w w' /\ promised (MFailed id code msg next) (abs (db w)) (abs (db w')) r) w3) as H.
    { intros p ->. destruct (exhausted_message j) as [m|] eqn:Em.
      - apply wp_bind, wp_AddEvent; [done|]. intros t' w4 Hd4 F4. apply wp_Ret. split; [by etrans|].
        exists t, t'. rewrite Hj, Em. split; [done|]. rewrite Hd4.
        rewrite (insert_event_ok _ _ _ _ _ (failed_row code msg next t j)); [cbn [fst]; by rewrite abs_event, Ha| |].
        + rewrite Hd, find_update_where, E by done. cbn. by rewrite Hh.
        + by rewrite Hd.
      - apply wp_Ret. split; [done|]. exists t, t. by rewrite Hj, Em, Ha. }
    apply H. transitivity (if (0 <? MaxAttempts j)%Z && (MaxAttempts j <=? Attempts j + 1)%Z then
      AddEvent id "error" ((if (MaxAttempts j <? Attempts j + 1)%Z then "attempts exceeded max ("
                            else "max attempts reached (") ++ Itoa (MaxAttempts j) ++ "); no further retries") ;;
      Ret (inr tt)
      else Ret (inr tt : res unit)).
    + by destruct (MaxAttempts j <? Attempts j + 1)%Z eqn:E2; cbn; rewrite E2.
    + unfold exhausted_message. by destruct (_ && _).
  - split; [done|]. exists t, t. rewrite abs_lookup, E. cbn. split; [done|].
    rewrite Ha. apply map_eq. intros i. destruct (decide (i = id)) as [->|Hi]; [|by rewrite lookup_alter_ne].
    by rewrite lookup_alter_eq, abs_lookup, E.
Qed.

Lemma refines_ClearCompleted : refines MClearCompleted.
Proof using Hnf.
  apply wp_bind, wp_now. intros t w1 Hd1 F1. apply wp_exec; [done|]. intros w' Hd F. split; [by etrans|].
  exists t. split; [done|]. rewrite Hd, Hd1. by apply abs_update_all.
Qed.

Lemma refines_ClearAll : refines MClearAll.
Proof using Hnf.
  unfold refines, wp. cbn [impl]. unfold ClearAll, clear_all_tx.
  do 6 (unfold handle, act; cbn; rewrite ?Hnf; cbn). done.
Qed.
End Refines.

(** C9. The store is a map from ids to jobs with their logs.  On every well-formed database
    with room for one more row, when no statement fails, each of the store's methods ends,
    touches nothing but the tables, and does what its counterpart on the map promises: creating
    binds a fresh id above every other to the new row and an empty log, every update changes
    exactly the columns it names of exactly its row, if that is there, and no log, an event
    is added to its job's log only, the lists are exactly the rows they are to select in
    their order, claiming takes the least job that may be claimed, and a purge leaves the
    empty map. *)
Theorem store_refines (roots : list string) (env : Env) (w : World) (X : Type) (m : method X)
  (Hnf : no_faults env) (Hok : DbOk roots (db w)) (Hj : jobs_room (db w)) (He : events_room (db w)) :
  wp env (impl m) (fun w' r => frame w w' /\ promised m (abs (db w)) (abs (db w')) r) w.
Proof.
  destruct m.
  - by eapply refines_CreateJob.
  - by apply refines_GetJob.
  - by eapply refines_ListJobs.
  - by eapply refines_ListPending.
  - by apply refines_AddEvent.
  - by eapply refines_ListEvents.
  - by eapply refines_ListRetryableFailed.
  - by eapply refines_Claim.
  - by apply refines_change.
  - by apply refines_MarkFailed.
  - by apply refines_ClearCompleted.
  - by apply refines_ClearAll.
Qed.

(** ** Witness *)

(** Job 1 is queued and is paused: its row changes and its log stays. *)
Definition one_job : Db :=
  mkDb [new_row "https://host/f" "" "/data/tv" "" None 3 100 1] [mkEvent 1 1 "info" "queued" 100] 1 1.

Lemma one_job_ok : DbOk ["/data/tv"] one_job.
Proof.
  split; cbn [jobs events seq_jobs seq_events one_job map].
  - repeat constructor.
  - apply Forall_singleton. split; cbn; try done; try lia; [known_status|by vm_compute..].
  - repeat constructor.
  - apply Forall_singleton. left.
  - lia.
  - lia.
Qed.

Lemma store_refines_witness :
  wp (calm_env 200) (MarkPaused 1) (fun w' r => exists j, Status j = StatusPaused
    /\ abs (db w') !! 1%Z = Some (j, [(100%Z, "info", "queued")])) (sample_world one_job).
Proof.
  eapply wp_mono; [|exact (store_refines ["/data/tv"] (calm_env 200) (sample_world one_job) unit (MChange 1 Paused)
                             (fun _ => eq_refl) one_job_ok ltac:(room) ltac:(room))].
  intros w' r (_ & t & _ & E). rewrite E. rewrite lookup_alter_eq, abs_lookup. eexists. split; [|reflexivity]. reflexivity.
Defined.
