(* ===== verification/Archive.v ===== *)
(** * internal/queue/archive_decryptor.go: extracting downloaded archives

    Which files are archives, which volume of a multipart set is opened, which parts belong
    to one set, how the extraction tool is called and when [unar] is tried after it.  A slice
    taken at an offset computed on the lower-cased name can be out of range when lower-casing
    changed the length; the functions that take one return [None] for that panic. *)

From S2P Require Import Prelude GoStrings GoPath GoError Schema Files Effects.

#[local] Open Scope string_scope.

(** ** The interface the runner uses *)

(** [MaybeDecrypt archivePath outDir overridePassword]: was an extraction attempted, and its
    error.  It works on files and child processes only. *)
Record ArchiveDecryptor : Type := mkArchiveDecryptor {
  archive_MaybeDecrypt : string -> string -> string -> prog (bool * option error);
  archive_quiet : forall a o p, quiet (archive_MaybeDecrypt a o p)
}.

Record commandArchiveDecryptor : Type := mkCommandArchiveDecryptor { command : string }.

Section Archive.
Context `{UC : Unicode}.

Definition archiveExtensions : list string :=
  [".zip"; ".7z"; ".rar"; ".tar"; ".tar.gz"; ".tgz"; ".tar.bz2"; ".tbz2"; ".tar.xz"; ".txz";
   ".gz"; ".bz2"; ".xz"].

Definition isArchiveFile (path : string) : bool :=
  let name := ToLower (Base (TrimSpace path)) in
  existsb (HasSuffix name) archiveExtensions.

Definition archiveToolKind (command : string) : string :=
  let base := ToLower (Base (TrimSpace command)) in
  if String.eqb base "unar" then "unar" else "7z".

Definition archiveCommandArgs (command archivePath outDir password : string) : list string :=
  if String.eqb (archiveToolKind command) "unar" then
    (["-f"; "-o"; outDir]
     ++ (if negb (String.eqb (TrimSpace password) "") then ["-p"; password] else [])
     ++ [archivePath])%list
  else
    (["x"; "-y"; "-aoa"; String.append "-o" outDir]
     ++ (if negb (String.eqb (TrimSpace password) "") then [String.append "-p" password] else [])
     ++ [archivePath])%list.

Definition runArchiveTool (command archivePath outDir password : string)
  : prog (string * option error) :=
  out <- call (RunTool command (archiveCommandArgs command archivePath outDir password)) ;;
  Ret (TrimSpace (fst out), snd out).

(** [errors.As(err, &execErr)]: the first [*exec.Error] of the chain, by its Err field. *)
Fixpoint as_exec_error (e : error) : option error :=
  match e with
  | EExec _ inner => Some inner
  | EWrap _ inner => as_exec_error inner
  | _ => None
  end.

Definition isCommandNotFound (err : option error) : bool :=
  match err with
  | None => false
  | Some e =>
      match as_exec_error e with
      | Some inner => errors_Is inner ErrExecNotFound
      | None => false
      end
  end.

Definition shouldTryUnarFallback (command archivePath output : string) (runErr : option error)
  : bool :=
  if String.eqb (archiveToolKind command) "unar" then false
  else if isCommandNotFound runErr then true
  else
    let name := ToLower (TrimSpace archivePath) in
    if negb (HasSuffix name ".rar") then false
    else
      let lower := ToLower output in
      Contains lower "cannot open the file as archive"
      || Contains lower "can't open as archive"
      || Contains lower "unsupported method".

Definition isAllDigits (s : string) : bool :=
  if String.eqb s "" then false else string_forallb is_digit s.

(** ** Multipart sets *)

(** [path] ends in ".rN" style: [lower] has "." and "r" before its last two bytes.  The two
    byte reads are out of range when [lower] is shorter than four bytes. *)
Definition is_old_style (base lower : string) : option bool :=
  if negb (4 <? len base)%Z then Some false
  else
    dot ← byte_at lower (len lower - 4);
    if negb (Ascii.eqb dot ".") then Some false
    else
      r ← byte_at lower (len lower - 3);
      Some (Ascii.eqb r "r").

(** The stem of a ".rar" name. *)
Definition rar_stem (base : string) : option string :=
  suffix ← slice_from base (len base - 4);
  Some (TrimSuffix base suffix).

(** The stem cut at its last ".part": what is before, and the text after it. *)
Definition part_split (stem : string) : option (option (string * string)) :=
  match LastIndex (ToLower stem) ".part" with
  | Some idx =>
      numPart ← slice_from stem (Z.of_nat idx + 5);
      prefix ← slice_to stem (Z.of_nat idx);
      Some (Some (prefix, numPart))
  | None => Some None
  end.

Definition multipartArchiveFirstVolume (path : string) : option string :=
  let clean := TrimSpace path in
  if String.eqb clean "" then Some clean
  else
    let dir := Dir clean in
    let base := Base clean in
    let lower := ToLower base in
    if HasSuffix lower ".rar" then
      stem ← rar_stem base;
      part ← part_split stem;
      match part with
      | Some (prefix, numPart) =>
          if negb (String.eqb numPart "") && isAllDigits numPart then
            match Atoi numPart with
            | (num, None) =>
                if (1 <? num)%Z then
                  let firstNum := if (1 <? len numPart)%Z then sprintf_pad (len numPart) 1 else "1" in
                  Some (path_Join2 dir (prefix ++ ".part" ++ firstNum ++ ".rar"))
                else Some clean
            | (_, Some _) => Some clean
            end
          else Some clean
      | None => Some clean
      end
    else
      old ← is_old_style base lower;
      if (old : bool) then
        extDigits ← slice_from lower (len lower - 2);
        if isAllDigits extDigits then
          match Atoi extDigits with
          | (num, None) =>
              if (0 <=? num)%Z then
                stem ← slice_to base (len base - 4);
                Some (path_Join2 dir (stem ++ ".rar"))
              else Some clean
          | (_, Some _) => Some clean
          end
        else Some clean
      else Some clean.

(** The key of the set a path belongs to ("" for none), and whether the name itself says
    that it is a part. *)
Definition multipartArchiveGroupKey (path : string) : option (string * bool) :=
  let clean := TrimSpace path in
  if String.eqb clean "" then Some ("", false)
  else
    let dir := ToLower (Clean (Dir clean)) in
    let base := Base clean in
    let lower := ToLower base in
    if HasSuffix lower ".rar" then
      stem ← rar_stem base;
      part ← part_split stem;
      let rstyle := (dir ++ "|rstyle|" ++ ToLower stem, false) in
      match part with
      | Some (prefix, numPart) =>
          if negb (String.eqb numPart "") && isAllDigits numPart
          then Some (dir ++ "|partrar|" ++ ToLower prefix, true)
          else Some rstyle
      | None => Some rstyle
      end
    else
      old ← is_old_style base lower;
      if (old : bool) then
        extDigits ← slice_from lower (len lower - 2);
        if isAllDigits extDigits then
          stem ← slice_to base (len base - 4);
          Some (dir ++ "|rstyle|" ++ ToLower stem, true)
        else Some ("", false)
      else Some ("", false).

(** ** Extraction *)

Definition resolveArchiveEntryPath (archivePath : string) : prog string :=
  let clean := TrimSpace archivePath in
  if String.eqb clean "" then Ret clean
  else
    candidate <- or_panic (multipartArchiveFirstVolume clean) ;;
    if String.eqb candidate clean then Ret clean
    else
      st <- call (OsStat candidate) ;;
      match st with
      | inr _ => Ret candidate
      | inl _ => Ret clean
      end.

Definition decrypt_failed (out : string) (err : error) : error :=
  ENew ("archive decrypt command failed: " ++ if String.eqb out "" then error_text err else out).

Definition MaybeDecrypt (d : option commandArchiveDecryptor)
    (archivePath outDir overridePassword : string) : prog (bool * option error) :=
  match d with
  | None => Ret (false, None)
  | Some d =>
      resolvedArchivePath <- resolveArchiveEntryPath archivePath ;;
      if negb (isArchiveFile resolvedArchivePath) then Ret (false, None)
      else
        let command := TrimSpace (command d) in
        let command := if String.eqb command "" then "7zz" else command in
        let password := TrimSpace overridePassword in
        ran <- runArchiveTool command resolvedArchivePath outDir password ;;
        match ran with
        | (_, None) => Ret (true, None)
        | (out, Some err) =>
            if shouldTryUnarFallback command resolvedArchivePath out (Some err) then
              look <- call (LookPath "unar") ;;
              match look with
              | inl _ => Ret (true, Some (decrypt_failed out err))
              | inr _ =>
                  fallback <- runArchiveTool "unar" resolvedArchivePath outDir password ;;
                  match fallback with
                  | (_, None) => Ret (true, None)
                  | (fallbackOut, Some fallbackErr) =>
                      let fallbackOut :=
                        if String.eqb fallbackOut "" then error_text fallbackErr else fallbackOut in
                      let out :=
                        if negb (String.eqb out "")
                        then out ++ nl ++ "--- unar fallback failed ---" ++ nl ++ fallbackOut
                        else fallbackOut in
                      Ret (true, Some (decrypt_failed out err))
                  end
              end
            else Ret (true, Some (decrypt_failed out err))
        end
  end.

(** ** The volumes of a multipart set *)

Lemma digits_ascii (d : string) : string_forallb is_digit d = true -> is_ascii d = true.
Proof.
  unfold is_ascii. induction d as [|c d IH]; [done|]. cbn [string_forallb]. intros H. bool_prop.
  rewrite IH by done. rewrite andb_true_r. unfold is_digit, is_ascii_byte in *. bool_prop.
  apply Z.ltb_lt. lia.
Qed.

Lemma digits_no_char (d : string) (c : ascii) :
  string_forallb is_digit d = true -> is_digit c = false -> contains_char d c = false.
Proof.
  intros Hd Hc. induction d as [|a d IH]; [done|]. cbn [string_forallb] in Hd. bool_prop.
  unfold contains_char. cbn [string_existsb]. apply orb_false_iff. split; [|by apply IH].
  destruct (Ascii.eqb c a) eqn:E; [|done]. bool_prop. congruence.
Qed.

Lemma digits_lower (d : string) : string_forallb is_digit d = true -> ascii_lower d = d.
Proof.
  induction d as [|c d IH]; [done|]. cbn [string_forallb]. intros Hd. bool_prop.
  unfold ascii_lower in *. cbn [string_map]. rewrite IH by done. f_equal.
  unfold lower_byte, is_upper. unfold is_digit in *. bool_prop.
  destruct (_ && _) eqn:E; [bool_prop; lia|done].
Qed.

Lemma isAllDigits_iff (d : string) :
  isAllDigits d = true <-> d <> "" /\ string_forallb is_digit d = true.
Proof.
  unfold isAllDigits. destruct (String.eqb d "") eqn:E; bool_prop; [|by split; [|intros []]].
  split; [done|]. by intros [? _].
Qed.

(** The name of a part: [prefix.partD.rar]. *)
Definition part_name (p d : string) : string := p ++ ".part" ++ d ++ ".rar".

(** A prefix and a part number for which the name is one path element. *)
Record part_ok (p d : string) : Prop := {
  part_ascii : is_ascii p = true;
  part_noslash : contains_char p char_slash = false;
  part_digits : isAllDigits d = true
}.

Lemma part_name_proper (p d : string) : part_ok p d -> proper_elem (part_name p d).
Proof.
  intros [H1 H2 H3]. apply isAllDigits_iff in H3 as [_ H3]. unfold part_name.
  assert (contains_char d char_slash = false) as Hd by by apply digits_no_char.
  repeat split.
  - by destruct p.
  - by destruct p as [|c [|c2 p]].
  - by destruct p as [|c [|c2 [|c3 p]]].
  - rewrite !contains_char_app, H2, Hd. done.
Qed.

Lemma part_stem (p d : string) : rar_stem (part_name p d) = Some (p ++ ".part" ++ d).
Proof.
  unfold rar_stem, part_name. change (p ++ ".part" ++ d ++ ".rar") with (p ++ ".part" ++ (d ++ ".rar")).
  rewrite (str_app_assoc ".part"), (str_app_assoc p).
  rewrite (slice_from_app _ ".rar") by (rewrite len_app; change (len ".rar") with 4%Z; lia).
  simpl. by rewrite TrimSuffix_app.
Qed.

Lemma part_split_name (p d : string) :
  part_ok p d -> part_split (p ++ ".part" ++ d) = Some (Some (p, d)).
Proof.
  intros [H1 H2 H3]. apply isAllDigits_iff in H3 as [_ H3]. unfold part_split.
  assert (is_ascii d = true) as Hda by by apply digits_ascii.
  rewrite !ToLower_app by done.
  rewrite (ToLower_ascii d), digits_lower by done.
  change (ToLower ".part" ++ d) with (String "." ("part" ++ d)).
  change ".part" with (String "." "part"). rewrite LastIndex_last.
  - rewrite (ToLower_ascii p), ascii_lower_length by done.
    rewrite str_app_assoc. rewrite slice_from_app by (rewrite len_app; done). simpl.
    by rewrite <- str_app_assoc, slice_to_app.
  - rewrite contains_char_app. apply orb_false_iff. split; [done|]. by apply digits_no_char.
  - apply HasPrefix_iff. by exists d.
Qed.

Lemma part_lower_suffix (p d : string) :
  part_ok p d -> HasSuffix (ToLower (part_name p d)) ".rar" = true.
Proof.
  intros [H1 H2 H3]. apply isAllDigits_iff in H3 as [_ H3]. unfold part_name.
  assert (is_ascii d = true) as Hda by by apply digits_ascii.
  rewrite !str_app_assoc, ToLower_app.
  - apply HasSuffix_app.
  - by rewrite !is_ascii_app, H1, Hda.
  - done.
Qed.

Lemma TrimSpace_Join2 (dir n : string) (b : ascii) :
  IsAbs dir = true -> proper_elem (n ++ String b "") ->
  is_ascii_byte b = true -> space1 b = false ->
  TrimSpace (path_Join2 dir (n ++ String b "")) = path_Join2 dir (n ++ String b "").
Proof.
  intros Hd Hn Hb1 Hb2. rewrite path_Join2_shape by done.
  change (String char_slash (n ++ String b "")) with (String char_slash n ++ String b "").
  rewrite str_app_assoc. unfold rooted. destruct (clean_list dir) as [|x l]; by apply TrimSpace_id.
Qed.

Lemma part_path_trimmed (dir p d : string) :
  IsAbs dir = true -> part_ok p d ->
  TrimSpace (path_Join2 dir (part_name p d)) = path_Join2 dir (part_name p d).
Proof.
  intros Hd Hp. pose proof (part_name_proper p d Hp) as Hpr. unfold part_name in *.
  change ".rar" with (".ra" ++ String "r" "") in *. rewrite !str_app_assoc in *.
  by apply TrimSpace_Join2.
Qed.

Lemma path_Join2_nonempty (dir name : string) :
  IsAbs dir = true -> proper_elem name -> String.eqb (path_Join2 dir name) "" = false.
Proof.
  intros Hd Hn. rewrite path_Join2_shape by done. unfold rooted. by destruct (clean_list dir).
Qed.

Lemma Atoi_padded (n : nat) : Atoi (repeat_char n "0" ++ "1") = (1%Z, None).
Proof.
  unfold Atoi, ParseInt, ParseUint.
  assert (forall k, parse_uint_from 0 (repeat_char k "0" ++ "1") = (1%Z, None)) as Hk.
  { induction k as [|k IH]; [done|exact IH]. }
  destruct n as [|n]; [done|]. cbn [repeat_char String.append].
  change (String "0" (repeat_char n "0" ++ "1")) with (repeat_char (S n) "0" ++ "1").
  change (Ascii.eqb "0" "-" || Ascii.eqb "0" "+") with false. cbn iota.
  change (match repeat_char (S n) "0" ++ "1" with "" => (0%Z, Some ErrSyntax)
          | String _ _ => parse_uint_from 0 (repeat_char (S n) "0" ++ "1") end)
    with (parse_uint_from 0 (repeat_char (S n) "0" ++ "1")).
  by rewrite Hk.
Qed.

Lemma padded_digits (n : nat) : isAllDigits (repeat_char n "0" ++ "1") = true.
Proof.
  apply isAllDigits_iff. split; [by destruct n|]. induction n as [|n IH]; [done|exact IH].
Qed.

Lemma repeat_char_length (n : nat) (c : ascii) : String.length (repeat_char n c) = n.
Proof. induction n; simpl; congruence. Qed.

Lemma part_key (dir p d : string) :
  IsAbs dir = true -> part_ok p d ->
  multipartArchiveGroupKey (path_Join2 dir (part_name p d))
  = Some (ToLower (Clean dir) ++ "|partrar|" ++ ToLower p, true).
Proof.
  intros Hd Hp. pose proof (part_name_proper p d Hp) as Hn. unfold multipartArchiveGroupKey.
  rewrite part_path_trimmed, path_Join2_nonempty, Base_Join2, Dir_Join2 by done.
  rewrite part_lower_suffix by done. rewrite part_stem. cbn [mbind option_bind].
  rewrite part_split_name by done. cbn [mbind option_bind].
  destruct Hp as [_ _ Hdig]. rewrite Hdig. apply isAllDigits_iff in Hdig as [Hne _].
  apply String.eqb_neq in Hne. rewrite Hne. cbn [negb andb]. by rewrite Clean_idem_abs.
Qed.

(** The part number of the volume that is opened for part number [d]. *)
Definition first_num (d : string) : string :=
  match Atoi d with
  | (num, None) => if (1 <? num)%Z then repeat_char (String.length d - 1) "0" ++ "1" else d
  | (_, Some _) => d
  end.

Lemma first_num_ok (p d : string) : part_ok p d -> part_ok p (first_num d).
Proof.
  intros Hp. constructor; [apply Hp|apply Hp|]. unfold first_num.
  destruct (Atoi d) as [num [er|]]; [apply Hp|]. destruct (1 <? num)%Z; [|apply Hp].
  apply padded_digits.
Qed.

Lemma first_num_length (p d : string) :
  part_ok p d -> String.length (first_num d) = String.length d.
Proof.
  intros Hp. pose proof (part_digits _ _ Hp) as Hd. apply isAllDigits_iff in Hd as [Hd _].
  unfold first_num. destruct (Atoi d) as [num [er|]]; [done|]. destruct (1 <? num)%Z; [|done].
  rewrite str_length_app, repeat_char_length. destruct d; [done|]. simpl. lia.
Qed.

Lemma first_num_idem (d : string) : first_num (first_num d) = first_num d.
Proof.
  unfold first_num at 2 3. destruct (Atoi d) as [num [er|]] eqn:E.
  - unfold first_num. by rewrite E.
  - destruct (1 <? num)%Z eqn:E1; unfold first_num; [by rewrite Atoi_padded|by rewrite E, E1].
Qed.

Lemma sprintf_first (d : string) :
  d <> "" -> (len d <= 1000000)%Z ->
  (if (1 <? len d)%Z then sprintf_pad (len d) 1 else "1") = repeat_char (String.length d - 1) "0" ++ "1".
Proof.
  intros Hne Hl. unfold sprintf_pad, pad_zero, len in *.
  replace (1000000 <? _)%Z with false by (symmetry; apply Z.ltb_ge; lia).
  rewrite Nat2Z.id. change (String.length (Itoa 1)) with 1%nat. change (Itoa 1) with "1".
  destruct (1 <? _)%Z eqn:E; bool_prop; [done|].
  destruct d as [|c d]; [done|]. simpl in *. by replace (String.length d - 0)%nat with 0%nat by lia.
Qed.

Lemma part_first (dir p d : string) :
  IsAbs dir = true -> part_ok p d -> (len d <= 1000000)%Z ->
  multipartArchiveFirstVolume (path_Join2 dir (part_name p d))
  = Some (path_Join2 dir (part_name p (first_num d))).
Proof.
  intros Hd Hp Hl. pose proof (part_name_proper p d Hp) as Hn. unfold multipartArchiveFirstVolume.
  rewrite part_path_trimmed, path_Join2_nonempty, Base_Join2, Dir_Join2 by done.
  rewrite part_lower_suffix by done. rewrite part_stem. cbn [mbind option_bind].
  rewrite part_split_name by done. cbn [mbind option_bind].
  pose proof (part_digits _ _ Hp) as Hdig. rewrite Hdig. apply isAllDigits_iff in Hdig as [Hne Hds].
  pose proof (first_num_ok p d Hp) as Hp'. rewrite sprintf_first by done.
  apply String.eqb_neq in Hne. rewrite Hne. cbn [negb andb]. unfold first_num in *.
  destruct (Atoi d) as [num [er|]]; [done|]. destruct (1 <? num)%Z; [|done].
  f_equal. apply path_Join2_Clean; [done|]. exact (part_name_proper _ _ Hp').
Qed.

(** The volumes [prefix.partD.rar] of one directory form one set whatever the part
    number: they all get the same group key and all count as explicit parts; for every part
    the volume that is opened is one of the set with a number of the same width, is part 1
    when the part's number is above 1, and is its own first volume. *)
Theorem part_rar_set (dir p d : string) :
  IsAbs dir = true -> part_ok p d -> (len d <= 1000000)%Z ->
  let path x := path_Join2 dir (part_name p x) in
  multipartArchiveGroupKey (path d) = Some (ToLower (Clean dir) ++ "|partrar|" ++ ToLower p, true)
  /\ exists d1, multipartArchiveFirstVolume (path d) = Some (path d1)
      /\ multipartArchiveGroupKey (path d1) = multipartArchiveGroupKey (path d)
      /\ multipartArchiveFirstVolume (path d1) = Some (path d1)
      /\ len d1 = len d /\ (forall n, Atoi d = (n, None) -> (1 < n)%Z -> Atoi d1 = (1%Z, None)).
Proof.
  intros Hd Hp Hl path. split; [by apply part_key|]. exists (first_num d).
  pose proof (first_num_ok p d Hp) as Hp1.
  assert (len (first_num d) = len d) as Hlen by (unfold len; by rewrite (first_num_length p)).
  unfold path. rewrite !part_key by done. rewrite !part_first by (done || lia).
  rewrite first_num_idem. split_and!; try done.
  intros n Hn H1. unfold first_num. rewrite Hn. apply Z.ltb_lt in H1. rewrite H1. apply Atoi_padded.
Qed.

(** The name of an old-style volume, [stem.rNN]. *)
Definition old_name (s n : string) : string := s ++ ".r" ++ n.

Record old_ok (s n : string) : Prop := {
  old_stem : s <> "";
  old_ascii : is_ascii s = true;
  old_noslash : contains_char s char_slash = false;
  old_digits : isAllDigits n = true;
  old_length : String.length n = 2%nat
}.

Lemma old_name_proper (s n : string) : old_ok s n -> proper_elem (old_name s n).
Proof.
  intros [H1 H2 H3 H4 H5]. apply isAllDigits_iff in H4 as [_ H4]. unfold old_name.
  assert (contains_char n char_slash = false) as Hd by by apply digits_no_char.
  repeat split.
  - by destruct s.
  - by destruct s as [|c [|c2 s]].
  - by destruct s as [|c [|c2 [|c3 s]]].
  - rewrite !contains_char_app, H3, Hd. done.
Qed.

Lemma rar_name_proper (s n : string) : old_ok s n -> proper_elem (s ++ ".rar").
Proof.
  intros [H1 H2 H3 H4 H5]. repeat split.
  - by destruct s.
  - by destruct s as [|c [|c2 s]].
  - by destruct s as [|c [|c2 [|c3 s]]].
  - by rewrite contains_char_app, H3.
Qed.

Lemma old_shape (s n : string) : old_ok s n ->
  exists a b, n = String a (String b "") /\ is_digit a = true /\ is_digit b = true
    /\ ToLower (old_name s n) = ToLower s ++ String "." (String "r" n).
Proof.
  intros [_ H2 _ H4 H5]. apply isAllDigits_iff in H4 as [_ H4].
  assert (is_ascii n = true) as Hna by by apply digits_ascii.
  unfold old_name. rewrite !ToLower_app by done. rewrite (ToLower_ascii n), digits_lower by done.
  destruct n as [|a [|b [|c n]]]; try done. cbn [string_forallb] in H4. bool_prop.
  by exists a, b.
Qed.

Lemma old_not_rar (s n : string) : old_ok s n -> HasSuffix (ToLower (old_name s n)) ".rar" = false.
Proof.
  intros Ho. destruct (old_shape s n Ho) as (a & b & -> & Ha & Hb & ->).
  change (String "." (String "r" (String a (String b "")))) with (String "." (String "r" (String a "")) ++ String b "").
  rewrite str_app_assoc. unfold HasSuffix. rewrite rev_str_app. change (rev_str ".rar") with "rar.".
  change (rev_str (String b "")) with (String b ""). cbn [String.append HasPrefix].
  destruct (Ascii.eqb "r" b) eqn:E; [|done]. bool_prop. by subst b.
Qed.

Lemma old_style (s n : string) : old_ok s n ->
  is_old_style (old_name s n) (ToLower (old_name s n)) = Some true
  /\ slice_from (ToLower (old_name s n)) (len (ToLower (old_name s n)) - 2) = Some n
  /\ slice_to (old_name s n) (len (old_name s n) - 4) = Some s.
Proof.
  intros Ho. destruct (old_shape s n Ho) as (a & b & Hn & Ha & Hb & ->).
  pose proof (old_stem _ _ Ho) as Hne. unfold is_old_style.
  assert (len n = 2%Z) as Hl2 by by rewrite Hn.
  assert (len (old_name s n) = len s + 4)%Z as Hlen.
  { unfold old_name. rewrite !len_app, Hl2. change (len ".r") with 2%Z. lia. }
  assert (0 < len s)%Z by (destruct s; [done|]; unfold len; cbn [String.length]; lia).
  replace (4 <? len (old_name s n))%Z with true by (symmetry; apply Z.ltb_lt; lia).
  assert (len (ToLower s ++ String "." (String "r" n)) = len (ToLower s) + 4)%Z as Hlen2.
  { rewrite len_app. unfold len in *. simpl. lia. }
  rewrite Hlen2, (byte_at_app (ToLower s) "." _ (len (ToLower s) + 4 - 4)) by lia. split_and!.
  - cbn [negb mbind option_bind Ascii.eqb]. change (String "." (String "r" n)) with ("." ++ String "r" n).
    rewrite str_app_assoc, byte_at_app; [done|]. rewrite len_app. change (len ".") with 1%Z. lia.
  - change (String "." (String "r" n)) with (".r" ++ n). rewrite str_app_assoc. apply slice_from_app.
    rewrite len_app. change (len ".r") with 2%Z. lia.
  - unfold old_name. apply slice_to_app. unfold old_name in Hlen. lia.
Qed.

Lemma digit_not_space (b : ascii) :
  is_digit b = true -> is_ascii_byte b = true /\ space1 b = false.
Proof.
  unfold is_digit, is_ascii_byte, space1. intros Hb. bool_prop. split; [apply Z.ltb_lt; lia|].
  cbn zeta. apply orb_false_iff. split; [|apply Z.eqb_neq; lia].
  apply andb_false_iff. right. apply Z.leb_gt. lia.
Qed.

Lemma old_path_trimmed (dir s n : string) :
  IsAbs dir = true -> old_ok s n ->
  TrimSpace (path_Join2 dir (old_name s n)) = path_Join2 dir (old_name s n)
  /\ TrimSpace (path_Join2 dir (s ++ ".rar")) = path_Join2 dir (s ++ ".rar").
Proof.
  intros Hd Ho. pose proof (old_name_proper s n Ho) as Hp. pose proof (rar_name_proper s n Ho) as Hq.
  destruct (old_shape s n Ho) as (a & b & -> & Ha & Hb & _). unfold old_name in *. split.
  - change (String a (String b "")) with (String a "" ++ String b "") in *.
    rewrite !str_app_assoc in *. by apply TrimSpace_Join2; [..|apply digit_not_space|apply digit_not_space].
  - change ".rar" with (".ra" ++ String "r" "") in *. rewrite !str_app_assoc in *. by apply TrimSpace_Join2.
Qed.

Lemma is_digit_cases (c : ascii) :
  is_digit c = true -> In c ["0"; "1"; "2"; "3"; "4"; "5"; "6"; "7"; "8"; "9"]%char.
Proof. destruct c as [[] [] [] [] [] [] [] []]; intros H; try discriminate H; vm_compute; tauto. Qed.

Lemma Atoi_two_digits (a b : ascii) :
  is_digit a = true -> is_digit b = true ->
  exists v, Atoi (String a (String b "")) = (v, None) /\ (0 <= v)%Z.
Proof.
  intros Ha Hb. apply is_digit_cases in Ha, Hb.
  assert (forallb (fun x => forallb (fun y =>
            match Atoi (String x (String y "")) with (v, None) => (0 <=? v)%Z | _ => false end)
            ["0"; "1"; "2"; "3"; "4"; "5"; "6"; "7"; "8"; "9"]%char)
            ["0"; "1"; "2"; "3"; "4"; "5"; "6"; "7"; "8"; "9"]%char = true) as Hall
    by (vm_compute; reflexivity).
  rewrite forallb_forall in Hall. specialize (Hall a Ha). rewrite forallb_forall in Hall.
  specialize (Hall b Hb). destruct (Atoi _) as [v [e|]]; [done|]. exists v. by bool_prop.
Qed.

(** The old-style volumes [stem.rNN] of one directory belong to one set, the one of
    [stem.rar], which is the volume opened for each of them and for itself.  The last is not
    named as a part: it only joins the set when a sibling shows up. *)
Theorem old_style_set (dir s n : string) :
  IsAbs dir = true -> old_ok s n -> LastIndex (ToLower s) ".part" = None ->
  let key := ToLower (Clean dir) ++ "|rstyle|" ++ ToLower s in
  multipartArchiveGroupKey (path_Join2 dir (old_name s n)) = Some (key, true)
  /\ multipartArchiveFirstVolume (path_Join2 dir (old_name s n)) = Some (path_Join2 dir (s ++ ".rar"))
  /\ multipartArchiveGroupKey (path_Join2 dir (s ++ ".rar")) = Some (key, false)
  /\ multipartArchiveFirstVolume (path_Join2 dir (s ++ ".rar")) = Some (path_Join2 dir (s ++ ".rar")).
Proof.
  intros Hd Ho Hpart key. pose proof (old_name_proper s n Ho) as Hp.
  pose proof (rar_name_proper s n Ho) as Hq. destruct (old_path_trimmed dir s n Hd Ho) as [Ht1 Ht2].
  destruct (old_style s n Ho) as (Hs1 & Hs2 & Hs3).
  unfold multipartArchiveGroupKey, multipartArchiveFirstVolume.
  rewrite Ht1, Ht2, !path_Join2_nonempty, !Base_Join2, !Dir_Join2 by done.
  rewrite old_not_rar, Hs1 by done. cbn [mbind option_bind]. rewrite Hs2. cbn [mbind option_bind].
  rewrite Hs3, (old_digits _ _ Ho). cbn [mbind option_bind]. rewrite Clean_idem_abs by done.
  assert (HasSuffix (ToLower (s ++ ".rar")) ".rar" = true) as ->.
  { rewrite ToLower_app; [apply HasSuffix_app|apply Ho|done]. }
  assert (rar_stem (s ++ ".rar") = Some s) as ->.
  { unfold rar_stem. rewrite slice_from_app by (rewrite len_app; change (len ".rar") with 4%Z; lia).
    simpl. by rewrite TrimSuffix_app. }
  cbn [mbind option_bind]. unfold part_split. rewrite Hpart. cbn [mbind option_bind].
  split; [done|]. split; [|done].
  destruct (old_shape s n Ho) as (a & b & -> & Ha & Hb & _).
  destruct (Atoi_two_digits a b Ha Hb) as (v & -> & Hv). apply Z.leb_le in Hv. rewrite Hv.
  f_equal. by apply path_Join2_Clean.
Qed.

(** ** When the slices are in range *)

Lemma rar_stem_total (base : string) :
  is_ascii base = true -> HasSuffix (ToLower base) ".rar" = true ->
  exists stem, rar_stem base = Some stem /\ is_ascii stem = true.
Proof.
  intros Ha Hs. assert (4 <= len base)%Z as Hl.
  { rewrite <- len_lower by done. apply HasSuffix_iff in Hs as [r ->]. rewrite len_app.
    change (len ".rar") with 4%Z. unfold len. lia. }
  unfold rar_stem. destruct (slice_from_in base (len base - 4)) as (t & -> & _); [lia|].
  cbn [mbind option_bind]. eexists. split; [done|].
  destruct (TrimSuffix_prefix base t) as [r Hr]. rewrite Hr, is_ascii_app in Ha. by bool_prop.
Qed.

Lemma part_split_total (stem : string) :
  is_ascii stem = true -> exists x, part_split stem = Some x.
Proof.
  intros Ha. unfold part_split. destruct (LastIndex _ _) as [i|] eqn:E; [|by eexists].
  apply LastIndex_bound in E. change (String.length ".part") with 5%nat in E.
  rewrite ToLower_ascii, ascii_lower_length in E by done.
  destruct (slice_from_in stem (Z.of_nat i + 5)) as (t & -> & _); [unfold len; lia|].
  destruct (slice_to_in stem (Z.of_nat i)) as (t2 & ->); [unfold len; lia|]. by eexists.
Qed.

Lemma is_old_style_total (base : string) :
  is_ascii base = true ->
  exists x, is_old_style base (ToLower base) = Some x /\ (x = true -> (4 < len base)%Z).
Proof.
  intros Ha. unfold is_old_style. destruct (4 <? len base)%Z eqn:E; cbn [negb]; [|by eexists].
  bool_prop. rewrite len_lower by done.
  destruct (byte_at_in (ToLower base) (len base - 4)) as [c ->]; [rewrite len_lower by done; lia|].
  cbn [mbind option_bind]. destruct (negb _); [by eexists|].
  destruct (byte_at_in (ToLower base) (len base - 3)) as [d ->]; [rewrite len_lower by done; lia|].
  by eexists.
Qed.

(** For a file whose base name is ASCII, choosing the first volume and computing the
    group key never slice out of range. *)
Theorem multipart_ascii_total (path : string) :
  is_ascii (Base (TrimSpace path)) = true ->
  (exists f, multipartArchiveFirstVolume path = Some f)
  /\ exists k, multipartArchiveGroupKey path = Some k.
Proof.
  intros Ha. unfold multipartArchiveFirstVolume, multipartArchiveGroupKey.
  destruct (String.eqb _ ""); [by split; eexists|]. set (base := Base _) in *.
  destruct (HasSuffix (ToLower base) ".rar") eqn:Er.
  - destruct (rar_stem_total base Ha Er) as (stem & -> & Hs). cbn [mbind option_bind].
    destruct (part_split_total stem Hs) as ([[pre num]|] & ->); cbn [mbind option_bind];
      [|by split; eexists].
    destruct (_ && _); [|by split; eexists]. split; [|by eexists].
    destruct (Atoi num) as [n [e|]]; [by eexists|]. destruct (1 <? n)%Z; by eexists.
  - destruct (is_old_style_total base Ha) as ([|] & -> & Hlen); cbn [mbind option_bind];
      [|by split; eexists]. specialize (Hlen eq_refl).
    destruct (slice_from_in (ToLower base) (len (ToLower base) - 2)) as (t & -> & _);
      [rewrite len_lower by done; lia|]. cbn [mbind option_bind].
    destruct (slice_to_in base (len base - 4)) as (u & ->); [lia|]. cbn [mbind option_bind].
    destruct (isAllDigits t); [|by split; eexists]. split; [|by eexists].
    destruct (Atoi t) as [n [e|]]; [by eexists|]. destruct (0 <=? n)%Z; by eexists.
Qed.

(** The name of three capital letters I with dot above (U+0130, bytes C4 B0), which package
    unicode lower-cases to three ASCII letters i. *)
Definition dotted_I : string := String (ascii_of_N 196) (String (ascii_of_N 176) "").

Definition dotted_name : string := dotted_I ++ dotted_I ++ dotted_I.

Lemma dotted_lower :
  unicode_lower dotted_name = "iii" -> ToLower dotted_name = "iii".
Proof. intros Hu. unfold ToLower. by change (is_ascii dotted_name) with false. Qed.

(** A file named with three letters U+0130 makes both functions index out of range:
    the base name is longer than four bytes, its lower-case form is not, and the code reads
    the byte four from the end of the second after testing the length of the first. *)
Theorem multipart_panics :
  unicode_lower dotted_name = "iii" ->
  multipartArchiveFirstVolume ("/data/" ++ dotted_name) = None
  /\ multipartArchiveGroupKey ("/data/" ++ dotted_name) = None.
Proof.
  intros Hu. apply dotted_lower in Hu.
  assert (TrimSpace ("/data/" ++ dotted_name) = "/data/" ++ dotted_name) as Ht by by vm_compute.
  assert (Base ("/data/" ++ dotted_name) = dotted_name) as Hb by by vm_compute.
  assert (Dir ("/data/" ++ dotted_name) = "/data") as Hd by by vm_compute.
  unfold multipartArchiveFirstVolume, multipartArchiveGroupKey. rewrite Ht, Hb, Hd, Hu.
  split; by vm_compute.
Qed.

(** ** What an extraction reports *)

(** C35. Extracting the resolved file [p] of a path: a file that is no archive is left alone
    without an error; otherwise an extraction counts as attempted, and it succeeds exactly
    when 7zz does, or when 7zz failed in a way [shouldTryUnarFallback] accepts and [unar]
    is installed and succeeds.  The tools get the trimmed password. *)
Theorem MaybeDecrypt_spec (env : Env) (w w1 : World) (path out pw p : string) :
  run env (resolveArchiveEntryPath path) w = (w1, Some p) ->
  let n := clock w1 in
  let first := tool_at env n "7zz" (archiveCommandArgs "7zz" p out (TrimSpace pw)) in
  let second := tool_at env (S (S n)) "unar" (archiveCommandArgs "unar" p out (TrimSpace pw)) in
  exists err,
    snd (run env (MaybeDecrypt (Some (mkCommandArchiveDecryptor "7zz")) path out pw) w)
    = Some (isArchiveFile p, err)
    /\ (err = None <->
         isArchiveFile p = false \/ snd first = None
         \/ (shouldTryUnarFallback "7zz" p (TrimSpace (fst first)) (snd first) = true
             /\ is_ok (lookpath_at env (S n) "unar") = true /\ snd second = None)).
Proof.
  intros Hr n first second. unfold MaybeDecrypt. rewrite run_bind, Hr. cbn [command].
  change (TrimSpace "7zz") with "7zz". change (String.eqb "7zz" "") with false. cbn iota.
  destruct (isArchiveFile p) eqn:Ea; cbn [negb]; [|exists None; split; [done|split; auto]].
  unfold runArchiveTool. cbn. fold n first. destruct first as [o1 [e1|]]; cbn; [|exists None; split; [done|split; auto]].
  destruct (shouldTryUnarFallback _ _ _ _); cbn.
  - fold n. destruct (lookpath_at env (S n) "unar"); cbn.
    + eexists. split; [done|]. split; [done|]. by intros [?|[?|(_ & ? & _)]].
    + fold n second. destruct second as [o2 [e2|]]; cbn; [|exists None; split; [done|split; auto 10]].
      eexists. split; [done|]. split; [done|]. by intros [?|[?|(_ & _ & ?)]].
  - eexists. split; [done|]. split; [done|]. by intros [?|[?|(? & _)]].
Qed.

(** ** The implementation meets the runner's interface *)

Lemma resolveArchiveEntryPath_quiet (path : string) : quiet (resolveArchiveEntryPath path).
Proof.
  unfold resolveArchiveEntryPath. destruct (String.eqb _ ""); [apply quiet_Ret|].
  apply quiet_bind; [apply quiet_or_panic|]. intros c. destruct (String.eqb c _); [apply quiet_Ret|].
  apply quiet_bind; [by apply quiet_call_out|]. intros [e|u]; apply quiet_Ret.
Qed.

Lemma runArchiveTool_quiet (c a o p : string) : quiet (runArchiveTool c a o p).
Proof.
  unfold runArchiveTool. apply quiet_bind; [by apply quiet_call_out|]. intros x. apply quiet_Ret.
Qed.

Lemma MaybeDecrypt_quiet d (a o p : string) : quiet (MaybeDecrypt d a o p).
Proof.
  destruct d as [d|]; [|apply quiet_Ret]. unfold MaybeDecrypt.
  apply quiet_bind; [apply resolveArchiveEntryPath_quiet|]. intros r.
  destruct (negb _); [apply quiet_Ret|]. apply quiet_bind; [apply runArchiveTool_quiet|].
  intros [out [err|]]; [|apply quiet_Ret]. destruct (shouldTryUnarFallback _ _ _ _); [|apply quiet_Ret].
  apply quiet_bind; [by apply quiet_call_out|]. intros [e|u]; [apply quiet_Ret|].
  apply quiet_bind; [apply runArchiveTool_quiet|]. intros [o2 [e2|]]; apply quiet_Ret.
Qed.

Definition NewArchiveDecryptor : ArchiveDecryptor :=
  mkArchiveDecryptor (MaybeDecrypt (Some (mkCommandArchiveDecryptor "7zz"))) (MaybeDecrypt_quiet _).

End Archive.

(** A table of package unicode for the witnesses: ASCII letters, and the letter U+0130. *)
Fixpoint lower_dotted (s : string) : string :=
  match s with
  | "" => ""
  | String a s1 =>
      match s1 with
      | String b s2 =>
          if (byte_code a =? 196)%Z && (byte_code b =? 176)%Z then String "i" (lower_dotted s2)
          else String (lower_byte a) (lower_dotted s1)
      | "" => String (lower_byte a) ""
      end
  end.

#[local] Instance SampleUnicode : Unicode := {| unicode_lower := lower_dotted |}.

Lemma part_rar_set_witness :
  exists d1, multipartArchiveFirstVolume (path_Join2 "/data/tv" (part_name "Show.S01" "07"))
             = Some (path_Join2 "/data/tv" (part_name "Show.S01" d1))
             /\ len d1 = 2%Z /\ Atoi d1 = (1%Z, None).
Proof.
  assert (part_ok "Show.S01" "07") as Hp by (constructor; by vm_compute).
  destruct (part_rar_set "/data/tv" "Show.S01" "07" ltac:(by vm_compute) Hp
              ltac:(apply Z.leb_le; by vm_compute)) as (_ & d1 & H1 & _ & _ & H2 & H3).
  exists d1. split; [exact H1|]. split; [exact H2|].
  apply (H3 7%Z); [by vm_compute|lia].
Defined.

Lemma old_style_set_witness :
  multipartArchiveFirstVolume (path_Join2 "/data/tv" (old_name "Show.S01" "03"))
  = Some (path_Join2 "/data/tv" "Show.S01.rar").
Proof.
  assert (old_ok "Show.S01" "03") as Ho by (constructor; by vm_compute).
  destruct (old_style_set "/data/tv" "Show.S01" "03" ltac:(by vm_compute) Ho ltac:(by vm_compute))
    as (_ & H & _). exact H.
Defined.

Lemma multipart_ascii_total_witness :
  exists f, multipartArchiveFirstVolume "/data/x.part2.rar" = Some f.
Proof. apply (multipart_ascii_total "/data/x.part2.rar"). by vm_compute. Defined.

Lemma multipart_panics_witness :
  multipartArchiveFirstVolume ("/data/" ++ dotted_name) = None.
Proof. apply (multipart_panics ltac:(by vm_compute)). Defined.

(** An aria2 that answers nothing of interest. *)
Definition quiet_aria (r : aria_req) : aria_resp r :=
  match r return aria_resp r with
  | AddURI _ _ => inr ""
  | TellStatus g => inr (mkStatus g "" "" "" "" "" "" [])
  | _ => inr tt
  end.

(** 7zz is missing, [unar] is found and works. *)
Definition no_7zz_env : Env :=
  mkEnv (fun _ => 0%Z) (fun _ => None) (fun _ _ => quiet_aria _)
    (fun _ _ => inr tt) (fun _ _ => inr tt)
    (fun _ c _ => if String.eqb c "unar" then ("", None)
                  else ("", Some (EExec "exec: 7zz" (ESentinel ErrExecNotFound))))
    (fun _ _ => inr tt) (fun _ m => map_to_list m) (fun _ => false) calm_files calm_os no_net.

Lemma MaybeDecrypt_spec_witness :
  snd (run no_7zz_env
         (MaybeDecrypt (Some (mkCommandArchiveDecryptor "7zz")) "/data/a.rar" "/data" "pw")
         (mkWorld empty_db None 0 [] [] ∅ None (mkSettings 2 5 true) no_files 0)) = Some (true, None).
Proof.
  destruct (MaybeDecrypt_spec no_7zz_env (mkWorld empty_db None 0 [] [] ∅ None (mkSettings 2 5 true) no_files 0)
              (mkWorld empty_db None 0 [] [] ∅ None (mkSettings 2 5 true) no_files 0) "/data/a.rar" "/data" "pw"
              "/data/a.rar" ltac:(by vm_compute)) as (err & -> & Herr).
  assert (err = None) as -> by (apply Herr; right; right; repeat split; by vm_compute).
  by vm_compute.
Defined.
