(* ===== verification/Resolver.v ===== *)
(** * internal/resolver/resolver.go: which resolver handles a job

    The registry and the direct HTTP resolver.  A resolver is a value of the interface
    [Resolver]; those of MEGA and Webshare are in MegaResolver.v and Webshare.v. *)

From S2P Require Import Prelude GoStrings GoError Schema Effects.

#[local] Open Scope string_scope.

Record ResolvedTarget : Type := mkTarget {
  Kind : string;
  TargetURL : string;
  Headers : gmap string string;
  Options : gmap string string;
  TargetFilename : string;
  Size : Z
}.

(** Resolving works on the network only: it is [quiet] on the daemon's own state. *)
Record Resolver : Type := mkResolver {
  CanHandle : string -> bool;
  ResolveURL : string -> prog (res ResolvedTarget);
  resolver_quiet : forall u, quiet (ResolveURL u)
}.

Record Registry : Type := mkRegistry {
  resolvers : list Resolver;
  siteResolvers : gmap string Resolver
}.

Definition NewRegistry (l : list Resolver) : Registry := mkRegistry l ∅.

Section Registry.
Context `{UC : Unicode}.

Definition Resolve (r : Registry) (rawURL : string) : prog (res ResolvedTarget) :=
  match List.find (fun x => CanHandle x rawURL) (resolvers r) with
  | Some x => ResolveURL x rawURL
  | None => Ret (inl (ENew "no_resolver"))
  end.

(** [None] is a nil [Resolver]. *)
Definition RegisterSite (r : Registry) (name : string) (x : option Resolver) : Registry :=
  match x with
  | None => r
  | Some x =>
      let key := ToLower (TrimSpace name) in
      if String.eqb key "" then r
      else mkRegistry (resolvers r) (<[key := x]> (siteResolvers r))
  end.

Definition ResolveWithSite (r : Registry) (site rawURL : string) : prog (res ResolvedTarget) :=
  let site := TrimSpace site in
  if negb (String.eqb site "") then
    match siteResolvers r !! ToLower site with
    | Some x => ResolveURL x rawURL
    | None => Ret (inl (ESentinel ErrUnknownSite))
    end
  else Resolve r rawURL.

Lemma Resolve_quiet (r : Registry) (u : string) : quiet (Resolve r u).
Proof. unfold Resolve. destruct (List.find _ _); [apply resolver_quiet|apply quiet_Ret]. Qed.

Lemma ResolveWithSite_quiet (r : Registry) (s u : string) : quiet (ResolveWithSite r s u).
Proof.
  unfold ResolveWithSite. destruct (negb _); [|apply Resolve_quiet].
  destruct (_ !! _); [apply resolver_quiet|apply quiet_Ret].
Qed.

(** A job's site decides its resolver alone, whatever the spelling:
    registering [name] in any registry makes every site that differs from [name] only in
    case and outer space resolve with that resolver, leaves every other site as it was, and
    a site nobody registered is [ErrUnknownSite] even if some resolver could handle the URL. *)
Theorem ResolveWithSite_site (r : Registry) (name site u : string) (x : Resolver) :
  TrimSpace site <> "" ->
  ResolveWithSite (RegisterSite r name (Some x)) site u
  = (if String.eqb (ToLower (TrimSpace name)) "" then ResolveWithSite r site u
     else if String.eqb (ToLower (TrimSpace name)) (ToLower (TrimSpace site)) then ResolveURL x u
     else ResolveWithSite r site u)
  /\ (siteResolvers r !! ToLower (TrimSpace site) = None ->
      ResolveWithSite r site u = Ret (inl (ESentinel ErrUnknownSite))).
Proof.
  intros Hs. unfold ResolveWithSite. apply String.eqb_neq in Hs. rewrite Hs. cbn [negb].
  split; [|by intros ->]. unfold RegisterSite.
  destruct (String.eqb (ToLower (TrimSpace name)) "") eqn:E; [done|].
  cbn [siteResolvers]. destruct (String.eqb (ToLower _) (ToLower _)) eqn:E2; bool_prop.
  - rewrite E2. by rewrite lookup_insert_eq.
  - by rewrite lookup_insert_ne.
Qed.
End Registry.

(** ** The resolver of direct links *)

Definition http_CanHandle (rawURL : string) : bool :=
  HasPrefix rawURL "http://" || HasPrefix rawURL "https://".

Definition http_Resolve (rawURL : string) : prog (res ResolvedTarget) :=
  Ret (inr (mkTarget "aria2" rawURL ∅ ∅ "" 0)).

Lemma http_quiet (u : string) : quiet (http_Resolve u).
Proof. apply quiet_Ret. Qed.

Definition NewHTTPResolver : Resolver := mkResolver http_CanHandle http_Resolve http_quiet.

#[local] Instance AsciiUnicode : Unicode := {| unicode_lower := ascii_lower |}.

Lemma ResolveWithSite_site_witness :
  ResolveWithSite (RegisterSite (NewRegistry []) "Webshare" (Some NewHTTPResolver)) " WEBSHARE " "u"
  = http_Resolve "u".
Proof.
  destruct (ResolveWithSite_site (NewRegistry []) "Webshare" " WEBSHARE " "u" NewHTTPResolver
              ltac:(by vm_compute)) as [H _]. rewrite H. by vm_compute.
Defined.
