(* ===== verification/MegaResolver.v ===== *)
(** * internal/resolver/mega.go: resolving a public MEGA link

    The link names a file and its key.  MEGA's API answers with the download URL, the size and
    the encrypted attributes of the file; the name is in the attributes, encrypted with AES in
    CBC mode under the file's key.  The answer of the API is a reply of the environment. *)

From S2P Require Import Prelude GoStrings GoUrl GoError GoJson Schema Files Effects Aes AesInv.
From S2P Require Import GoBase64 MegaLink Store StoreSpec Wp Resolver.

#[local] Open Scope string_scope.

Definition megaAPI : string := "https://g.api.mega.co.nz/cs".

(** ** The file's key and name *)

Definition decodeMegaBase64 (raw : string) : res bytes :=
  match DecodeString raw with
  | inl i =>
      let err := "illegal base64 data at input byte " ++ Itoa (Z.of_nat i) in
      inl (EWrap ("mega_base64_decode_failed:" ++ err) (ENew err))
  | inr b => inr b
  end.

Definition deriveMegaAESKey (fileKey : string) : res bytes :=
  match decodeMegaBase64 fileKey with
  | inl err => inl err
  | inr rawKey =>
      if (length rawKey =? 16)%nat then inr rawKey
      else if (length rawKey =? 32)%nat then inr (xor_bytes (take 16 rawKey) (drop 16 rawKey))
      else inl (ENew ("mega_invalid_key_length:" ++ Itoa (Z.of_nat (length rawKey))))
  end.

(** [bytes.TrimRight(b, "\x00")]. *)
Fixpoint drop_zeros (b : list Z) : list Z :=
  match b with
  | x :: b' => if (x =? 0)%Z then drop_zeros b' else b
  | [] => []
  end.

Definition trim_zeros (b : list Z) : list Z := rev (drop_zeros (rev b)).

Definition zero_iv : bytes := repeat 0%Z 16.

Definition attrs_fields : list (field string) := [("n", decode_string)].

Section Name.
Context `{UC : Unicode} `{JE : JsonErrors}.

Definition decryptMegaFilename (attributes fileKey : string) : res string :=
  match deriveMegaAESKey fileKey with
  | inl err => inl err
  | inr aesKey =>
      match decodeMegaBase64 attributes with
      | inl err => inl err
      | inr encAttrs =>
          if (length encAttrs =? 0)%nat || negb (length encAttrs mod 16 =? 0)%nat
          then inl (ENew "mega_attributes_invalid_length")
          else
            let plain := text_of (trim_zeros (CBCDecrypt (aes_decrypt aesKey) zero_iv encAttrs)) in
            if (String.length plain =? 0)%nat || negb (HasPrefix plain "MEGA")
            then inl (ENew "mega_attributes_invalid_prefix")
            else
              let text := drop_str 4 plain in
              match v ← Unmarshal text; decode_struct attrs_fields v "" with
              | None => inl (json_error text)
              | Some name =>
                  if String.eqb (TrimSpace name) "" then inl (ENew "mega_filename_missing")
                  else inr name
              end
      end
  end.
End Name.

(** ** The API *)

Definition mapMegaAPIError (code : Z) : error :=
  if (code =? -17)%Z then ESentinel ErrQuotaExceeded
  else if (code =? -18)%Z || (code =? -4)%Z then ESentinel ErrTemporarilyOff
  else if (code =? -11)%Z || (code =? -14)%Z || (code =? -16)%Z then ESentinel ErrLoginRequired
  else ENew ("mega_api_error:" ++ Itoa code).

Record megaFileInfoResponse : Type := mkInfo {
  DownloadURL : string;
  InfoSize : Z;
  Attributes : string;
  ErrorCode : Z
}.

Definition info_fields : list (field megaFileInfoResponse) :=
  [("g", fun v i => s ← decode_string v (DownloadURL i);
                    Some (mkInfo s (InfoSize i) (Attributes i) (ErrorCode i)));
   ("s", fun v i => n ← decode_int v (InfoSize i);
                    Some (mkInfo (DownloadURL i) n (Attributes i) (ErrorCode i)));
   ("at", fun v i => s ← decode_string v (Attributes i);
                     Some (mkInfo (DownloadURL i) (InfoSize i) s (ErrorCode i)));
   ("e", fun v i => n ← decode_int v (ErrorCode i);
                    Some (mkInfo (DownloadURL i) (InfoSize i) (Attributes i) n))].

(** The request's body, its URL with the request's number. *)
Definition info_payload (fileID : string) : string :=
  Marshal (Arr [Obj [("a", Str "g"); ("g", Num "1"); ("p", Str fileID)]]).

Definition info_url (apiURL : string) (requestID : Z) : string :=
  let apiURL := if String.eqb (TrimSpace apiURL) "" then megaAPI else TrimSpace apiURL in
  apiURL ++ (if Contains apiURL "?" then "&id=" else "?id=") ++ string_of_N (Z.to_N requestID).

Definition info_request (apiURL : string) (requestID : Z) (fileID : string) : net_req :=
  mkNetReq "POST" (info_url apiURL requestID) [("Content-Type", "application/json")]
    (info_payload fileID).

Section Resolve.
Context `{UC : Unicode} `{JE : JsonErrors}.

(** The API answers an array: of a number, an error code, or of the file's description. *)
Definition read_info (text : string) : res megaFileInfoResponse :=
  match v ← Decode text; decode_raws v with
  | None => inl (json_error text)
  | Some [] => inl (ENew "mega_api_empty_response")
  | Some (first :: _) =>
      match decode_int first 0 with
      | Some code => inl (mapMegaAPIError code)
      | None =>
          match decode_struct info_fields first (mkInfo "" 0 "" 0) with
          | None => inl (json_error text)
          | Some out =>
              if negb (ErrorCode out =? 0)%Z then inl (mapMegaAPIError (ErrorCode out))
              else if String.eqb (DownloadURL out) "" then inl (ENew "mega_download_url_missing")
              else if String.eqb (Attributes out) "" then inl (ENew "mega_attributes_missing")
              else inr out
          end
      end
  end.

Definition mega_fileInfo (apiURL fileID : string) : prog (res megaFileInfoResponse) :=
  requestID <- call NextRequestID ;;
  resp <-? call (Net (info_request apiURL requestID fileID)) ;;
  if (NetStatus resp <? 200)%Z || (300 <=? NetStatus resp)%Z
  then Ret (inl (ENew ("mega_api_http_status:" ++ Itoa (NetStatus resp))))
  else Ret (read_info (NetText resp)).

Definition mega_CanHandle (rawURL : string) : bool :=
  match Parse rawURL with
  | inl _ => false
  | inr u =>
      let host := ToLower (Host u) in
      Contains host "mega.nz" || Contains host "mega.co.nz"
  end.

Definition resolver_parseMegaFileLink (rawURL : string) : res (string * string) :=
  parse_link rawURL "mega_public_file_link_required" "mega_link_invalid_tokens".

Definition mega_Resolve (apiURL rawURL : string) : prog (res ResolvedTarget) :=
  match resolver_parseMegaFileLink rawURL with
  | inl err => Ret (inl err)
  | inr (fileID, fileKey) =>
      resp <-? mega_fileInfo apiURL fileID ;;
      match decryptMegaFilename (Attributes resp) fileKey with
      | inl err => Ret (inl err)
      | inr filename => Ret (inr (mkTarget "aria2" (DownloadURL resp) ∅ ∅ filename (InfoSize resp)))
      end
  end.

Lemma mega_fileInfo_quiet (apiURL fileID : string) : quiet (mega_fileInfo apiURL fileID).
Proof.
  unfold mega_fileInfo. apply quiet_bind; [by apply quiet_call_out|]. intros id.
  apply quiet_bind; [by apply quiet_call_out|]. intros [e|r]; [apply quiet_Ret|].
  case_bool; apply quiet_Ret.
Qed.

Lemma mega_Resolve_quiet (apiURL rawURL : string) : quiet (mega_Resolve apiURL rawURL).
Proof.
  unfold mega_Resolve. destruct (resolver_parseMegaFileLink rawURL) as [e|[id key]]; [apply quiet_Ret|].
  apply quiet_bind; [apply mega_fileInfo_quiet|]. intros [e|r]; [apply quiet_Ret|].
  destruct (decryptMegaFilename _ _); apply quiet_Ret.
Qed.

(** [NewMegaResolver], with the API's address a test may set. *)
Definition NewMegaResolver (apiURL : string) : Resolver :=
  mkResolver mega_CanHandle (mega_Resolve apiURL) (mega_Resolve_quiet apiURL).
End Resolve.

(** ** A name encrypted as MEGA does is read back *)

(** The AES key of a file key's bytes. *)
Definition aes_key_of (raw : list Z) : bytes :=
  if (length raw =? 16)%nat then raw else xor_bytes (take 16 raw) (drop 16 raw).

Definition pad_block (b : list Z) : list Z := (b ++ repeat 0%Z ((16 - length b mod 16) mod 16))%list.

(** The attributes of a file with members [l], encrypted under the key [raw]. *)
Definition mega_attributes (l : list (string * value)) (raw : list Z) : string :=
  EncodeToString
    (CBCEncrypt (aes_encrypt (aes_key_of raw)) zero_iv (pad_block (bytes_of ("MEGA" ++ Marshal (Obj l))))).

(** The members of the attributes: the name, and others that are not called like it. *)
Definition names_file (l : list (string * value)) (name : string) : Prop :=
  exists extra, l = ("n", Str name) :: extra
    /\ Forall (fun kv => String.eqb (to_valid (fst kv)) "n" = false
                         /\ EqualFold_ascii (to_valid (fst kv)) "n" = false) extra
    /\ well_formed (Obj l) /\ (nesting (Obj l) <= maxNestingDepth)%Z.

Lemma decodeMegaBase64_Encode (b : list Z) :
  Forall is_byte b -> decodeMegaBase64 (EncodeToString b) = inr b.
Proof. intros H. unfold decodeMegaBase64. by rewrite DecodeString_Encode. Qed.

Lemma deriveMegaAESKey_raw (raw : list Z) :
  raw_key raw -> deriveMegaAESKey (EncodeToString raw) = inr (aes_key_of raw) /\ is_block (aes_key_of raw).
Proof.
  intros [Hb Hl]. unfold deriveMegaAESKey, aes_key_of. rewrite decodeMegaBase64_Encode by done.
  destruct Hl as [Hl|Hl]; rewrite Hl; cbn [Nat.eqb]; split; try done.
  apply xor_block; split; rewrite ?length_take, ?length_drop; try lia;
    [by apply Forall_take|by apply Forall_drop].
Qed.

Lemma drop_zeros_repeat (n : nat) (b : list Z) : drop_zeros (repeat 0%Z n ++ b) = drop_zeros b.
Proof. induction n as [|n IH]; [done|]. cbn. apply IH. Qed.

Lemma trim_zeros_pad (b : list Z) (x : Z) :
  x <> 0%Z -> trim_zeros (pad_block (b ++ [x])) = (b ++ [x])%list.
Proof.
  intros Hx. unfold trim_zeros, pad_block. set (n := ((16 - _) mod 16)%nat). clearbody n.
  assert (rev (repeat 0%Z n) = repeat 0%Z n) as Hr.
  { clear. induction n as [|n IH]; [done|]. cbn. rewrite IH. clear. induction n as [|n IH]; [done|].
    cbn. by rewrite IH. }
  rewrite rev_app_distr, Hr, drop_zeros_repeat, rev_app_distr. cbn.
  apply Z.eqb_neq in Hx. rewrite Hx. cbn. by rewrite rev_involutive.
Qed.

Lemma length_bytes_of (s : string) : length (bytes_of s) = String.length s.
Proof. unfold bytes_of. induction s as [|c s IH]; cbn; [done|]. by rewrite IH. Qed.

Lemma pad_block_length (b : list Z) : (length (pad_block b) mod 16 = 0)%nat.
Proof.
  unfold pad_block. rewrite length_app, repeat_length.
  pose proof (Nat.mod_upper_bound (length b) 16 ltac:(lia)).
  pose proof (Nat.div_mod_eq (length b) 16) as Hd. rewrite Hd at 1.
  destruct (decide (length b mod 16 = 0)%nat) as [E|E].
  - rewrite E. change ((16 - 0) mod 16)%nat with 0%nat.
    replace (16 * (length b / 16) + 0 + 0)%nat with ((length b / 16) * 16)%nat by lia.
    by apply Nat.Div0.mod_mul.
  - rewrite (Nat.mod_small (16 - _)) by lia.
    replace (16 * (length b / 16) + length b mod 16 + (16 - length b mod 16))%nat
      with ((length b / 16 + 1) * 16)%nat by lia. by apply Nat.Div0.mod_mul.
Qed.

Lemma pad_block_bytes (b : list Z) : Forall is_byte b -> Forall is_byte (pad_block b).
Proof.
  intros H. apply Forall_app. split; [done|]. apply Forall_forall. intros x Hx.
  apply list_elem_of_In, repeat_spec in Hx. subst. done.
Qed.

Section Roundtrip.
Context `{UC : Unicode} `{JE : JsonErrors}.

Lemma decode_attrs (l : list (string * value)) (name : string) :
  names_file l name -> valid_utf8 name = true ->
  decode_struct attrs_fields (coerce (Obj l)) "" = Some name.
Proof using Type.
  intros (extra & -> & He & _) Hv.
  assert (forall kv, String.eqb (to_valid (fst kv)) "n" = false
            /\ EqualFold_ascii (to_valid (fst kv)) "n" = false ->
          set_member attrs_fields (to_valid (fst kv), coerce (snd kv)) name = Some name) as Hs.
  { intros kv [H1 H2]. unfold set_member. cbn [List.find attrs_fields fst snd]. by rewrite H1, H2. }
  assert (decode_struct attrs_fields (coerce (Obj (("n", Str name) :: extra))) ""
    = foldl (fun acc kv => a ← acc; set_member attrs_fields kv a) (Some (to_valid name))
        (map (fun kv => (to_valid (fst kv), coerce (snd kv))) extra)) as -> by done.
  rewrite valid_utf8_to_valid by done. induction He as [|kv extra H _ IH]; [done|].
  cbn [map foldl mbind option_bind]. by rewrite Hs.
Qed.

(** Names survive: the attributes of a file, encrypted under its key as MEGA encrypts them
    (JSON, padded with zeros, AES-CBC), decrypt to exactly the name in them, whatever other
    attributes the file has. *)
Lemma decrypt_attributes (l : list (string * value)) (name : string) (raw : list Z) :
  names_file l name -> valid_utf8 name = true -> TrimSpace name <> "" -> raw_key raw ->
  decryptMegaFilename (mega_attributes l raw) (EncodeToString raw) = inr name.
Proof using Type.
  intros Hl Hv Hne Hraw. unfold decryptMegaFilename, mega_attributes.
  destruct (deriveMegaAESKey_raw raw Hraw) as [-> Hk].
  set (plain := "MEGA" ++ Marshal (Obj l)). set (b := pad_block (bytes_of plain)).
  assert (Forall is_byte b) as Hb by apply pad_block_bytes, bytes_of_byte.
  destruct (CBC_decrypt_encrypt (aes_encrypt (aes_key_of raw)) (aes_decrypt (aes_key_of raw))
    (fun x Hx => aes_decrypt_encrypt _ x Hk Hx) zero_iv b) as (H1 & H2 & H3).
  { split; [done|]. unfold zero_iv, is_byte. by repeat constructor. }
  { apply pad_block_length. }
  { done. }
  rewrite decodeMegaBase64_Encode, H1, H3 by done.
  assert ((length b =? 0)%nat = false) as ->.
  { apply Nat.eqb_neq. unfold b, pad_block. rewrite length_app, length_bytes_of. unfold plain.
    cbn. lia. }
  unfold b at 1. rewrite pad_block_length. cbn [Nat.eqb negb orb].
  assert (exists p, bytes_of plain = (p ++ [125%Z])%list) as [p Hp].
  { unfold plain. cbn [Marshal]. set (j := Join _ _). exists (bytes_of ("MEGA{" ++ j)).
    change [125%Z] with (bytes_of "}"). rewrite <- bytes_of_app, <- str_app_assoc. reflexivity. }
  assert (text_of (trim_zeros b) = plain) as ->.
  { unfold b. rewrite Hp, trim_zeros_pad by done. by rewrite <- Hp, text_of_bytes. }
  change (String.length plain) with (4 + String.length (Marshal (Obj l)))%nat. cbn [Nat.add Nat.eqb orb].
  assert (HasPrefix plain "MEGA" = true) as -> by (apply HasPrefix_iff; exists (Marshal (Obj l)); reflexivity).
  cbn [negb].
  change (drop_str 4 plain) with (Marshal (Obj l)).
  destruct Hl as (extra & E & He & Hw & Hd). rewrite Unmarshal_Marshal by done. cbn [mbind option_bind].
  rewrite (decode_attrs l name) by (done || by exists extra). by apply String.eqb_neq in Hne as ->.
Qed.

(** ** Resolving a link *)

(** The API's description of a file. *)
Definition info_reply (url : string) (size : Z) (attributes : string) : string :=
  Marshal (Arr [Obj [("s", Num (Itoa size)); ("at", Str attributes); ("g", Str url)]]).

(** The API's error answer. *)
Definition code_reply (code : Z) : string := Marshal (Arr [Num (Itoa code)]).

Lemma read_info_reply (url : string) (size : Z) (attributes : string) :
  valid_utf8 url = true -> url <> "" -> valid_utf8 attributes = true -> attributes <> "" ->
  (min_int64 <= size <= max_int64)%Z ->
  read_info (info_reply url size attributes) = inr (mkInfo url size attributes 0).
Proof using Type.
  intros Hu Hune Ha Hane Hs. unfold read_info.
  assert (Decode (info_reply url size attributes)
          = Some (Arr [Obj [("s", Num (Itoa size)); ("at", Str attributes); ("g", Str url)]])) as ->.
  { unfold info_reply. rewrite Decode_Marshal;
      [|by repeat split; try apply Itoa_is_number|vm_compute; discriminate].
    cbn [coerce map fst snd]. by rewrite !valid_utf8_to_valid. }
  cbn [mbind option_bind decode_raws decode_int].
  assert (decode_struct info_fields (Obj [("s", Num (Itoa size)); ("at", Str attributes); ("g", Str url)])
            (mkInfo "" 0 "" 0) = Some (mkInfo url size attributes 0)) as ->.
  { assert (forall i, set_member info_fields ("s", Num (Itoa size)) i
              = Some (mkInfo (DownloadURL i) size (Attributes i) (ErrorCode i))) as Hset.
    { intros i. transitivity (n ← decode_int (Num (Itoa size)) (InfoSize i);
        Some (mkInfo (DownloadURL i) n (Attributes i) (ErrorCode i))); [reflexivity|].
      by rewrite decode_int_Itoa. }
    cbn [decode_struct foldl mbind option_bind]. rewrite Hset. reflexivity. }
  cbn [ErrorCode DownloadURL Attributes Z.eqb negb].
  apply String.eqb_neq in Hune as ->. by apply String.eqb_neq in Hane as ->.
Qed.

Lemma read_info_code (code : Z) :
  (min_int64 <= code <= max_int64)%Z ->
  read_info (code_reply code) = inl (mapMegaAPIError code).
Proof using Type.
  intros Hc. unfold read_info, code_reply.
  rewrite Decode_Marshal; [|by repeat split; try apply Itoa_is_number|vm_compute; discriminate].
  cbn [coerce map mbind option_bind decode_raws]. by rewrite decode_int_Itoa.
Qed.

Lemma mega_attributes_text (l : list (string * value)) (raw : list Z) :
  raw_key raw -> valid_utf8 (mega_attributes l raw) = true /\ mega_attributes l raw <> "".
Proof using Type.
  intros Hraw. unfold mega_attributes. destruct (deriveMegaAESKey_raw raw Hraw) as [_ Hk].
  set (b := pad_block _).
  assert (Forall is_byte b) as Hb by apply pad_block_bytes, bytes_of_byte.
  destruct (CBC_decrypt_encrypt (aes_encrypt (aes_key_of raw)) (aes_decrypt (aes_key_of raw))
    (fun x Hx => aes_decrypt_encrypt _ x Hk Hx) zero_iv b) as (H1 & H2 & _).
  { split; [done|]. unfold zero_iv, is_byte. by repeat constructor. }
  { apply pad_block_length. }
  { done. }
  split; [by apply is_ascii_valid, token_is_ascii, EncodeToString_token|].
  set (c := CBCEncrypt _ _ _) in *. assert (length c <> 0)%nat as Hl.
  { rewrite H1. unfold b, pad_block. rewrite length_app, length_bytes_of. cbn. lia. }
  clearbody c. by destruct c as [|x [|y [|z c]]].
Qed.

End Roundtrip.

(** ** Witnesses *)

#[local] Instance MegaUnicode : Unicode := {| unicode_lower := ascii_lower |}.
#[local] Instance MegaJsonErrors : JsonErrors := {| json_error_text := fun _ => "invalid JSON" |}.

Definition sample_members : list (string * value) := [("n", Str "Film 1.mkv"); ("c", Str "xyz")].
Definition sample_key : list Z := seqZ 7 32.

Lemma sample_names : names_file sample_members "Film 1.mkv".
Proof.
  exists [("c", Str "xyz")]. split; [reflexivity|]. split; [|split; [done|vm_compute; discriminate]].
  constructor; [|constructor]. by vm_compute.
Qed.

Lemma sample_raw_key : raw_key sample_key.
Proof.
  split; [|by left]. apply Forall_forall. intros x Hx. apply elem_of_seqZ in Hx. unfold is_byte. lia.
Qed.

Definition sample_info : string :=
  info_reply "https://dl.mega.nz/x" 1234 (mega_attributes sample_members sample_key).

(** The API answers every request with the sample's description. *)
Definition mega_env : Env :=
  mkEnv (fun _ => 0%Z) (fun _ => None) (aria_at (calm_env 0)) (fun _ _ => inr tt) (fun _ _ => inr tt)
    (fun _ _ _ => ("", None)) (fun _ _ => inr tt) (fun _ m => map_to_list m) (fun _ => false)
    calm_files calm_os (fun _ _ => inr (mkNetResp 200 sample_info)).

