(* ===== verification/Webshare.v ===== *)
(** * internal/resolver/webshare.go: resolving a Webshare link

    The ident of the file is in the link; Webshare's API gives, in two requests, the file's
    name and size and a download link.  The answers are XML, which encoding/xml decodes into
    a struct of texts: that decoder is an argument ([XmlDecoder]). *)

From S2P Require Import Prelude GoStrings GoUrl GoError Schema Files Effects MegaLink Resolver.

#[local] Open Scope string_scope.

Definition webshareAPI : string := "https://webshare.cz/api".

(** ** The ident in a link *)

(** The regular expression of [wsIdentRe]. *)
Definition ident_like (seg : string) : bool :=
  (5 <=? String.length seg)%nat && string_forallb is_alnum seg.

(** The last of [segments] that looks like an ident. *)
Definition last_ident (segments : list string) : option string :=
  List.find ident_like (rev segments).

Definition extractWebshareIdent (u : url) : string :=
  let q := QueryGet u "ident" in
  if negb (String.eqb q "") then q
  else
    let q := QueryGet u "id" in
    if negb (String.eqb q "") then q
    else match last_ident (split_char char_slash (trim_char char_slash (Path u))) with
         | Some seg => seg
         | None =>
             if negb (String.eqb (Fragment u) "")
             then default "" (last_ident (split_char char_slash (Fragment u)))
             else ""
         end.

(** ** The API *)

Record wsInfoResponse : Type := mkWsInfo {
  InfoStatus : string;
  InfoName : string;
  InfoSizeText : string;
  InfoMessage : string;
  InfoCode : string;
  InfoRemoved : string;
  InfoPassword : string;
  InfoAvailable : string
}.

Record wsLinkResponse : Type := mkWsLink {
  LinkStatus : string;
  Link : string;
  LinkMessage : string;
  LinkCode : string
}.

Class XmlDecoder := {
  decode_info : string -> res wsInfoResponse;
  decode_link : string -> res wsLinkResponse
}.

(** [strings.ToUpper(s) == "OK"]: no rune but these two letters' own has O or K as upper case. *)
Definition is_ok_status (s : string) : bool := String.eqb (ascii_lower s) "ok".

Definition ws_request (path ident : string) : net_req :=
  mkNetReq "POST" (webshareAPI ++ path) [("Content-Type", "application/x-www-form-urlencoded")]
    ("ident=" ++ escape ident encodeQueryComponent).

Definition link_error (out : wsLinkResponse) : error :=
  if String.eqb (LinkCode out) "FILE_LINK_FATAL_1" then ESentinel ErrLoginRequired
  else if String.eqb (LinkCode out) "FILE_LINK_FATAL_2" then ESentinel ErrCaptchaNeeded
  else if String.eqb (LinkCode out) "FILE_LINK_FATAL_3" then ESentinel ErrQuotaExceeded
  else if String.eqb (LinkCode out) "FILE_LINK_FATAL_4" then ESentinel ErrTemporarilyOff
  else ENew ("webshare_link_error:" ++ LinkCode out ++ ":" ++ LinkMessage out).

Definition ws_options : gmap string string :=
  list_to_map [("max-connection-per-server", "1"); ("split", "1"); ("continue", "false");
               ("always-resume", "false"); ("allow-overwrite", "true");
               ("auto-file-renaming", "false")].

Definition ws_headers : gmap string string :=
  list_to_map [("Referer", "https://webshare.cz/");
               ("User-Agent", "Mozilla/5.0 (X11; Linux x86_64) AppleWebKit/537.36 (KHTML, like Gecko) Chrome/120.0.0.0 Safari/537.36")].

Section Webshare.
Context `{UC : Unicode} `{XD : XmlDecoder}.

(** The file's name and size. *)
Definition ws_fileInfo (ident : string) : prog (res (string * Z)) :=
  resp <-? call (Net (ws_request "/file_info/" ident)) ;;
  match decode_info (NetText resp) with
  | inl err => Ret (inl err)
  | inr out =>
      if negb (is_ok_status (InfoStatus out))
      then Ret (inl (ENew ("webshare_info_error:" ++ InfoCode out ++ ":" ++ InfoMessage out)))
      else Ret (inr (InfoName out, fst (ParseInt (TrimSpace (InfoSizeText out)))))
  end.

Definition fileLink (ident : string) : prog (res string) :=
  resp <-? call (Net (ws_request "/file_link/" ident)) ;;
  match decode_link (NetText resp) with
  | inl err => Ret (inl err)
  | inr out =>
      if negb (is_ok_status (LinkStatus out)) then Ret (inl (link_error out))
      else Ret (inr (Link out))
  end.

Definition webshare_CanHandle (rawURL : string) : bool :=
  match Parse rawURL with
  | inl _ => false
  | inr u => Contains (ToLower (Host u)) "webshare.cz"
  end.

Definition webshare_Resolve (rawURL : string) : prog (res ResolvedTarget) :=
  match Parse rawURL with
  | inl err => Ret (inl (ENew err))
  | inr u =>
      let ident := extractWebshareIdent u in
      if String.eqb ident "" then Ret (inl (ENew "webshare_ident_not_found"))
      else
        info <-? ws_fileInfo ident ;;
        link <-? fileLink ident ;;
        Ret (inr (mkTarget "aria2" link ws_headers ws_options (fst info) (snd info)))
  end.

Lemma ws_fileInfo_quiet (ident : string) : quiet (ws_fileInfo ident).
Proof.
  unfold ws_fileInfo. apply quiet_bind; [by apply quiet_call_out|]. intros [e|r]; [apply quiet_Ret|].
  destruct (decode_info _); [apply quiet_Ret|]. case_bool; apply quiet_Ret.
Qed.

Lemma fileLink_quiet (ident : string) : quiet (fileLink ident).
Proof.
  unfold fileLink. apply quiet_bind; [by apply quiet_call_out|]. intros [e|r]; [apply quiet_Ret|].
  destruct (decode_link _); [apply quiet_Ret|]. case_bool; apply quiet_Ret.
Qed.

Lemma webshare_Resolve_quiet (rawURL : string) : quiet (webshare_Resolve rawURL).
Proof.
  unfold webshare_Resolve. destruct (Parse rawURL) as [e|u]; [apply quiet_Ret|]. case_bool; [apply quiet_Ret|].
  apply quiet_bind; [apply ws_fileInfo_quiet|]. intros [e|i]; [apply quiet_Ret|].
  apply quiet_bind; [apply fileLink_quiet|]. intros [e|l]; apply quiet_Ret.
Qed.

Definition NewWebshareResolver : Resolver :=
  mkResolver webshare_CanHandle webshare_Resolve webshare_Resolve_quiet.
End Webshare.

(** ** Share links *)

Lemma unescape_plain (s : string) : contains_char s "%" = false -> unescape s encodeFragment = Some s.
Proof.
  unfold contains_char. induction s as [|c s IH]; cbn [string_existsb unescape]; [done|]. intros H.
  apply orb_false_elim in H as [H1 H2]. rewrite Ascii.eqb_sym, H1, (IH H2). cbn.
  destruct (Ascii.eqb c "+") eqn:E; bool_prop; by subst.
Qed.

Lemma alnum_token (s : string) : string_forallb is_alnum s = true -> string_forallb is_token_char s = true.
Proof.
  induction s as [|c s IH]; cbn; [done|]. intros H. bool_prop. rewrite IH by done.
  unfold is_token_char, is_alnum in *. by match goal with H : _ = true |- _ => rewrite H end.
Qed.

(** The link that Webshare's site shares for a file. *)
Definition share_link (ident name : string) : string :=
  "https://webshare.cz/#/file/" ++ ident ++ "/" ++ name.

(** The ident of a share link.  From the link Webshare's site shows for a file, ident and
    name in the fragment, the ident is extracted, whatever the spelling of the name, unless
    the name itself is five or more letters and digits: the segments are tried from the last,
    so then the name is taken for the ident and the API is asked for another file. *)
Theorem share_link_ident (ident name : string) :
  ident_like ident = true -> string_forallb is_token_char name = true ->
  exists u, Parse (share_link ident name) = inr u
    /\ extractWebshareIdent u = if ident_like name then name else ident.
Proof.
  intros Hi Hn. pose proof Hi as Hid. unfold ident_like in Hid. apply andb_prop in Hid as [Hlen Hid].
  apply alnum_token in Hid.
  set (frag := "/file/" ++ ident ++ String char_slash name).
  assert (contains_char frag "%" = false) as Hf.
  { unfold frag. rewrite !contains_char_app. rewrite (token_no ident "%") by (done || in_list).
    change (String char_slash name) with ("/" ++ name). rewrite contains_char_app.
    by rewrite (token_no name "%") by (done || in_list). }
  assert (exists u, Parse (share_link ident name) = inr u
            /\ RawQuery u = "" /\ Path u = "/" /\ Fragment u = frag) as (u & Hu & Hq & Hp & Hfr).
  { unfold Parse. change (share_link ident name) with ("https://webshare.cz/" ++ String "#" frag).
    rewrite Cut_char by done.
    assert (parse_nofrag "https://webshare.cz/"
            = inr (mkURL "https" "" None "webshare.cz" "/" "" false false "" "" "")) as ->
      by (vm_compute; reflexivity).
    assert (String.eqb frag "" = false) as -> by done. unfold decode_path.
    rewrite (unescape_plain frag Hf). by eexists. }
  exists u. split; [done|]. unfold extractWebshareIdent, QueryGet. rewrite Hq, Hp, Hfr.
  cbn [split_char query_find query_pair].
  assert (split_char char_slash frag = [""; "file"; ident; name]) as ->.
  { unfold frag. change ("/file/" ++ ?s) with ("" ++ String char_slash ("file" ++ String char_slash s)).
    rewrite !split_char_app; [|apply token_no; [done|in_list]|done|done].
    by rewrite split_char_no_sep by (apply token_no; [done|in_list]). }
  assert (String.eqb frag "" = false) as -> by done.
  change (last_ident (split_char char_slash (trim_char char_slash "/"))) with (@None string).
  cbn -[ident_like]. destruct (ident_like name); [done|]. by rewrite Hi.
Qed.

Lemma share_link_ident_witness :
  exists u, Parse (share_link "a1b2c3d4e5" "Matrix") = inr u /\ extractWebshareIdent u = "Matrix".
Proof. exact (share_link_ident "a1b2c3d4e5" "Matrix" eq_refl eq_refl). Defined.
