(* ===== verification/Service.v ===== *)
(** * internal/queue/service.go: what the API asks of the queue

    Every method of [Service] is a program over the store and the downloader.  The store is
    used through the interface [StoreSafe]. *)

From S2P Require Import Prelude GoStrings GoPath GoUrl GoError Schema Effects Status Paths Store.
From S2P Require Import StoreInv StoreSpec Wp.

#[local] Open Scope string_scope.

(** The fields of [Service] but the store; [downloader] tells whether it is set. *)
Record Service : Type := mkService {
  downloader : bool;
  allowedRoots : list string
}.

Record JobView : Type := mkJobView {
  VID : Z; VURL : string; VSite : string; VOutDir : string; VName : string; VStatus : string;
  VFilename : string; VSizeBytes : Z; VBytesDone : Z; VDownloadSpeed : Z; VEtaSeconds : Z;
  VError : string; VErrorCode : string; VCreatedAt : Z; VUpdatedAt : Z
}.

(** An invalid column leaves the view's zero value. *)
Definition toView (j : Job) : JobView :=
  mkJobView (ID j) (URL j) (Site j) (OutDir j) (Name j) (Status j)
    (default "" (Filename j)) (default 0%Z (SizeBytes j)) (BytesDone j)
    (default 0%Z (DownloadSpeed j)) (default 0%Z (EtaSeconds j))
    (default "" (Error j)) (default "" (ErrorCode j)) (CreatedAt j) (UpdatedAt j).

Definition redactURLForLog (raw : string) : string :=
  match Parse (TrimSpace raw) with
  | inl _ => raw
  | inr u =>
      if String.eqb (Fragment u) "" then url_String u else url_String (set_fragment u "***")
  end.

(** The message of the "added" event. *)
Definition added_message (url cleanOut cleanName site archivePassword : string)
    (maxAttempts : Z) : string :=
  let msg := "added url=" ++ redactURLForLog url ++ " out=" ++ cleanOut in
  let msg := if negb (String.eqb cleanName "") then msg ++ " name=" ++ cleanName else msg in
  let msg := if negb (String.eqb site "") then msg ++ " site=" ++ site else msg in
  let msg := if negb (String.eqb archivePassword "") then msg ++ " archive_password=***" else msg in
  msg ++ " max_attempts=" ++ Itoa maxAttempts.

Definition sqlNullString (v : string) : option string :=
  if String.eqb v "" then None else Some v.

Definition CreateJob (s : Service) (url outDir name site archivePassword : string)
    (maxAttempts : Z) : prog (res Z) :=
  let maxAttempts := if (maxAttempts <=? 0)%Z then 5%Z else maxAttempts in
  match cleanOutDir outDir (allowedRoots s) with
  | inl err => Ret (inl err)
  | inr cleanOut =>
      match cleanUserFilename name with
      | inl err => Ret (inl err)
      | inr cleanName =>
          let archivePassword := TrimSpace archivePassword in
          id <-? Store.CreateJob url site cleanOut cleanName (sqlNullString archivePassword) maxAttempts ;;
          AddEvent id "info" (added_message url cleanOut cleanName site archivePassword maxAttempts) ;;
          Ret (inr id)
      end
  end.

Definition ListJobs (status : string) (includeDeleted : bool) : prog (res (list JobView)) :=
  jobs <-? Store.ListJobs status includeDeleted ;;
  Ret (inr (map toView jobs)).

Definition GetJob (id : Z) : prog (res JobView) :=
  j <-? Store.GetJob id ;;
  Ret (inr (toView j)).

Definition ListEvents (id limit : Z) : prog (res (list string)) := Store.ListEvents id limit.

Definition removeEngineTask (s : Service) (gid : string) : prog (res unit) :=
  if negb (downloader s) || String.eqb (TrimSpace gid) "" then Ret (inr tt)
  else
    r <- call (Aria (RemoveGid gid)) ;;
    match r with
    | inr _ => Ret (inr tt)
    | inl err =>
        if errors_Is err AriaErrGIDNotFound then Ret (inr tt)
        else if errors_Is err AriaErrActionNotAllowed
        then Ret (inl (errorf_wrap ErrActionNotAllowed err))
        else Ret (inl err)
    end.

(** [if job.EngineGID.Valid && s.downloader != nil { removeEngineTask }], then [p]. *)
Definition after_engine_removed {A} (s : Service) (job : Job) (p : prog (res A)) : prog (res A) :=
  match EngineGID job with
  | Some gid => if downloader s then _ <-? removeEngineTask s gid ;; p else p
  | None => p
  end.

Definition Retry (s : Service) (id : Z) : prog (res unit) :=
  job <-? Store.GetJob id ;;
  if String.eqb (Status job) StatusDecryptFail then
    _ <-? MarkDecryptingRetry id (BytesDone job) ;;
    AddEvent id "info" "retry decrypt queued"
  else
    after_engine_removed s job (
      _ <-? Requeue id ;;
      AddEvent id "info" "retried").

Definition Remove (s : Service) (id : Z) : prog (res unit) :=
  job <-? Store.GetJob id ;;
  after_engine_removed s job (
    _ <-? Store.Remove id ;;
    AddEvent id "info" "removed").

Definition Clear : prog (res unit) := ClearCompleted.

Definition Purge : prog (res unit) := ClearAll.

Section Service.
Context `{UC : Unicode}.

Definition Pause (s : Service) (id : Z) : prog (res unit) :=
  job <-? Store.GetJob id ;;
  let eventMessage := DisplayStatus StatusPaused (Site job) (URL job) in
  if String.eqb (Status job) StatusQueued || String.eqb (Status job) StatusResolving then
    _ <-? MarkPaused id ;;
    AddEvent id "info" eventMessage
  else if negb (downloader s) then Ret (inl (ESentinel ErrDownloaderNotConfigured))
  else
    match EngineGID job with
    | None => Ret (inl (ESentinel ErrMissingEngineGID))
    | Some gid =>
        r <- call (Aria (PauseGid gid)) ;;
        match r with
        | inl err =>
            if errors_Is err AriaErrActionNotAllowed
            then Ret (inl (errorf_wrap ErrActionNotAllowed err))
            else Ret (inl err)
        | inr _ =>
            _ <-? MarkPaused id ;;
            AddEvent id "info" eventMessage
        end
    end.

Definition resume_requeued (id : Z) : prog (res unit) :=
  _ <-? Requeue id ;;
  AddEvent id "info" "resume requeued".

(** The rest of [Resume], for a job that is not a Webshare job and a set downloader. *)
Definition resume_started (id : Z) (job : Job) : prog (res unit) :=
  match EngineGID job with
  | None => resume_requeued id
  | Some gid =>
      r <- call (Aria (UnpauseGid gid)) ;;
      match r with
      | inl err =>
          if errors_Is err AriaErrGIDNotFound then resume_requeued id
          else if errors_Is err AriaErrActionNotAllowed
          then Ret (inl (errorf_wrap ErrActionNotAllowed err))
          else Ret (inl err)
      | inr _ =>
          _ <-? MarkDownloadingStatus id ;;
          AddEvent id "info" "resumed"
      end
  end.

Definition Resume (s : Service) (id : Z) : prog (res unit) :=
  job <-? Store.GetJob id ;;
  if IsWebshareJob (Site job) (URL job) then after_engine_removed s job (resume_requeued id)
  else if negb (downloader s) then Ret (inl (ESentinel ErrDownloaderNotConfigured))
  else resume_started id job.

(** ** The requests of the API *)

Inductive request : Type :=
  | RCreate (url outDir name site archivePassword : string) (maxAttempts : Z)
  | RList (status : string) (includeDeleted : bool)
  | RGet (id : Z)
  | REvents (id limit : Z)
  | RRetry (id : Z)
  | RRemove (id : Z)
  | RClear
  | RPurge
  | RPause (id : Z)
  | RResume (id : Z).

Definition serve (s : Service) (q : request) : thread :=
  match q with
  | RCreate u o n st pw m => mkThread _ (CreateJob s u o n st pw m)
  | RList st b => mkThread _ (ListJobs st b)
  | RGet id => mkThread _ (GetJob id)
  | REvents id n => mkThread _ (ListEvents id n)
  | RRetry id => mkThread _ (Retry s id)
  | RRemove id => mkThread _ (Remove s id)
  | RClear => mkThread _ Clear
  | RPurge => mkThread _ Purge
  | RPause id => mkThread _ (Pause s id)
  | RResume id => mkThread _ (Resume s id)
  end.
End Service.

(** ** Every request keeps the store's invariant *)

Section Safe.
Context `{UC : Unicode} (s : Service) (I : World -> Prop).
Context {SS : StoreSafe I (new_job_ok (allowedRoots s))}.

Lemma sqlNullString_ok (p : string) : password_ok (sqlNullString (TrimSpace p)).
Proof.
  unfold sqlNullString. destruct (String.eqb _ "") eqn:E; [done|]. bool_prop.
  split; [apply TrimSpace_idem|done].
Qed.

Lemma cleanOutDir_idem (o p : string) (roots : list string) :
  cleanOutDir o roots = inr p -> cleanOutDir p roots = inr p.
Proof.
  unfold cleanOutDir. destruct (String.eqb o "") eqn:E1; [done|].
  destruct (_ =? 0)%nat; [done|]. destruct (IsAbs (Clean o)) eqn:E2; cbn [negb]; [|done].
  destruct (existsb _ _) eqn:E3; [|done]. intros [= <-].
  pose proof (IsAbs_Clean _ E2) as Ha. rewrite Clean_idem_abs, E2 by done. cbn [negb].
  rewrite E3. destruct (String.eqb (Clean o) "") eqn:E4; [|done]. bool_prop. by rewrite E4 in E2.
Qed.

Lemma cleanUserFilename_idem (n c : string) :
  cleanUserFilename n = inr c -> cleanUserFilename c = inr c.
Proof. intros H. pose proof (cleanUserFilename_same n c H) as ->. exact H. Qed.

Lemma CreateJob_safe (u o n st pw : string) (m : Z) : safe I (CreateJob s u o n st pw m).
Proof.
  unfold CreateJob. destruct (cleanOutDir o _) as [e|out] eqn:Eo; [done|].
  destruct (cleanUserFilename n) as [e|nm] eqn:En; [done|].
  apply safe_bind_err; [|intros; client]. apply safe_CreateJob. split_and!.
  - by eapply cleanOutDir_idem.
  - by eapply cleanUserFilename_idem.
  - apply sqlNullString_ok.
  - destruct (m <=? 0)%Z eqn:E; bool_prop; lia.
Qed.

Lemma removeEngineTask_safe (gid : string) : safe I (removeEngineTask s gid).
Proof. unfold removeEngineTask. client. Qed.

Lemma after_engine_removed_safe {A} (j : Job) (p : prog (res A)) :
  safe I p -> safe I (after_engine_removed s j p).
Proof.
  intros Hp. unfold after_engine_removed. destruct (EngineGID j); [|done].
  destruct (downloader s); [|done]. apply safe_bind_err; [apply removeEngineTask_safe|by intros].
Qed.

(** A purge is only for clients whose invariant it keeps. *)
Lemma serve_safe (q : request) : (q = RPurge -> safe I Purge) -> safe I (code (serve s q)).
Proof.
  intros HP. destruct q; cbn [serve code].
  - apply CreateJob_safe.
  - unfold ListJobs. client.
  - unfold GetJob. client.
  - unfold ListEvents. client.
  - unfold Retry. client. apply after_engine_removed_safe. client.
  - unfold Remove. client. apply after_engine_removed_safe. client.
  - unfold Clear. client.
  - by apply HP.
  - unfold Pause. client.
  - unfold Resume. client.
    + apply after_engine_removed_safe. unfold resume_requeued. client.
    + unfold resume_started, resume_requeued. client.
Qed.
End Safe.

(** ** What each request does *)

(** One more event, about job [id]. *)
Definition logged (id : Z) (level msg : string) (d d' : Db) : Prop :=
  exists e, events d' = (events d ++ [e])%list
            /\ EvJobID e = id /\ EvLevel e = level /\ EvMessage e = msg.

(** The row of [id] updated as [f] says at some time [t], nothing else, and one info event. *)
Definition row_logged (id : Z) (f : Z -> Job -> Job) (msg : string) (d d' : Db) : Prop :=
  (exists t, jobs d' = update_rows (has_id id) (f t) (jobs d)) /\ logged id "info" msg d d'.

Section Steps.
Context (env : Env) (Hnf : no_faults env).

Lemma wp_AddEvent_logged (id : Z) (level msg : string) (j : Job) P (w : World) :
  find_job id (db w) = Some j -> events_room (db w) ->
  (forall w', jobs (db w') = jobs (db w) -> logged id level msg (db w) (db w') -> frame w w' ->
     P w' (inr tt)) ->
  wp env (AddEvent id level msg) P w.
Proof.
  intros Hj Hr H. apply wp_AddEvent; [done|]. intros t w' Hd Hf.
  rewrite (insert_event_ok _ _ _ _ _ _ Hj Hr) in *. cbn [fst snd] in *.
  apply H; [by rewrite Hd| |done]. rewrite Hd. by eexists.
Qed.

(** An update by id followed by its event, as most methods of the service end. *)
Lemma wp_update_logged (id : Z) (f : Z -> Job -> Job) (msg : string) (j : Job) P (w : World) :
  (forall t x, ID (f t x) = ID x) -> find_job id (db w) = Some j -> events_room (db w) ->
  (forall w', row_logged id f msg (db w) (db w') -> frame w w' -> P w' (inr tt)) ->
  wp env (_ <-? (t <- now ;; update_job id (f t)) ;; AddEvent id "info" msg) P w.
Proof.
  intros Hid Hj Hr H. apply wp_bind_err, wp_now_update; [done|]. intros t w1 H1 F1.
  assert (find_job id (db w1) = Some (if has_id id j then f t j else j)) as Hj1.
  { rewrite H1, find_update_where by done. by rewrite Hj. }
  eapply wp_AddEvent_logged; [exact Hj1| |].
  - unfold events_room in *. by rewrite H1.
  - intros w2 H2 L2 F2. apply H; [|by etrans]. split.
    + exists t. by rewrite H2, H1.
    + destruct L2 as (e & He & ?). exists e. split; [|done]. by rewrite He, H1.
Qed.
End Steps.

Definition removed_at (t : Z) (j : Job) : Job :=
  j <| Status := StatusDeleted |> <| DeletedAt := Some t |> <| UpdatedAt := t |>.
Definition status_at (s : string) (t : Z) (j : Job) : Job :=
  j <| Status := s |> <| UpdatedAt := t |>.
Definition decrypt_again_at (bytesDone t : Z) (j : Job) : Job :=
  j <| Status := StatusDecrypting |> <| BytesDone := decrypting_bytes bytesDone j |>
    <| DownloadSpeed := Some 0%Z |> <| EtaSeconds := None |> <| UpdatedAt := t |>.

(** What removing a job's engine task asks of aria2, and the error that stops the caller:
    a task aria2 no longer knows is as good as removed. *)
Definition engine_removal (s : Service) (j : Job) (answer : forall r, aria_resp r)
  : list aria_req * option error :=
  match EngineGID j with
  | Some gid =>
      if downloader s && negb (String.eqb (TrimSpace gid) "") then
        ([RemoveGid gid],
         match answer (RemoveGid gid) with
         | inr _ => None
         | inl err => if errors_Is err AriaErrGIDNotFound then None
                      else if errors_Is err AriaErrActionNotAllowed
                           then Some (errorf_wrap ErrActionNotAllowed err) else Some err
         end)
      else ([], None)
  | None => ([], None)
  end.

Lemma wp_after_engine_removed (env : Env) (s : Service) (j : Job) (p : prog (res unit)) P (w : World) :
  let '(reqs, e) := engine_removal s j (aria_at env (clock w)) in
  (forall w', db w' = db w -> frame (w <| requests := (reqs ++ requests w)%list |>) w' ->
    match e with Some err => P w' (inl err) | None => wp env p P w' end) ->
  wp env (after_engine_removed s j p) P w.
Proof.
  unfold engine_removal, after_engine_removed, removeEngineTask. destruct (EngineGID j) as [gid|].
  - destruct (downloader s) eqn:Ed; cbn [andb negb orb].
    + destruct (String.eqb (TrimSpace gid) "") eqn:Eg; cbn [negb]; intros H.
      { apply wp_bind_err, wp_Ret. by apply H. }
      apply wp_bind_err, wp_bind, wp_aria. intros w' Hd Hf. specialize (H w' Hd Hf).
      destruct (aria_at env (clock w) (RemoveGid gid)) as [err|[]].
      * destruct (errors_Is err AriaErrGIDNotFound); [by apply wp_Ret|].
        destruct (errors_Is err AriaErrActionNotAllowed); by apply wp_Ret.
      * by apply wp_Ret.
    + intros H. by apply H.
  - intros H. by apply H.
Qed.

(** [GetJob] first: an unknown id is [sql.ErrNoRows] and nothing happens. *)
Lemma wp_find (env : Env) (id : Z) (f : Job -> prog (res unit)) P (w : World) :
  no_faults env ->
  match find_job id (db w) with
  | None => forall w', db w' = db w -> frame w w' -> P w' (inl (ESentinel ErrNoRows))
  | Some j => wp env (f j) P (moved w 1 (db w))
  end ->
  wp env (job <-? Store.GetJob id ;; f job) P w.
Proof.
  intros Hnf H. apply wp_bind_err. unfold wp. rewrite run_GetJob by done.
  destruct (find_job id (db w)); [exact H|by apply H].
Qed.

Section Specs.
Context `{UC : Unicode} (env : Env) (Hnf : no_faults env).

(** The outcome of a request on job [id]: the requests sent to aria2, and either an error
    with the tables untouched, or success with the row updated and one info event. *)
Definition outcome (id : Z) (w : World) (reqs : list aria_req) (e : option error)
    (f : Z -> Job -> Job) (msg : string) (w' : World) (r : res unit) : Prop :=
  requests w' = (reqs ++ requests w)%list
  /\ match e with
     | Some err => r = inl err /\ db w' = db w
     | None => r = inr tt /\ row_logged id f msg (db w) (db w')
     end.

Lemma wp_removed_then (s : Service) (id : Z) (j : Job) (f : Z -> Job -> Job) (msg : string) (w : World) :
  (forall t x, ID (f t x) = ID x) -> find_job id (db w) = Some j -> events_room (db w) ->
  let '(reqs, e) := engine_removal s j (aria_at env (clock w)) in
  wp env (after_engine_removed s j (_ <-? (t <- now ;; update_job id (f t)) ;; AddEvent id "info" msg))
    (outcome id w reqs e f msg) w.
Proof.
  intros Hid Hj Hr. pose proof (wp_after_engine_removed env s j
    (_ <-? (t <- now ;; update_job id (f t)) ;; AddEvent id "info" msg)) as H.
  specialize (fun P => H P w). destruct (engine_removal _ _ _) as [reqs e]. apply H. clear H.
  intros w1 H1 F1. destruct e as [err|].
  - split; [|done]. by destruct F1 as (-> & _).
  - eapply wp_update_logged; [done..|by rewrite H1|by rewrite H1|]. intros w2 H2 F2. split.
    + destruct F2 as (-> & _), F1 as (-> & _). done.
    + split; [done|]. by rewrite <- H1.
Qed.

(** C30. Removing a known job first asks aria2 to drop its task (when it has one); if aria2
    refuses, the request fails with the mapped error and the job's row is untouched, while a
    task aria2 does not know is no obstacle; otherwise the row is marked deleted, no other
    row changes, and "removed" is logged. *)
Theorem Remove_spec (s : Service) (w : World) (id : Z) (j : Job) :
  find_job id (db w) = Some j -> events_room (db w) ->
  let '(reqs, e) := engine_removal s j (aria_at env (S (clock w))) in
  wp env (Remove s id) (outcome id w reqs e removed_at "removed") w.
Proof.
  intros Hj Hr. pose proof (wp_removed_then s id j removed_at "removed" (moved w 1 (db w))) as H.
  change (clock (moved w 1 (db w))) with (S (clock w)) in H.
  destruct (engine_removal _ _ _) as [reqs e]. apply wp_find; [done|]. rewrite Hj. by apply H.
Qed.

(** C31. Retrying a known job whose extraction failed queues the extraction again without
    touching aria2; retrying any other job drops its aria2 task like a removal does and then
    requeues it: back to queued with error, retry time, resolution, progress and deletion
    mark cleared, and the attempts it has used kept. *)
Theorem Retry_spec (s : Service) (w : World) (id : Z) (j : Job) :
  find_job id (db w) = Some j -> events_room (db w) ->
  let '(reqs, e) := engine_removal s j (aria_at env (S (clock w))) in
  wp env (Retry s id)
    (if String.eqb (Status j) StatusDecryptFail
     then outcome id w [] None (decrypt_again_at (BytesDone j)) "retry decrypt queued"
     else outcome id w reqs e requeue_row "retried") w
  /\ (forall t, Attempts (requeue_row t j) = Attempts j /\ Status (requeue_row t j) = StatusQueued
                /\ NextRetryAt (requeue_row t j) = None /\ EngineGID (requeue_row t j) = None).
Proof.
  intros Hj Hr. pose proof (wp_removed_then s id j requeue_row "retried" (moved w 1 (db w))) as H.
  change (clock (moved w 1 (db w))) with (S (clock w)) in H.
  destruct (engine_removal _ _ _) as [reqs e]. split; [|done]. apply wp_find; [done|]. rewrite Hj.
  destruct (String.eqb (Status j) StatusDecryptFail) eqn:E; [|by apply H].
  eapply (wp_update_logged env Hnf id (decrypt_again_at (BytesDone j))); [done|exact Hj|done|].
  intros w2 H2 F2. split; [|done]. by destruct F2 as (-> & _).
Qed.

(** The answer of [Pause] and [Unpause] as the service reports it. *)
Definition mapped_answer (r : res unit) : option error :=
  match r with
  | inr _ => None
  | inl err => Some (if errors_Is err AriaErrActionNotAllowed
                     then errorf_wrap ErrActionNotAllowed err else err)
  end.

(** What pausing job [j] asks of aria2, and the error that stops it: a job that has not
    started needs no aria2; any other needs a downloader and a task id. *)
Definition pausing (s : Service) (j : Job) (answer : forall r, aria_resp r)
  : list aria_req * option error :=
  if String.eqb (Status j) StatusQueued || String.eqb (Status j) StatusResolving then ([], None)
  else if negb (downloader s) then ([], Some (ESentinel ErrDownloaderNotConfigured))
  else match EngineGID j with
       | None => ([], Some (ESentinel ErrMissingEngineGID))
       | Some gid => ([PauseGid gid], mapped_answer (answer (PauseGid gid)))
       end.

Lemma wp_outcome_update (id : Z) (j : Job) (f : Z -> Job -> Job) (msg : string)
    (reqs : list aria_req) (w0 w : World) :
  (forall t x, ID (f t x) = ID x) -> find_job id (db w0) = Some j -> events_room (db w0) ->
  db w = db w0 -> requests w = (reqs ++ requests w0)%list ->
  wp env (_ <-? (t <- now ;; update_job id (f t)) ;; AddEvent id "info" msg)
    (outcome id w0 reqs None f msg) w.
Proof.
  intros Hid Hj Hr H1 H2. eapply wp_update_logged; [done..|by rewrite H1|by rewrite H1|].
  intros w' Hrow F. split; [by destruct F as (-> & _)|]. split; [done|]. by rewrite <- H1.
Qed.

(** C32. Pausing a known job: queued and resolving jobs are marked paused at once; for any
    other job aria2 must accept the pause first, and a missing downloader, a missing task
    id or aria2's refusal leaves the row untouched.  The event says "stopped" for a Webshare
    job, whose download cannot be resumed, and "paused" otherwise. *)
Theorem Pause_spec (s : Service) (w : World) (id : Z) (j : Job) :
  find_job id (db w) = Some j -> events_room (db w) ->
  let '(reqs, e) := pausing s j (aria_at env (S (clock w))) in
  wp env (Pause s id)
    (outcome id w reqs e (status_at StatusPaused)
       (if IsWebshareJob (Site j) (URL j) then "stopped" else "paused")) w.
Proof.
  intros Hj Hr.
  unfold pausing.
  change (if IsWebshareJob (Site j) (URL j) then "stopped" else "paused")
    with (DisplayStatus StatusPaused (Site j) (URL j)).
  destruct (_ || _) eqn:Es.
  { apply wp_find; [done|]. rewrite Hj. cbn zeta. rewrite Es. by apply (wp_outcome_update id j). }
  destruct (downloader s) eqn:Ed; cbn [negb].
  2: { apply wp_find; [done|]. rewrite Hj. cbn zeta. by rewrite Es, Ed. }
  destruct (EngineGID j) as [gid|] eqn:Eg.
  2: { apply wp_find; [done|]. rewrite Hj. cbn zeta. by rewrite Es, Ed, Eg. }
  apply wp_find; [done|]. rewrite Hj. cbn zeta. rewrite Es, Ed, Eg. cbn [negb].
  apply wp_bind, wp_aria. intros w1 H1 F1. change (clock (moved w 1 (db w))) with (S (clock w)).
  destruct (aria_at env (S (clock w)) (PauseGid gid)) as [err|[]]; cbn [mapped_answer].
  - destruct (errors_Is err AriaErrActionNotAllowed); (split; [by destruct F1 as (-> & _)|done]).
  - apply (wp_outcome_update id j); try done. by destruct F1 as (-> & _).
Qed.

(** What resuming job [j] asks of aria2, the error that stops it, and whether the job is
    requeued instead of resumed in place. *)
Definition resuming (s : Service) (j : Job) (answer : forall r, aria_resp r)
  : list aria_req * option error * bool :=
  if IsWebshareJob (Site j) (URL j) then (engine_removal s j answer, true)
  else if negb (downloader s) then ([], Some (ESentinel ErrDownloaderNotConfigured), true)
  else match EngineGID j with
       | None => ([], None, true)
       | Some gid =>
           match answer (UnpauseGid gid) with
           | inl err => if errors_Is err AriaErrGIDNotFound then ([UnpauseGid gid], None, true)
                        else ([UnpauseGid gid], mapped_answer (inl err), false)
           | inr _ => ([UnpauseGid gid], None, false)
           end
       end.

(** C33. Resuming a known job: a Webshare job drops its aria2 task and starts over from the
    queue; another job is unpaused in aria2 and marked downloading, or starts over when it
    never had a task or aria2 lost it; a missing downloader or any other answer of aria2
    leaves the row untouched. *)
Theorem Resume_spec (s : Service) (w : World) (id : Z) (j : Job) :
  find_job id (db w) = Some j -> events_room (db w) ->
  let '(reqs, e, again) := resuming s j (aria_at env (S (clock w))) in
  wp env (Resume s id)
    (if again : bool then outcome id w reqs e requeue_row "resume requeued"
     else outcome id w reqs e (status_at StatusDownloading) "resumed") w.
Proof.
  intros Hj Hr. pose proof (wp_removed_then s id j requeue_row "resume requeued" (moved w 1 (db w))) as H.
  change (clock (moved w 1 (db w))) with (S (clock w)) in H. unfold resuming.
  destruct (IsWebshareJob (Site j) (URL j)) eqn:Ew.
  - destruct (engine_removal _ _ _) as [reqs e]. apply wp_find; [done|]. rewrite Hj. cbn zeta.
    rewrite Ew. by apply H.
  - assert (forall P, wp env (if negb (downloader s) then Ret (inl (ESentinel ErrDownloaderNotConfigured))
      else resume_started id j) P (moved w 1 (db w)) -> wp env (Resume s id) P w) as Hfind.
    { intros P HP. apply wp_find; [done|]. rewrite Hj. cbn zeta. by rewrite Ew. }
    destruct (downloader s); cbn [negb] in *; [|by apply Hfind].
    unfold resume_started in Hfind. destruct (EngineGID j) as [gid|];
      [|apply Hfind; by apply (wp_outcome_update id j)].
    destruct (aria_at env (S (clock w)) (UnpauseGid gid)) as [err|[]] eqn:Ea; [|].
    + destruct (errors_Is err AriaErrGIDNotFound) eqn:En; apply Hfind, wp_bind, wp_aria;
        intros w1 H1 F1; change (clock (moved w 1 (db w))) with (S (clock w)); rewrite Ea, En.
      * apply (wp_outcome_update id j); try done. by destruct F1 as (-> & _).
      * cbn [mapped_answer].
        destruct (errors_Is err AriaErrActionNotAllowed); (split; [by destruct F1 as (-> & _)|done]).
    + apply Hfind, wp_bind, wp_aria. intros w1 H1 F1.
      change (clock (moved w 1 (db w))) with (S (clock w)). rewrite Ea.
      apply (wp_outcome_update id j); try done. by destruct F1 as (-> & _).
Qed.

(** Requests on an id that is not in the table fail with [sql.ErrNoRows], ask nothing
    of aria2 and change nothing. *)
Theorem unknown_job (s : Service) (w : World) (id : Z) :
  find_job id (db w) = None ->
  Forall (fun p => wp env p (fun w' r => r = inl (ESentinel ErrNoRows) /\ db w' = db w
                                         /\ requests w' = requests w) w)
    [Retry s id; Remove s id; Pause s id; Resume s id].
Proof.
  intros Hn. repeat constructor; (apply wp_find; [done|]; rewrite Hn; intros w' H1 (F1 & _); done).
Qed.

(** [id] is the job a creation from [w] to [w'] added. *)
Definition created (url site out nm : string) (pw : option string) (n : Z) (msg : string)
    (w w' : World) (id : Z) : Prop :=
  exists t, Forall (fun i => (i < id)%Z) (map ID (jobs (db w)))
    /\ jobs (db w') = (jobs (db w) ++ [new_row url site out nm pw n t id])%list
    /\ logged id "info" msg (db w) (db w') /\ requests w' = requests w.

(** The tables with one more job, created at [t], and its event, logged at [t']. *)
Definition created_db (url site out nm : string) (pw : option string) (n : Z) (msg : string)
    (t t' : Z) (d : Db) : Db :=
  let id := next_id (seq_jobs d) (map ID (jobs d)) in
  let eid := next_id (seq_events d) (map EvID (events d)) in
  mkDb (jobs d ++ [new_row url site out nm pw n t id])%list
    (events d ++ [mkEvent eid id "info" msg t'])%list id eid.

Lemma wp_CreateJob_db (s : Service) (w : World) (url outDir name site pw : string) (n : Z)
    (out nm : string) (P : World -> res Z -> Prop) :
  jobs_room (db w) -> events_room (db w) ->
  cleanOutDir outDir (allowedRoots s) = inr out -> cleanUserFilename name = inr nm ->
  let n' := if (n <=? 0)%Z then 5%Z else n in
  (forall w' t t', db w' = created_db url site out nm (sqlNullString (TrimSpace pw)) n'
     (added_message url out nm site (TrimSpace pw) n') t t' (db w) -> frame w w' ->
     P w' (inr (next_id (seq_jobs (db w)) (map ID (jobs (db w)))))) ->
  wp env (CreateJob s url outDir name site pw n) P w.
Proof.
  intros Hj He Ho Hn n' HP. unfold CreateJob. rewrite Ho, Hn. fold n'. apply wp_bind_err. unfold Store.CreateJob.
  apply wp_bind, wp_now. intros t w1 H1 F1. set (row := new_row _ _ _ _ _ _ _).
  destruct (next_id_fresh (seq_jobs (db w)) (map ID (jobs (db w)))) as [_ Hfresh].
  unfold created_db in HP. set (id := next_id (seq_jobs (db w)) (map ID (jobs (db w)))) in *.
  set (d2 := mkDb (jobs (db w) ++ [row id])%list (events (db w)) id (seq_events (db w))).
  assert (insert_job row (db w1) = (d2, inr id)) as Hins.
  { rewrite H1. unfold insert_job. fold id. unfold jobs_room in Hj. fold id in Hj.
    destruct (max_int64 <? id)%Z eqn:E; [bool_prop; lia|done]. }
  unfold wp at 1. rewrite run_Sql by done. rewrite Hins. cbn [fst snd].
  set (w2 := moved w1 1 d2). apply wp_bind.
  assert (find_job id (db w2) = Some (row id)) as Hfind.
  { change (db w2) with d2. unfold find_job, rows_where, d2. cbn [jobs].
    rewrite List.filter_app, fresh_filter_nil by done. cbn. unfold has_id. by rewrite Z.eqb_refl. }
  apply wp_AddEvent; [done|]. intros t' w3 H3 F3. change (db w2) with d2 in *.
  rewrite (insert_event_ok _ _ _ _ d2 _ Hfind He) in *. cbn [fst snd] in *.
  apply (HP w3 t t'); [exact H3|]. etrans; [exact F1|exact F3].
Qed.

Lemma created_db_created url site out nm pw n msg t t' (w w' : World) :
  db w' = created_db url site out nm pw n msg t t' (db w) -> frame w w' ->
  created url site out nm pw n msg w w' (next_id (seq_jobs (db w)) (map ID (jobs (db w)))).
Proof.
  intros H F. exists t. split; [apply next_id_fresh|]. rewrite H. split; [done|].
  split; [|exact (proj1 F)]. by eexists.
Qed.

Lemma wp_CreateJob (s : Service) (w : World) (url outDir name site pw : string) (n : Z)
    (out nm : string) (P : World -> res Z -> Prop) :
  jobs_room (db w) -> events_room (db w) ->
  cleanOutDir outDir (allowedRoots s) = inr out -> cleanUserFilename name = inr nm ->
  let n' := if (n <=? 0)%Z then 5%Z else n in
  (forall w' id, created url site out nm (sqlNullString (TrimSpace pw)) n'
     (added_message url out nm site (TrimSpace pw) n') w w' id -> P w' (inr id)) ->
  wp env (CreateJob s url outDir name site pw n) P w.
Proof.
  intros Hj He Ho Hn n' HP. eapply wp_CreateJob_db; [done..|]. intros w' t t' Hd F.
  by eapply HP, created_db_created.
Qed.

(** C16. Creating a job: an output directory or a name the path rules refuse is an error and
    not one statement is run.  Otherwise the new job's id is returned, its row is the last one
    with the cleaned directory and name, the trimmed password (none if blank) and five
    attempts unless a positive number was asked for, and one info event about it is logged;
    nothing else changes and aria2 is not asked anything. *)
Theorem CreateJob_spec (s : Service) (w : World) (url outDir name site pw : string) (n : Z) :
  jobs_room (db w) -> events_room (db w) ->
  match cleanOutDir outDir (allowedRoots s), cleanUserFilename name with
  | inr out, inr nm =>
      wp env (CreateJob s url outDir name site pw n) (fun w' r => exists id t,
        r = inr id /\ Forall (fun i => (i < id)%Z) (map ID (jobs (db w)))
        /\ jobs (db w') = (jobs (db w) ++ [new_row url site out nm (sqlNullString (TrimSpace pw))
                             (if (n <=? 0)%Z then 5%Z else n) t id])%list
        /\ logged id "info" (added_message url out nm site (TrimSpace pw)
                               (if (n <=? 0)%Z then 5%Z else n)) (db w) (db w')
        /\ requests w' = requests w) w
  | inl e, _ | inr _, inl e => CreateJob s url outDir name site pw n = Ret (inl e)
  end.
Proof.
  intros Hj He. destruct (cleanOutDir outDir _) as [e|out] eqn:Eo; [by unfold CreateJob; rewrite Eo|].
  destruct (cleanUserFilename name) as [e|nm] eqn:En; [by unfold CreateJob; rewrite Eo, En|].
  eapply wp_CreateJob; [done..|]. intros w' id (t & H). by exists id, t.
Qed.

End Specs.

(** ** What the event log shows *)

(** The event log does not depend on the archive password: two creations that differ in
    a non-blank password only leave the same events and report the same, whatever statement
    fails. *)
Theorem CreateJob_hides_password (env : Env) (s : Service) (w : World)
    (url outDir name site pw1 pw2 : string) (n : Z) :
  TrimSpace pw1 <> "" -> TrimSpace pw2 <> "" ->
  let r1 := run env (CreateJob s url outDir name site pw1 n) w in
  let r2 := run env (CreateJob s url outDir name site pw2 n) w in
  events (db (fst r1)) = events (db (fst r2)) /\ snd r1 = snd r2.
Proof.
  intros H1 H2. unfold CreateJob. destruct (cleanOutDir _ _) as [e|out]; [done|].
  destruct (cleanUserFilename name) as [e|nm]; [done|].
  assert (forall m, added_message url out nm site (TrimSpace pw1) m
                    = added_message url out nm site (TrimSpace pw2) m) as Hmsg.
  { intros m. unfold added_message. apply String.eqb_neq in H1, H2. by rewrite H1, H2. }
  generalize (if (n <=? 0)%Z then 5%Z else n) as m. intros m. rewrite (Hmsg m).
  rewrite !run_bind_err. unfold Store.CreateJob. rewrite !run_bind, !run_now, !run_call.
  unfold handle, act. set (w1 := moved w 1 (db w)). clearbody w1.
  destruct (sql_fault env (clock w1)); [done|]. unfold insert_job. cbn -[next_id Z.ltb max_int64].
  set (id := next_id _ _). destruct (max_int64 <? id)%Z; cbn -[next_id Z.ltb max_int64]; [done|].
  destruct (sql_fault env (S (S (clock w1)))); cbn -[next_id Z.ltb max_int64]; [done|].
  unfold insert_event, find_job, rows_where. cbn -[next_id Z.ltb max_int64]. rewrite !List.filter_app.
  cbn -[next_id Z.ltb max_int64]. 
  assert (forall p, has_id id (new_row url site out nm p m (now_at env (clock w)) id) = true) as Hid
    by (intros p; apply Z.eqb_refl). rewrite !Hid.
  destruct (List.filter _ _); cbn -[next_id Z.ltb max_int64]; destruct (max_int64 <? _)%Z;
    cbn -[next_id Z.ltb max_int64]; split; reflexivity.
Qed.

Lemma escape_stars : escape "***" encodeFragment = "***".
Proof. by vm_compute. Qed.

Lemma parse_nofrag_raw (raw : string) (u : url) : parse_nofrag raw = inr u -> RawFragment u = "".
Proof. unfold parse_nofrag. intros H. repeat case_match; by simplify_eq/=. Qed.

Lemma Parse_fragment (raw : string) (u : url) :
  Parse raw = inr u ->
  RawFragment u = "" \/ unescape (RawFragment u) encodeFragment = Some (Fragment u).
Proof.
  unfold Parse. destruct (Cut raw "#") as [[base frag] found].
  destruct (parse_nofrag base) as [e|u0] eqn:E; [done|]. apply parse_nofrag_raw in E.
  destruct (String.eqb frag ""); [intros [= <-]; by left|]. unfold decode_path.
  destruct (unescape frag encodeFragment) as [f|] eqn:Ef; [|done]. intros [= <-]. cbn.
  destruct (String.eqb _ frag); [by left|by right].
Qed.

(** What the "added" event shows of a URL that parses: without a fragment the URL, and
    otherwise the URL with its fragment, where MEGA puts the file key, replaced by three
    stars.  A URL that does not parse is logged as it was given, fragment included. *)
Theorem redactURLForLog_spec (raw : string) :
  match Parse (TrimSpace raw) with
  | inr u => redactURLForLog raw
             = if String.eqb (Fragment u) "" then url_head u
               else if String.eqb (Fragment u) "***" then url_String u
               else url_head u ++ "#***"
  | inl _ => redactURLForLog raw = raw
  end.
Proof.
  unfold redactURLForLog. destruct (Parse (TrimSpace raw)) as [e|u] eqn:Ep; [done|].
  unfold url_String. destruct (String.eqb (Fragment u) "") eqn:E1; [done|].
  change (Fragment (set_fragment u "***")) with "***". change (String.eqb "***" "") with false.
  cbn iota. change (url_head (set_fragment u "***")) with (url_head u).
  unfold EscapedFragment, escaped_hint. cbn [set_fragment RawFragment Fragment].
  destruct (String.eqb (Fragment u) "***") eqn:E2; bool_prop; [by rewrite E2|].
  assert (unescape (RawFragment u) encodeFragment <> Some "***" \/ RawFragment u = "") as Hr.
  { destruct (Parse_fragment _ _ Ep) as [?|Hf]; [by right|left]. rewrite Hf. congruence. }
  rewrite escape_stars. destruct (String.eqb (RawFragment u) "") eqn:E3; [done|]. bool_prop.
  destruct (validEncoded _ _); [|done]. cbn [negb andb].
  destruct (unescape (RawFragment u) encodeFragment) as [v|]; [|done].
  destruct (String.eqb v "***") eqn:E4; [|done]. bool_prop; subst. by destruct Hr.
Qed.

(** The key of a MEGA link is hidden, but not when it holds a stray percent sign. *)
Example redact_examples :
  redactURLForLog "https://mega.nz/file/AbC#SecretKey" = "https://mega.nz/file/AbC#***"
  /\ redactURLForLog "https://mega.nz/file/AbC#Secret%Key" = "https://mega.nz/file/AbC#Secret%Key".
Proof. by vm_compute. Qed.

(** ** Witnesses *)

#[local] Instance ServiceUnicode : Unicode := {| unicode_lower := ascii_lower |}.

Definition sample_service : Service := mkService true ["/data/tv"].

(** Job 7 is downloading under an aria2 task. *)
Definition started_job : Job :=
  (sample_job 7 StatusDownloading None) <| EngineGID := Some "gid-7" |>.
Definition started_world : World := sample_world (mkDb [started_job] [] 7 0).

Lemma started_found : find_job 7 (db started_world) = Some started_job.
Proof. by vm_compute. Qed.

Lemma started_room : events_room (db started_world).
Proof. room. Qed.

Lemma Remove_spec_witness :
  wp (calm_env 200) (Remove sample_service 7)
    (fun w' r => r = inr tt /\ requests w' = [RemoveGid "gid-7"]) started_world.
Proof.
  pose proof (Remove_spec (calm_env 200) (fun _ => eq_refl) sample_service started_world 7 started_job
                started_found started_room) as H.
  assert (engine_removal sample_service started_job (aria_at (calm_env 200) (S (clock started_world)))
          = ([RemoveGid "gid-7"], None)) as He by (vm_compute; reflexivity).
  rewrite He in H.
  eapply wp_mono; [|exact H]. intros w' r [H1 [H2 _]]. by split.
Defined.

Lemma Retry_spec_witness :
  wp (calm_env 200) (Retry sample_service 7)
    (fun w' r => r = inr tt /\ requests w' = [RemoveGid "gid-7"]) started_world.
Proof.
  pose proof (Retry_spec (calm_env 200) (fun _ => eq_refl) sample_service started_world 7 started_job
                started_found started_room) as H.
  assert (engine_removal sample_service started_job (aria_at (calm_env 200) (S (clock started_world)))
          = ([RemoveGid "gid-7"], None)) as He by (vm_compute; reflexivity).
  rewrite He in H.
  assert (String.eqb (Status started_job) StatusDecryptFail = false) as Hs by (vm_compute; reflexivity).
  rewrite Hs in H. destruct H as [H _].
  eapply wp_mono; [|exact H]. intros w' r [H1 [H2 _]]. by split.
Defined.

Lemma Pause_spec_witness :
  wp (calm_env 200) (Pause sample_service 7)
    (fun w' r => r = inr tt /\ requests w' = [PauseGid "gid-7"]
                 /\ logged 7 "info" "paused" (db started_world) (db w')) started_world.
Proof.
  pose proof (Pause_spec (calm_env 200) (fun _ => eq_refl) sample_service started_world 7 started_job
                started_found started_room) as H.
  assert (IsWebshareJob (Site started_job) (URL started_job) = false) as Hw by (vm_compute; reflexivity).
  rewrite Hw in H.
  assert (pausing sample_service started_job (aria_at (calm_env 200) (S (clock started_world)))
          = ([PauseGid "gid-7"], None)) as He by (vm_compute; reflexivity).
  rewrite He in H.
  eapply wp_mono; [|exact H]. intros w' r [H1 [H2 [_ H3]]]. by split_and!.
Defined.

Lemma Resume_spec_witness :
  wp (calm_env 200) (Resume sample_service 7)
    (fun w' r => r = inr tt /\ requests w' = [UnpauseGid "gid-7"]
                 /\ logged 7 "info" "resumed" (db started_world) (db w')) started_world.
Proof.
  pose proof (Resume_spec (calm_env 200) (fun _ => eq_refl) sample_service started_world 7 started_job
                started_found started_room) as H.
  assert (resuming sample_service started_job (aria_at (calm_env 200) (S (clock started_world)))
          = ([UnpauseGid "gid-7"], None, false)) as He by (vm_compute; reflexivity).
  rewrite He in H. eapply wp_mono; [|exact H]. intros w' r [H1 [H2 [_ H3]]]. by split_and!.
Defined.

Lemma unknown_job_witness :
  wp (calm_env 200) (Resume sample_service 9)
    (fun w' r => r = inl (ESentinel ErrNoRows) /\ db w' = db started_world
                 /\ requests w' = requests started_world) started_world.
Proof.
  pose proof (unknown_job (calm_env 200) (fun _ => eq_refl) sample_service started_world 9
                ltac:(by vm_compute)) as H.
  repeat (apply Forall_cons in H as [? H]). done.
Defined.

Lemma CreateJob_spec_witness :
  wp (calm_env 200) (CreateJob sample_service "https://h/f" "/data/tv/x/" "f.bin" "" " pw " 0)
    (fun w' r => exists id, r = inr id /\ requests w' = []
       /\ logged id "info" "added url=https://h/f out=/data/tv/x name=f.bin archive_password=*** max_attempts=5"
            (db started_world) (db w')) started_world.
Proof.
  pose proof (CreateJob_spec (calm_env 200) (fun _ => eq_refl) sample_service started_world
                "https://h/f" "/data/tv/x/" "f.bin" "" " pw " 0 ltac:(room) started_room) as H.
  assert (cleanOutDir "/data/tv/x/" (allowedRoots sample_service) = inr "/data/tv/x") as Ho
    by (vm_compute; reflexivity).
  assert (cleanUserFilename "f.bin" = inr "f.bin") as Hn by (vm_compute; reflexivity).
  rewrite Ho, Hn in H. eapply wp_mono; [|exact H].
  intros w' r (id & t & H1 & _ & _ & H2 & H3). exists id. split; [done|]. split; [done|].
  assert (added_message "https://h/f" "/data/tv/x" "f.bin" "" (TrimSpace " pw ")
            (if (0 <=? 0)%Z then 5%Z else 0%Z)
          = "added url=https://h/f out=/data/tv/x name=f.bin archive_password=*** max_attempts=5")
    as Hm by (vm_compute; reflexivity).
  by rewrite Hm in H2.
Defined.

Lemma CreateJob_hides_password_witness :
  snd (run (calm_env 200) (CreateJob sample_service "u" "/data/tv" "" "" "one" 3) started_world)
  = snd (run (calm_env 200) (CreateJob sample_service "u" "/data/tv" "" "" "two" 3) started_world).
Proof.
  apply (CreateJob_hides_password (calm_env 200) sample_service started_world "u" "/data/tv" "" ""
           "one" "two" 3); by vm_compute.
Defined.
