(* ===== verification/Api.v ===== *)
(** * internal/api/http.go: the HTTP handlers

    A request is what net/http hands to the handlers: the method, the parsed URL and, for the
    handlers that read a body, the outcome of decoding it (encoding/json, and the limit of
    [withRequestLimit]).  A handler is a program that ends in a response: a status code and
    what is encoded as the body.  Lines of the process log are left out.

    [serve_http] is [Server.Handler]: the routing of [http.ServeMux] over the handlers. *)

From S2P Require Import Prelude GoStrings GoPath GoUrl GoError Schema Files Effects Settings.
From S2P Require Import Status Paths Store StoreInv Service.

#[local] Open Scope string_scope.

(** ** Requests and responses *)

(** [json.NewDecoder(r.Body).Decode(&x)]. *)
Inductive decoded (X : Type) : Type :=
  | BodyTooLarge
  | BodyInvalid (err : error)
  | BodyOk (x : X).
Arguments BodyTooLarge {X}.
Arguments BodyInvalid {X} err.
Arguments BodyOk {X} x.

Record addJobRequest : Type := mkAddJob {
  AddURL : string;
  AddOutDir : string;
  AddName : string;
  AddSite : string;
  AddPassword : string;
  AddMaxAttempts : Z
}.

(** The body as each handler that reads one would decode it. *)
Record http_request : Type := mkRequest {
  Method : string;
  ReqURL : url;
  as_add : decoded addJobRequest;
  as_updates : decoded (gmap string json);
  as_mkdir : decoded string
}.

Record browseResponse : Type := mkBrowse {
  BrowsePath : string;
  Parent : string;
  Dirs : list string;
  IsRoot : bool
}.

Record Meta : Type := mkMeta { OutDirPresets : list string; Version : string }.

(** What [writeJSON] encodes.  [EParse] is the error of [strconv.ParseInt] on the text. *)
Inductive resp_body : Type :=
  | NoBody
  | EError (err : error)
  | EParse (text : string) (err : num_error)
  | BStatusOk
  | BId (id : Z)
  | BJobs (l : list JobView)
  | BJob (j : JobView)
  | BEvents (l : list string)
  | BMeta (m : Meta)
  | BSettings (s : SettingsState)
  | BBrowse (b : browseResponse)
  | BMkdir (path : string).

Record response : Type := mkResponse { Code : Z; RespBody : resp_body }.

Record Server : Type := mkServer {
  Queue : Service;
  ServerMeta : option Meta;
  SettingsPath : option string          (* the settings' file; [None] without settings *)
}.

(** [s.Settings != nil]. *)
Definition HasSettings (s : Server) : bool := match SettingsPath s with Some _ => true | None => false end.

(** ** Writing responses *)

Definition writeJSON (code : Z) (b : resp_body) : prog response := Ret (mkResponse code b).

Definition writeErr (code : Z) (err : error) : prog response := writeJSON code (EError err).

Definition methodNotAllowed : prog response := Ret (mkResponse 405 NoBody).

Definition notFound : prog response := Ret (mkResponse 404 NoBody).

Definition validation_errors : list string :=
  ["missing out_dir"; "no DATA_* volumes configured"; "out_dir must be absolute";
   "out_dir is not within an allowed DATA_* volume"; "name must not contain path separators";
   "invalid name"].

Definition statusForQueueErr (err : error) : Z :=
  if errors_Is err ErrNoRows then 404
  else if errors_Is err ErrMissingEngineGID then 409
  else if errors_Is err ErrActionNotAllowed then 409
  else if errors_Is err ErrDownloaderNotConfigured then 503
  else if existsb (String.eqb (error_text err)) validation_errors then 400
  else 500.

Definition writeQueueErr (err : error) : prog response := writeErr (statusForQueueErr err) err.

(** [err := p; if err != nil { writeQueueErr } else { ... }]. *)
Definition or_queue_err {X} (p : prog (res X)) (k : X -> prog response) : prog response :=
  r <- p ;;
  match r with inl err => writeQueueErr err | inr x => k x end.

Definition or_internal {X} (p : prog (res X)) (k : X -> prog response) : prog response :=
  r <- p ;;
  match r with inl err => writeErr 500 err | inr x => k x end.

Definition with_body {X} (b : decoded X) (k : X -> prog response) : prog response :=
  match b with
  | BodyTooLarge => writeErr 413 (ENew "request body too large")
  | BodyInvalid err => writeErr 400 err
  | BodyOk x => k x
  end.

Definition statusOk (_ : unit) : prog response := writeJSON 200 BStatusOk.

(** ** Paths of the directory browser *)

Definition presets (s : Server) : list string :=
  match ServerMeta s with Some m => OutDirPresets m | None => [] end.

Definition under_root (cleanPath root : string) : bool :=
  let cleanRoot := Clean root in
  String.eqb cleanPath cleanRoot || HasPrefix cleanPath (cleanRoot ++ "/").

Definition isAllowedPath (s : Server) (path : string) : bool :=
  existsb (under_root (Clean path)) (presets s).

Definition isRootPreset (s : Server) (path : string) : bool :=
  existsb (fun root => String.eqb (Clean path) (Clean root)) (presets s).

(** ** The handlers *)

Section Handlers.
Context `{UC : Unicode} (s : Server).

Definition handleMeta (r : http_request) : prog response :=
  if negb (String.eqb (Method r) "GET") then methodNotAllowed
  else writeJSON 200 (BMeta (default (mkMeta [] "") (ServerMeta s))).

(** The attempts of a new job: the request's, or the settings' when it asks for none. *)
Definition attempts_asked (asked : Z) : prog Z :=
  if (asked <=? 0)%Z && HasSettings s then
    set <- call GetSettings ;;
    Ret (if (0 <? SetMaxAttempts set)%Z then SetMaxAttempts set else asked)
  else Ret asked.

Definition handleAdd (req : addJobRequest) : prog response :=
  if String.eqb (AddURL req) "" || String.eqb (AddOutDir req) ""
  then writeErr 400 (ENew "missing url or out_dir")
  else
    maxAttempts <- attempts_asked (AddMaxAttempts req) ;;
    or_queue_err
      (CreateJob (Queue s) (AddURL req) (AddOutDir req) (AddName req) (AddSite req)
         (AddPassword req) maxAttempts)
      (fun id => writeJSON 200 (BId id)).

Definition handleJobs (r : http_request) : prog response :=
  if String.eqb (Method r) "GET" then
    let status := QueryGet (ReqURL r) "status" in
    let includeDeleted := String.eqb (QueryGet (ReqURL r) "include_deleted") "1" in
    or_internal (ListJobs status includeDeleted) (fun jobs => writeJSON 200 (BJobs jobs))
  else if String.eqb (Method r) "POST" then with_body (as_add r) handleAdd
  else methodNotAllowed.

Definition events_limit (r : http_request) : Z :=
  let v := QueryGet (ReqURL r) "limit" in
  if String.eqb v "" then 0
  else match Atoi v with (n, None) => n | (_, Some _) => 0 end.

Definition post_only (r : http_request) (p : prog (res unit)) : prog response :=
  if negb (String.eqb (Method r) "POST") then methodNotAllowed else or_queue_err p statusOk.

(** [parts[1]] of the path and the job's id. *)
Definition job_action (r : http_request) (id : Z) (action : string) : prog response :=
  if String.eqb action "events" then
    or_queue_err (ListEvents id (events_limit r)) (fun l => writeJSON 200 (BEvents l))
  else if String.eqb action "retry" then post_only r (Retry (Queue s) id)
  else if String.eqb action "remove" then post_only r (Remove (Queue s) id)
  else if String.eqb action "pause" then
    if negb (String.eqb (Method r) "POST") then methodNotAllowed
    else GetJob id ;; or_queue_err (Pause (Queue s) id) statusOk
  else if String.eqb action "resume" then post_only r (Resume (Queue s) id)
  else notFound.

Definition handleJob (r : http_request) : prog response :=
  match split_char char_slash (TrimPrefix (Path (ReqURL r)) "/jobs/") with
  | [] => notFound
  | part :: rest =>
      match ParseInt part, rest with
      | (_, Some err), _ => writeJSON 400 (EParse part err)
      | (id, None), [] =>
          if negb (String.eqb (Method r) "GET") then methodNotAllowed
          else or_queue_err (GetJob id) (fun job => writeJSON 200 (BJob job))
      | (id, None), action :: _ => job_action r id action
      end
  end.

Definition handleJobsClear (r : http_request) : prog response :=
  if negb (String.eqb (Method r) "POST") then methodNotAllowed
  else or_internal Clear statusOk.

Definition handleJobsPurge (r : http_request) : prog response :=
  if negb (String.eqb (Method r) "POST") then methodNotAllowed
  else or_internal Purge statusOk.

Definition updateSettings (path : string) (updates : gmap string json) : prog response :=
  updated <- call (UpdateSettings (Update updates)) ;;
  match updated with
  | inl err => writeErr 400 err
  | inr _ =>
      or_internal (Save path) (fun _ => set <- call GetSettings ;; writeJSON 200 (BSettings set))
  end.

Definition handleSettings (r : http_request) : prog response :=
  match SettingsPath s with
  | None => writeErr 500 (ENew "settings not initialized")
  | Some path =>
      if String.eqb (Method r) "GET" then
        set <- call GetSettings ;; writeJSON 200 (BSettings set)
      else if String.eqb (Method r) "POST" then with_body (as_updates r) (updateSettings path)
      else methodNotAllowed
  end.

Definition browse_listing (path : string) (entries : list (string * bool)) : browseResponse :=
  let dirs := merge_sort string_le (map fst (List.filter snd entries)) in
  let parent := if String.eqb (Dir path) path then "" else Dir path in
  mkBrowse path parent dirs (isRootPreset s path).

Definition handleBrowse (r : http_request) : prog response :=
  if negb (String.eqb (Method r) "GET") then methodNotAllowed
  else
    let path := QueryGet (ReqURL r) "path" in
    if String.eqb path "" then writeJSON 200 (BBrowse (mkBrowse "" "" (presets s) true))
    else if negb (isAllowedPath s path) then writeErr 403 (ENew "path not allowed")
    else
      info <- call (Os (StatDir path)) ;;
      match info with
      | inl err =>
          if errors_Is err ErrNotExist then writeErr 404 (ENew "path not found")
          else writeErr 500 err
      | inr false => writeErr 400 (ENew "path is not a directory")
      | inr true =>
          or_internal (call (Os (ReadDir path)))
            (fun entries => writeJSON 200 (BBrowse (browse_listing path entries)))
      end.

Definition makeDirectory (path : string) : prog response :=
  if String.eqb path "" then writeErr 400 (ENew "path required")
  else if negb (isAllowedPath s path) then writeErr 403 (ENew "path not allowed")
  else or_internal (call (Os (MkdirAll path))) (fun _ => writeJSON 200 (BMkdir path)).

Definition handleBrowseMkdir (r : http_request) : prog response :=
  if negb (String.eqb (Method r) "POST") then methodNotAllowed
  else with_body (as_mkdir r) makeDirectory.

(** ** Routing *)

(** [cleanPath] of net/http: a cleaned path that keeps its trailing slash. *)
Definition cleanPath (p : string) : string :=
  if String.eqb p "" then "/"
  else
    let p := if HasPrefix p "/" then p else "/" ++ p in
    let np := Clean p in
    if HasSuffix p "/" && negb (String.eqb np "/") then np ++ "/" else np.

(** The segments the patterns are matched against, each unescaped. *)
Definition path_segments (p : string) : list string :=
  map (fun seg => default seg (unescape seg encodePath)) (split_char char_slash p).

(** The patterns without a trailing slash, each with its handler. *)
Definition routes : list (list string * (http_request -> prog response)) :=
  [([""; "meta"], handleMeta); ([""; "jobs"], handleJobs);
   ([""; "jobs"; "clear"], handleJobsClear); ([""; "jobs"; "purge"], handleJobsPurge);
   ([""; "api"; "settings"], handleSettings);
   ([""; "api"; "browse"; "mkdir"], handleBrowseMkdir); ([""; "api"; "browse"], handleBrowse)].

(** The most specific pattern: an exact one, or "/jobs/" with anything after it. *)
Definition route (segments : list string) : option (http_request -> prog response) :=
  match List.find (fun e => bool_decide (fst e = segments)) routes with
  | Some (_, h) => Some h
  | None =>
      match segments with
      | a :: b :: _ :: _ => if String.eqb a "" && String.eqb b "jobs" then Some handleJob else None
      | _ => None
      end
  end.

(** A path that is not clean is redirected, but not that of a CONNECT request. *)
Definition serve_http (r : http_request) : prog response :=
  let path := EscapedPath (ReqURL r) in
  if negb (String.eqb (Method r) "CONNECT") && negb (String.eqb (cleanPath path) path)
  then Ret (mkResponse 301 NoBody)
  else match route (path_segments path) with
       | Some h => h r
       | None => notFound
       end.
End Handlers.

(** ** Every request keeps the store's invariant *)

Section Safe.
Context `{UC : Unicode} (s : Server) (I : World -> Prop).
Context {SS : StoreSafe I (new_job_ok (allowedRoots (Queue s)))}.
Context (HU : forall u, step_ok I (UpdateSettings u)).

Lemma or_queue_err_safe {X} (p : prog (res X)) (k : X -> prog response) :
  safe I p -> (forall x, safe I (k x)) -> safe I (or_queue_err p k).
Proof. intros Hp Hk. apply safe_bind; [done|]. intros [e|x]; [done|apply Hk]. Qed.

Lemma or_internal_safe {X} (p : prog (res X)) (k : X -> prog response) :
  safe I p -> (forall x, safe I (k x)) -> safe I (or_internal p k).
Proof. intros Hp Hk. apply safe_bind; [done|]. intros [e|x]; [done|apply Hk]. Qed.

Lemma with_body_safe {X} (b : decoded X) (k : X -> prog response) :
  (forall x, safe I (k x)) -> safe I (with_body b k).
Proof. intros Hk. destruct b; [done..|apply Hk]. Qed.

(** A service request as a part of a handler. *)
Lemma served (q : request) : (q = RPurge -> safe I Purge) -> safe I (code (serve (Queue s) q)).
Proof. intros HP. by apply serve_safe. Qed.

Lemma handleAdd_safe (req : addJobRequest) : safe I (handleAdd s req).
Proof.
  unfold handleAdd, attempts_asked. case_bool; [done|]. apply safe_bind; [client|].
  intros n. apply or_queue_err_safe; [|done]. by apply (served (RCreate _ _ _ _ _ _)).
Qed.

Lemma job_action_safe (r : http_request) (id : Z) (a : string) : safe I (job_action s r id a).
Proof.
  unfold job_action, post_only.
  repeat (case_bool; [try apply or_queue_err_safe; try done|]); try done;
    repeat (case_bool; [done|]).
  - by apply (served (REvents id _)).
  - apply or_queue_err_safe; [by apply (served (RRetry id))|done].
  - apply or_queue_err_safe; [by apply (served (RRemove id))|done].
  - apply safe_bind; [by apply (served (RGet id))|]. intros _.
    apply or_queue_err_safe; [by apply (served (RPause id))|done].
  - apply or_queue_err_safe; [by apply (served (RResume id))|done].
Qed.

Lemma updateSettings_safe (path : string) (u : gmap string json) : safe I (updateSettings path u).
Proof.
  unfold updateSettings. apply safe_bind; [by apply safe_call|]. intros [e|x]; [done|].
  apply or_internal_safe; [|intros _; client; done]. unfold Save, save_settings. client.
Qed.

Lemma makeDirectory_safe (path : string) : safe I (makeDirectory s path).
Proof.
  unfold makeDirectory. repeat (case_bool; [done|]). apply or_internal_safe; [client|done].
Qed.

Lemma handleJob_safe (r : http_request) : safe I (handleJob s r).
Proof.
  unfold handleJob. destruct (split_char _ _) as [|part rest]; [done|].
  destruct (ParseInt part) as [id [err|]]; [done|]. destruct rest as [|a rest].
  - case_bool; [done|]. apply or_queue_err_safe; [by apply (served (RGet id))|done].
  - apply job_action_safe.
Qed.

Lemma handleBrowse_safe (r : http_request) : safe I (handleBrowse s r).
Proof.
  unfold handleBrowse. repeat (case_bool; [done|]). apply safe_bind; [client|].
  intros [e|[]]; [by case_bool| |done]. apply or_internal_safe; [client|done].
Qed.

Lemma handleJobs_safe (r : http_request) : safe I (handleJobs s r).
Proof.
  unfold handleJobs. case_bool; [|case_bool; [|done]].
  - apply or_internal_safe; [by apply (served (RList _ _))|done].
  - apply with_body_safe, handleAdd_safe.
Qed.

Lemma handleSettings_safe (r : http_request) : safe I (handleSettings s r).
Proof.
  unfold handleSettings. destruct (SettingsPath s) as [path|]; [|done].
  case_bool; [client; done|]. case_bool; [|done].
  apply with_body_safe, updateSettings_safe.
Qed.
End Safe.

(** The path of a purge. *)
Definition purge_segments : list string := [""; "jobs"; "purge"].

Definition purges (r : http_request) : Prop :=
  Method r = "POST" /\ path_segments (EscapedPath (ReqURL r)) = purge_segments.

(** A property of every handler is a property of whatever a path is routed to. *)
Lemma route_handlers `{UC : Unicode} (s : Server) (P : (http_request -> prog response) -> Prop) :
  P (handleMeta s) -> P (handleJobs s) -> P handleJobsClear ->
  P (handleSettings s) -> P (handleBrowseMkdir s) -> P (handleBrowse s) -> P (handleJob s) ->
  forall segments h, (segments = purge_segments -> P handleJobsPurge) -> route s segments = Some h -> P h.
Proof.
  intros H1 H2 H3 H5 H6 H7 H8 segments h H4. unfold route.
  destruct (List.find _ _) as [[p g]|] eqn:E.
  - apply find_some in E as [E Hp]. apply bool_decide_eq_true in Hp. cbn in Hp. subst. intros [= <-].
    cbn in E. by repeat (destruct E as [[= <- <-]|E]; [first [assumption | by apply H4]|]).
  - destruct segments as [|a [|b [|c l]]]; try done. case_bool; [|done]. by intros [= <-].
Qed.

Lemma serve_http_safe `{UC : Unicode} (s : Server) (I : World -> Prop)
    {SS : StoreSafe I (new_job_ok (allowedRoots (Queue s)))} (r : http_request) :
  (forall u, step_ok I (UpdateSettings u)) -> (purges r -> safe I Purge) -> safe I (serve_http s r).
Proof.
  intros HU HP. unfold serve_http. case_bool; [done|].
  destruct (route s _) as [h|] eqn:E; [|done]. revert E.
  apply (route_handlers s (fun h => safe I (h r))).
  - unfold handleMeta. by case_bool.
  - by apply handleJobs_safe.
  - unfold handleJobsClear. case_bool; [done|].
    apply or_internal_safe; [by apply (served s I RClear)|done].
  - by apply handleSettings_safe.
  - unfold handleBrowseMkdir. case_bool; [done|]. apply with_body_safe.
    intros path. by apply makeDirectory_safe.
  - by apply handleBrowse_safe.
  - by apply handleJob_safe.
  - intros Hp. unfold handleJobsPurge. case_bool; [done|]. bool_prop.
    apply or_internal_safe; [by apply HP|done].
Qed.

(** ** Only POST requests change anything *)

Lemma quiet_or_queue_err {X} (p : prog (res X)) (k : X -> prog response) :
  quiet p -> (forall x, quiet (k x)) -> quiet (or_queue_err p k).
Proof. intros Hp Hk. apply quiet_bind; [done|]. intros [e|x]; [apply quiet_Ret|apply Hk]. Qed.

Lemma quiet_or_internal {X} (p : prog (res X)) (k : X -> prog response) :
  quiet p -> (forall x, quiet (k x)) -> quiet (or_internal p k).
Proof. intros Hp Hk. apply quiet_bind; [done|]. intros [e|x]; [apply quiet_Ret|apply Hk]. Qed.

Lemma quiet_view {A B} (p : prog (res A)) (f : A -> B) :
  quiet p -> quiet (x <-? p ;; Ret (inr (f x))).
Proof. intros Hp. apply quiet_bind; [done|]. intros [e|x]; apply quiet_Ret. Qed.

Section Get.
Context `{UC : Unicode} (s : Server) (r : http_request) (Hm : Method r <> "POST").

Lemma not_post : String.eqb (Method r) "POST" = false.
Proof using Hm. by apply String.eqb_neq. Qed.

Lemma handleJob_quiet : quiet (handleJob s r).
Proof using Hm.
  unfold handleJob. destruct (split_char _ _) as [|part rest]; [apply quiet_Ret|].
  destruct (ParseInt part) as [id [err|]]; [apply quiet_Ret|]. destruct rest as [|a rest].
  - case_bool; [apply quiet_Ret|]. apply quiet_or_queue_err; [|intros; apply quiet_Ret].
    apply quiet_view, query_row_quiet.
  - unfold job_action, post_only. rewrite not_post. cbn [negb].
    repeat (case_bool; [try apply quiet_Ret|]); try apply quiet_Ret.
    apply quiet_or_queue_err; [|intros; apply quiet_Ret]. apply query_quiet.
Qed.

Lemma handleBrowse_quiet : quiet (handleBrowse s r).
Proof.
  unfold handleBrowse. repeat (case_bool; [apply quiet_Ret|]).
  apply quiet_bind; [by apply quiet_call_out|]. intros [e|[]]; [case_bool; apply quiet_Ret| |apply quiet_Ret].
  apply quiet_or_internal; [by apply quiet_call_out|]. intros; apply quiet_Ret.
Qed.

(** A request whose method is not POST changes nothing, call by call, whatever runs at the
    same time: neither the tables nor the settings nor the runner's state, and aria2 is not
    asked anything. *)
Theorem only_post_changes : quiet (serve_http s r).
Proof using Hm.
  unfold serve_http. case_bool; [apply quiet_Ret|].
  destruct (route s _) as [h|] eqn:E; [|apply quiet_Ret]. revert E.
  apply (route_handlers s (fun h => quiet (h r))).
  - unfold handleMeta. case_bool; apply quiet_Ret.
  - unfold handleJobs. rewrite not_post. case_bool; [|apply quiet_Ret].
    apply quiet_or_internal; [|intros; apply quiet_Ret]. apply quiet_view, query_quiet.
  - unfold handleJobsClear. rewrite not_post. apply quiet_Ret.
  - unfold handleSettings. rewrite not_post. destruct (SettingsPath s); [|apply quiet_Ret].
    case_bool; [|apply quiet_Ret]. apply quiet_bind; [by apply quiet_call_out|].
    intros; apply quiet_Ret.
  - unfold handleBrowseMkdir. rewrite not_post. apply quiet_Ret.
  - apply handleBrowse_quiet.
  - apply handleJob_quiet.
  - intros _. unfold handleJobsPurge. rewrite not_post. apply quiet_Ret.
Qed.
End Get.
