(* ===== verification/ApiSpec.v ===== *)
(** * What the HTTP handlers answer

    The shape of every response, creation and actions on jobs through the handlers, and the
    agreement of the directory browser with the queue's rule for output directories. *)

From S2P Require Import Prelude GoStrings GoPath GoUrl GoError Schema Files Effects Settings.
From S2P Require Import Status Paths Store StoreInv StoreSpec Wp Service Api.

#[local] Open Scope string_scope.

(** ** The shape of responses *)

(** A success carries a value, an error its text; only a missing route, a refused method and
    a redirect have no body. *)
Definition well_typed (r : response) : Prop :=
  match RespBody r with
  | NoBody => Code r ∈ [301; 404; 405]%Z
  | EError _ | EParse _ _ => Code r ∈ [400; 403; 404; 409; 413; 500; 503]%Z
  | _ => Code r = 200%Z
  end.

Lemma status_typed (e : error) : statusForQueueErr e ∈ [400; 403; 404; 409; 413; 500; 503]%Z.
Proof.
  unfold statusForQueueErr.
  repeat (case_bool; [apply (bool_decide_unpack _); vm_compute; exact Logic.I|]).
  apply (bool_decide_unpack _); vm_compute; exact Logic.I.
Qed.

Lemma code_listed (code : Z) (l : list Z) : existsb (Z.eqb code) l = true -> code ∈ l.
Proof. rewrite existsb_exists. intros (x & Hx & He). bool_prop. subst. by apply list_elem_of_In. Qed.

Lemma or_queue_err_typed {X} (p : prog (res X)) (k : X -> prog response) :
  (forall x, rets well_typed (k x)) -> rets well_typed (or_queue_err p k).
Proof. intros Hk. apply rets_bind. intros [e|x]; [apply status_typed|apply Hk]. Qed.

Lemma or_internal_typed {X} (p : prog (res X)) (k : X -> prog response) :
  (forall x, rets well_typed (k x)) -> rets well_typed (or_internal p k).
Proof. intros Hk. apply rets_bind. intros [e|x]; [by apply code_listed|apply Hk]. Qed.

Lemma with_body_typed {X} (b : decoded X) (k : X -> prog response) :
  (forall x, rets well_typed (k x)) -> rets well_typed (with_body b k).
Proof. intros Hk. destruct b; [by apply code_listed..|apply Hk]. Qed.

Section Typed.
Context `{UC : Unicode} (s : Server) (r : http_request).

Lemma post_only_typed (p : prog (res unit)) : rets well_typed (post_only r p).
Proof. unfold post_only. case_bool; [by apply code_listed|]. by apply or_queue_err_typed. Qed.

Lemma handleJob_typed : rets well_typed (handleJob s r).
Proof.
  unfold handleJob. destruct (split_char _ _) as [|part rest]; [by apply code_listed|].
  destruct (ParseInt part) as [id [err|]]; [by apply code_listed|]. destruct rest as [|a rest].
  - case_bool; [by apply code_listed|]. by apply or_queue_err_typed.
  - unfold job_action. case_bool; [by apply or_queue_err_typed|].
    repeat (case_bool; [first [apply post_only_typed | by apply code_listed]|]).
    repeat case_bool; try apply post_only_typed; try by apply code_listed.
    apply rets_bind. intros _. by apply or_queue_err_typed.
Qed.

(** C26. Every response is well typed: a body that is a value comes with status 200, an error
    text with a client or server error of the API's list, and an empty body only with 301,
    404 and 405. *)
Theorem serve_http_typed : rets well_typed (serve_http s r).
Proof.
  unfold serve_http. case_bool; [by apply code_listed|].
  destruct (route s _) as [h|] eqn:E; [|by apply code_listed]. revert E.
  apply (route_handlers s (fun h => rets well_typed (h r))).
  - unfold handleMeta. case_bool; [by apply code_listed|done].
  - unfold handleJobs. case_bool; [by apply or_internal_typed|]. case_bool; [|by apply code_listed].
    apply with_body_typed. intros req. unfold handleAdd. case_bool; [by apply code_listed|].
    apply rets_bind. intros n. by apply or_queue_err_typed.
  - unfold handleJobsClear. case_bool; [by apply code_listed|]. by apply or_internal_typed.
  - unfold handleSettings. destruct (SettingsPath s); [|by apply code_listed]. case_bool; [by apply rets_bind|].
    case_bool; [|by apply code_listed]. apply with_body_typed. intros u. apply rets_bind.
    intros [e|x]; [by apply code_listed|]. apply or_internal_typed. intros _. by apply rets_bind.
  - unfold handleBrowseMkdir. case_bool; [by apply code_listed|]. apply with_body_typed.
    intros path. unfold makeDirectory. repeat (case_bool; [by apply code_listed|]).
    by apply or_internal_typed.
  - unfold handleBrowse. case_bool; [by apply code_listed|]. case_bool; [done|].
    case_bool; [by apply code_listed|]. apply rets_bind. intros [e|[]].
    + case_bool; by apply code_listed.
    + by apply or_internal_typed.
    + by apply code_listed.
  - apply handleJob_typed.
  - intros _. unfold handleJobsPurge. case_bool; [by apply code_listed|]. by apply or_internal_typed.
Qed.
End Typed.

(** ** Requests on jobs *)

Section Requests.
Context `{UC : Unicode} (env : Env) (Hnf : no_faults env) (s : Server) (r : http_request).

(** A clean path that is one of the fixed ones. *)
Lemma serve_jobs :
  EscapedPath (ReqURL r) = "/jobs" -> serve_http s r = handleJobs s r.
Proof using Type.
  intros Hp. unfold serve_http. rewrite Hp.
  assert (String.eqb (cleanPath "/jobs") "/jobs" = true) as -> by (vm_compute; reflexivity).
  assert (path_segments "/jobs" = [""; "jobs"]) as -> by (vm_compute; reflexivity).
  rewrite andb_false_r. reflexivity.
Qed.

(** The attempts of a job that is added with [asked]. *)
Definition attempts (asked : Z) (set : SettingsState) : Z :=
  if (asked <=? 0)%Z && HasSettings s && (0 <? SetMaxAttempts set)%Z
  then SetMaxAttempts set else asked.

Lemma wp_attempts_asked (asked : Z) P (w : World) :
  (forall w', db w' = db w -> frame w w' -> P w' (attempts asked (settings w))) ->
  wp env (attempts_asked s asked) P w.
Proof using Type.
  intros H. unfold attempts_asked, attempts in *. destruct (_ && HasSettings s); cbn [andb] in *.
  - apply wp_bind, wp_settings. intros w' Hd Hf. by apply wp_Ret, H.
  - by apply wp_Ret, H.
Qed.

Lemma cleanOutDir_refused (o : string) (roots : list string) (e : error) :
  cleanOutDir o roots = inl e -> statusForQueueErr e = 400%Z.
Proof using Type.
  unfold cleanOutDir. destruct (String.eqb o ""); [by intros [= <-]|].
  destruct (_ =? 0)%nat; [by intros [= <-]|]. destruct (IsAbs (Clean o)); cbn [negb]; [|by intros [= <-]].
  destruct (existsb _ _); [done|by intros [= <-]].
Qed.

Lemma cleanUserFilename_refused (n : string) (e : error) :
  cleanUserFilename n = inl e -> statusForQueueErr e = 400%Z.
Proof using Type.
  unfold cleanUserFilename. destruct (String.eqb n ""); [done|].
  destruct (_ || _); [by intros [= <-]|]. destruct (_ || _); [by intros [= <-]|done].
Qed.

(** The attempts of the new row. *)
Definition row_attempts (req : addJobRequest) (set : SettingsState) : Z :=
  let n := attempts (AddMaxAttempts req) set in if (n <=? 0)%Z then 5%Z else n.

(** The tables after a request to add a job was accepted. *)
Definition added_db (req : addJobRequest) (out nm : string) (set : SettingsState) (t t' : Z) (d : Db) : Db :=
  created_db (AddURL req) (AddSite req) out nm (sqlNullString (TrimSpace (AddPassword req)))
    (row_attempts req set)
    (added_message (AddURL req) out nm (AddSite req) (TrimSpace (AddPassword req)) (row_attempts req set))
    t t' d.

Lemma wp_handleAdd (req : addJobRequest) (w : World) (P : World -> response -> Prop) :
  jobs_room (db w) -> events_room (db w) ->
  (if String.eqb (AddURL req) "" || String.eqb (AddOutDir req) ""
   then forall w', db w' = db w -> frame w w' -> P w' (mkResponse 400 (EError (ENew "missing url or out_dir")))
   else match cleanOutDir (AddOutDir req) (allowedRoots (Queue s)), cleanUserFilename (AddName req) with
        | inr out, inr nm => forall w' t t', db w' = added_db req out nm (settings w) t t' (db w) ->
            frame w w' -> P w' (mkResponse 200 (BId (next_id (seq_jobs (db w)) (map ID (jobs (db w))))))
        | inl e, _ | inr _, inl e =>
            forall w', db w' = db w -> frame w w' -> P w' (mkResponse 400 (EError e))
        end) ->
  wp env (handleAdd s req) P w.
Proof using Hnf.
  intros Hj He HP. unfold handleAdd.
  destruct (_ || _); [by apply wp_Ret, HP|]. apply wp_bind, wp_attempts_asked. intros w1 H1 F1.
  unfold or_queue_err. apply wp_bind.
  destruct (cleanOutDir (AddOutDir req) _) as [e|out] eqn:Eo.
  { unfold CreateJob. rewrite Eo. do 2 apply wp_Ret. rewrite (cleanOutDir_refused _ _ _ Eo). by apply HP. }
  destruct (cleanUserFilename (AddName req)) as [e|nm] eqn:En.
  { unfold CreateJob. rewrite Eo, En. do 2 apply wp_Ret. rewrite (cleanUserFilename_refused _ _ En). by apply HP. }
  eapply wp_CreateJob_db; [done|by rewrite H1|by rewrite H1|exact Eo|exact En|].
  intros w' t t' Hd F. apply wp_Ret. rewrite H1 in *. apply (HP w' t t'); [exact Hd|by etrans].
Qed.

(** C22. POST /jobs.  A request without a URL or a directory, or with a directory or a name
    the path rules refuse, is answered 400 with the reason and changes nothing; any other is
    answered 200 with the id of a new job: the cleaned row with the attempts asked for, else
    those of the settings, else five. *)
Theorem add_job (req : addJobRequest) (w : World) :
  Method r = "POST" -> EscapedPath (ReqURL r) = "/jobs" -> as_add r = BodyOk req ->
  jobs_room (db w) -> events_room (db w) ->
  let n' := row_attempts req (settings w) in
  wp env (serve_http s r) (fun w' resp =>
    if String.eqb (AddURL req) "" || String.eqb (AddOutDir req) ""
    then resp = mkResponse 400 (EError (ENew "missing url or out_dir")) /\ db w' = db w
    else match cleanOutDir (AddOutDir req) (allowedRoots (Queue s)), cleanUserFilename (AddName req) with
         | inr out, inr nm => exists id, resp = mkResponse 200 (BId id)
             /\ created (AddURL req) (AddSite req) out nm (sqlNullString (TrimSpace (AddPassword req)))
                  n' (added_message (AddURL req) out nm (AddSite req) (TrimSpace (AddPassword req)) n')
                  w w' id
         | inl e, _ | inr _, inl e => resp = mkResponse 400 (EError e) /\ db w' = db w
         end) w.
Proof using Hnf.
  intros Hm Hp Hb Hj He n'. rewrite serve_jobs by done. unfold handleJobs. rewrite Hm, Hb.
  cbn [String.eqb Ascii.eqb Bool.eqb with_body]. apply wp_handleAdd; [done..|].
  destruct (_ || _); [by intros|].
  destruct (cleanOutDir (AddOutDir req) _) as [e|out]; [by intros|].
  destruct (cleanUserFilename (AddName req)) as [e|nm]; [by intros|].
  intros w' t t' Hd F. eexists. split; [done|]. by eapply created_db_created.
Qed.

(** A request for a job that does not exist, to show it or to act on it, is answered 404
    with [sql.ErrNoRows]; the tables and aria2 are not touched. *)
Theorem unknown_job_404 (w : World) (id : Z) (part : string) (rest : list string) :
  split_char char_slash (TrimPrefix (Path (ReqURL r)) "/jobs/") = part :: rest ->
  ParseInt part = (id, None) -> find_job id (db w) = None ->
  match rest with
  | [] => Method r = "GET"
  | action :: _ => Method r = "POST" /\ action ∈ ["retry"; "remove"; "pause"; "resume"]
  end ->
  wp env (handleJob s r) (fun w' resp =>
    resp = mkResponse 404 (EError (ESentinel ErrNoRows))
    /\ db w' = db w /\ requests w' = requests w) w.
Proof using Hnf.
  intros Hs Hi Hf Hr. unfold handleJob. rewrite Hs, Hi.
  assert (forall (p : prog (res unit)) w0, db w0 = db w -> requests w0 = requests w ->
    (forall P, (forall w', db w' = db w0 -> frame w0 w' -> P w' (inl (ESentinel ErrNoRows))) ->
       wp env p P w0) ->
    wp env (or_queue_err p statusOk) (fun w' resp =>
      resp = mkResponse 404 (EError (ESentinel ErrNoRows))
      /\ db w' = db w /\ requests w' = requests w) w0) as Herr.
  { intros p w0 H1 H2 H. apply wp_bind, H. intros w' H3 F. apply wp_Ret. rewrite H3, H1.
    split; [done|]. split; [done|]. rewrite <- H2. by destruct F as (-> & _). }
  assert (forall (f : Job -> prog (res unit)) w0, db w0 = db w -> forall (P : World -> res unit -> Prop),
    (forall w', db w' = db w0 -> frame w0 w' -> P w' (inl (ESentinel ErrNoRows))) ->
    wp env (job <-? Store.GetJob id ;; f job) P w0) as Hget.
  { intros f w0 H1 P H. apply wp_find; [done|].
    assert (find_job id (db w0) = None) as -> by by rewrite H1. exact H. }
  destruct rest as [|action rest].
  - rewrite Hr. cbn [String.eqb Ascii.eqb Bool.eqb negb]. apply wp_bind, wp_bind_err, wp_GetJob; [done|].
    rewrite Hf. intros w' H1 F. apply wp_Ret. split; [done|]. split; [done|]. by destruct F as (-> & _).
  - destruct Hr as [Hm Ha]. unfold job_action, post_only. rewrite Hm.
    rewrite !elem_of_cons, elem_of_nil in Ha. destruct Ha as [->|[->|[->|[->|[]]]]];
      cbn [String.eqb Ascii.eqb Bool.eqb negb].
    + apply Herr; [done..|]. by apply Hget.
    + apply Herr; [done..|]. by apply Hget.
    + apply wp_bind, wp_bind_err, wp_GetJob; [done|]. rewrite Hf. intros w1 H1 F1.
      apply Herr; [done|by destruct F1 as (-> & _)|]. by apply Hget.
    + apply Herr; [done..|]. by apply Hget.
Qed.
End Requests.

(** ** The directory browser and the queue's rule for output directories *)

Lemma path_join_app (r q : list string) :
  r <> [] -> q <> [] -> path_join (r ++ q) = path_join r ++ String char_slash (path_join q).
Proof. intros Hr Hq. unfold path_join. by rewrite Join_app. Qed.

Lemma path_split_prefix (r : list string) (q : string) :
  r <> [] -> Forall proper_elem r ->
  path_split (path_join r ++ String char_slash q) = (r ++ path_split q)%list.
Proof.
  intros Hne Hr. induction Hr as [|x r (_ & _ & _ & Hx) Hr IH]; [done|].
  destruct r as [|y r]; [by apply split_char_app|].
  change (path_join (x :: y :: r)) with (x ++ String char_slash (path_join (y :: r))).
  rewrite <- str_app_assoc. change (String char_slash (path_join (y :: r)) ++ _)
    with (String char_slash (path_join (y :: r) ++ String char_slash q)).
  unfold path_split in *. rewrite split_char_app by done. cbn [app]. f_equal. by apply IH.
Qed.

(** The browser's test, on absolute paths: [root] itself or, unless that is the root of the
    file system, something below it. *)
Lemma under_root_iff (path root : string) :
  IsAbs path = true -> IsAbs root = true ->
  under_root (Clean path) root = true
  <-> exists rest, clean_list path = (clean_list root ++ rest)%list
                   /\ (clean_list root = [] -> rest = []).
Proof.
  intros Hp Hr. unfold under_root. rewrite (Clean_rooted path), (Clean_rooted root) by done.
  pose proof (clean_list_proper path Hp) as Hl. pose proof (clean_list_proper root Hr) as Hr'.
  set (l := clean_list path) in *. set (r := clean_list root) in *. split.
  - intros H. apply orb_true_iff in H as [H|H]; bool_prop.
    + apply (f_equal elems_of) in H. rewrite !elems_of_rooted in H by done. exists [].
      by rewrite app_nil_r.
    + apply HasPrefix_iff in H as [q H]. rewrite <- str_app_assoc in H. cbn in H.
      injection H as H. destruct l as [|a l].
      { change (path_join []) with "" in H. by destruct (path_join r). }
      apply (f_equal path_split) in H. rewrite path_split_join in H by done.
      destruct r as [|b r].
      * cbn in H. unfold path_split in H. cbn in H. injection H as -> _.
        apply Forall_cons in Hl as [[]]. done.
      * rewrite path_split_prefix in H by done. by exists (path_split q).
  - intros (rest & -> & Hrest). apply orb_true_iff. destruct rest as [|a rest].
    { left. rewrite app_nil_r. apply String.eqb_refl. }
    right. apply HasPrefix_iff. destruct r as [|b r]; [by specialize (Hrest eq_refl)|].
    exists (path_join (a :: rest)). rewrite path_join_app by done. cbn.
    by rewrite <- str_app_assoc.
Qed.

(** C23. The directory browser and the queue agree.  With absolute roots, the paths the
    browser shows and creates are the absolute ones that lie, element by element, under some
    root, except that a root "/" gives nothing below it; so when no root is "/", they are
    exactly the directories in which a job may be created. *)
Theorem browse_agrees (s : Server) (path : string) :
  Forall (fun root => IsAbs root = true) (presets s) ->
  (isAllowedPath s path = true
   <-> IsAbs path = true
       /\ exists root rest, root ∈ presets s /\ clean_list path = (clean_list root ++ rest)%list
                            /\ (clean_list root = [] -> rest = []))
  /\ (Forall (fun root => clean_list root <> []) (presets s) ->
      isAllowedPath s path = is_ok (cleanOutDir path (presets s))).
Proof.
  intros Habs. assert (isAllowedPath s path = true
   <-> IsAbs path = true
       /\ exists root rest, root ∈ presets s /\ clean_list path = (clean_list root ++ rest)%list
                            /\ (clean_list root = [] -> rest = [])) as Hiff.
  { unfold isAllowedPath. rewrite existsb_exists. rewrite Forall_forall in Habs. split.
    - intros (root & Hin & Hu). apply list_elem_of_In in Hin. specialize (Habs _ Hin).
      destruct (IsAbs path) eqn:Ea.
      + split; [done|]. apply under_root_iff in Hu as (rest & ?); [|done..]. by exists root, rest.
      + destruct (IsAbs (Clean path)) eqn:Ec; [by rewrite (IsAbs_Clean _ Ec) in Ea|].
        unfold under_root in Hu. rewrite (Clean_rooted root) in Hu by done.
        apply orb_true_iff in Hu as [Hu|Hu]; bool_prop; [by rewrite Hu, IsAbs_cons in Ec|].
        apply HasPrefix_iff in Hu as [q Hu].
        assert (IsAbs (Clean path) = true) by (rewrite Hu; apply IsAbs_cons). congruence.
    - intros (Ha & root & rest & Hin & H). exists root. split; [by apply list_elem_of_In|].
      apply under_root_iff; [done|by apply Habs|]. by exists rest. }
  split; [done|]. intros Hne. apply eq_true_iff_eq. rewrite Hiff. unfold is_ok.
  rewrite Forall_forall in Habs, Hne. split.
  - intros (Ha & root & rest & Hin & Hl & _).
    assert (cleanOutDir path (presets s) = inr (Clean path)) as ->; [|done].
    apply cleanOutDir_iff. split; [done|]. split; [done|]. exists root, rest. auto.
  - destruct (cleanOutDir path _) as [e|p] eqn:E; [done|]. intros _.
    apply cleanOutDir_iff in E as (-> & Ha & root & rest & Hin & _ & Hl). split; [done|].
    exists root, rest. split; [done|]. split; [done|]. intros H. by apply Hne in H.
Qed.

(** ** Witnesses *)

#[local] Instance ApiUnicode : Unicode := {| unicode_lower := ascii_lower |}.

Definition api_server : Server :=
  mkServer sample_service (Some (mkMeta ["/data/tv"] "dev")) (Some "/state/settings.json").

Definition url_to (path query : string) : url :=
  mkURL "" "" None "" path "" false false query "" "".

Definition request_to (method path query : string) : http_request :=
  mkRequest method (url_to path query) (BodyInvalid (ENew "")) (BodyInvalid (ENew ""))
    (BodyInvalid (ENew "")).

Definition post_job (req : addJobRequest) : http_request :=
  mkRequest "POST" (url_to "/jobs" "") (BodyOk req) (BodyInvalid (ENew "")) (BodyInvalid (ENew "")).

Definition sample_add : addJobRequest := mkAddJob "https://h/f" "/data/tv/x/" "f.bin" "" "" 0.

Lemma add_job_witness :
  wp (calm_env 200) (serve_http api_server (post_job sample_add))
    (fun w' resp => exists id, resp = mkResponse 200 (BId id)) started_world.
Proof.
  pose proof (add_job (calm_env 200) (fun _ => eq_refl) api_server (post_job sample_add) sample_add
                started_world eq_refl ltac:(by vm_compute) eq_refl ltac:(room) started_room) as H.
  assert (String.eqb (AddURL sample_add) "" || String.eqb (AddOutDir sample_add) "" = false) as H1
    by (vm_compute; reflexivity).
  assert (cleanOutDir (AddOutDir sample_add) (allowedRoots (Queue api_server)) = inr "/data/tv/x") as H2
    by (vm_compute; reflexivity).
  assert (cleanUserFilename (AddName sample_add) = inr "f.bin") as H3 by (vm_compute; reflexivity).
  rewrite H1, H2, H3 in H. cbv zeta in H. eapply wp_mono; [|exact H]. intros w' r (id & Hr & _). by exists id.
Defined.

Lemma unknown_job_404_witness :
  wp (calm_env 200) (handleJob api_server (request_to "POST" "/jobs/9/pause" ""))
    (fun w' resp => resp = mkResponse 404 (EError (ESentinel ErrNoRows))) started_world.
Proof.
  eapply wp_mono; [|apply (unknown_job_404 (calm_env 200) (fun _ => eq_refl) api_server
    (request_to "POST" "/jobs/9/pause" "") started_world 9 "9" ["pause"])].
  - by intros w' r [H _].
  - by vm_compute.
  - by vm_compute.
  - by vm_compute.
  - split; [done|]. apply list_elem_of_In. vm_compute. tauto.
Defined.

Lemma browse_agrees_witness :
  isAllowedPath api_server "/data/tv/../tv/show" = is_ok (cleanOutDir "/data/tv/../tv/show" ["/data/tv"]).
Proof.
  apply (browse_agrees api_server "/data/tv/../tv/show").
  - by constructor.
  - constructor; [by vm_compute|constructor].
Defined.

Lemma only_post_changes_witness :
  db (fst (run (calm_env 200) (serve_http api_server (request_to "GET" "/jobs" "status=queued"))
             started_world)) = db started_world.
Proof.
  pose proof (only_post_changes api_server (request_to "GET" "/jobs" "status=queued") ltac:(done)) as H.
  exact (proj1 (quiet_run (calm_env 200) _ started_world H)).
Defined.
