(* ===== verification/ApiJson.v ===== *)
(** * What the API and its client write on the wire

    The bodies of internal/api/http.go and internal/queue/service.go as encoding/json writes and
    reads them: the request that adds a job, the answers, and the views of jobs, which the
    command line client (cmd/dlq/types.go) reads back. *)

From S2P Require Import Prelude GoStrings GoTime GoError GoJson Schema Effects Settings Service Api.

#[local] Open Scope string_scope.

(** ** Adding a job *)

Section Decode.
Context `{JE : JsonErrors}.

Definition add_fields : list (field addJobRequest) :=
  [("url", fun v r => s ← decode_string v (AddURL r);
      Some (mkAddJob s (AddOutDir r) (AddName r) (AddSite r) (AddPassword r) (AddMaxAttempts r)));
   ("out_dir", fun v r => s ← decode_string v (AddOutDir r);
      Some (mkAddJob (AddURL r) s (AddName r) (AddSite r) (AddPassword r) (AddMaxAttempts r)));
   ("name", fun v r => s ← decode_string v (AddName r);
      Some (mkAddJob (AddURL r) (AddOutDir r) s (AddSite r) (AddPassword r) (AddMaxAttempts r)));
   ("site", fun v r => s ← decode_string v (AddSite r);
      Some (mkAddJob (AddURL r) (AddOutDir r) (AddName r) s (AddPassword r) (AddMaxAttempts r)));
   ("archive_password", fun v r => s ← decode_string v (AddPassword r);
      Some (mkAddJob (AddURL r) (AddOutDir r) (AddName r) (AddSite r) s (AddMaxAttempts r)));
   ("max_attempts", fun v r => n ← decode_int v (AddMaxAttempts r);
      Some (mkAddJob (AddURL r) (AddOutDir r) (AddName r) (AddSite r) (AddPassword r) n))].

Definition decode_add_value (v : value) : option addJobRequest :=
  decode_struct add_fields v (mkAddJob "" "" "" "" "" 0).

(** The body of POST /jobs, within the limit of [withRequestLimit]. *)
Definition decode_add (text : string) : decoded addJobRequest :=
  match v ← Decode text; decode_add_value v with
  | Some r => BodyOk r
  | None => BodyInvalid (json_error text)
  end.
End Decode.

(** ** Answers *)

(** A field with [omitempty]. *)
Definition unless_empty (key s : string) : list (string * value) :=
  if String.eqb s "" then [] else [(key, Str s)].

Definition unless_zero (key : string) (n : Z) : list (string * value) :=
  if (n =? 0)%Z then [] else [(key, Num (Itoa n))].

Definition view_value (v : JobView) : value :=
  Obj ([("id", Num (Itoa (VID v))); ("url", Str (VURL v)); ("site", Str (VSite v));
        ("out_dir", Str (VOutDir v)); ("name", Str (VName v)); ("status", Str (VStatus v))]
       ++ unless_empty "filename" (VFilename v) ++ unless_zero "size_bytes" (VSizeBytes v)
       ++ [("bytes_done", Num (Itoa (VBytesDone v)));
           ("download_speed", Num (Itoa (VDownloadSpeed v)));
           ("eta_seconds", Num (Itoa (VEtaSeconds v)))]
       ++ unless_empty "error" (VError v) ++ unless_empty "error_code" (VErrorCode v)
       ++ [("created_at", Str (format_rfc3339 (VCreatedAt v)));
           ("updated_at", Str (format_rfc3339 (VUpdatedAt v)))])%list.

(** The body of an error. *)
Definition error_value (err : error) : value := Obj [("error", Str (error_text err))].

(** ** The client's side: cmd/dlq/types.go *)

Record jobView : Type := mkView {
  JID : Z; JURL : string; JSite : string; JOutDir : string; JName : string; JStatus : string;
  JFilename : string; JSizeBytes : Z; JBytesDone : Z; JDownloadSpeed : Z; JEtaSeconds : Z;
  JError : string; JErrorCode : string; JCreatedAt : string; JUpdatedAt : string
}.

Ltac derive_view := derive_assign constr:((mkView, JID, JURL, JSite, JOutDir, JName, JStatus,
  JFilename, JSizeBytes, JBytesDone, JDownloadSpeed, JEtaSeconds, JError, JErrorCode, JCreatedAt,
  JUpdatedAt)).

#[local] Instance assign_JID : Assign JID. Proof. derive_view. Defined.
#[local] Instance assign_JURL : Assign JURL. Proof. derive_view. Defined.
#[local] Instance assign_JSite : Assign JSite. Proof. derive_view. Defined.
#[local] Instance assign_JOutDir : Assign JOutDir. Proof. derive_view. Defined.
#[local] Instance assign_JName : Assign JName. Proof. derive_view. Defined.
#[local] Instance assign_JStatus : Assign JStatus. Proof. derive_view. Defined.
#[local] Instance assign_JFilename : Assign JFilename. Proof. derive_view. Defined.
#[local] Instance assign_JSizeBytes : Assign JSizeBytes. Proof. derive_view. Defined.
#[local] Instance assign_JBytesDone : Assign JBytesDone. Proof. derive_view. Defined.
#[local] Instance assign_JDownloadSpeed : Assign JDownloadSpeed. Proof. derive_view. Defined.
#[local] Instance assign_JEtaSeconds : Assign JEtaSeconds. Proof. derive_view. Defined.
#[local] Instance assign_JError : Assign JError. Proof. derive_view. Defined.
#[local] Instance assign_JErrorCode : Assign JErrorCode. Proof. derive_view. Defined.
#[local] Instance assign_JCreatedAt : Assign JCreatedAt. Proof. derive_view. Defined.
#[local] Instance assign_JUpdatedAt : Assign JUpdatedAt. Proof. derive_view. Defined.

Definition text_field {A} (name : string) (get : A -> string) (set : string -> A -> A) : field A :=
  (name, fun v a => s ← decode_string v (get a); Some (set s a)).

Definition int_member {A} (name : string) (get : A -> Z) (set : Z -> A -> A) : field A :=
  (name, fun v a => n ← decode_int v (get a); Some (set n a)).

Definition view_fields : list (field jobView) :=
  [int_member "id" JID (fun n j => j <| JID := n |>);
   text_field "url" JURL (fun s j => j <| JURL := s |>);
   text_field "site" JSite (fun s j => j <| JSite := s |>);
   text_field "out_dir" JOutDir (fun s j => j <| JOutDir := s |>);
   text_field "name" JName (fun s j => j <| JName := s |>);
   text_field "status" JStatus (fun s j => j <| JStatus := s |>);
   text_field "filename" JFilename (fun s j => j <| JFilename := s |>);
   int_member "size_bytes" JSizeBytes (fun n j => j <| JSizeBytes := n |>);
   int_member "bytes_done" JBytesDone (fun n j => j <| JBytesDone := n |>);
   int_member "download_speed" JDownloadSpeed (fun n j => j <| JDownloadSpeed := n |>);
   int_member "eta_seconds" JEtaSeconds (fun n j => j <| JEtaSeconds := n |>);
   text_field "error" JError (fun s j => j <| JError := s |>);
   text_field "error_code" JErrorCode (fun s j => j <| JErrorCode := s |>);
   text_field "created_at" JCreatedAt (fun s j => j <| JCreatedAt := s |>);
   text_field "updated_at" JUpdatedAt (fun s j => j <| JUpdatedAt := s |>)].

Definition zero_view : jobView := mkView 0 "" "" "" "" "" "" 0 0 0 0 "" "" "" "".

(** [json.Decoder.Decode] into a nil slice of views. *)
Definition decode_views (text : string) : option (list jobView) :=
  v ← Decode text;
  match v with
  | Null => Some []
  | Arr l => mapM (fun x => decode_struct view_fields x zero_view) l
  | _ => None
  end.

(** ** What one side writes the other reads *)

(** The view as the client has it. *)
Definition client_view (v : JobView) : jobView :=
  mkView (VID v) (to_valid (VURL v)) (to_valid (VSite v)) (to_valid (VOutDir v)) (to_valid (VName v))
    (to_valid (VStatus v)) (to_valid (VFilename v)) (VSizeBytes v) (VBytesDone v) (VDownloadSpeed v)
    (VEtaSeconds v) (to_valid (VError v)) (to_valid (VErrorCode v))
    (to_valid (format_rfc3339 (VCreatedAt v))) (to_valid (format_rfc3339 (VUpdatedAt v))).

(** The numbers of a view are int64s. *)
Definition int64 (z : Z) : Prop := (min_int64 <= z <= max_int64)%Z.

Definition view_ok (v : JobView) : Prop :=
  int64 (VID v) /\ int64 (VSizeBytes v) /\ int64 (VBytesDone v) /\ int64 (VDownloadSpeed v)
  /\ int64 (VEtaSeconds v).

(** Reading members one after the other. *)
Definition reads (l : list (string * value)) (a b : jobView) : Prop :=
  foldl (fun acc kv => a ← acc; set_member view_fields kv a) (Some a) l = Some b.

Lemma reads_nil (a : jobView) : reads [] a a.
Proof. done. Qed.

Lemma reads_app (l1 l2 : list (string * value)) (a b c : jobView) :
  reads l1 a b -> reads l2 b c -> reads (l1 ++ l2) a c.
Proof. unfold reads. intros H1 H2. by rewrite foldl_app, H1. Qed.

Lemma reads_text (k s : string) (set : string -> jobView -> jobView) (get : jobView -> string)
    (l : list (string * value)) (a b : jobView) :
  List.find (fun f => String.eqb k (fst f) || EqualFold_ascii k (fst f)) view_fields
    = Some (text_field k get set) ->
  reads l (set s a) b -> reads ((k, Str s) :: l) a b.
Proof. unfold reads, set_member. intros Hf Hl. cbn [foldl fst snd mbind option_bind]. by rewrite Hf. Qed.

Lemma reads_int (k : string) (n : Z) (set : Z -> jobView -> jobView) (get : jobView -> Z)
    (l : list (string * value)) (a b : jobView) :
  List.find (fun f => String.eqb k (fst f) || EqualFold_ascii k (fst f)) view_fields
    = Some (int_member k get set) ->
  int64 n -> reads l (set n a) b -> reads ((k, Num (Itoa n)) :: l) a b.
Proof.
  unfold reads, set_member. intros Hf Hn Hl. cbn [foldl fst snd mbind option_bind]. rewrite Hf.
  unfold int_member. cbn [snd]. by rewrite decode_int_Itoa.
Qed.

(** Keeps the records as their fields. *)
Ltac fields_only :=
  cbv [assign assign_JID assign_JURL assign_JSite assign_JOutDir assign_JName assign_JStatus
    assign_JFilename assign_JSizeBytes assign_JBytesDone assign_JDownloadSpeed assign_JEtaSeconds
    assign_JError assign_JErrorCode assign_JCreatedAt assign_JUpdatedAt zero_view
    JID JURL JSite JOutDir JName JStatus JFilename JSizeBytes JBytesDone JDownloadSpeed JEtaSeconds
    JError JErrorCode JCreatedAt JUpdatedAt].

Ltac read_members :=
  repeat first
    [ apply reads_nil
    | eapply reads_text; [reflexivity|]; fields_only
    | eapply reads_int; [reflexivity|assumption|]; fields_only ].

Definition coerce_member (kv : string * value) : string * value := (to_valid (fst kv), coerce (snd kv)).

Lemma reads_unless_empty (k s : string) (set : string -> jobView -> jobView) (get : jobView -> string)
    (a : jobView) :
  to_valid k = k ->
  List.find (fun f => String.eqb k (fst f) || EqualFold_ascii k (fst f)) view_fields
    = Some (text_field k get set) ->
  set "" a = a -> reads (map coerce_member (unless_empty k s)) a (set (to_valid s) a).
Proof.
  intros Hk Hf Ha. unfold unless_empty. destruct (String.eqb s "") eqn:E; bool_prop.
  - subst. change (to_valid "") with "". rewrite Ha. apply reads_nil.
  - change (map coerce_member [(k, Str s)]) with [(to_valid k, Str (to_valid s))]. rewrite Hk.
    by eapply reads_text, reads_nil.
Qed.

Lemma reads_unless_zero (k : string) (n : Z) (set : Z -> jobView -> jobView) (get : jobView -> Z)
    (a : jobView) :
  to_valid k = k -> int64 n ->
  List.find (fun f => String.eqb k (fst f) || EqualFold_ascii k (fst f)) view_fields
    = Some (int_member k get set) ->
  set 0%Z a = a -> reads (map coerce_member (unless_zero k n)) a (set n a).
Proof.
  intros Hk Hn Hf Ha. unfold unless_zero. destruct (n =? 0)%Z eqn:E; bool_prop.
  - subst. rewrite Ha. apply reads_nil.
  - change (map coerce_member [(k, Num (Itoa n))]) with [(to_valid k, Num (Itoa n))]. rewrite Hk.
    eapply reads_int; [done..|apply reads_nil].
Qed.

Lemma decode_view (v : JobView) :
  view_ok v -> decode_struct view_fields (coerce (view_value v)) zero_view = Some (client_view v).
Proof.
  intros (H1 & H2 & H3 & H4 & H5). unfold view_value. cbn [coerce decode_struct].
  change (fun kv : string * value => (to_valid (fst kv), coerce (snd kv))) with coerce_member.
  rewrite !map_app.
  match goal with |- foldl _ _ ?l = Some ?b => change (reads l zero_view b) end.
  eapply reads_app; [unfold coerce_member; cbn [map fst snd coerce]; read_members|].
  eapply reads_app.
  { apply (reads_unless_empty "filename" _ (fun s j => j <| JFilename := s |>) JFilename);
      [reflexivity..|fields_only; reflexivity]. }
  fields_only. eapply reads_app.
  { apply (reads_unless_zero "size_bytes" _ (fun n j => j <| JSizeBytes := n |>) JSizeBytes);
      [reflexivity|assumption|reflexivity|fields_only; reflexivity]. }
  fields_only. eapply reads_app; [unfold coerce_member; cbn [map fst snd coerce]; read_members|].
  eapply reads_app.
  { apply (reads_unless_empty "error" _ (fun s j => j <| JError := s |>) JError);
      [reflexivity..|fields_only; reflexivity]. }
  fields_only. eapply reads_app.
  { apply (reads_unless_empty "error_code" _ (fun s j => j <| JErrorCode := s |>) JErrorCode);
      [reflexivity..|fields_only; reflexivity]. }
  fields_only. unfold coerce_member; cbn [map fst snd coerce]. unfold client_view.
  eapply reads_text; [reflexivity|]. eapply reads_text; [reflexivity|]. fields_only. reflexivity.
Qed.

Lemma view_value_flat (v : JobView) : well_formed (view_value v) /\ (nesting (view_value v) <= 1)%Z.
Proof.
  assert (Forall (fun kv => well_formed (snd kv) /\ (nesting (snd kv) <= 0)%Z)
            (match view_value v with Obj l => l | _ => [] end)) as H.
  { unfold view_value, unless_empty, unless_zero.
    repeat (apply Forall_app; split); repeat case_bool;
      repeat (apply Forall_cons; split; [split; [first [apply Itoa_is_number|exact Logic.I]|cbn; lia]|]);
      apply Forall_nil; exact Logic.I. }
  split; [apply well_formed_Obj|apply (nesting_Obj _ 0); [lia|]]; (eapply Forall_impl; [exact H|by intros kv []]).
Qed.

(** The request of the client's command add: cmd/dlq/add.go.  A map's keys are in order. *)
Definition add_payload (urlStr outDir name site archivePassword : string) : value :=
  Obj [("archive_password", Str archivePassword); ("name", Str name); ("out_dir", Str outDir);
       ("site", Str site); ("url", Str urlStr)].

Lemma decode_add_payload `{JE : JsonErrors} (u o n s pw : string) :
  decode_add (Marshal (add_payload u o n s pw))
  = BodyOk (mkAddJob (to_valid u) (to_valid o) (to_valid n) (to_valid s) (to_valid pw) 0).
Proof.
  unfold decode_add. rewrite Decode_Marshal; [|repeat split|by vm_compute].
  cbn [mbind option_bind add_payload coerce map fst snd]. generalize (to_valid u) (to_valid o) (to_valid n)
    (to_valid s) (to_valid pw). intros. reflexivity.
Qed.

(** The list of jobs, and anything that does not continue it. *)
Lemma decode_views_text (l : list JobView) (rest : string) :
  Forall view_ok l -> stops rest ->
  decode_views (Marshal (Arr (map view_value l)) ++ rest) = Some (map client_view l).
Proof.
  intros Hl Hs. unfold decode_views. rewrite Decode_Marshal_rest; [| | |done].
  - cbn [mbind option_bind coerce]. induction Hl as [|v l Hv Hl IH]; [done|].
    cbn [map mapM]. rewrite decode_view by done. cbn [mbind option_bind]. by rewrite IH.
  - apply well_formed_Arr, Forall_map, Forall_true. intros v. apply view_value_flat.
  - etrans; [apply (nesting_Arr _ 1); [lia|]|unfold maxNestingDepth; lia].
    apply Forall_map, Forall_true. intros v. apply view_value_flat.
Qed.

(** The API and its command line client understand each other: the body of the client's
    request to add a job is decoded by the API's handler as a request with exactly these
    values and no maximum of attempts, and the list of jobs that the API answers is decoded
    by the client as these jobs, in order, the fields left out when empty included; text that
    is not UTF-8 has its bad bytes replaced on the way. *)
Theorem client_server_agree `{JE : JsonErrors} (u o n s pw : string) (l : list JobView)
  (Hl : Forall view_ok l) :
  decode_add (Marshal (add_payload u o n s pw))
  = BodyOk (mkAddJob (to_valid u) (to_valid o) (to_valid n) (to_valid s) (to_valid pw) 0)
  /\ decode_views (Marshal (Arr (map view_value l))) = Some (map client_view l).
Proof.
  split; [apply decode_add_payload|].
  pose proof (decode_views_text l "" Hl Logic.I) as H. by rewrite str_app_nil_r in H.
Qed.

Lemma client_server_agree_witness :
  let JE := {| json_error_text := fun _ => "invalid character" |} in
  let v := mkJobView 7 "https://mega.nz/#!a!b" "mega" "/data/tv" "" "failed" "a.rar" 0 12 0 (-1)
             "no space" "disk" 0 1700000000 in
  decode_add (Marshal (add_payload "https://mega.nz/#!a!b" "/data/tv" "" "mega" "x"))
  = BodyOk (mkAddJob "https://mega.nz/#!a!b" "/data/tv" "" "mega" "x" 0)
  /\ decode_views (Marshal (Arr [view_value v])) = Some [client_view v]
  /\ JErrorCode (client_view v) = "disk".
Proof.
  intros JE v. assert (Forall view_ok [v]) as Hv.
  { apply Forall_singleton. unfold view_ok, int64, min_int64, max_int64. cbn. lia. }
  destruct (client_server_agree "https://mega.nz/#!a!b" "/data/tv" "" "mega" "x" [v] Hv) as [H1 H2].
  split; [exact H1|]. split; [exact H2|]. vm_compute. reflexivity.
Defined.
