(* ===== verification/ApiWire.v ===== *)
(** * The API on the wire, and a client connected to it

    [serve_text] is the API's server as HTTP texts: the bodies of requests are decoded, the
    answers encoded (internal/api/http.go, writeJSON and the Decode calls of the handlers).
    [connect] runs a program whose HTTP requests this server answers, so that the client
    (Cli.v) and the daemon become one program. *)

From Stdlib Require Import SpecFloat.
From S2P Require Import Prelude GoStrings GoUrl GoError GoFloat GoJson Schema Effects Settings.
From S2P Require Import Wp Service Api ApiJson.

#[local] Open Scope string_scope.

(** ** Decoding the bodies of requests *)

(** A number as the updates of the settings have it. *)
Definition settings_float (f : float) : Settings.float64 :=
  match f with
  | S754_finite neg m e => mkFloat (if neg then Zneg m else Zpos m) e
  | _ => mkFloat 0 0
  end.

(** A value decoded into an [interface{}]; [None] for a number out of range. *)
Fixpoint json_of (v : value) : option json :=
  match v with
  | Null => Some JNull
  | Bool b => Some (JBool b)
  | Num t => f ← ParseFloat t; Some (JNumber (settings_float f))
  | Str s => Some (JString s)
  | Arr l =>
      JArray <$> (fix elems l := match l with
                                 | [] => Some []
                                 | x :: l' => j ← json_of x; r ← elems l'; Some (j :: r)
                                 end) l
  | Obj l =>
      JObject <$> (fix members l := match l with
                                    | [] => Some []
                                    | (k, x) :: l' => j ← json_of x; r ← members l'; Some ((k, j) :: r)
                                    end) l
  end.

(** A [map[string]interface{}]; of several members with a key the last counts. *)
Definition decode_updates (v : value) : option (gmap string json) :=
  match v with
  | Null => Some ∅
  | Obj _ =>
      j ← json_of v;
      match j with JObject l => Some (foldl (fun m kv => <[fst kv := snd kv]> m) ∅ l) | _ => None end
  | _ => None
  end.

Definition decode_mkdir (v : value) : option string :=
  decode_struct [("path", fun v old => decode_string v old)] v "".

Definition maxRequestBodyBytes : Z := 1048576.

(** What only texts of the library tell: the error of [strconv.ParseInt], and whether the
    first bytes of a body above the limit of [withRequestLimit] are the beginning of a value,
    so that the decoder reads on and meets the limit. *)
Class WireTexts := { parse_error_text : string -> num_error -> string; needs_more : string -> bool }.

Section Wire.
Context `{UC : Unicode} `{JE : JsonErrors} `{WT : WireTexts}.

(** [json.NewDecoder(r.Body).Decode(&x)]. *)
Definition decode_request {X} (decode : value -> option X) (body : string) : decoded X :=
  let within := (Z.of_nat (String.length body) <=? maxRequestBodyBytes)%Z in
  let text := if within then body else take_str (Z.to_nat maxRequestBodyBytes) body in
  match Decode text with
  | Some v => match decode v with Some x => BodyOk x | None => BodyInvalid (json_error text) end
  | None => if within || negb (needs_more text) then BodyInvalid (json_error text) else BodyTooLarge
  end.

(** The URL that the server parses from the request line of a request to [u]. *)
Definition request_url (u : url) : url :=
  mkURL "" "" None "" (if String.eqb (Path u) "" then "/" else Path u) (RawPath u) false (ForceQuery u)
    (RawQuery u) "" "".

Definition received (r : net_req) (u : url) : http_request :=
  mkRequest (NetMethod r) (request_url u) (decode_request decode_add_value (NetBody r))
    (decode_request decode_updates (NetBody r)) (decode_request decode_mkdir (NetBody r)).

(** ** Encoding the answers *)

Definition settings_value (s : SettingsState) : value :=
  Obj [("auto_decrypt", Bool (AutoDecrypt s)); ("concurrency", Num (Itoa (Concurrency s)));
       ("max_attempts", Num (Itoa (SetMaxAttempts s)))].

(** A nil slice is null: [ListEvents] returns one when there is no event; the presets and the
    directories of the daemon are never nil. *)
Definition body_value (b : resp_body) : option value :=
  match b with
  | NoBody => None
  | EError err => Some (error_value err)
  | EParse text err => Some (Obj [("error", Str (parse_error_text text err))])
  | BStatusOk => Some (Obj [("status", Str "ok")])
  | BId id => Some (Obj [("id", Num (Itoa id))])
  | BJobs l => Some (Arr (map view_value l))
  | BJob j => Some (view_value j)
  | BEvents [] => Some Null
  | BEvents l => Some (Arr (map Str l))
  | BMeta m =>
      Some (Obj (("out_dir_presets", Arr (map Str (OutDirPresets m))) :: unless_empty "version" (Version m)))
  | BSettings s => Some (settings_value s)
  | BBrowse b =>
      Some (Obj [("path", Str (BrowsePath b)); ("parent", Str (Parent b));
                 ("dirs", Arr (map Str (Dirs b))); ("is_root", Bool (IsRoot b))])
  | BMkdir path => Some (Obj [("ok", Bool true); ("path", Str path)])
  end.

(** [writeJSON]: the encoder ends with a newline.  The texts that net/http itself writes with a
    redirect or an unknown path are left out. *)
Definition response_text (r : response) : net_resp :=
  mkNetResp (Code r) (match body_value (RespBody r) with Some v => Marshal v ++ nl | None => "" end).

(** ** A client connected to the server *)

(** The answer to a request sent to the daemon's address. *)
Definition serve_text (s : Server) (r : net_req) : prog (res net_resp) :=
  match Parse (NetURL r) with
  | inl e => Ret (inl (ENew e))
  | inr u => resp <- serve_http s (received r u) ;; Ret (inr (response_text resp))
  end.

(** The calls of [p] that are HTTP requests are served by [server]. *)
Fixpoint connect {A} (server : net_req -> prog (res net_resp)) (p : prog A) : prog A :=
  match p with
  | Ret a => Ret a
  | Panic => Panic
  | Vis e k =>
      match e in ev X return (X -> prog A) -> prog A with
      | Net r => fun k => bind (server r) k
      | e => fun k => Vis e k
      end (fun x => connect server (k x))
  end.

Lemma connect_bind {A B} server (p : prog A) (f : A -> prog B) :
  forall env w, run env (connect server (bind p f)) w
  = run env (bind (connect server p) (fun a => connect server (f a))) w.
Proof.
  induction p as [a| |X e k IH]; intros env w; [done..|].
  destruct e; cbn [bind connect]; try (cbn [run]; destruct (handle env w _); apply IH).
  rewrite !run_bind. destruct (run env (server r) w) as [w' [x|]]; [|done].
  by rewrite IH, run_bind.
Qed.
End Wire.
