(* ===== verification/CliFormat.v ===== *)
(** * cmd/dlq/format.go: how the command line client shows jobs

    Sizes and progress are float64s: the arithmetic is that of IEEE 754 with 53 bits, from the
    Standard Library. *)

From Stdlib Require Import SpecFloat.
From S2P Require Import Prelude GoStrings GoFloat GoUrl Schema Status ApiJson.

#[local] Open Scope string_scope.

(** ** Numbers *)

(** The quotient of [p] by [q > 0] to the nearest integer, to the even one from halfway. *)
Definition round_even (p q : Z) : Z :=
  let d := (p / q)%Z in
  match (2 * (p mod q) ?= q)%Z with
  | Lt => d
  | Gt => (d + 1)%Z
  | Eq => if Z.even d then d else (d + 1)%Z
  end.

(** The verb %.1f: the decimal nearest to the exact value. *)
Definition format_1f (f : float) : string :=
  let show (neg : bool) (tenths : Z) :=
    (if neg then "-" else "") ++ Itoa (tenths / 10) ++ "." ++ Itoa (tenths mod 10) in
  match f with
  | S754_zero neg => show neg 0%Z
  | S754_finite neg m e =>
      show neg (if (0 <=? e)%Z then 10 * (Zpos m * 2 ^ e) else round_even (10 * Zpos m) (2 ^ (- e)))%Z
  | S754_infinity neg => if neg then "-Inf" else "+Inf"
  | S754_nan => "NaN"
  end.

(** [int64(f)] of a value in range. *)
Definition truncated (f : float) : Z :=
  match f with
  | S754_finite neg m e =>
      let n := (if (0 <=? e)%Z then Zpos m * 2 ^ e else Zpos m / 2 ^ (- e))%Z in
      if neg then (- n)%Z else n
  | _ => 0%Z
  end.

(** ** Sizes *)

Fixpoint human_loop (val : float) (unit : string) (larger : list string) : float * string :=
  match larger with
  | [] => (val, unit)
  | u :: rest => if fge val (float_of_int 1024) then human_loop (fdiv val (float_of_int 1024)) u rest else (val, unit)
  end.

Definition humanBytes (n : Z) : string :=
  let '(val, unit) := human_loop (float_of_int n) "B" ["KiB"; "MiB"; "GiB"; "TiB"; "PiB"] in
  format_1f val ++ unit.

Definition formatProgress (done total : Z) : string :=
  if (total <=? 0)%Z then humanBytes done
  else
    let pct := fmul (fdiv (float_of_int done) (float_of_int total)) (float_of_int 100) in
    humanBytes done ++ " / " ++ humanBytes total ++ " (" ++ format_1f pct ++ "%)".

Definition formatSpeed (j : jobView) : string :=
  if negb (String.eqb (JStatus j) "downloading") || (JDownloadSpeed j <=? 0)%Z then "-"
  else humanBytes (JDownloadSpeed j) ++ "/s".

(** ** Durations *)

Definition second : Z := 1000000000.

(** [time.Duration.Seconds]. *)
Definition Seconds (d : Z) : float :=
  fadd (float_of_int (Z.quot d second)) (fdiv (float_of_int (Z.rem d second)) (float_of_int second)).

Definition humanDuration (d : Z) : string :=
  if (d <=? 0)%Z then "-"
  else
    let seconds := truncated (Seconds d) in
    let h := Z.quot seconds 3600 in
    let m := Z.quot (Z.rem seconds 3600) 60 in
    let s := Z.rem seconds 60 in
    if (0 <? h)%Z then Itoa h ++ "h" ++ pad_zero 2 (Itoa m) ++ "m"
    else if (0 <? m)%Z then Itoa m ++ "m" ++ pad_zero 2 (Itoa s) ++ "s"
    else Itoa s ++ "s".

Definition formatETA (j : jobView) : string :=
  if negb (String.eqb (JStatus j) "downloading") || (JEtaSeconds j <=? 0)%Z then "-"
  else humanDuration (wrap64 (JEtaSeconds j * second)).

Example human_examples :
  humanBytes 1280 = "1.2KiB" /\ humanBytes 1000 = "1000.0B" /\ humanBytes (2 ^ 62) = "4096.0PiB"
  /\ formatProgress 1 3 = "1.0B / 3.0B (33.3%)" /\ humanDuration (3725 * second) = "1h02m"
  /\ humanDuration (61 * second) = "1m01s" /\ humanDuration 1 = "0s".
Proof. vm_compute. repeat split; reflexivity. Qed.

(** ** Names *)

Definition shortURL (u : string) : string :=
  if (64 <? String.length u)%nat then take_str 61 u ++ "..." else u.

Definition displayName (j : jobView) : string :=
  let name := JFilename j in
  let name := if String.eqb name "" then JName j else name in
  if String.eqb name "" then shortURL (JURL j) else name.

(** [strings.TrimRight(s, "/")]. *)
Definition trim_right_slash (s : string) : string :=
  rev_str ((fix drop s := match s with
                          | String c s' => if Ascii.eqb c char_slash then drop s' else s
                          | "" => ""
                          end) (rev_str s)).

Definition filePath (j : jobView) : string :=
  let name := JFilename j in
  let name := if String.eqb name "" then JName j else name in
  if String.eqb name "" then shortURL (JURL j)
  else trim_right_slash (JOutDir j) ++ "/" ++ name.

Definition active_statuses : list string :=
  ["queued"; "resolving"; "downloading"; "paused"; "decrypting"].

Definition hasActiveJobs (jobs : list jobView) : bool :=
  existsb (fun j => existsb (String.eqb (JStatus j)) active_statuses) jobs.

Section Rows.
Context `{UC : Unicode}.

Definition displayStatus (j : jobView) : string := DisplayStatus (JStatus j) (JSite j) (JURL j).

(** The cells of a job's row in the table, and of the row below it for an error. *)
Definition job_rows (j : jobView) : list (list string) :=
  let done :=
    if (JBytesDone j =? 0)%Z
       && (String.eqb (JStatus j) "completed" || String.eqb (JStatus j) "decrypting"
           || String.eqb (JStatus j) "decrypt_failed")
       && (0 <? JSizeBytes j)%Z
    then JSizeBytes j else JBytesDone j in
  [Itoa (JID j); displayStatus j; formatProgress done (JSizeBytes j); formatSpeed j; formatETA j;
   JOutDir j; displayName j]
  :: (if String.eqb (JErrorCode j) "" then []
      else [[" "; " "; " "; " "; " "; " ";
             "  error: " ++ JErrorCode j ++ " (" ++ JError j ++ ")"]]).

Definition files_row (j : jobView) : list string :=
  [Itoa (JID j); displayStatus j; filePath j; JURL j].
End Rows.
