(* ===== verification/CliFlags.v ===== *)
(** * The command line of cmd/dlq: package flag, and the arguments of the command add

    The commands but add use a [flag.FlagSet]; add has a parser of its own, which takes flags
    before, between and after the URLs. *)

From S2P Require Import Prelude GoStrings GoError.

#[local] Open Scope string_scope.

(** ** Numbers of a flag: [strconv.ParseInt(s, 0, 64)] *)

Definition digit_value (c : ascii) : option Z :=
  let l := lower_byte c in
  if is_digit c then Some (byte_code c - 48)%Z
  else if (97 <=? byte_code l)%Z && (byte_code l <=? 122)%Z then Some (byte_code l - 87)%Z
  else None.

(** The digits with their underscores; [None] for a syntax or a range error. *)
Fixpoint digits_from (base acc : Z) (s : string) : option Z :=
  match s with
  | "" => Some acc
  | String c s' =>
      if Ascii.eqb c "_" then digits_from base acc s'
      else match digit_value c with
           | Some d =>
               if (base <=? d)%Z || (2 ^ 64 <=? acc * base + d)%Z then None
               else digits_from base (acc * base + d)%Z s'
           | None => None
           end
  end.

Fixpoint underscore_loop (hex : bool) (last : ascii) (s : string) : bool :=
  match s with
  | "" => negb (Ascii.eqb last "_")
  | String c s' =>
      if is_digit c || (hex && (97 <=? byte_code (lower_byte c))%Z && (byte_code (lower_byte c) <=? 102)%Z)
      then underscore_loop hex "0" s'
      else if Ascii.eqb c "_" then if Ascii.eqb last "0" then underscore_loop hex "_" s' else false
      else if Ascii.eqb last "_" then false
      else underscore_loop hex "!" s'
  end.

(** The base a prefix asks for, and what follows it. *)
Definition base_prefix (s : string) : Z * string :=
  match s with
  | String "0" (String c (String d r)) =>
      let l := lower_byte c in
      if Ascii.eqb l "b" then (2%Z, String d r)
      else if Ascii.eqb l "o" then (8%Z, String d r)
      else if Ascii.eqb l "x" then (16%Z, String d r)
      else (8%Z, String c (String d r))
  | String "0" r => (8%Z, r)
  | _ => (10%Z, s)
  end.

Definition underscoreOK (s : string) : bool :=
  match s with
  | String "0" (String c r) =>
      let l := lower_byte c in
      if contains_char "box" l then underscore_loop (Ascii.eqb l "x") "0" r
      else underscore_loop false "^" s
  | _ => underscore_loop false "^" s
  end.

Definition ParseInt0 (s : string) : option Z :=
  let '(neg, s) := match s with
                   | String "+" r => (false, r)
                   | String "-" r => (true, r)
                   | _ => (false, s)
                   end in
  if String.eqb s "" then None
  else
    let '(base, rest) := base_prefix s in
    n ← digits_from base 0 rest;
    if contains_char rest "_" && negb (underscoreOK s) then None
    else if neg then (if (2 ^ 63 <? n)%Z then None else Some (- n)%Z)
    else if (2 ^ 63 <=? n)%Z then None else Some n.

Definition ParseBool (s : string) : option bool :=
  if existsb (String.eqb s) ["1"; "t"; "T"; "TRUE"; "true"; "True"] then Some true
  else if existsb (String.eqb s) ["0"; "f"; "F"; "FALSE"; "false"; "False"] then Some false
  else None.

(** ** [FlagSet.Parse] *)

Inductive flag_value : Type := VString (s : string) | VInt (n : Z) | VBool (b : bool).

(** Sets a flag from its text; the old value tells its kind. *)
Definition set_flag (old : flag_value) (text : string) : option flag_value :=
  match old with
  | VString _ => Some (VString text)
  | VInt _ => VInt <$> ParseInt0 text
  | VBool _ => VBool <$> ParseBool text
  end.

(** The flags and what is left of the arguments; or the code the program exits with, 0 for
    -help and 2 for a bad flag. *)
Fixpoint parse_flags (flags : gmap string flag_value) (args : list string)
  : Z + (gmap string flag_value * list string) :=
  match args with
  | [] => inr (flags, [])
  | s :: rest =>
      if (String.length s <? 2)%nat || negb (HasPrefix s "-") then inr (flags, args)
      else if String.eqb s "--" then inr (flags, rest)
      else
        let name := drop_str (if HasPrefix s "--" then 2 else 1) s in
        if String.eqb name "" || HasPrefix name "-" || HasPrefix name "=" then inl 2%Z
        else
          let '(name, value, hasValue) := Cut name "=" in
          match flags !! name with
          | None => inl (if String.eqb name "help" || String.eqb name "h" then 0 else 2)%Z
          | Some old =>
              if hasValue then
                match set_flag old value with
                | Some v => parse_flags (<[name := v]> flags) rest
                | None => inl 2%Z
                end
              else
                match old, rest with
                | VBool _, _ => parse_flags (<[name := VBool true]> flags) rest
                | _, [] => inl 2%Z
                | _, value :: rest' =>
                    match set_flag old value with
                    | Some v => parse_flags (<[name := v]> flags) rest'
                    | None => inl 2%Z
                    end
                end
          end
  end.

Definition flag_string (flags : gmap string flag_value) (name : string) : string :=
  match flags !! name with Some (VString s) => s | _ => "" end.

Definition flag_int (flags : gmap string flag_value) (name : string) : Z :=
  match flags !! name with Some (VInt n) => n | _ => 0%Z end.

Definition flag_bool (flags : gmap string flag_value) (name : string) : bool :=
  match flags !! name with Some (VBool b) => b | _ => false end.

Example ParseInt0_examples :
  map ParseInt0 ["10"; "010"; "0x_1F"; "-7"; "1__0"; "9223372036854775808"; "0"; ""; "08"]
  = [Some 10%Z; Some 8%Z; Some 31%Z; Some (-7)%Z; None; None; Some 0%Z; None; None].
Proof. vm_compute. reflexivity. Qed.

Lemma HasPrefix_nil (s : string) : HasPrefix s "" = true.
Proof. by destruct s. Qed.

(** A flag with its value after an equals sign. *)
Lemma parse_flags_eq (flags : gmap string flag_value) (c : ascii) (k val : string) (old v : flag_value)
    (rest : list string) :
  let key := String c k in
  c <> "-"%char -> contains_char key "=" = false -> flags !! key = Some old -> set_flag old val = Some v ->
  parse_flags flags (("--" ++ key ++ "=" ++ val) :: rest) = parse_flags (<[key := v]> flags) rest.
Proof.
  intros key Hc Hk Hf Hv. set (text := key ++ "=" ++ val).
  assert (HasPrefix text "-" || HasPrefix text "=" = false) as Hp.
  { unfold text, key. cbn [String.append HasPrefix]. unfold key, contains_char in Hk. cbn [string_existsb] in Hk.
    apply orb_false_elim in Hk as [Hk _]. rewrite Ascii.eqb_sym, Hk, (proj2 (Ascii.eqb_neq c "-") Hc). done. }
  change (parse_flags flags (("--" ++ text) :: rest) = parse_flags (<[key := v]> flags) rest).
  cbn [parse_flags]. change (String.length ("--" ++ text) <? 2)%nat with false.
  change (HasPrefix ("--" ++ text) "-") with (HasPrefix ("-" ++ text) "").
  change (HasPrefix ("--" ++ text) "--") with (HasPrefix text ""). rewrite !HasPrefix_nil. cbn [negb orb].
  change (String.eqb ("--" ++ text) "--") with (String.eqb text ""). change (String.eqb text "") with false.
  cbn iota zeta. change (drop_str 2 ("--" ++ text)) with text. change (String.eqb text "") with false.
  cbn [orb]. rewrite Hp. assert (Cut text "=" = (key, val, true)) as -> by (by apply Cut_char).
  by rewrite Hf, Hv.
Qed.

(** ** The arguments of add *)

Record addArgs : Type := mkAddArgs {
  urls : list string;
  outDir : string;
  name : string;
  addSite : string;
  archivePassword : string;
  api : string;
  files : list string;
  useStdin : bool
}.

Definition set_add_flag (key val : string) (a : addArgs) : res addArgs :=
  let '(mkAddArgs us o n s pw ap fs i) := a in
  if String.eqb key "--out" then inr (mkAddArgs us val n s pw ap fs i)
  else if String.eqb key "--name" then inr (mkAddArgs us o val s pw ap fs i)
  else if String.eqb key "--site" then inr (mkAddArgs us o n val pw ap fs i)
  else if String.eqb key "--archive-password" then inr (mkAddArgs us o n s val ap fs i)
  else if String.eqb key "--password" then inr (mkAddArgs us o n s val ap fs i)
  else if String.eqb key "--api" then inr (mkAddArgs us o n s pw val fs i)
  else if String.eqb key "--file" then inr (mkAddArgs us o n s pw ap (fs ++ [val]) i)
  else inl (ENew ("unknown flag " ++ key)).

Fixpoint add_loop (args : list string) (a : addArgs) : res addArgs :=
  match args with
  | [] => inr a
  | arg :: rest =>
      if HasPrefix arg "--" then
        if Contains arg "=" then
          let '(key, val, _) := Cut arg "=" in
          match set_add_flag key val a with inl err => inl err | inr a' => add_loop rest a' end
        else if String.eqb arg "--stdin" then
          add_loop rest (mkAddArgs (urls a) (outDir a) (name a) (addSite a) (archivePassword a) (api a)
                           (files a) true)
        else
          match rest with
          | val :: rest' =>
              match set_add_flag arg val a with inl err => inl err | inr a' => add_loop rest' a' end
          | [] => inl (ENew ("missing value for " ++ arg))
          end
      else
        add_loop rest (mkAddArgs (urls a ++ [arg]) (outDir a) (name a) (addSite a) (archivePassword a)
                         (api a) (files a) (useStdin a))
  end.

(** ** What the parser of add reads *)

(** An argument as the user means it. *)
Inductive add_item : Type :=
  | Url (u : string)
  | Flag (key val : string)            (* --key value *)
  | FlagEq (key val : string)          (* --key=value *)
  | Stdin.

Definition render (i : add_item) : list string :=
  match i with
  | Url u => [u]
  | Flag key val => [key; val]
  | FlagEq key val => [key ++ "=" ++ val]
  | Stdin => ["--stdin"]
  end.

Definition add_flags : list string :=
  ["--out"; "--name"; "--site"; "--archive-password"; "--password"; "--api"; "--file"].

Definition item_ok (i : add_item) : Prop :=
  match i with
  | Url u => HasPrefix u "--" = false
  | Flag key _ | FlagEq key _ => key ∈ add_flags
  | Stdin => True
  end.

Definition urls_of (items : list add_item) : list string :=
  omap (fun i => match i with Url u => Some u | _ => None end) items.

(** The values given for one of [keys], in order. *)
Definition values_of (keys : list string) (items : list add_item) : list string :=
  omap (fun i => match i with
                 | Flag key val | FlagEq key val => if existsb (String.eqb key) keys then Some val else None
                 | _ => None
                 end) items.

Definition has_stdin (items : list add_item) : bool :=
  existsb (fun i => match i with Stdin => true | _ => false end) items.

(** What the arguments say: the URLs in order, and of each flag the last value. *)
Definition meant (items : list add_item) (a : addArgs) : addArgs :=
  mkAddArgs (urls a ++ urls_of items) (List.last (values_of ["--out"] items) (outDir a))
    (List.last (values_of ["--name"] items) (name a)) (List.last (values_of ["--site"] items) (addSite a))
    (List.last (values_of ["--archive-password"; "--password"] items) (archivePassword a))
    (List.last (values_of ["--api"] items) (api a)) (files a ++ values_of ["--file"] items)
    (useStdin a || has_stdin items).

Lemma last_cons (x d : string) (l : list string) : List.last (x :: l) d = List.last l x.
Proof.
  revert x d. induction l as [|y l IH]; intros x d; [done|].
  change (List.last (x :: y :: l) d) with (List.last (y :: l) d). by rewrite !IH.
Qed.

Lemma Contains_byte (s : string) (c : ascii) : Contains s (String c "") = contains_char s c.
Proof.
  induction s as [|d s IH]; [done|]. cbn [Contains HasPrefix]. rewrite IH. unfold contains_char. cbn [string_existsb].
  assert (HasPrefix s "" = true) as -> by by destruct s. by rewrite andb_true_r.
Qed.

Lemma flag_no_equals (key : string) : key ∈ add_flags ->
  contains_char key "=" = false /\ HasPrefix key "--" = true /\ String.eqb key "--stdin" = false.
Proof.
  intros Hk. assert (Forall (fun k => contains_char k "=" = false /\ HasPrefix k "--" = true
    /\ String.eqb k "--stdin" = false) add_flags) as H by (repeat constructor).
  rewrite Forall_forall in H. by apply H.
Qed.

(** A flag is set, whichever way its value is given. *)
Lemma set_flag_meant (key val : string) (a : addArgs) :
  key ∈ add_flags ->
  exists a', set_add_flag key val a = inr a'
    /\ forall items, meant items a' = meant (Flag key val :: items) a
                 /\ meant items a' = meant (FlagEq key val :: items) a.
Proof.
  intros Hk. destruct a as [us o n s pw ap fs i]. unfold add_flags in Hk.
  repeat (apply elem_of_cons in Hk as [->|Hk];
    [eexists; split; [reflexivity|]; intros items; unfold meant, values_of, urls_of, has_stdin;
     cbn -[List.last]; rewrite ?last_cons, <- ?app_assoc; by split|]).
  by apply elem_of_nil in Hk.
Qed.

(** The arguments of the command add mean what they say, in any order: from URLs that do not
    begin with two dashes, flags with their value in the next argument or after an equals
    sign, and --stdin, freely mixed, the parser takes every URL in order, of each flag its
    last value, of --file every value in order, and nothing else; a value may be empty, hold an
    equals sign or look like a flag. *)
Theorem add_args_read (items : list add_item) (a : addArgs) (Hi : Forall item_ok items) :
  add_loop (concat (map render items)) a = inr (meant items a).
Proof.
  revert a. induction Hi as [|i items Hok _ IH]; intros a.
  { destruct a. unfold meant. cbn. by rewrite !app_nil_r, orb_false_r. }
  destruct i as [u|key val|key val|]; cbn [map concat render app item_ok] in *.
  - cbn [add_loop]. rewrite Hok, IH. unfold meant. cbn -[List.last]. by rewrite <- app_assoc.
  - destruct (flag_no_equals key Hok) as (He & Hp & Hs). destruct (set_flag_meant key val a Hok) as (a' & Ha & Hm).
    cbn [add_loop]. rewrite Hp, Contains_byte, He, Hs, Ha, IH. by rewrite (proj1 (Hm items)).
  - destruct (flag_no_equals key Hok) as (He & Hp & _). destruct (set_flag_meant key val a Hok) as (a' & Ha & Hm).
    cbn [add_loop]. assert (HasPrefix (key ++ "=" ++ val) "--" = true) as ->.
    { apply HasPrefix_iff. apply HasPrefix_iff in Hp as [r ->]. exists (r ++ "=" ++ val). reflexivity. }
    assert (Contains (key ++ "=" ++ val) "=" = true) as -> by (apply Contains_iff; by exists key, val).
    change ("=" ++ val) with (String "=" val). rewrite Cut_char, Ha, IH by done. by rewrite (proj2 (Hm items)).
  - cbn [add_loop]. change (HasPrefix "--stdin" "--") with true. change (Contains "--stdin" "=") with false.
    change (String.eqb "--stdin" "--stdin") with true. cbn iota. rewrite IH. unfold meant. cbn -[List.last].
    by rewrite orb_true_r.
Qed.

Lemma add_args_read_witness :
  add_loop ["https://host/a"; "--out"; "/data/tv"; "--name=x=y"; "https://host/b"; "--out"; "--stdin"]
    (mkAddArgs [] "" "" "" "" "http://127.0.0.1:8099" [] false)
  = inr (mkAddArgs ["https://host/a"; "https://host/b"] "--stdin" "x=y" "" "" "http://127.0.0.1:8099" [] false).
Proof.
  apply (add_args_read [Url "https://host/a"; Flag "--out" "/data/tv"; FlagEq "--name" "x=y";
                        Url "https://host/b"; Flag "--out" "--stdin"]).
  repeat (apply Forall_cons; split;
    [first [reflexivity | unfold item_ok, add_flags; repeat first [apply list_elem_of_here | apply list_elem_of_further]]|]).
  constructor.
Defined.
