(* ===== verification/Cli.v ===== *)
(** * cmd/dlq: the command line client

    A command is a program that sends requests to the daemon's API and ends in what it has
    shown on the terminal and its exit code.  What a [Printf] writes with %v of a decoded
    value, the rows given to a tabwriter and the sleeps between the rounds of
    "status --watch" are kept as such. *)

From S2P Require Import Prelude GoStrings GoError GoFloat GoJson Schema Effects DaemonEnv ApiJson.
From S2P Require Import CliFormat CliFlags.

#[local] Open Scope string_scope.

(** ** The terminal *)

#[warnings="-register-all"]
Inductive shown : Type :=
  | Text (s : string)                                     (* without a newline *)
  | Line (s : string)
  | WithValue (before : string) (v : option value) (after : string)   (* %v; [None] is nil *)
  | Cells (row : list string)                             (* of a tabwriter *)
  | AnyOrder (l : list shown)                             (* the order of a map's range *)
  | Slept (seconds : Z).

(** The exit code is [None] while the command still runs. *)
Record outcome : Type := mkOutcome { printed : list shown; exit_code : option Z }.

Definition exits (l : list shown) : prog outcome := Ret (mkOutcome l (Some 0%Z)).

Definition error_line (err : error) : shown := Line ("error: " ++ error_text err).

(** [if err := p; err != nil { fmt.Println("error:", err); return }; ...] *)
Definition or_error {A} (p : prog (res A)) (k : A -> prog outcome) : prog outcome :=
  r <- p ;;
  match r with inl err => exits [error_line err] | inr a => k a end.

(** ** What the client decodes *)

(** The numbers of a value decoded into an [interface{}] are float64s. *)
Fixpoint numbers_ok (v : value) : bool :=
  match v with
  | Num t => match ParseFloat t with Some _ => true | None => false end
  | Arr l => forallb numbers_ok l
  | Obj l => forallb (fun kv => numbers_ok (snd kv)) l
  | _ => true
  end.

(** A [map[string]any]; of several members with a key the last counts. *)
Definition decode_object (v : value) : option (gmap string value) :=
  match v with
  | Null => Some ∅
  | Obj l => if numbers_ok v then Some (foldl (fun m kv => <[fst kv := snd kv]> m) ∅ l) else None
  | _ => None
  end.

(** A [map[string]string]. *)
Definition decode_texts (v : value) : option (gmap string string) :=
  match v with
  | Null => Some ∅
  | Obj l => foldl (fun m kv => m ← m; s ← decode_string (snd kv) ""; Some (<[fst kv := s]> m)) (Some ∅) l
  | _ => None
  end.

(** A [[]string]. *)
Definition decode_strings (v : value) : option (list string) :=
  match v with
  | Null => Some []
  | Arr l => mapM (fun x => decode_string x "") l
  | _ => None
  end.

Record metaView : Type := mkMetaView { MetaPresets : list string; MetaVersion : string }.

Definition meta_fields : list (field metaView) :=
  [("out_dir_presets", fun v m => l ← decode_strings v; Some (mkMetaView l (MetaVersion m)));
   ("version", fun v m => s ← decode_string v (MetaVersion m); Some (mkMetaView (MetaPresets m) s))].

Definition decode_meta (v : value) : option metaView := decode_struct meta_fields v (mkMetaView [] "").

Section Client.
Context `{UC : Unicode} `{JE : JsonErrors}.

(** ** cmd/dlq/http_client.go *)

Definition readHTTPError (resp : net_resp) : error :=
  let code := "http " ++ Itoa (NetStatus resp) in
  match v ← Decode (NetText resp); decode_texts v with
  | Some body =>
      match body !! "error" with
      | Some msg => if negb (String.eqb msg "") then ENew (code ++ ": " ++ msg) else ENew code
      | None => ENew code
      end
  | None => ENew code
  end.

(** [json.NewDecoder(resp.Body).Decode(out)]. *)
Definition decode_body {A} (decode : string -> option A) (resp : net_resp) : res A :=
  match decode (NetText resp) with
  | Some a => inr a
  | None => inl (json_error (NetText resp))
  end.

Definition getJSON {A} (url : string) (decode : string -> option A) : prog (res A) :=
  resp <-? call (Net (mkNetReq "GET" url [] "")) ;;
  Ret (if (300 <=? NetStatus resp)%Z then inl (readHTTPError resp) else decode_body decode resp).

Definition json_headers : list (string * string) := [("Content-Type", "application/json")].

(** [None] is a nil [out]: the body of a success is not read. *)
Definition postJSON {A} (url : string) (payload : value) (out : option (string -> option A))
  : prog (res (option A)) :=
  resp <-? call (Net (mkNetReq "POST" url json_headers (Marshal payload))) ;;
  Ret (if (300 <=? NetStatus resp)%Z then inl (readHTTPError resp)
       else match out with
            | None => inr None
            | Some decode => match decode_body decode resp with inl e => inl e | inr a => inr (Some a) end
            end).

(** The body of a request that carries nothing: an empty map. *)
Definition no_payload : value := Obj [].

Definition as_object (text : string) : option (gmap string value) := v ← Decode text; decode_object v.
Definition as_strings (text : string) : option (list string) := v ← Decode text; decode_strings v.
Definition as_meta (text : string) : option metaView := v ← Decode text; decode_meta v.

(** ** What the commands find: the environment variables, the standard input and the version *)

Context (environ : list string) (stdin : res string) (version : string).

Definition defaultAPI : string := "http://127.0.0.1:8099".

Definition apiBase : string :=
  let v := Getenv environ "DLQ_API" in if negb (String.eqb v "") then v else defaultAPI.

Definition LookupEnv (key : string) : option string :=
  e ← List.find (fun e => HasPrefix e (key ++ "=")) environ;
  Some (drop_str (String.length (key ++ "=")) e).

Definition versionString : string := if String.eqb version "" then "dlq (dev)" else "dlq " ++ version.

Definition usage : list shown := map Line
  ["DLQ - headless download queue CLI"; ""; "Usage:"; "  dlq <command> [options]"; ""; "Core:";
   "  dlq add <url> [<url2> ...] --out /data/downloads [--name optional] [--site mega|webshare|http|https] [--archive-password batch-pass]";
   "  dlq add --file urls.txt --out /data/downloads";
   "  dlq add --stdin --out /data/downloads";
   "  dlq status [--watch] [--interval 1] [--status queued|resolving|downloading|paused|decrypting|completed|failed|decrypt_failed|deleted]  (paused shows as stopped for webshare)";
   "  dlq files"; "  dlq logs <job_id> [--tail 50]"; "  dlq info [--api http://127.0.0.1:8099]";
   "  dlq help"; "  dlq version | dlq --version"; ""; "Job Control:"; "  dlq pause <job_id>";
   "  dlq resume <job_id>"; "  dlq retry <job_id>"; "  dlq remove <job_id>"; ""; "Maintenance:";
   "  dlq clear      (clear completed jobs)"; "  dlq purge      (delete all jobs and events)"; "";
   "Configuration:"; "  dlq settings [--concurrency <1-10>] [--auto-decrypt <true|false>]"].

(** A [flag.FlagSet] with [ExitOnError]; its messages go to the standard error. *)
Definition with_flags (flags : list (string * flag_value)) (args : list string)
    (k : gmap string flag_value -> list string -> prog outcome) : prog outcome :=
  match parse_flags (list_to_map flags) args with
  | inl code => Ret (mkOutcome [] (Some code))
  | inr (fs, rest) => k fs rest
  end.

Definition api_flag : string * flag_value := ("api", VString apiBase).
Definition api_of (fs : gmap string flag_value) : string := flag_string fs "api".

(** ** cmd/dlq/add.go *)

(** The limit of a line of [readURLs]' scanner: a longer one does not fit its buffer. *)
Definition maxTokenSize : Z := 1048576.

(** [bufio.ScanLines]: the lines, the last one without its newline perhaps. *)
Definition scan_lines (text : string) : list string :=
  let lines := split_char "010" text in
  if String.eqb (List.last lines "") "" then removelast lines else lines.

Definition readURLs (text : string) : res (list string) :=
  let lines := scan_lines text in
  if existsb (fun l => (maxTokenSize <=? Z.of_nat (String.length l))%Z) lines
  then inl (ENew "bufio.Scanner: token too long")
  else inr (List.filter (fun l => negb (String.eqb l "" || HasPrefix l "#")) (map TrimSpace lines)).

Fixpoint read_files (paths : list string) : prog (res (list string)) :=
  match paths with
  | [] => Ret (inr [])
  | path :: rest =>
      text <-? call (Os (ReadFile path)) ;;
      fileURLs <-? Ret (readURLs text) ;;
      more <-? read_files rest ;;
      Ret (inr (fileURLs ++ more)%list)
  end.

Definition parseAddArgs (args : list string) : prog (res addArgs) :=
  a <-? Ret (add_loop args (mkAddArgs [] "" "" "" "" apiBase [] false)) ;;
  text <-? Ret (if useStdin a then stdin else inr "") ;;
  stdinURLs <-? Ret (readURLs text) ;;
  fileURLs <-? read_files (files a) ;;
  Ret (inr (mkAddArgs (urls a ++ stdinURLs ++ fileURLs)%list (outDir a) (name a) (addSite a)
              (archivePassword a) (api a) (files a) (useStdin a))).

Definition add_usage : shown :=
  Line "usage: dlq add <url> [<url2> ...] --out /data/downloads [--name optional] [--archive-password batch-pass]".

Definition post_add (a : addArgs) (urlStr : string) : prog (res (option (gmap string value))) :=
  postJSON (api a ++ "/jobs")
    (add_payload urlStr (outDir a) (name a) (addSite a) (archivePassword a)) (Some as_object).

(** What is shown for a URL. *)
Definition added_line (urlStr : string) (r : res (option (gmap string value))) : shown :=
  match r with
  | inl err => Line ("error for " ++ urlStr ++ ": " ++ error_text err)
  | inr resp => WithValue "queued job id " (m ← resp; m !! "id") (" (" ++ urlStr ++ ")")
  end.

Fixpoint add_urls (a : addArgs) (l : list string) (lines : list shown) (hadErr : bool) : prog outcome :=
  match l with
  | [] => Ret (mkOutcome lines (Some (if hadErr then 1 else 0)%Z))
  | urlStr :: rest =>
      r <- post_add a urlStr ;;
      add_urls a rest (lines ++ [added_line urlStr r])%list (hadErr || negb (is_ok r))
  end.

Definition cmdAdd (args : list string) : prog outcome :=
  if existsb (fun arg => String.eqb arg "-h" || String.eqb arg "--help") args then exits usage
  else
    r <- parseAddArgs args ;;
    match r with
    | inl err => exits [error_line err; add_usage]
    | inr a =>
        if Nat.eqb (length (urls a)) 0 || String.eqb (outDir a) "" then exits [add_usage]
        else if Nat.ltb 1 (length (urls a)) && negb (String.eqb (name a) "") then
          exits [Line "error: --name can only be used with a single URL"]
        else add_urls a (urls a) [] false
    end.

(** ** cmd/dlq/jobs.go *)

Definition printJobs (jobs : list jobView) : list shown :=
  match jobs with
  | [] => [Line "No jobs."]
  | _ => Cells ["ID"; "STATUS"; "PROGRESS"; "SPEED"; "ETA"; "OUT"; "NAME/URL"]
         :: map Cells (concat (map job_rows jobs))
  end.

Definition count (status : string) (jobs : list jobView) : Z :=
  Z.of_nat (length (List.filter (fun j => String.eqb (JStatus j) status) jobs)).

Definition counts_line (jobs : list jobView) : shown :=
  let n s := count s jobs in
  let active := (n "queued" + n "resolving" + n "downloading" + n "paused" + n "decrypting")%Z in
  let done := (n "completed" + n "failed" + n "decrypt_failed")%Z in
  Line ("Jobs: " ++ Itoa (Z.of_nat (length jobs)) ++ " total | active: " ++ Itoa active
        ++ " (queued " ++ Itoa (n "queued") ++ ", resolving " ++ Itoa (n "resolving")
        ++ ", downloading " ++ Itoa (n "downloading") ++ ", paused/stopped " ++ Itoa (n "paused")
        ++ ", decrypting " ++ Itoa (n "decrypting") ++ ") | done: " ++ Itoa done
        ++ " (completed " ++ Itoa (n "completed") ++ ", failed " ++ Itoa (n "failed")
        ++ ", decrypt_failed " ++ Itoa (n "decrypt_failed") ++ ")").

Definition status_url (base status : string) : string :=
  let url := base ++ "/jobs" in
  if negb (String.eqb status "") then
    let url := url ++ "?status=" ++ status in
    if String.eqb status "deleted" then url ++ "&include_deleted=1" else url
  else url.

(** The escape sequences that clear the screen. *)
Definition clear_screen : string := String "027" "[H" ++ String "027" "[2J".

(** [fuel] rounds at most; the rounds of a watch end when no job is active. *)
Fixpoint status_loop (fuel : nat) (url : string) (watch : bool) (interval : Z) (lines : list shown)
  : prog outcome :=
  match fuel with
  | O => Ret (mkOutcome lines None)
  | S fuel =>
      let lines := if watch then (lines ++ [Text clear_screen])%list else lines in
      r <- getJSON url decode_views ;;
      match r with
      | inl err => exits (lines ++ [error_line err])
      | inr jobs =>
          let lines := (lines ++ counts_line jobs :: printJobs jobs)%list in
          if negb watch || negb (hasActiveJobs jobs) then exits lines
          else status_loop fuel url watch interval (lines ++ [Slept interval])
      end
  end.

Definition cmdStatus (fuel : nat) (args : list string) : prog outcome :=
  with_flags [("status", VString ""); api_flag; ("watch", VBool false); ("interval", VInt 1)] args
    (fun fs _ =>
       let interval := if (flag_int fs "interval" <=? 0)%Z then 1%Z else flag_int fs "interval" in
       status_loop fuel (status_url (api_of fs) (flag_string fs "status")) (flag_bool fs "watch")
         interval []).

Definition cmdFiles (args : list string) : prog outcome :=
  with_flags [api_flag] args (fun fs _ =>
    or_error (getJSON (api_of fs ++ "/jobs?include_deleted=1") decode_views) (fun jobs =>
      match jobs with
      | [] => exits [Line "No jobs."]
      | _ => exits (Cells ["ID"; "STATUS"; "PATH"; "URL"] :: map (fun j => Cells (files_row j)) jobs)
      end)).

Definition cmdLogs (args : list string) : prog outcome :=
  with_flags [("tail", VInt 50); api_flag] args (fun fs rest =>
    match rest with
    | [] => exits [Line "usage: dlq logs <job_id>"]
    | id :: _ =>
        or_error (getJSON (api_of fs ++ "/jobs/" ++ id ++ "/events?limit=" ++ Itoa (flag_int fs "tail"))
                    as_strings)
          (fun lines => exits (map Line lines))
    end).

(** The commands that only ask the API to do something. *)
Definition post_ok (url : string) : prog outcome :=
  or_error (postJSON (A := unit) url no_payload None) (fun _ => exits [Line "ok"]).

Definition runJobAction (args : list string) (action : string) : prog outcome :=
  with_flags [api_flag] args (fun fs rest =>
    match rest with
    | [] => exits [Line ("usage: dlq " ++ action ++ " <job_id>")]
    | id :: _ => post_ok (api_of fs ++ "/jobs/" ++ id ++ "/" ++ action)
    end).

Definition cmdRetry (args : list string) : prog outcome := runJobAction args "retry".
Definition cmdRemove (args : list string) : prog outcome := runJobAction args "remove".
Definition cmdPause (args : list string) : prog outcome := runJobAction args "pause".
Definition cmdResume (args : list string) : prog outcome := runJobAction args "resume".

Definition cmdClear (args : list string) : prog outcome :=
  with_flags [api_flag] args (fun fs _ => post_ok (api_of fs ++ "/jobs/clear")).

Definition cmdPurge (args : list string) : prog outcome :=
  with_flags [api_flag] args (fun fs _ => post_ok (api_of fs ++ "/jobs/purge")).

(** The lines of a decoded object, in no order. *)
Definition object_lines (m : gmap string value) : shown :=
  AnyOrder (map (fun kv => WithValue ("  " ++ fst kv ++ ": ") (Some (snd kv)) "") (map_to_list m)).

(** The updates that the flags ask for, keys in order; [None] for a bad boolean. *)
Definition settings_updates (concurrency : Z) (autoDecrypt : string) : option (list (string * value)) :=
  let c := if (0 <? concurrency)%Z then [("concurrency", Num (Itoa concurrency))] else [] in
  if negb (String.eqb autoDecrypt "") then
    b ← ParseBool autoDecrypt; Some (("auto_decrypt", Bool b) :: c)
  else Some c.

Definition cmdSettings (args : list string) : prog outcome :=
  with_flags [api_flag; ("concurrency", VInt 0); ("auto-decrypt", VString "")] args (fun fs _ =>
    let concurrency := flag_int fs "concurrency" in
    let autoDecrypt := flag_string fs "auto-decrypt" in
    let url := api_of fs ++ "/api/settings" in
    if (concurrency =? 0)%Z && String.eqb autoDecrypt "" then
      or_error (getJSON url as_object) (fun settings =>
        exits [Line "Current settings:"; object_lines settings])
    else
      match settings_updates concurrency autoDecrypt with
      | None => exits [Line "error: --auto-decrypt must be true or false"]
      | Some [] => exits [Line "error: no updates provided"]
      | Some updates =>
          or_error (postJSON url (Obj updates) (Some as_object)) (fun result =>
            exits [Line "Settings updated:"; object_lines (default ∅ result)])
      end).

(** ** cmd/dlq/info.go *)

Definition client_lines (base : string) : list shown :=
  [Line "CLI:"; Line ("  version: " ++ versionString); Line ("  api: " ++ base);
   Line (match LookupEnv "DLQ_API" with
         | Some v => "  env.DLQ_API: " ++ v
         | None => "  env.DLQ_API: (unset)"
         end)].

Definition server_lines (meta : metaView) : list shown :=
  [Line ""; Line "Server:"; Line "  status: ok"]
  ++ (if negb (String.eqb (MetaVersion meta) "") then [Line ("  version: " ++ MetaVersion meta)] else [])
  ++ [Line ("  out_dir_presets: " ++ Itoa (Z.of_nat (length (MetaPresets meta))))]
  ++ map (fun p => Line ("    - " ++ p)) (MetaPresets meta).

Definition settings_lines (settings : gmap string value) : list shown :=
  Line "  settings:"
  :: map (fun k => WithValue ("    " ++ k ++ ": ") (settings !! k) "")
       (merge_sort string_le (map fst (map_to_list settings))).

Definition cmdInfo (args : list string) : prog outcome :=
  with_flags [api_flag] args (fun fs _ =>
    let base := api_of fs in
    r <- getJSON (base ++ "/meta") as_meta ;;
    match r with
    | inl err =>
        exits (client_lines base
               ++ [Line ""; Line "Server:"; Line ("  status: error (" ++ error_text err ++ ")")])
    | inr meta =>
        r <- getJSON (base ++ "/api/settings") as_object ;;
        exits (client_lines base ++ server_lines meta
               ++ match r with
                  | inr settings => if bool_decide (settings = ∅) then [] else settings_lines settings
                  | inl _ => []
                  end)
    end).

(** ** cmd/dlq/main.go *)

(** [args] is [os.Args]. *)
Definition main (fuel : nat) (args : list string) : prog outcome :=
  match args with
  | _ :: command :: rest =>
      if String.eqb command "--version" || String.eqb command "version" then exits [Line versionString]
      else if String.eqb command "info" then cmdInfo rest
      else if String.eqb command "add" then cmdAdd rest
      else if String.eqb command "status" then cmdStatus fuel rest
      else if String.eqb command "files" then cmdFiles rest
      else if String.eqb command "logs" then cmdLogs rest
      else if String.eqb command "retry" then cmdRetry rest
      else if String.eqb command "remove" then cmdRemove rest
      else if String.eqb command "clear" then cmdClear rest
      else if String.eqb command "purge" then cmdPurge rest
      else if String.eqb command "pause" then cmdPause rest
      else if String.eqb command "resume" then cmdResume rest
      else if String.eqb command "settings" then cmdSettings rest
      else exits usage
  | _ => exits usage
  end.
End Client.

Example readURLs_example :
  readURLs ("https://h/a" ++ String "013" (String "010" "  # note") ++ String "010" (String "010" " https://h/b "))
  = inr ["https://h/a"; "https://h/b"].
Proof. vm_compute. reflexivity. Qed.
