(* ===== verification/CliReach.v ===== *)
(** * The URLs of the client's requests

    The client makes its URLs by appending a path to the base of the API.  A base [reaches] the
    daemon when what the server parses from such a request is that path and that query; the
    default base does. *)

From S2P Require Import Prelude GoStrings GoPath GoUrl Effects Api ApiWire Cli.

#[local] Open Scope string_scope.

(** Bytes that no escaping changes: those of the API's paths. *)
Definition plain_char (c : ascii) : bool := is_alnum c || one_of c "_/".

Definition plain (s : string) : bool := string_forallb plain_char s.

Definition query_text (q : string) : bool := string_forallb (fun c => plain_char c || one_of c "=&") q.

(** The URL with this path and query that a server parses from a request line. *)
Definition local_url (p q : string) : url := mkURL "" "" None "" p "" false false q "" "".

Definition reaches (base : string) : Prop :=
  (forall p, plain p = true ->
     exists u, Parse (base ++ String "/" p) = inr u /\ request_url u = local_url (String "/" p) "")
  /\ (forall p q, plain p = true -> query_text q = true -> q <> "" ->
     exists u, Parse (base ++ String "/" p ++ "?" ++ q) = inr u
               /\ request_url u = local_url (String "/" p) q).

Definition check_byte (f : ascii -> bool) : bool :=
  forallb (fun n => f (ascii_of_nat n)) (seq 0 256).

Lemma every_byte (f : ascii -> bool) : check_byte f = true -> forall c, f c = true.
Proof.
  unfold check_byte. rewrite forallb_forall. intros H c.
  rewrite <- (ascii_nat_embedding c). apply H, in_seq. pose proof (nat_ascii_bounded c). lia.
Qed.

Lemma string_forallb_imp (f g : ascii -> bool) (s : string) :
  check_byte (fun c => implb (f c) (g c)) = true -> string_forallb f s = true -> string_forallb g s = true.
Proof.
  intros H. pose proof (every_byte _ H) as Hi. induction s as [|c s IH]; [done|]. cbn. intros Hs.
  apply andb_true_iff in Hs as [H1 H2]. specialize (Hi c). cbn in Hi. rewrite H1 in Hi. cbn in Hi.
  by rewrite Hi, IH.
Qed.

Lemma forallb_existsb (f : ascii -> bool) (s : string) :
  string_forallb (fun c => negb (f c)) s = true -> string_existsb f s = false.
Proof.
  induction s as [|c s IH]; [done|]. cbn. intros H. apply andb_true_iff in H as [H1 H2].
  apply negb_true_iff in H1. by rewrite H1, IH.
Qed.

(** The bytes of a request's path and query are plain. *)
Lemma plain_lacks (c : ascii) (s : string) : plain_char c = false -> plain s = true -> contains_char s c = false.
Proof.
  intros Hc Hs. unfold contains_char. apply forallb_existsb. unfold plain in Hs.
  induction s as [|d s IH]; [done|]. cbn in *. apply andb_true_iff in Hs as [H1 H2].
  rewrite IH by done. destruct (Ascii.eqb c d) eqn:E; [apply Ascii.eqb_eq in E; subst; congruence|done].
Qed.

Lemma plain_unescape (s : string) : plain s = true -> unescape s encodePath = Some s.
Proof.
  induction s as [|c s IH]; [done|]. cbn. intros H. apply andb_true_iff in H as [H1 H2].
  assert (implb (plain_char c) (negb (Ascii.eqb c "%") && negb (Ascii.eqb c "+")) = true) as Hi.
  { apply (every_byte (fun c => implb (plain_char c) (negb (Ascii.eqb c "%") && negb (Ascii.eqb c "+")))).
    vm_compute. reflexivity. }
  rewrite H1 in Hi. cbn in Hi. apply andb_true_iff in Hi as [Hp Hq]. apply negb_true_iff in Hp, Hq.
  by rewrite Hp, Hq, IH.
Qed.

Lemma plain_escape (s : string) : plain s = true -> escape s encodePath = s.
Proof.
  induction s as [|c s IH]; [done|]. cbn [plain string_forallb escape]. unfold plain. cbn. intros H.
  apply andb_true_iff in H as [H1 H2].
  assert (implb (plain_char c) (negb (shouldEscape c encodePath)) = true) as Hi.
  { apply (every_byte (fun c => implb (plain_char c) (negb (shouldEscape c encodePath)))). vm_compute. reflexivity. }
  rewrite H1 in Hi. cbn in Hi. apply negb_true_iff in Hi. by rewrite Hi, IH.
Qed.

Lemma plain_decode (s : string) : plain s = true -> decode_path s encodePath = Some (s, "").
Proof. intros H. unfold decode_path. by rewrite plain_unescape, plain_escape, String.eqb_refl. Qed.

Lemma query_lacks_ctl (s : string) : query_text s = true -> has_ctl s = false.
Proof.
  intros H. unfold has_ctl. apply forallb_existsb. revert H. apply string_forallb_imp. vm_compute. reflexivity.
Qed.

Lemma plain_lacks_ctl (s : string) : plain s = true -> has_ctl s = false.
Proof.
  intros H. unfold has_ctl. apply forallb_existsb. revert H. apply string_forallb_imp. vm_compute. reflexivity.
Qed.

Lemma query_lacks (c : ascii) (s : string) :
  plain_char c || one_of c "=&" = false -> query_text s = true -> contains_char s c = false.
Proof.
  intros Hc Hs. unfold contains_char. apply forallb_existsb. unfold query_text in Hs.
  induction s as [|d s IH]; [done|]. cbn in *. apply andb_true_iff in Hs as [H1 H2].
  rewrite IH by done. destruct (Ascii.eqb c d) eqn:E; [apply Ascii.eqb_eq in E; subst; congruence|done].
Qed.

Lemma has_ctl_app (a b : string) : has_ctl (a ++ b) = has_ctl a || has_ctl b.
Proof. apply string_existsb_app. Qed.

(** What [Parse] makes of the default base and a rest that begins with a slash. *)
Lemma parse_default (p rest query : string) :
  plain p = true -> has_ctl rest = false -> contains_char rest "#" = false ->
  split_query (String "/" (String "/" ("127.0.0.1:8099" ++ String "/" rest)))
    = (String "/" (String "/" ("127.0.0.1:8099" ++ String "/" p)), false, query) ->
  Parse (defaultAPI ++ String "/" rest)
  = inr (mkURL "http" "" None "127.0.0.1:8099" (String "/" p) "" false false query "" "").
Proof.
  intros Hp Hc Hh Hs. unfold Parse. rewrite Cut_char_none.
  2: { rewrite contains_char_app. unfold contains_char at 2. cbn [string_existsb]. by fold (contains_char rest "#"). }
  unfold parse_nofrag. rewrite has_ctl_app. change (has_ctl defaultAPI) with false.
  assert (has_ctl (String "/" rest) = false) as -> by (unfold has_ctl in *; cbn [string_existsb]; by rewrite Hc).
  cbn [orb]. change (String.eqb (defaultAPI ++ String "/" rest) "*") with false. cbn iota.
  change (getScheme (defaultAPI ++ String "/" rest))
    with (Some ("http", String "/" (String "/" ("127.0.0.1:8099" ++ String "/" rest)))). cbn iota beta zeta.
  assert (forall q, HasPrefix q "" = true) as Hq by by intros [].
  rewrite Hs. cbn -[decode_path parseAuthority]. rewrite Hq. cbn -[decode_path parseAuthority].
  rewrite plain_decode by exact Hp. reflexivity.
Qed.

Lemma split_query_some (a q : string) :
  contains_char a "?" = false -> q <> "" -> split_query (a ++ "?" ++ q) = (a, false, q).
Proof.
  intros Ha Hq. unfold split_query. change ("?" ++ q) with (String "?" q). rewrite Cut_char by done.
  apply String.eqb_neq in Hq. by rewrite Hq.
Qed.

Lemma split_query_none (a : string) : contains_char a "?" = false -> split_query a = (a, false, "").
Proof. intros Ha. unfold split_query. by rewrite Cut_char_none. Qed.

Lemma default_reaches : reaches defaultAPI.
Proof.
  assert (forall p, plain p = true ->
    contains_char (String "/" (String "/" ("127.0.0.1:8099" ++ String "/" p))) "?" = false) as Hq.
  { intros p Hp. unfold contains_char. cbn. fold (contains_char p "?"). by apply plain_lacks. }
  split.
  - intros p Hp. eexists. split; [apply (parse_default p p "")|reflexivity]; [done|by apply plain_lacks_ctl|by apply plain_lacks|].
    by apply split_query_none, Hq.
  - intros p q Hp Hqt Hne. change (String "/" p ++ "?" ++ q) with (String "/" (p ++ "?" ++ q)).
    eexists. split; [apply (parse_default p (p ++ "?" ++ q) q)|reflexivity]; [done| | |].
    + rewrite has_ctl_app, plain_lacks_ctl by done. change ("?" ++ q) with (String "?" q).
      unfold has_ctl. cbn. by apply query_lacks_ctl.
    + rewrite contains_char_app, plain_lacks by done. unfold contains_char. cbn. by apply query_lacks.
    + rewrite <- split_query_some by auto. reflexivity.
Qed.

(** ** The route of a request *)

(** The server parses a plain path without a raw form, so it is its own encoding. *)
Lemma local_EscapedPath (p q : string) :
  plain p = true -> EscapedPath (local_url (String "/" p) q) = String "/" p.
Proof.
  intros Hp. unfold EscapedPath. cbn [RawPath Path local_url]. change (String.eqb "" "") with true.
  cbn [negb andb]. change (String.eqb (String "/" p) "*") with false. unfold escaped_hint.
  change (String.eqb "" "") with true. cbn [negb andb]. by rewrite plain_escape.
Qed.

Lemma plain_app (a b : string) : plain (a ++ b) = plain a && plain b.
Proof. apply string_forallb_app. Qed.

Lemma digits_plain (s : string) : string_forallb is_digit s = true -> plain s = true.
Proof. apply string_forallb_imp. vm_compute. reflexivity. Qed.

(** An id that is not negative is written in digits. *)
Lemma Itoa_digits (z : Z) : (0 <= z)%Z -> string_forallb is_digit (Itoa z) = true /\ Itoa z <> "".
Proof.
  intros Hz. unfold Itoa. destruct (z <? 0)%Z eqn:E; [bool_prop; lia|].
  destruct (string_of_N_spec (Z.to_N z)) as (c & d & -> & H & _). done.
Qed.

(** A path element without bytes that are escaped. *)
Definition plain_elem (e : string) : Prop := proper_elem e /\ plain e = true.

Lemma path_no_slash_end (l : list string) :
  l <> [] -> Forall proper_elem l -> HasSuffix (String "/" (path_join l)) "/" = false.
Proof.
  intros Hne Hl. destruct (HasSuffix _ _) eqn:E; [|done]. exfalso.
  apply HasSuffix_iff in E as [r Hr]. apply (f_equal path_split) in Hr.
  rewrite path_split_rooted, path_split_join in Hr by done.
  change (r ++ "/") with (r ++ String char_slash "") in Hr. rewrite path_split_app in Hr.
  change (path_split "") with [""] in Hr.
  destruct (exists_last Hne) as (l' & x & ->). apply Forall_app in Hl as [_ Hx].
  rewrite app_comm_cons in Hr. apply app_inj_tail in Hr as [_ ->].
  by apply Forall_cons in Hx as [[Hx _] _].
Qed.

(** The handler of a request to a path of plain elements. *)
Lemma serve_elems `{UC : Unicode} (s : Server) (r : http_request) (l : list string) :
  l <> [] -> Forall plain_elem l -> EscapedPath (ReqURL r) = String "/" (path_join l) ->
  serve_http s r = match route s ("" :: l) with Some h => h r | None => notFound end.
Proof.
  intros Hne Hl Hp. assert (Forall proper_elem l) as Hpr by by (eapply Forall_impl; [exact Hl|intros ? []]).
  unfold serve_http. rewrite Hp.
  assert (cleanPath (String "/" (path_join l)) = String "/" (path_join l)) as ->.
  { unfold cleanPath. change (String.eqb (String "/" (path_join l)) "") with false. cbn iota.
    change (HasPrefix (String "/" (path_join l)) "/") with (HasPrefix (path_join l) "").
    assert (HasPrefix (path_join l) "" = true) as -> by by destruct (path_join l).
    rewrite path_no_slash_end by done. cbn [andb]. rewrite Clean_rooted by apply IsAbs_cons.
    change "/"%char with char_slash. by rewrite clean_list_rooted. }
  rewrite String.eqb_refl, andb_false_r. cbn iota.
  assert (path_segments (String "/" (path_join l)) = "" :: l) as ->; [|done].
  unfold path_segments. fold (path_split (String "/" (path_join l))).
  change "/"%char with char_slash. rewrite path_split_rooted, path_split_join by done. cbn [map]. f_equal.
  clear Hne Hp Hpr. induction Hl as [|x l [_ Hx] _ IH]; [done|]. cbn. by rewrite plain_unescape, IH.
Qed.
