(* ===== verification/CliApi.v ===== *)
(** * The client and the daemon together

    The commands of the client (Cli.v), connected to the API's server (ApiWire.v), are the
    operations of the queue's service on the daemon's own tables: what a user types is what
    the queue does. *)

From S2P Require Import Prelude GoStrings GoPath GoUrl GoError GoFloat GoJson Schema Effects Settings.
From S2P Require Import Status Paths DaemonEnv Store StoreInv StoreSpec Wp Service Api ApiSpec ApiJson ApiWire.
From S2P Require Import CliFormat CliFlags Cli CliReach.

#[local] Open Scope string_scope.

Section Together.
Context `{UC : Unicode} `{JE : JsonErrors} `{WT : WireTexts} (s : Server).
Context (environ : list string) (stdin : res string) (version : string).

(** The command line [args], with the daemon at the other end. *)
Definition dlq (fuel : nat) (args : list string) : prog outcome :=
  connect (serve_text s) (main environ stdin version fuel ("dlq" :: args)).

(** ** Answers as the client sees them *)

(** An error of the API. *)
Definition relayed (code : Z) (err : error) : error :=
  let msg := to_valid (error_text err) in
  let status := "http " ++ Itoa code in
  if negb (String.eqb msg "") then ENew (status ++ ": " ++ msg) else ENew status.

Lemma decode_small (v : value) :
  well_formed v -> (nesting v <= 2)%Z -> Decode (Marshal v ++ nl) = Some (coerce v).
Proof.
  intros Hw Hn. apply Decode_Marshal_rest; [done|unfold maxNestingDepth; lia|].
  split; vm_compute; reflexivity.
Qed.

Lemma readHTTPError_relayed (code : Z) (err : error) :
  readHTTPError (response_text (mkResponse code (EError err))) = relayed code err.
Proof.
  unfold readHTTPError, response_text. cbn [body_value RespBody NetText NetStatus Code].
  rewrite decode_small; [|repeat split|by vm_compute]. unfold error_value, relayed. cbn [coerce map fst snd].
  change (to_valid "error") with "error". generalize (to_valid (error_text err)) as msg. intros msg.
  cbn [mbind option_bind decode_texts foldl decode_string fst snd].
  rewrite lookup_insert. reflexivity.
Qed.

(** The outcome of a command that only asks for something. *)
Definition asked (r : res unit) : outcome :=
  mkOutcome [match r with
             | inr _ => Line "ok"
             | inl err => error_line (relayed (statusForQueueErr err) err)
             end] (Some 0%Z).

Lemma status_error (err : error) : (300 <=? statusForQueueErr err)%Z = true.
Proof. unfold statusForQueueErr. by repeat case_bool. Qed.

(** ** Requests that reach their handler *)

Lemma run_post_ok (env : Env) (w : World) (address : string) (u : url) (p : prog (res unit)) :
  Parse address = inr u ->
  (forall w, run env (serve_http s (received (mkNetReq "POST" address json_headers (Marshal no_payload)) u)) w
             = run env (or_queue_err p statusOk) w) ->
  run env (connect (serve_text s) (post_ok address)) w = run env (r <- p ;; Ret (asked r)) w.
Proof.
  intros Hu Hs. unfold post_ok, or_error, postJSON, bind_err. cbn [connect call bind]. unfold serve_text at 1.
  cbn [NetURL]. rewrite Hu, !run_bind, Hs. unfold or_queue_err. rewrite run_bind.
  destruct (run env p w) as [w' [[err|x]|]]; [| |done]; cbn [run writeQueueErr writeErr writeJSON statusOk].
  - unfold response_text at 1. cbn [NetStatus Code bind connect]. rewrite status_error.
    cbn [bind connect exits run]. by rewrite readHTTPError_relayed.
  - reflexivity.
Qed.

Lemma plain_id (id : Z) : (0 <= id)%Z -> plain_elem (Itoa id).
Proof.
  intros Hid. destruct (Itoa_digits id Hid) as [Hd Hne]. pose proof (digits_plain _ Hd) as Hp. split; [|done].
  split; [done|]. split; [by intros E; rewrite E in Hd|]. split; [by intros E; rewrite E in Hd|].
  unfold contains_char. apply forallb_existsb. revert Hd. apply string_forallb_imp. vm_compute. reflexivity.
Qed.

(** The actions of a job, and what the service does for each. *)
Definition operations (id : Z) : list (string * prog (res unit)) :=
  [("retry", Retry (Queue s) id); ("remove", Remove (Queue s) id);
   ("pause", GetJob id ;; Pause (Queue s) id); ("resume", Resume (Queue s) id)].

Lemma operation_plain (id : Z) (action : string) (op : prog (res unit)) :
  (action, op) ∈ operations id -> plain_elem action.
Proof.
  unfold operations, plain_elem, proper_elem. rewrite !elem_of_cons, elem_of_nil.
  intros [[= -> _]|[[= -> _]|[[= -> _]|[[= -> _]|[]]]]]; vm_compute; repeat split; discriminate.
Qed.

Lemma serve_action (r : http_request) (id : Z) (action : string) :
  (0 <= id <= max_int64)%Z -> plain_elem action ->
  ReqURL r = local_url (String "/" (path_join ["jobs"; Itoa id; action])) "" ->
  serve_http s r = job_action s r id action.
Proof.
  intros Hid Ha Hu. pose proof (plain_id id ltac:(lia)) as Hi.
  assert (Forall plain_elem ["jobs"; Itoa id; action]) as Hl.
  { repeat (apply Forall_cons; split; [done || (vm_compute; repeat split; discriminate)|]). apply Forall_nil_2. }
  rewrite (serve_elems s r ["jobs"; Itoa id; action]); [|done|done|].
  2: { rewrite Hu. apply local_EscapedPath. change (path_join _) with ("jobs/" ++ Itoa id ++ "/" ++ action).
       rewrite !plain_app, (proj2 Hi), (proj2 Ha). vm_compute. reflexivity. }
  assert (route s [""; "jobs"; Itoa id; action] = Some (handleJob s)) as ->.
  { unfold route, routes. cbn [List.find fst]. rewrite !bool_decide_false by discriminate. reflexivity. }
  unfold handleJob. rewrite Hu. cbn [Path local_url].
  assert (split_char char_slash (TrimPrefix (String "/" (path_join ["jobs"; Itoa id; action])) "/jobs/")
          = [Itoa id; action]) as ->.
  { unfold TrimPrefix. rewrite (proj2 (HasPrefix_iff _ "/jobs/")) by by exists (path_join [Itoa id; action]).
    change (drop_str _ _) with (path_join [Itoa id; action]).
    apply path_split_join; [done|]. destruct Hi, Ha.
    repeat (apply Forall_cons; split; [done|]). apply Forall_nil_2. }
  rewrite ParseInt_Itoa by (unfold min_int64; lia). reflexivity.
Qed.

Lemma run_then (env : Env) (w : World) (p q : prog (res unit)) {A} (k : res unit -> prog A) :
  (forall w, run env p w = run env q w) -> run env (bind p k) w = run env (bind q k) w.
Proof. intros H. by rewrite !run_bind, H. Qed.

Lemma run_operation (env : Env) (w : World) (r : http_request) (id : Z) (action : string) (op : prog (res unit)) :
  (action, op) ∈ operations id -> Method r = "POST" ->
  run env (job_action s r id action) w = run env (or_queue_err op statusOk) w.
Proof.
  unfold operations. rewrite !elem_of_cons, elem_of_nil. intros Ha Hm. unfold job_action, post_only. rewrite Hm.
  destruct Ha as [[= -> ->]|[[= -> ->]|[[= -> ->]|[[= -> ->]|[]]]]]; cbn [String.eqb Ascii.eqb Bool.eqb negb];
    try reflexivity.
  etrans; [apply (run_bind env (GetJob id) (fun _ => or_queue_err (Pause (Queue s) id) statusOk))|].
  symmetry. etrans; [apply (run_bind env (GetJob id ;; Pause (Queue s) id)
                       (fun r => match r with inl err => writeQueueErr err | inr x => statusOk x end))|].
  rewrite (run_bind env (GetJob id)). destruct (run env (GetJob id) w) as [w2 [x|]]; [|done].
  symmetry. apply run_bind.
Qed.

(** The command line of a command with a job's id. *)
Lemma main_action (fuel : nat) (id : Z) (action : string) (op : prog (res unit)) :
  (0 <= id)%Z -> (action, op) ∈ operations id ->
  dlq fuel [action; Itoa id]
  = connect (serve_text s) (post_ok (apiBase environ ++ "/jobs/" ++ Itoa id ++ "/" ++ action)).
Proof.
  intros Hid Ha. unfold dlq.
  assert (main environ stdin version fuel ["dlq"; action; Itoa id] = runJobAction environ [Itoa id] action) as ->.
  { unfold operations in Ha. rewrite !elem_of_cons, elem_of_nil in Ha.
    destruct Ha as [[= -> ->]|[[= -> ->]|[[= -> ->]|[[= -> ->]|[]]]]]; reflexivity. }
  unfold runJobAction, with_flags.
  assert (parse_flags (list_to_map [api_flag environ]) [Itoa id]
          = inr (list_to_map [api_flag environ], [Itoa id])) as ->.
  { destruct (Itoa_digits id Hid) as [Hd Hne]. destruct (Itoa id) as [|c t]; [done|].
    cbn [parse_flags]. assert (HasPrefix (String c t) "-" = false) as ->; [|by rewrite orb_true_r].
    destruct (HasPrefix (String c t) "-") eqn:E; [|done]. apply HasPrefix_iff in E as [q [= -> ->]]. done. }
  unfold api_of, flag_string, api_flag. cbn [list_to_map foldr fst snd]. by rewrite lookup_insert.
Qed.

(** C18. A command on a job is the service's operation: "dlq pause 7", sent over HTTP, decoded,
    routed and answered, does to the daemon exactly what its operation does, call by call,
    and shows "ok" when that succeeds, else its error with the API's status; so do retry,
    remove and resume, for every id and whatever fails. *)
Theorem job_commands (env : Env) (w : World) (fuel : nat) (id : Z) (action : string) (op : prog (res unit))
  (Hb : reaches (apiBase environ)) (Hid : (0 <= id <= max_int64)%Z) (Ha : (action, op) ∈ operations id) :
  run env (dlq fuel [action; Itoa id]) w = run env (r <- op ;; Ret (asked r)) w.
Proof.
  rewrite (main_action fuel id action op) by (done || lia). pose proof (operation_plain id action op Ha) as Hp.
  destruct Hb as [Hb _].
  destruct (Hb ("jobs/" ++ Itoa id ++ "/" ++ action)) as (u & Hu & Hr).
  { rewrite !plain_app, (proj2 (plain_id id ltac:(lia))), (proj2 Hp). vm_compute. reflexivity. }
  apply (run_post_ok env w _ u op); [exact Hu|]. intros w'.
  rewrite (serve_action _ id action) by done. by apply run_operation.
Qed.

(** ** Adding jobs *)

(** The request that the server decodes. *)
Definition request_of (a : addArgs) (u : string) : addJobRequest :=
  mkAddJob u (outDir a) (name a) (addSite a) (archivePassword a) 0.

(** Texts that reach the server as they are, in a body within its limit. *)
Definition sendable (a : addArgs) (u : string) : Prop :=
  u <> "" /\ Forall (fun t => to_valid t = t) [u; outDir a; name a; addSite a; archivePassword a]
  /\ (Z.of_nat (String.length (Marshal (add_payload u (outDir a) (name a) (addSite a) (archivePassword a))))
      <= maxRequestBodyBytes)%Z.

Lemma decode_add_within (text : string) (req : addJobRequest) :
  (Z.of_nat (String.length text) <= maxRequestBodyBytes)%Z ->
  decode_add text = BodyOk req -> decode_request decode_add_value text = BodyOk req.
Proof.
  intros Hl. apply Z.leb_le in Hl. unfold decode_add, decode_request. rewrite Hl.
  destruct (Decode text) as [v|]; cbn [mbind option_bind]; [|done]. by destruct (decode_add_value v).
Qed.

Lemma sent_add (a : addArgs) (u : string) :
  sendable a u ->
  decode_request decode_add_value
    (Marshal (add_payload u (outDir a) (name a) (addSite a) (archivePassword a))) = BodyOk (request_of a u).
Proof.
  intros (_ & Ht & Hl). apply decode_add_within; [exact Hl|]. rewrite decode_add_payload.
  repeat (apply Forall_cons in Ht as [-> Ht]). reflexivity.
Qed.

(** The table and the event log have room for [n] more rows, with ids that are not negative. *)
Definition room_for (n : nat) (d : Db) : Prop :=
  (0 <= next_id (seq_jobs d) (map ID (jobs d)))%Z
  /\ (next_id (seq_jobs d) (map ID (jobs d)) + Z.of_nat n <= max_int64 + 1)%Z
  /\ (next_id (seq_events d) (map EvID (events d)) + Z.of_nat n <= max_int64 + 1)%Z.

Lemma room_for_one (n : nat) (d : Db) : room_for (S n) d -> jobs_room d /\ events_room d.
Proof. unfold room_for, jobs_room, events_room. lia. Qed.

Lemma next_id_app (seq : Z) (ids : list Z) :
  next_id (next_id seq ids) (ids ++ [next_id seq ids]) = (next_id seq ids + 1)%Z.
Proof.
  pose proof (proj2 (next_id_fresh seq ids)) as H. set (id := next_id seq ids) in *. clearbody id.
  unfold next_id. rewrite foldr_app. cbn [foldr]. rewrite Z.max_id. f_equal.
  induction H as [|i ids Hi _ IH]; [done|]. cbn. rewrite IH. lia.
Qed.

Lemma room_for_added (n : nat) (req : addJobRequest) (out nm : string) (set : SettingsState) (t t' : Z) (d : Db) :
  room_for (S n) d -> room_for n (added_db s req out nm set t t' d).
Proof.
  unfold room_for, added_db, created_db. cbn [jobs events seq_jobs seq_events]. rewrite !map_app. cbn [map].
  change (ID (new_row _ _ _ _ _ _ _ ?x)) with x. change (EvID (mkEvent ?x _ _ _ _)) with x.
  rewrite !next_id_app. lia.
Qed.

(** The jobs for [l] are added one after the other, with these ids. *)
Fixpoint added_all (a : addArgs) (out nm : string) (set : SettingsState) (l : list string) (ids : list Z)
    (d d' : Db) : Prop :=
  match l, ids with
  | [], [] => d' = d
  | u :: l, id :: ids =>
      id = next_id (seq_jobs d) (map ID (jobs d))
      /\ exists t t', added_all a out nm set l ids (added_db s (request_of a u) out nm set t t' d) d'
  | _, _ => False
  end.

Definition queued_line (u : string) (id : Z) : shown :=
  WithValue "queued job id " (Some (Num (Itoa id))) (" (" ++ u ++ ")").

Definition refused_line (err : error) (u : string) : shown :=
  Line ("error for " ++ u ++ ": " ++ error_text (relayed 400 err)).

Definition id_object (id : Z) : gmap string value := <["id" := Num (Itoa id)]> ∅.

Lemma id_answer (id : Z) :
  (0 <= id <= max_int64)%Z -> as_object (Marshal (Obj [("id", Num (Itoa id))]) ++ nl) = Some (id_object id).
Proof.
  intros Hid. unfold as_object. rewrite decode_small; [|split; [apply Itoa_is_number|exact Logic.I]|by vm_compute].
  cbn [coerce map fst snd mbind option_bind decode_object numbers_ok forallb].
  destruct (ParseFloat_Itoa id Hid) as [f ->]. reflexivity.
Qed.

Section Add.
Context (env : Env) (Hnf : no_faults env) (a : addArgs) (base : url).
Context (Hbase : Parse (api a ++ "/jobs") = inr base) (Hreq : request_url base = local_url "/jobs" "").
Context (Hout : outDir a <> "").

Lemma wp_post_add (u : string) (w : World) (P : World -> res (option (gmap string value)) -> Prop) :
  sendable a u -> room_for 1 (db w) ->
  match cleanOutDir (outDir a) (allowedRoots (Queue s)), cleanUserFilename (name a) with
  | inr out, inr nm => forall w' t t', db w' = added_db s (request_of a u) out nm (settings w) t t' (db w) ->
      settings w' = settings w ->
      P w' (inr (Some (id_object (next_id (seq_jobs (db w)) (map ID (jobs (db w)))))))
  | inl e, _ | inr _, inl e =>
      forall w', db w' = db w -> settings w' = settings w -> P w' (inl (relayed 400 e))
  end ->
  wp env (connect (serve_text s) (post_add a u)) P w.
Proof using Hnf Hbase Hreq Hout.
  intros Hs Hr HP. destruct (room_for_one _ _ Hr) as [Hj He]. unfold post_add, postJSON, bind_err, call.
  cbn [connect bind]. unfold serve_text at 1. cbn [NetURL]. rewrite Hbase. apply wp_bind, wp_bind.
  rewrite serve_jobs by (unfold received; cbn [ReqURL]; rewrite Hreq; vm_compute; reflexivity).
  unfold handleJobs, received. cbn [Method NetMethod as_add NetBody]. rewrite sent_add by done.
  cbn [String.eqb Ascii.eqb Bool.eqb with_body]. apply wp_handleAdd; [done..|].
  cbn [AddURL AddOutDir AddName request_of]. destruct Hs as (Hu & _).
  apply String.eqb_neq in Hu. rewrite Hu. rewrite (proj2 (String.eqb_neq _ _) Hout). cbn [orb].
  assert (forall e w', db w' = db w -> frame w w' ->
            (forall w', db w' = db w -> settings w' = settings w -> P w' (inl (relayed 400 e))) ->
            wp env (Ret (inr (response_text (mkResponse 400 (EError e)))))
              (fun w' (x : res net_resp) => wp env (connect (serve_text s)
                 (match x with
                  | inl e => Ret (inl e)
                  | inr resp => Ret (if (300 <=? NetStatus resp)%Z then inl (readHTTPError resp)
                                     else match decode_body as_object resp with inl e => inl e | inr a => inr (Some a) end)
                  end)) P w') w') as Herr.
  { intros e w' Hd Hf H. apply wp_Ret. cbn [connect NetStatus response_text Code Z.leb Z.compare Pos.compare Pos.compare_cont].
    rewrite readHTTPError_relayed. apply wp_Ret. apply H; [done|]. by destruct Hf as (_ & _ & _ & _ & ?). }
  destruct (cleanOutDir _ _) as [e|out]; [intros w' Hd Hf; by apply Herr|].
  destruct (cleanUserFilename _) as [e|nm]; [intros w' Hd Hf; by apply Herr|].
  intros w' t t' Hd Hf. apply wp_Ret. cbn [connect]. unfold response_text. cbn [NetStatus Code NetText RespBody body_value].
  change (300 <=? 200)%Z with false. cbn iota. unfold decode_body. cbn [NetText].
  rewrite id_answer by (unfold room_for in Hr; lia). apply wp_Ret. eapply HP; [exact Hd|].
  by destruct Hf as (_ & _ & _ & _ & ?).
Qed.

Lemma wp_connect_bind {A B} (p : prog A) (f : A -> prog B) (P : World -> B -> Prop) (w : World) :
  wp env (connect (serve_text s) p) (fun w' x => wp env (connect (serve_text s) (f x)) P w') w ->
  wp env (connect (serve_text s) (bind p f)) P w.
Proof using Type. intros H. apply wp_bind in H. unfold wp in *. by rewrite connect_bind. Qed.

(** The jobs of a list of URLs, when the API accepts the directory and the name. *)
Lemma wp_add_urls_ok (out nm : string) (l : list string) (lines : list shown) (hadErr : bool) (w : World) :
  cleanOutDir (outDir a) (allowedRoots (Queue s)) = inr out -> cleanUserFilename (name a) = inr nm ->
  Forall (sendable a) l -> room_for (length l) (db w) ->
  wp env (connect (serve_text s) (add_urls a l lines hadErr)) (fun w' o => exists ids,
    added_all a out nm (settings w) l ids (db w) (db w')
    /\ o = mkOutcome (lines ++ zip_with queued_line l ids) (Some (if hadErr then 1 else 0)%Z)) w.
Proof using Hnf Hbase Hreq Hout.
  intros Ho Hn Hl. revert lines w. induction Hl as [|u l Hu Hl IH]; intros lines w Hr.
  { apply wp_Ret. exists []. by rewrite app_nil_r. }
  cbn [add_urls]. apply wp_connect_bind. apply wp_post_add; [done|unfold room_for in *; cbn [length] in *; lia|].
  rewrite Ho, Hn. intros w1 t t' Hd Hs1. cbn [is_ok negb]. rewrite orb_false_r.
  eapply wp_mono; [|apply IH; rewrite Hd; by apply room_for_added].
  intros w2 o (ids & Ha & ->). exists (next_id (seq_jobs (db w)) (map ID (jobs (db w))) :: ids). split.
  - cbn [added_all]. split; [done|]. exists t, t'. by rewrite <- Hd, <- Hs1.
  - cbn [zip_with]. by rewrite <- app_assoc.
Qed.

Lemma wp_add_urls_refused (e : error) (l : list string) (lines : list shown) (hadErr : bool) (w : World) :
  match cleanOutDir (outDir a) (allowedRoots (Queue s)), cleanUserFilename (name a) with
  | inr _, inr _ => False
  | inl e', _ | inr _, inl e' => e' = e
  end ->
  Forall (sendable a) l -> room_for 1 (db w) ->
  wp env (connect (serve_text s) (add_urls a l lines hadErr)) (fun w' o =>
    db w' = db w
    /\ o = mkOutcome (lines ++ map (refused_line e) l)
             (Some (if hadErr || negb (Nat.eqb (length l) 0) then 1 else 0)%Z)) w.
Proof using Hnf Hbase Hreq Hout.
  intros He Hl. revert lines hadErr w. induction Hl as [|u l Hu Hl IH]; intros lines hadErr w Hr.
  { apply wp_Ret. by rewrite app_nil_r, orb_false_r. }
  cbn [add_urls]. apply wp_connect_bind. apply wp_post_add; [done|done|].
  assert (forall w', db w' = db w -> settings w' = settings w ->
    wp env (connect (serve_text s) (add_urls a l (lines ++ [added_line u (inl (relayed 400 e))])
              (hadErr || negb (is_ok (inl (relayed 400 e) : res (option (gmap string value)))))))
      (fun w' o => db w' = db w /\ o = mkOutcome (lines ++ map (refused_line e) (u :: l))
             (Some (if hadErr || negb (Nat.eqb (length (u :: l)) 0) then 1 else 0)%Z)) w') as H.
  { intros w' Hd _. eapply wp_mono; [|apply IH; by rewrite Hd]. intros w2 o [H ->]. split; [by rewrite H|].
    cbn [map length Nat.eqb is_ok negb]. rewrite <- app_assoc, orb_true_r. by destruct (Nat.eqb _ _). }
  destruct (cleanOutDir _ _) as [e'|out]; [by subst|]. destruct (cleanUserFilename _) as [e'|nm]; [by subst|done].
Qed.
End Add.


(** ** Showing jobs *)

(** The jobs a request for them lists, as the client decodes them. *)
Definition listed (status : string) (includeDeleted : bool) (d : Db) : list jobView :=
  map client_view (map toView (rev (rows_where (list_filter status includeDeleted) d))).

Definition numbers_fit (d : Db) : Prop := Forall (fun j => view_ok (toView j)) (jobs d).

Lemma listed_ok (status : string) (b : bool) (d : Db) :
  numbers_fit d -> Forall view_ok (map toView (rev (rows_where (list_filter status b) d))).
Proof.
  intros H. apply Forall_map, Forall_rev. unfold rows_where. apply List.Forall_forall. intros j Hj.
  apply filter_In in Hj as [Hj _]. unfold numbers_fit in H. rewrite List.Forall_forall in H. by apply H.
Qed.

(** GET /jobs with a query, decoded by the client. *)
Lemma wp_get_jobs (env : Env) (Hnf : no_faults env) (w : World) (address status query : string) (b : bool) (u : url)
    (P : World -> res (list jobView) -> Prop) :
  Parse address = inr u -> request_url u = local_url "/jobs" query ->
  QueryGet (local_url "/jobs" query) "status" = status ->
  String.eqb (QueryGet (local_url "/jobs" query) "include_deleted") "1" = b ->
  numbers_fit (db w) ->
  (forall w', db w' = db w -> P w' (inr (listed status b (db w)))) ->
  wp env (connect (serve_text s) (getJSON address decode_views)) P w.
Proof.
  intros Hu Hq Hst Hdel Hfit HP. unfold getJSON, bind_err, call. cbn [connect bind]. unfold serve_text at 1.
  cbn [NetURL]. rewrite Hu. apply wp_bind, wp_bind.
  rewrite serve_jobs by (unfold received; cbn [ReqURL]; rewrite Hq; by apply local_EscapedPath).
  unfold handleJobs, received. cbn [Method NetMethod ReqURL]. rewrite Hq.
  cbn [String.eqb Ascii.eqb Bool.eqb]. rewrite Hst, Hdel. unfold or_internal. apply wp_bind.
  unfold ListJobs. apply wp_bind_err, wp_ListJobs; [done|]. intros w1 H1 F1. do 3 apply wp_Ret.
  unfold response_text. cbn [NetStatus Code NetText RespBody body_value]. change (300 <=? 200)%Z with false. cbn iota.
  unfold decode_body. cbn [NetText]. rewrite decode_views_text; [|by apply listed_ok|split; vm_compute; reflexivity].
  by apply HP.
Qed.

(** The arguments that ask for one status, or for any. *)
Definition status_args (status : string) : list string :=
  if String.eqb status "" then [] else ["--status=" ++ status].

Lemma main_status (fuel : nat) (status : string) :
  status ∈ "" :: statuses ->
  dlq (S fuel) ("status" :: status_args status)
  = connect (serve_text s) (status_loop (S fuel) (status_url (apiBase environ) status) false 1 []).
Proof.
  intros Hst. unfold dlq.
  change (main environ stdin version (S fuel) ("dlq" :: "status" :: status_args status))
    with (cmdStatus environ (S fuel) (status_args status)).
  unfold cmdStatus, with_flags.
  set (flags := list_to_map _).
  assert (flags !! "status" = Some (VString "")) as H1 by done.
  assert (exists fs rest, parse_flags flags (status_args status) = inr (fs, rest)
    /\ flag_string fs "status" = status /\ flag_string fs "api" = apiBase environ
    /\ flag_bool fs "watch" = false /\ flag_int fs "interval" = 1%Z) as (fs & rest & -> & Hs & Ha & Hw & Hi).
  { clear Hst. unfold status_args. destruct (String.eqb status "") eqn:E; bool_prop.
    - subst. exists flags, []. done.
    - exists (<["status" := VString status]> flags), []. split.
      + rewrite (parse_flags_eq flags "s" "tatus" status (VString "") (VString status)) by done. done.
      + unfold flag_string, flag_bool, flag_int. rewrite lookup_insert, !lookup_insert_ne by done. done. }
  unfold api_of. rewrite Hs, Ha, Hw, Hi. reflexivity.
Qed.


(** ** Changing the settings *)

Definition bool_text (b : bool) : string := if b then "true" else "false".

(** The updates that are sent. *)
Definition update_value (n : Z) (b : bool) : value :=
  Obj [("auto_decrypt", Bool b); ("concurrency", Num (Itoa n))].

(** Small integers are read as themselves. *)
Lemma read_small (n : Z) :
  (1 <= n <= 10)%Z -> exists f, ParseFloat (Itoa n) = Some f /\ float_is (settings_float f) n.
Proof.
  intros Hn.
  assert (forallb (fun n => match ParseFloat (Itoa n) with
                            | Some f => (scaled (settings_float f) =? n * scale (settings_float f))%Z
                            | None => false
                            end) (map Z.of_nat (seq 1 10)) = true) as H by (vm_compute; reflexivity).
  rewrite forallb_forall in H. specialize (H n). destruct (ParseFloat (Itoa n)) as [f|].
  - exists f. split; [done|]. apply Z.eqb_eq, H. apply in_map_iff. exists (Z.to_nat n).
    split; [lia|]. apply in_seq. lia.
  - discriminate H. apply in_map_iff. exists (Z.to_nat n). split; [lia|]. apply in_seq. lia.
Qed.

Lemma int_field_ok (u : gmap string json) (key : string) (lo hi old n : Z) :
  asks_int u key lo hi old n -> int_field u key lo hi old = inr n.
Proof.
  intros H. pose proof (int_field_spec u key lo hi old) as Hs. destruct (int_field u key lo hi old) as [e|z].
  - by apply Hs in H.
  - by rewrite (asks_int_unique _ _ _ _ _ _ _ H Hs).
Qed.

Lemma update_small (n : Z) (b : bool) :
  (1 <= n <= 10)%Z -> (Z.of_nat (String.length (Marshal (update_value n b))) <= maxRequestBodyBytes)%Z.
Proof.
  intros Hn. apply Z.leb_le.
  assert (forallb (fun n => (Z.of_nat (String.length (Marshal (update_value n b))) <=? maxRequestBodyBytes)%Z)
            (map Z.of_nat (seq 1 10)) = true) as H by (destruct b; vm_compute; reflexivity).
  rewrite forallb_forall in H. apply H. apply in_map_iff. exists (Z.to_nat n). split; [lia|]. apply in_seq. lia.
Qed.

Lemma sent_settings (n : Z) (b : bool) (set : SettingsState) :
  (1 <= n <= 10)%Z ->
  exists u, decode_request decode_updates (Marshal (update_value n b)) = BodyOk u
    /\ Update u set = (mkSettings n (SetMaxAttempts set) b, inr tt).
Proof.
  intros Hn. destruct (read_small n Hn) as (f & Hf & Hi).
  exists (<["concurrency" := JNumber (settings_float f)]> (<["auto_decrypt" := JBool b]> ∅)). split.
  - pose proof (update_small n b Hn) as Hl. apply Z.leb_le in Hl. unfold decode_request. rewrite Hl.
    rewrite Decode_Marshal; [|unfold update_value; repeat split; apply Itoa_is_number|by vm_compute].
    unfold update_value, decode_updates. cbn [coerce map fst snd json_of]. rewrite Hf. reflexivity.
  - unfold Update. rewrite (int_field_ok _ "concurrency" _ _ _ n).
    2: { unfold asks_int. rewrite lookup_insert. eexists. split; [reflexivity|]. split; [done|lia]. }
    rewrite (int_field_ok _ "max_attempts" _ _ _ (SetMaxAttempts set)).
    2: { unfold asks_int. rewrite !lookup_insert_ne by done. by rewrite lookup_empty. }
    unfold bool_field. rewrite lookup_insert_ne, lookup_insert by done. reflexivity.
Qed.

Definition settings_object (set : SettingsState) : gmap string value :=
  <["max_attempts" := Num (Itoa (SetMaxAttempts set))]> (<["concurrency" := Num (Itoa (Concurrency set))]>
    (<["auto_decrypt" := Bool (AutoDecrypt set)]> ∅)).

Lemma settings_answer (set : SettingsState) :
  (0 <= Concurrency set <= max_int64)%Z -> (0 <= SetMaxAttempts set <= max_int64)%Z ->
  as_object (Marshal (settings_value set) ++ nl) = Some (settings_object set).
Proof.
  intros Hc Hm. unfold as_object. rewrite decode_small.
  2: { unfold settings_value. repeat split; apply Itoa_is_number. }
  2: by vm_compute.
  unfold settings_value. cbn [coerce map fst snd mbind option_bind decode_object numbers_ok forallb].
  destruct (ParseFloat_Itoa _ Hc) as [f ->]. destruct (ParseFloat_Itoa _ Hm) as [g ->]. reflexivity.
Qed.

Lemma main_settings (fuel : nat) (n : Z) (b : bool) :
  (1 <= n <= 10)%Z ->
  dlq fuel ["settings"; "--concurrency=" ++ Itoa n; "--auto-decrypt=" ++ bool_text b]
  = connect (serve_text s)
      (or_error (postJSON (apiBase environ ++ "/api/settings") (update_value n b) (Some as_object)) (fun result =>
         exits [Line "Settings updated:"; object_lines (default ∅ result)])).
Proof.
  intros Hn. unfold dlq.
  change (main environ stdin version fuel ("dlq" :: ["settings"; "--concurrency=" ++ Itoa n; "--auto-decrypt=" ++ bool_text b]))
    with (cmdSettings environ ["--concurrency=" ++ Itoa n; "--auto-decrypt=" ++ bool_text b]).
  unfold cmdSettings, with_flags. set (flags := list_to_map _).
  assert (flags !! "concurrency" = Some (VInt 0)) as H1 by done.
  assert (flags !! "auto-decrypt" = Some (VString "")) as H2 by done.
  assert (ParseInt0 (Itoa n) = Some n) as Hi.
  { assert (forallb (fun n => bool_decide (ParseInt0 (Itoa n) = Some n)) (map Z.of_nat (seq 1 10)) = true) as H
      by (vm_compute; reflexivity).
    rewrite forallb_forall in H. apply (bool_decide_eq_true (ParseInt0 (Itoa n) = Some n)), H, in_map_iff.
    exists (Z.to_nat n). split; [lia|]. apply in_seq. lia. }
  change ("--concurrency=" ++ Itoa n) with ("--" ++ "concurrency" ++ "=" ++ Itoa n).
  rewrite (parse_flags_eq flags "c" "oncurrency" (Itoa n) (VInt 0) (VInt n)); [|done|done|done|by cbn; rewrite Hi].
  set (flags1 := <["concurrency" := VInt n]> flags).
  assert (flags1 !! "auto-decrypt" = Some (VString "")) as H3 by (unfold flags1; by rewrite lookup_insert_ne).
  change ("--auto-decrypt=" ++ bool_text b) with ("--" ++ "auto-decrypt" ++ "=" ++ bool_text b).
  rewrite (parse_flags_eq flags1 "a" "uto-decrypt" (bool_text b) (VString "") (VString (bool_text b))) by done.
  set (flags2 := <["auto-decrypt" := VString (bool_text b)]> flags1).
  assert (flags2 !! "concurrency" = Some (VInt n)) as Hc
    by (unfold flags2, flags1; by rewrite lookup_insert_ne, lookup_insert).
  assert (flags2 !! "auto-decrypt" = Some (VString (bool_text b))) as Hd by (unfold flags2; by rewrite lookup_insert).
  assert (flags2 !! "api" = Some (VString (apiBase environ))) as Ha
    by (unfold flags2, flags1; by rewrite !lookup_insert_ne).
  cbn [parse_flags]. unfold flag_int, flag_string, api_of, flag_string. rewrite Hc, Hd, Ha.
  assert ((n =? 0)%Z = false) as -> by (apply Z.eqb_neq; lia). cbn [andb].
  unfold settings_updates. assert ((0 <? n)%Z = true) as -> by (apply Z.ltb_lt; lia).
  destruct b; reflexivity.
Qed.

(** Why the settings' file was not written. *)
Definition save_error (env : Env) (path : string) (set : SettingsState) (err : error) : Prop :=
  (exists k e, os_at env k (MkdirAll (Dir path)) = inl e
               /\ err = EWrap ("create settings dir: " ++ error_text e) e)
  \/ (exists k e, os_at env k (WriteFile path (settings_text set)) = inl e
                  /\ err = EWrap ("write settings: " ++ error_text e) e).

(** [Save] fails only as the directory or the file does, and touches nothing else. *)
Lemma wp_Save (env : Env) (path : string) (P : World -> res unit -> Prop) (w : World) :
  (forall w', settings w' = settings w -> db w' = db w -> P w' (inr tt)) ->
  (forall w' err, settings w' = settings w -> db w' = db w -> save_error env path (settings w) err -> P w' (inl err)) ->
  wp env (Save path) P w.
Proof.
  intros Hok Hbad. unfold Save. apply wp_bind, wp_settings. intros w1 Hd1 (_ & _ & _ & _ & Hs1).
  unfold save_settings. apply wp_bind, wp_call. unfold handle, act. cbn [fst snd].
  destruct (os_at env (clock w1) (MkdirAll (Dir path))) as [err|x] eqn:E1.
  { apply wp_Ret, Hbad; [done..|]. left. eauto. }
  apply wp_bind, wp_call. unfold handle, act. cbn [fst snd].
  match goal with |- context [os_at env ?k (WriteFile path ?x)] => destruct (os_at env k (WriteFile path x)) as [err|y] eqn:E2 end.
  - apply wp_Ret, Hbad; [done..|]. right. eauto.
  - by apply wp_Ret, Hok.
Qed.

End Together.

(** ** Witnesses *)

#[local] Instance CliUnicode : Unicode := {| unicode_lower := ascii_lower |}.
#[local] Instance CliJsonErrors : JsonErrors := {| json_error_text := fun _ => "invalid character" |}.
#[local] Instance CliWireTexts : WireTexts :=
  {| parse_error_text := fun _ _ => "invalid syntax"; needs_more := fun _ => true |}.

Lemma job_commands_witness :
  snd (run (calm_env 200) (dlq api_server [] (inr "") "" 1 ["retry"; "7"]) started_world)
  = Some (mkOutcome [Line "ok"] (Some 0%Z))
  /\ snd (run (calm_env 200) (dlq api_server [] (inr "") "" 1 ["pause"; "9"]) started_world)
     = Some (mkOutcome [Line "error: http 404: sql: no rows in result set"] (Some 0%Z)).
Proof.
  split.
  - change "7" with (Itoa 7).
    rewrite (job_commands api_server [] (inr "") "" (calm_env 200) started_world 1 7 "retry" (Retry (Queue api_server) 7)).
    + vm_compute. reflexivity.
    + exact default_reaches.
    + split; discriminate.
    + left.
  - change "9" with (Itoa 9).
    rewrite (job_commands api_server [] (inr "") "" (calm_env 200) started_world 1 9 "pause"
               (GetJob 9 ;; Pause (Queue api_server) 9)).
    + vm_compute. reflexivity.
    + exact default_reaches.
    + split; discriminate.
    + right; right; left.
Defined.

Definition sample_args : addArgs :=
  mkAddArgs ["https://host/a"; "https://host/b"] "/data/tv/../tv/x" "" "" "" defaultAPI [] false.



