(* ===== verification/Runner.v ===== *)
(** * internal/queue/runner.go: the queue runner

    One tick polls aria2 for the downloading jobs, hands finished files to post-processing,
    requeues failed jobs whose retry time has come, and starts queued jobs up to the
    configured concurrency.  Post-processing runs in a goroutine per job, limited by a
    semaphore.  Log lines of the process are not modelled. *)

From S2P Require Import Prelude GoStrings GoTime GoPath GoError Schema Effects Status Paths.
From S2P Require Import Store Archive Resolver.

#[local] Open Scope string_scope.

(** The interface to internal/queue/mega_decryptor.go: site, raw URL and file path in;
    attempted and error out. *)
Record MegaDecryptor : Type := mkMegaDecryptor {
  mega_MaybeDecrypt : string -> string -> string -> prog (bool * option error);
  mega_quiet : forall s u p, quiet (mega_MaybeDecrypt s u p)
}.

(** The fields of [Runner] but its store, its downloader (both always set) and its mutable
    state, which is [pending] and [sem] of the world.  The two getters read the settings. *)
Record Runner : Type := mkRunner {
  Resolvers : Registry;
  MegaDec : option MegaDecryptor;
  ArchiveDec : option ArchiveDecryptor;
  StaticConcurrency : Z;
  GetConcurrency : option (SettingsState -> Z);
  GetAutoDecrypt : option (SettingsState -> bool);
  DecryptConcurrency : Z
}.

Section Runner.
Context `{UC : Unicode}.

(** ** Settings *)

Definition static_concurrency (r : Runner) : Z :=
  if (0 <? StaticConcurrency r)%Z then StaticConcurrency r else 2%Z.

Definition concurrency (r : Runner) : prog Z :=
  match GetConcurrency r with
  | Some get =>
      s <- call GetSettings ;;
      if (0 <? get s)%Z then Ret (get s) else Ret (static_concurrency r)
  | None => Ret (static_concurrency r)
  end.

Definition autoDecryptEnabled (r : Runner) : prog bool :=
  match GetAutoDecrypt r with
  | Some get => s <- call GetSettings ;; Ret (get s)
  | None => Ret false
  end.

Definition decryptConcurrency (r : Runner) : Z :=
  if (0 <? DecryptConcurrency r)%Z then DecryptConcurrency r else 1%Z.

(** ** Error classes and retry times *)

Definition mapResolverError (err : error) : prog (string * string * Z) :=
  now <- now ;;
  Ret (if errors_Is err ErrLoginRequired then
         ("login_required", "login required or file not public", now + hours 6)
       else if errors_Is err ErrQuotaExceeded then
         ("quota_exceeded", "quota exceeded; retry later", now + hours 2)
       else if errors_Is err ErrCaptchaNeeded then
         ("captcha_needed", "captcha required; cannot proceed in headless mode", now + hours 24)
       else if errors_Is err ErrTemporarilyOff then
         ("temporarily_unavailable", "temporarily unavailable; retry later", now + minutes 30)
       else if errors_Is err ErrUnknownSite then
         ("unknown_site", "unknown site; cannot resolve", now + hours 6)
       else ("resolve_failed", error_text err, now + minutes 30))%Z.

Definition mapDownloadError (msg : string) : prog (string * Z) :=
  now <- now ;;
  let lower := ToLower (TrimSpace msg) in
  Ret (if Contains lower "status=509" || Contains lower "status code 509"
          || Contains lower "status 509"
       then ("quota_exceeded", (now + hours 2)%Z)
       else ("download_error", (now + minutes 10)%Z)).

(** ** Output files *)

Definition option_value (options : gmap string string) (k : string) : string :=
  default "" (options !! k).

Definition needsFreshStart (options : gmap string string) : bool :=
  EqualFold_ascii (TrimSpace (option_value options "continue")) "false"
  || EqualFold_ascii (TrimSpace (option_value options "always-resume")) "false".

Definition isOutputConflictActiveStatus (status : string) : bool :=
  existsb (String.eqb status)
    [StatusQueued; StatusResolving; StatusDownloading; StatusPaused; StatusDecrypting].

Definition outputNameForJob (job : Job) : string :=
  let name := sanitizeFilename (Name job) in
  if negb (String.eqb name "") then name
  else match Filename job with
       | Some f => sanitizeFilename f
       | None => ""
       end.

Definition output_conflicts (job : Job) (outName : string) (other : Job) : bool :=
  negb (ID other =? ID job)%Z && String.eqb (OutDir other) (OutDir job)
  && isOutputConflictActiveStatus (Status other)
  && String.eqb (outputNameForJob other) outName.

Definition hasActiveOutputConflict (job : Job) (outName : string) : prog bool :=
  if String.eqb outName "" then Ret false
  else
    jobs <- ListJobs "" false ;;
    match jobs with
    | inl _ => Ret false
    | inr jobs => Ret (existsb (output_conflicts job outName) jobs)
    end.

Definition prepareOutputForStart (job : Job) (outName : string) (options : gmap string string)
  : prog (res unit) :=
  if negb (needsFreshStart options) then Ret (inr tt)
  else
    conflict <- hasActiveOutputConflict job outName ;;
    if (conflict : bool) then Ret (inr tt)
    else
      removed <- call (OsRemove (path_Join2 (OutDir job) outName ++ ".aria2")) ;;
      match removed with
      | inl err => if errors_Is err ErrNotExist then Ret (inr tt) else Ret (inl err)
      | inr _ => Ret (inr tt)
      end.

(** ** Starting a job *)

Definition base_options (job : Job) (filename : string) : gmap string string :=
  let options := {["dir" := OutDir job]} in
  let name := sanitizeFilename (Name job) in
  if negb (String.eqb name "") then <["out" := name]> options
  else if negb (String.eqb filename "") then <["out" := filename]> options
  else options.

(** The resolver's options, the empty ones dropped, over the job's. *)
Definition merge_options (own : gmap string string) (options : gmap string string)
  : gmap string string :=
  map_fold (fun k v o => if String.eqb v "" then o else <[k := v]> o) own options.

Definition header_lines (l : list (string * string)) : string :=
  Join (map (fun '(k, v) => k ++ ": " ++ v) l) nl.

Definition with_headers (target : ResolvedTarget) (options : gmap string string)
  : prog (gmap string string) :=
  if (0 <? Z.of_nat (size (Headers target)))%Z then
    l <- call (RangeMap (Headers target)) ;;
    Ret (<["header" := header_lines l]> options)
  else Ret options.

(** Fails the job with an error event first. *)
Definition fail_job (id : Z) (code event msg : string) (delay : Z) : prog (res unit) :=
  AddEvent id "error" event ;;
  t <- now ;;
  MarkFailed id code msg (Some (t + delay)%Z).

Definition startDownload (job : Job) (target : ResolvedTarget) (options : gmap string string)
  : prog (res unit) :=
  options <- with_headers target options ;;
  gid <- call (Aria (AddURI (TargetURL target) options)) ;;
  match gid with
  | inl err => fail_job (ID job) "download_start_failed" (error_text err) (error_text err) (minutes 10)
  | inr gid =>
      AddEvent (ID job) "info" "download started" ;;
      MarkDownloading (ID job) "aria2" gid
  end.

Definition startResolved (job : Job) (target : ResolvedTarget) : prog (res unit) :=
  let filename := sanitizeFilename (TargetFilename target) in
  _ <-? UpdateResolving (ID job) (TargetURL target) filename (Size target) ;;
  if negb (String.eqb (Kind target) "aria2") then
    let msg := "resolver returned unsupported engine" in
    fail_job (ID job) "unsupported_engine" msg msg (minutes 30)
  else
    let options := merge_options (base_options job filename) (Options target) in
    let outName := sanitizeFilename (option_value options "out") in
    prepared <- (if negb (String.eqb outName "") then prepareOutputForStart job outName options
                 else Ret (inr tt)) ;;
    match prepared with
    | inl err =>
        fail_job (ID job) "prepare_output_failed" ("prepare output failed: " ++ error_text err)
          (error_text err) (minutes 10)
    | inr _ => startDownload job target options
    end.

Definition resolve_failed (job : Job) (err : error) : prog (res unit) :=
  m <- mapResolverError err ;;
  let '(code, msg, retryAt) := m in
  AddEvent (ID job) "error" msg ;;
  MarkFailed (ID job) code msg (Some retryAt).

Definition is_deleted (r : res Job) : bool :=
  match r with inr j => negb (not_deleted j) | inl _ => false end.

Definition resolveAndStart (r : Runner) (job : Job) : prog (res unit) :=
  latest <- GetJob (ID job) ;;
  if is_deleted latest then AddEvent (ID job) "info" "skipped deleted job"
  else
    resolved <- ResolveWithSite (Resolvers r) (Site job) (URL job) ;;
    match resolved with
    | inl err => resolve_failed job err
    | inr target => startResolved job target
    end.

(** ** Requeueing *)

Definition requeue_one (id : Z) : prog unit :=
  r <- Requeue id ;;
  match r with
  | inl err => AddEvent id "error" ("auto requeue failed: " ++ error_text err) ;; Ret tt
  | inr _ => AddEvent id "info" "auto retry queued" ;; Ret tt
  end.

Definition requeueFailed : prog (res unit) :=
  ids <-? ListRetryableFailed 0 ;;
  for_each ids requeue_one ;;
  Ret (inr tt).

(** ** Post-processing: what a finished file needs *)

Definition firstStatusPath (st : option AriaStatus) : string :=
  match st with
  | None => ""
  | Some st =>
      default "" (head (List.filter (fun p => negb (String.eqb p "")) (map TrimSpace (StFiles st))))
  end.

Definition archivePathForJob (job : Job) : string :=
  let name := outputNameForJob job in
  if String.eqb name "" then "" else path_Join2 (OutDir job) name.

Definition nullString (v : option string) : string := default "" v.

Definition shouldDecryptMega (r : Runner) (job : Job) (filePath : string) : bool :=
  match MegaDec r with
  | None => false
  | Some _ =>
      if negb (IsMegaJob (Site job) (URL job)) then false
      else if String.eqb (Status job) StatusDecrypting && isArchiveFile filePath
              && negb (String.eqb (TrimSpace (nullString (ErrorCode job))) "") then false
      else true
  end.

Definition shouldDecryptArchive (r : Runner) (job : Job) (filePath password : string)
  : prog bool :=
  match ArchiveDec r with
  | None => Ret false
  | Some _ =>
      let wanted := negb (String.eqb (TrimSpace password) "") || isArchiveFile filePath in
      if String.eqb (Status job) StatusDecrypting then Ret wanted
      else
        auto <- autoDecryptEnabled r ;;
        if (auto : bool) then Ret wanted else Ret false
  end.

Definition isMultipartSiblingPending (status : string) : bool :=
  existsb (String.eqb status) [StatusQueued; StatusResolving; StatusDownloading; StatusPaused].

(** The scan over the other jobs: pending parts, whether a sibling was seen, and whether the
    set is named as one. *)
Fixpoint wait_scan (job : Job) (groupKey : string) (others : list Job)
    (pendingParts : Z) (seenSibling groupExplicit : bool) : option (Z * bool * bool) :=
  match others with
  | [] => Some (pendingParts, seenSibling, groupExplicit)
  | other :: rest =>
      if (ID other =? ID job)%Z || negb (String.eqb (OutDir other) (OutDir job))
      then wait_scan job groupKey rest pendingParts seenSibling groupExplicit
      else
        '(otherGroupKey, otherExplicit) ← multipartArchiveGroupKey (archivePathForJob other);
        if String.eqb otherGroupKey "" || negb (String.eqb otherGroupKey groupKey)
        then wait_scan job groupKey rest pendingParts seenSibling groupExplicit
        else
          wait_scan job groupKey rest
            (if isMultipartSiblingPending (Status other) then pendingParts + 1 else pendingParts)%Z
            true (groupExplicit || otherExplicit)
  end.

Definition wait_message (pendingParts : Z) : string :=
  "archive decrypt waiting: multipart set still downloading ("
    ++ Itoa pendingParts ++ " part job(s))".

Definition archiveDecryptWaitMessage (job : Job) (filePath : string) : prog string :=
  key <- or_panic (multipartArchiveGroupKey filePath) ;;
  let '(groupKey, groupExplicit) := key in
  if String.eqb groupKey "" then Ret ""
  else
    jobs <- ListJobs "" false ;;
    match jobs with
    | inl _ => Ret ""
    | inr jobs =>
        scan <- or_panic (wait_scan job groupKey jobs 0 false groupExplicit) ;;
        let '(pendingParts, seenSibling, groupExplicit) := scan in
        if negb groupExplicit && negb seenSibling then Ret ""
        else if (0 <? pendingParts)%Z then Ret (wait_message pendingParts)
        else Ret ""
    end.

(** The task, whether there is anything to do, the message to wait with, and the reason the
    task cannot run. *)
Definition buildDecryptTask (r : Runner) (job : Job) (st : option AriaStatus)
  : prog (decryptTask * bool * string * string) :=
  let password := TrimSpace (nullString (ArchivePassword job)) in
  let downloadPath := firstStatusPath st in
  let downloadPath := if String.eqb downloadPath "" then archivePathForJob job else downloadPath in
  archivePath <- resolveArchiveEntryPath downloadPath ;;
  let mega := shouldDecryptMega r job downloadPath in
  arch <- shouldDecryptArchive r job archivePath password ;;
  let task := mkTask (ID job) downloadPath archivePath (OutDir job) password (URL job)
                (Site job) mega arch in
  if negb mega && negb arch then Ret (task, false, "", "")
  else if mega && String.eqb (TrimSpace (megaPath task)) ""
  then Ret (task, true, "", "postprocess failed: missing file path for mega decrypt")
  else if arch && String.eqb (TrimSpace (archivePath)) ""
  then Ret (task, true, "", "postprocess failed: missing file path for archive decrypt")
  else if (arch : bool) then
    waitMsg <- archiveDecryptWaitMessage job archivePath ;;
    if negb (String.eqb waitMsg "") then Ret (task, true, waitMsg, "")
    else Ret (task, true, "", "")
  else Ret (task, true, "", "").

(** ** Post-processing: running it *)

Definition scheduleDecrypt (task : decryptTask) : prog unit :=
  marked <- call (PendingAdd (jobID task)) ;;
  if (marked : bool) then call (GoDecrypt task) else Ret tt.

Definition postprocess_failed (id : Z) (failMsg : string) : prog unit :=
  AddEvent id "error" failMsg ;;
  MarkPostprocessFailed id failMsg "postprocess_failed" ;;
  ClearArchivePassword id ;;
  Ret tt.

Definition queueDecryptFromStatus (r : Runner) (job : Job) (st : AriaStatus) (bytesDone : Z)
  : prog bool :=
  built <- buildDecryptTask r job (Some st) ;;
  let '(task, shouldProcess, waitMsg, failMsg) := built in
  if negb shouldProcess then Ret false
  else if negb (String.eqb failMsg "") then
    postprocess_failed (ID job) failMsg ;;
    Ret true
  else
    marked <- MarkDecrypting (ID job) bytesDone ;;
    match marked with
    | inl _ => Ret false
    | inr _ =>
        AddEvent (ID job) "info" "download finished" ;;
        if negb (String.eqb waitMsg "") then
          AddEvent (ID job) "info" waitMsg ;;
          Ret true
        else
          scheduleDecrypt task ;;
          Ret true
    end.

Definition dispatch_one (r : Runner) (job : Job) : prog unit :=
  auto <- autoDecryptEnabled r ;;
  if negb auto && negb (String.eqb (Status job) StatusDecrypting)
     && negb (shouldDecryptMega r job (archivePathForJob job))
  then Ret tt
  else
    built <- buildDecryptTask r job None ;;
    let '(task, shouldProcess, waitMsg, failMsg) := built in
    if negb shouldProcess then
      if String.eqb (Status job) StatusDecrypting then
        MarkCompleted (ID job) ;;
        ClearArchivePassword (ID job) ;;
        Ret tt
      else Ret tt
    else if negb (String.eqb failMsg "") then postprocess_failed (ID job) failMsg
    else
      marked <- (if negb (String.eqb (Status job) StatusDecrypting)
                 then x <-? MarkDecrypting (ID job) (BytesDone job) ;; Ret (inr true)
                 else Ret (inr false)) ;;
      match marked with
      | inl _ => Ret tt
      | inr markedDecrypting =>
          if negb (String.eqb waitMsg "") then
            if (markedDecrypting : bool)
            then AddEvent (ID job) "info" waitMsg ;; Ret tt
            else Ret tt
          else scheduleDecrypt task
      end.

Definition dispatchCompletedDecrypt (r : Runner) : prog (res unit) :=
  match ArchiveDec r, MegaDec r with
  | None, None => Ret (inr tt)
  | _, _ =>
      jobs <-? ListPendingPostprocess 100 ;;
      for_each jobs (dispatch_one r) ;;
      Ret (inr tt)
  end.

Definition decrypt_step_failed (id : Z) (event msg code : string) : prog unit :=
  AddEvent id "error" event ;;
  MarkPostprocessFailed id msg code ;;
  ClearArchivePassword id ;;
  Ret tt.

(** The first part of a decrypt goroutine's work: false when it failed and must stop. *)
Definition run_mega (r : Runner) (task : decryptTask) : prog bool :=
  match decryptMega task, MegaDec r with
  | true, Some dec =>
      let id := jobID task in
      let base := Base (megaPath task) in
      AddEvent id "info" ("mega decrypt started: " ++ base) ;;
      out <- mega_MaybeDecrypt dec (site task) (rawURL task) (megaPath task) ;;
      match out with
      | (_, Some err) =>
          decrypt_step_failed id ("mega decrypt failed: " ++ error_text err)
            "mega decrypt failed" "mega_decrypt_failed" ;;
          Ret false
      | (true, None) => AddEvent id "info" ("mega decrypted: " ++ base) ;; Ret true
      | (false, None) => Ret true
      end
  | _, _ => Ret true
  end.

Definition run_archive (r : Runner) (task : decryptTask) : prog bool :=
  match decryptArch task, ArchiveDec r with
  | true, Some dec =>
      let id := jobID task in
      let base := Base (archivePath task) in
      AddEvent id "info" ("archive decrypt started: " ++ base) ;;
      out <- archive_MaybeDecrypt dec (archivePath task) (taskOutDir task) (password task) ;;
      match out with
      | (_, Some err) =>
          decrypt_step_failed id ("archive decrypt failed: " ++ error_text err)
            "archive decrypt failed" "archive_decrypt_failed" ;;
          Ret false
      | (true, None) => AddEvent id "info" ("archive decrypted: " ++ base) ;; Ret true
      | (false, None) => AddEvent id "info" "archive decrypt skipped: not an archive" ;; Ret true
      end
  | _, _ => Ret true
  end.

Definition decrypt_body (r : Runner) (task : decryptTask) : prog unit :=
  mega_ok <- run_mega r task ;;
  if negb mega_ok then Ret tt
  else
    arch_ok <- run_archive r task ;;
    if negb arch_ok then Ret tt
    else
      MarkCompleted (jobID task) ;;
      ClearArchivePassword (jobID task) ;;
      Ret tt.

(** The deferred calls run last to first: unmark, then release. *)
Definition runDecrypt (r : Runner) (task : decryptTask) : prog unit :=
  acquired <- call (SemAcquire (decryptConcurrency r)) ;;
  if negb acquired then call (PendingDel (jobID task))
  else
    decrypt_body r task ;;
    call (PendingDel (jobID task)) ;;
    call (SemRelease (decryptConcurrency r)).

(** ** Polling aria2 *)

(** The remaining seconds, in the 64-bit arithmetic of the code. *)
Definition eta_seconds (speed totalLen bytesDone : Z) : Z :=
  if (0 <? speed)%Z && (0 <? totalLen)%Z && (bytesDone <? totalLen)%Z
  then Z.quot (wrap64 (totalLen - bytesDone)) speed
  else 0%Z.

Definition update_from_status (r : Runner) (job : Job) (st : AriaStatus) : prog unit :=
  let bytesDone := fst (ParseInt (StCompletedLen st)) in
  let totalLen := fst (ParseInt (StTotalLength st)) in
  let speed := fst (ParseInt (StDownloadSpeed st)) in
  let eta := eta_seconds speed totalLen bytesDone in
  if String.eqb (StStatus st) "complete" then
    let bytesDone := if (bytesDone =? 0)%Z && (0 <? totalLen)%Z then totalLen else bytesDone in
    queued <- queueDecryptFromStatus r job st bytesDone ;;
    if (queued : bool) then Ret tt
    else
      UpdateProgress (ID job) bytesDone StatusCompleted 0 0 ;;
      AddEvent (ID job) "info" "download finished" ;;
      MarkCompleted (ID job) ;;
      Ret tt
  else if String.eqb (StStatus st) "error" then
    let msg := if String.eqb (StErrorMessage st) "" then "download error" else StErrorMessage st in
    m <- mapDownloadError msg ;;
    let '(code, retryAt) := m in
    AddEvent (ID job) "error" msg ;;
    MarkFailed (ID job) code msg (Some retryAt) ;;
    Ret tt
  else
    UpdateProgress (ID job) bytesDone StatusDownloading speed eta ;;
    Ret tt.

Definition update_one (r : Runner) (job : Job) : prog unit :=
  match EngineGID job with
  | None => Ret tt
  | Some gid =>
      st <- call (Aria (TellStatus gid)) ;;
      match st with
      | inl err =>
          if errors_Is err AriaErrGIDNotFound then
            t <- now ;;
            MarkFailed (ID job) "gid_not_found" (error_text err) (Some (t + minutes 2)%Z) ;;
            Ret tt
          else
            AddEvent (ID job) "error" (error_text err) ;;
            Ret tt
      | inr st => update_from_status r job st
      end
  end.

Definition updateActive (r : Runner) : prog (res unit) :=
  jobs <-? ListJobs StatusDownloading false ;;
  for_each jobs (update_one r) ;;
  Ret (inr tt).

(** ** The tick *)

Definition countDownloading : prog Z :=
  jobs <- ListJobs StatusDownloading false ;;
  Ret match jobs with
      | inl _ => 0%Z
      | inr jobs => Z.of_nat (List.length jobs)
      end.

(** The loop that starts jobs; true when it ended by itself and not for want of [fuel]. *)
Fixpoint start_loop (fuel : nat) (r : Runner) (active : Z) : prog bool :=
  match fuel with
  | O => Ret false
  | S fuel =>
      c <- concurrency r ;;
      if (c <=? active)%Z then Ret true
      else
        job <- ClaimNextQueued ;;
        match job with
        | inl _ => Ret true
        | inr job =>
            resolveAndStart r job ;;
            active <- countDownloading ;;
            start_loop fuel r active
        end
  end.

Definition tick (fuel : nat) (r : Runner) : prog bool :=
  updateActive r ;;
  dispatchCompletedDecrypt r ;;
  requeueFailed ;;
  active <- countDownloading ;;
  start_loop fuel r active.

(** The ticker's loop, for [beats] beats: the context ends it. *)
Fixpoint Start (beats fuel : nat) (r : Runner) : prog unit :=
  match beats with
  | O => Ret tt
  | S beats =>
      stopped <- call CtxErr ;;
      match stopped with
      | Some _ => Ret tt
      | None => tick fuel r ;; Start beats fuel r
      end
  end.
End Runner.
