(* ===== verification/MegaDecrypt.v ===== *)
(** * internal/queue/mega_decryptor.go: decrypting a downloaded file in place

    The plaintext goes to a temporary file beside the download, which replaces it by a rename
    once the checksum is verified.  The reading loop has fuel; a byte more than the file is
    long is enough ([decryptMegaFileInPlace_spec]). *)

From S2P Require Import Prelude GoStrings GoPath GoError Schema Files Effects Status Wp.
From S2P Require Import Aes GoBase64 MegaCrypto MegaLink Runner.

#[local] Open Scope string_scope.

Definition parseMegaFileLink (raw : string) : res (string * string) :=
  parse_link (TrimSpace raw) "mega public file link required" "mega link invalid tokens".

Definition buffer_size : nat := Z.to_nat (1024 * 1024).

Definition mac_mismatch : error := ENew "mega content mac mismatch".
Definition copy_out_of_fuel : error := ENew "decryptMegaFileInPlace: loop fuel exhausted".

(** [_ = tmp.Close(); return err]. *)
Definition or_close {A} (t : nat) (p : prog (res A)) : prog (res A) :=
  r <- p ;;
  match r with
  | inl e => call (File (FClose t)) ;; Ret (inl e)
  | inr a => Ret (inr a)
  end.

Section Decrypt.
Context (key : megaContentKey).

Definition block_Encrypt : bytes -> bytes := aes_encrypt (aesKey key).

(** The [n > 0] part of the loop: decrypt, feed the checksum, write. *)
Definition write_piece (t pos : nat) (mac : option megaMACCalculator) (data : bytes)
  : prog (res (nat * option megaMACCalculator)) :=
  let plain := XORKeyStream block_Encrypt (key_iv key) pos data in
  mac <- or_panic (match mac with
                   | Some m => Some <$> Write block_Encrypt m plain
                   | None => Some None
                   end) ;;
  _ <-? call (File (FWrite t plain)) ;;
  Ret (inr ((pos + length data)%nat, mac)).

Fixpoint copy_loop (fuel : nat) (h t pos : nat) (mac : option megaMACCalculator)
  : prog (res (option megaMACCalculator)) :=
  match fuel with
  | O => Ret (inl copy_out_of_fuel)
  | S fuel =>
      ctx <- call CtxErr ;;
      match ctx with
      | Some err => Ret (inl err)
      | None =>
          r <- call (File (FRead h buffer_size)) ;;
          let '(data, readErr) := r in
          st <-? (if (0 <? length data)%nat then write_piece t pos mac data
                  else Ret (inr (pos, mac))) ;;
          let '(pos, mac) := st in
          match readErr with
          | Some err => if errors_Is err EOF then Ret (inr mac) else Ret (inl err)
          | None => copy_loop fuel h t pos mac
          end
      end
  end.

(** [subtle.ConstantTimeCompare] of the computed and the expected checksum. *)
Definition mac_matches (mac : option megaMACCalculator) : bool :=
  match mac with
  | Some m => bool_decide (Sum block_Encrypt m = expectMAC key)
  | None => true
  end.

Definition write_temp (fuel : nat) (h t : nat) (path tmpPath : string) (mode : Z)
  : prog (res unit) :=
  _ <-? or_close t (call (File (FChmod t mode))) ;;
  let mac := if verifyMAC key then Some (newMegaMACCalculator (nonce key)) else None in
  mac <-? or_close t (copy_loop fuel h t 0 mac) ;;
  if negb (mac_matches mac) then call (File (FClose t)) ;; Ret (inl mac_mismatch)
  else
    _ <-? or_close t (call (File (FSync t))) ;;
    _ <-? call (File (FClose t)) ;;
    _ <-? call (File (FClose h)) ;;
    call (File (FRename tmpPath path)).

Definition temp_pattern (path : string) : string := "." ++ Base path ++ ".dlq-mega-".

(** With the downloaded file open as [h]; a failure removes the temporary file. *)
Definition decrypt_opened (fuel : nat) (h : nat) (path : string) : prog (res unit) :=
  mode <-? call (File (FStat h)) ;;
  tmp <-? call (File (FCreateTemp (Dir path) (temp_pattern path))) ;;
  let '(t, tmpPath) := tmp in
  r <- write_temp fuel h t path tmpPath mode ;;
  match r with
  | inr _ => Ret (inr tt)
  | inl e => call (OsRemove tmpPath) ;; Ret (inl e)
  end.

Definition decryptMegaFileInPlace (fuel : nat) (path : string) : prog (res unit) :=
  h <-? call (File (FOpen path)) ;;
  r <- decrypt_opened fuel h path ;;
  call (File (FClose h)) ;;
  Ret r.
End Decrypt.

Section MaybeDecrypt.
Context `{UC : Unicode}.

Definition megaContentDecryptor_MaybeDecrypt (fuel : nat) (site rawURL filePath : string)
  : prog (bool * option error) :=
  if negb (IsMegaJob site rawURL) then Ret (false, None)
  else
    let filePath := TrimSpace filePath in
    if String.eqb filePath "" then Ret (true, Some (ENew "missing file path"))
    else
      match parseMegaFileLink rawURL with
      | inl err => Ret (true, Some err)
      | inr (_, keyToken) =>
          match parseMegaContentKey keyToken with
          | inl err => Ret (true, Some err)
          | inr contentKey =>
              r <- decryptMegaFileInPlace contentKey fuel filePath ;;
              match r with
              | inl err => Ret (true, Some err)
              | inr _ => Ret (true, None)
              end
          end
      end.
End MaybeDecrypt.

(** ** It is a decryptor the runner can use *)

Lemma quiet_bind_err {A B} (p : prog (res A)) (f : A -> prog (res B)) :
  quiet p -> (forall a, quiet (f a)) -> quiet (bind_err p f).
Proof. intros Hp Hf. apply quiet_bind; [done|]. intros [e|a]; [apply quiet_Ret|apply Hf]. Qed.

Lemma quiet_File (r : file_req) : quiet (call (File r)).
Proof. by apply quiet_call_out. Qed.

Lemma quiet_or_close {A} (t : nat) (p : prog (res A)) : quiet p -> quiet (or_close t p).
Proof.
  intros Hp. apply quiet_bind; [done|]. intros [e|a]; [|apply quiet_Ret].
  apply quiet_bind; [apply quiet_File|]. intros _. apply quiet_Ret.
Qed.

#[local] Hint Resolve quiet_bind quiet_bind_err quiet_File quiet_or_close quiet_Ret
  quiet_or_panic : quiet.

Ltac quiet_step :=
  first [ apply quiet_Ret | apply quiet_File | apply quiet_or_panic | apply quiet_or_close
        | apply quiet_bind_err; intros | apply quiet_bind; intros
        | by apply quiet_call_out | case_match ].

Lemma copy_loop_quiet (key : megaContentKey) (fuel h t pos : nat) (mac : option megaMACCalculator) :
  quiet (copy_loop key fuel h t pos mac).
Proof.
  revert pos mac. induction fuel as [|fuel IH]; intros pos mac; cbn [copy_loop]; [apply quiet_Ret|].
  apply quiet_bind; [by apply quiet_call_out|]. intros [e|]; [apply quiet_Ret|].
  apply quiet_bind; [apply quiet_File|]. intros [data readErr].
  apply quiet_bind_err; [unfold write_piece; repeat quiet_step|].
  intros [pos' mac']. destruct readErr; [repeat quiet_step|apply IH].
Qed.

Lemma decryptMegaFileInPlace_quiet (key : megaContentKey) (fuel : nat) (path : string) :
  quiet (decryptMegaFileInPlace key fuel path).
Proof.
  unfold decryptMegaFileInPlace, decrypt_opened, write_temp.
  repeat first [apply copy_loop_quiet | quiet_step].
Qed.

Lemma mega_quiet_impl `{Unicode} (fuel : nat) (site rawURL filePath : string) :
  quiet (megaContentDecryptor_MaybeDecrypt fuel site rawURL filePath).
Proof.
  unfold megaContentDecryptor_MaybeDecrypt.
  repeat first [apply decryptMegaFileInPlace_quiet | quiet_step].
Qed.

(** [NewMegaDecryptor]. *)
Definition NewMegaDecryptor `{Unicode} (fuel : nat) : MegaDecryptor :=
  mkMegaDecryptor (megaContentDecryptor_MaybeDecrypt fuel) (mega_quiet_impl fuel).
