(* ===== verification/MegaDecryptSpec.v ===== *)
(** * What the MEGA decryptor does to the files

    Rules for the file calls on a state with two open files, the download and the temporary
    file beside it, and the specification of the in-place decryption under any faults. *)

From S2P Require Import Prelude GoStrings GoPath GoError Schema Files Effects Status StoreSpec Wp.
From S2P Require Import Aes GoBase64 MegaCrypto MegaLink MegaDecrypt.

#[local] Open Scope string_scope.

(** ** Rules for the file calls *)

Section FileRules.
Context (env : Env).

Lemma wp_File (r : file_req) (P : World -> file_resp r -> Prop) (w : World) :
  (forall w', files w' = fst (file_act (files_env env) (clock w) (files w) r) ->
     P w' (snd (file_act (files_env env) (clock w) (files w) r))) ->
  wp env (call (File r)) P w.
Proof.
  intros H. apply wp_call. unfold handle. cbn.
  destruct (file_act _ _ _ _) as [fs x] eqn:E. cbn in *. by apply H.
Qed.

Lemma wp_CtxErr (P : World -> option error -> Prop) (w : World) :
  (forall w', files w' = files w ->
     P w' (if cancelled_at env (clock w) then Some (ENew "context canceled") else None)) ->
  wp env (call CtxErr) P w.
Proof. intros H. apply wp_call. by apply H. Qed.

Lemma wp_OsRemove (p : string) (P : World -> res unit -> Prop) (w : World) :
  (forall w', files w' = (if is_ok (remove_at env (clock w) p) then remove_name (files w) p
                          else files w) -> P w' (remove_at env (clock w) p)) ->
  wp env (call (OsRemove p)) P w.
Proof.
  intros H. apply wp_call. unfold handle. cbn. apply H. by destruct (remove_at _ _ _).
Qed.

Lemma wp_or_close {A} (t : nat) (p : prog (res A)) (P : World -> res A -> Prop) (w : World) :
  wp env p (fun w' r => match r with
                        | inl e => wp env (call (File (FClose t))) (fun w'' _ => P w'' (inl e)) w'
                        | inr a => P w' (inr a)
                        end) w ->
  wp env (or_close t p) P w.
Proof.
  intros H. apply wp_bind. eapply wp_mono; [|exact H]. intros w' [e|a] Hr; [|by apply wp_Ret].
  apply wp_bind. eapply wp_mono; [|exact Hr]. intros w'' x Hx. by apply wp_Ret.
Qed.

(** The faults of the environment. *)
Inductive io_failed : error -> Prop :=
  | io_fault n e : file_fault (files_env env) n = Some e -> io_failed e
  | io_cancelled n : cancelled_at env n = true -> io_failed (ENew "context canceled").

(** ** Two open files *)

(** [h] reads inode [i]; [t] writes the last inode, which [N] may name. *)
Section TwoFiles.
Context (N : gmap string nat) (H0 : gmap nat (nat * nat)) (I : list Inode).
Context (h t i : nat) (c : bytes) (m0 : Z).
Context (Hht : h <> t) (Hh : H0 !! h = None) (Ht : H0 !! t = None).
Context (Hi : I !! i = Some (mkInode c m0)).

Definition open_state (fs : FileSys) (a b : nat) (out : bytes) (mode : Z) : Prop :=
  names fs = N /\ handles fs = <[t := (length I, b)]> (<[h := (i, a)]> H0)
  /\ inodes fs = (I ++ [mkInode out mode])%list.

(** Some such state: what a failure leaves. *)
Definition open_any (fs : FileSys) : Prop := exists a b out mode, open_state fs a b out mode.

Lemma open_state_any (fs : FileSys) (a b : nat) (out : bytes) (mode : Z) :
  open_state fs a b out mode -> open_any fs.
Proof. intros H. by exists a, b, out, mode. Qed.

Lemma open_state_t (fs : FileSys) (a b : nat) (out : bytes) (mode : Z) :
  open_state fs a b out mode -> handles fs !! t = Some (length I, b).
Proof. intros (_ & -> & _). apply lookup_insert_eq. Qed.

Lemma open_state_h (fs : FileSys) (a b : nat) (out : bytes) (mode : Z) :
  open_state fs a b out mode -> handles fs !! h = Some (i, a).
Proof using Hht.
  intros (_ & -> & _). rewrite lookup_insert_ne by done. apply lookup_insert_eq.
Qed.

Lemma open_state_content (fs : FileSys) (a b : nat) (out : bytes) (mode : Z) :
  open_state fs a b out mode -> inodes fs !! i = Some (mkInode c m0).
Proof using Hi.
  intros (_ & _ & ->). rewrite lookup_app_l; [done|]. by eapply lookup_lt_Some.
Qed.

Lemma alter_last {A} (f : A -> A) (l : list A) (x : A) :
  alter f (length l) (l ++ [x])%list = (l ++ [f x])%list.
Proof. induction l as [|y l IH]; [done|]. change (y :: alter f (length l) (l ++ [x]) = y :: l ++ [f x])%list.
  by rewrite IH. Qed.

Lemma overwrite_end (c1 d : bytes) : overwrite c1 (length c1) d = (c1 ++ d)%list.
Proof. unfold overwrite. rewrite take_ge, drop_ge by lia. by rewrite app_nil_r. Qed.

Lemma write_inode_state (fs : FileSys) (a : nat) (out : bytes) (mode : Z) (d : bytes) :
  open_state fs a (length out) out mode ->
  open_state (write_inode fs t (length I) (length out) d) a (length (out ++ d)%list)
    (out ++ d)%list mode.
Proof.
  intros (Hn & Hhs & Hin). unfold write_inode, set_offset, open_state. cbn.
  rewrite Hhs, Hin, alter_last, insert_insert_eq, length_app. cbn. by rewrite overwrite_end.
Qed.

Lemma wp_FChmod (mode : Z) (w : World) a b out m (P : World -> res unit -> Prop) :
  open_state (files w) a b out m ->
  (forall w', open_state (files w') a b out mode -> P w' (inr tt)) ->
  (forall w' e, open_any (files w') -> io_failed e -> P w' (inl e)) ->
  wp env (call (File (FChmod t mode))) P w.
Proof.
  intros Hs Hok Herr. pose proof (open_state_t _ _ _ _ _ Hs) as Et. apply wp_File. cbn. rewrite Et.
  intros w' Hw. destruct (file_fault (files_env env) (clock w)) as [e|] eqn:Ef; cbn in *.
  - apply Herr; [rewrite Hw; by eapply open_state_any|by eapply io_fault].
  - apply Hok. rewrite Hw. destruct Hs as (H1 & H2 & H3). unfold open_state. cbn.
    by rewrite H3, alter_last.
Qed.

Lemma wp_FSync (w : World) a b out m (P : World -> res unit -> Prop) :
  open_state (files w) a b out m ->
  (forall w', open_state (files w') a b out m -> P w' (inr tt)) ->
  (forall w' e, open_any (files w') -> io_failed e -> P w' (inl e)) ->
  wp env (call (File (FSync t))) P w.
Proof.
  intros Hs Hok Herr. pose proof (open_state_t _ _ _ _ _ Hs) as Et. apply wp_File. cbn. rewrite Et.
  intros w' Hw. destruct (file_fault (files_env env) (clock w)) as [e|] eqn:Ef; cbn in *.
  - apply Herr; [rewrite Hw; by eapply open_state_any|by eapply io_fault].
  - apply Hok. by rewrite Hw.
Qed.

Lemma wp_FWrite (d : bytes) (w : World) a out m (P : World -> res unit -> Prop) :
  open_state (files w) a (length out) out m ->
  (forall w', open_state (files w') a (length (out ++ d)%list) (out ++ d)%list m -> P w' (inr tt)) ->
  (forall w' e, open_any (files w') -> io_failed e -> P w' (inl e)) ->
  wp env (call (File (FWrite t d))) P w.
Proof.
  intros Hs Hok Herr. pose proof (open_state_t _ _ _ _ _ Hs) as Et. apply wp_File. cbn. rewrite Et.
  intros w' Hw. destruct (file_fault (files_env env) (clock w)) as [e|] eqn:Ef; cbn in *.
  - apply Herr; [|by eapply io_fault]. rewrite Hw. by eapply open_state_any, write_inode_state.
  - apply Hok. rewrite Hw. by apply write_inode_state.
Qed.

(** A read gives the next bytes of the download, or its end. *)
Lemma wp_FRead (cap : nat) (w : World) a b out m (P : World -> bytes * option error -> Prop) :
  (0 < cap)%nat -> open_state (files w) a b out m ->
  (forall w' k, open_state (files w') (a + k) b out m -> (0 < k)%nat -> (a + k <= length c)%nat ->
     P w' (take k (drop a c), None)) ->
  (forall w', open_state (files w') a b out m -> (length c <= a)%nat ->
     P w' ([], Some (ESentinel EOF))) ->
  (forall w' n e, open_any (files w') -> file_fault (files_env env) n = Some e ->
     P w' ([], Some e)) ->
  wp env (call (File (FRead h cap))) P w.
Proof using Hht Hi.
  intros Hcap Hs Hok Heof Herr. pose proof (open_state_h _ _ _ _ _ Hs) as Eh.
  pose proof (open_state_content _ _ _ _ _ Hs) as Ec. apply wp_File. cbn. rewrite Eh, Ec. cbn.
  intros w' Hw. destruct (file_fault (files_env env) (clock w)) as [e|] eqn:Ef; cbn in *.
  - eapply Herr; [rewrite Hw; by eapply open_state_any|done].
  - rewrite length_drop in *. destruct (Nat.eqb_spec (length c - a) 0) as [E|E]; cbn in *.
    + apply Heof; [by rewrite Hw|lia].
    + set (k := read_size (files_env env) (clock w) cap (length c - a)) in *.
      assert (0 < k <= length c - a)%nat as Hk by (subst k; unfold read_size; lia).
      apply Hok; [|lia..]. rewrite Hw. destruct Hs as (H1 & H2 & H3). unfold open_state. cbn.
      split; [done|]. split; [|done]. rewrite H2, insert_insert_ne by done.
      by rewrite insert_insert_eq.
Qed.

(** Closing the temporary file, then the other. *)
Lemma wp_FClose_t (w : World) a b out m (P : World -> res unit -> Prop) :
  open_state (files w) a b out m ->
  (forall w' r, names (files w') = N -> handles (files w') = <[h := (i, a)]> H0 ->
     inodes (files w') = (I ++ [mkInode out m])%list ->
     (forall e, r = inl e -> io_failed e) -> P w' r) ->
  wp env (call (File (FClose t))) P w.
Proof using Hht Ht.
  intros Hs Hok. pose proof (open_state_t _ _ _ _ _ Hs) as Et. apply wp_File. cbn. rewrite Et.
  intros w' Hw. destruct Hs as (H1 & H2 & H3). apply Hok; rewrite ?Hw; cbn; [done| |done|].
  - rewrite H2. apply delete_insert_id. by rewrite lookup_insert_ne.
  - intros e. destruct (file_fault _ _) eqn:Ef; [|done]. intros [= <-]. by eapply io_fault.
Qed.

Lemma wp_FClose_h (w : World) a (P : World -> res unit -> Prop) :
  handles (files w) = <[h := (i, a)]> H0 ->
  (forall w' r, names (files w') = names (files w) -> inodes (files w') = inodes (files w) ->
     handles (files w') = H0 -> (forall e, r = inl e -> io_failed e) -> P w' r) ->
  wp env (call (File (FClose h))) P w.
Proof using Hh.
  intros Hs Hok. apply wp_File. cbn. rewrite Hs, lookup_insert_eq.
  intros w' Hw. apply Hok; rewrite ?Hw; cbn; [done..| |].
  - by apply delete_insert_id.
  - intros e. destruct (file_fault _ _) eqn:Ef; [|done]. intros [= <-]. by eapply io_fault.
Qed.

(** ** The loop *)

Section Loop.
Context (key : megaContentKey).

(** The plaintext of the first bytes of the file. *)
Definition plain_of (s : bytes) : bytes := XORKeyStream (block_Encrypt key) (key_iv key) 0 s.

Lemma plain_of_length (s : bytes) : length (plain_of s) = length s.
Proof. apply XORKeyStream_length. Qed.

Definition mac_taken (mac : option megaMACCalculator) (s : bytes) : Prop :=
  match mac with
  | Some m => verifyMAC key = true /\ has_taken (block_Encrypt key) (nonce key) m s
  | None => verifyMAC key = false
  end.

Lemma wp_write_piece (w : World) (a : nat) (s data : bytes) (mac : option megaMACCalculator)
    (m : Z) (P : World -> res (nat * option megaMACCalculator) -> Prop) :
  open_state (files w) a (length s) (plain_of s) m -> mac_taken mac (plain_of s) ->
  (forall w' mac', open_state (files w') a (length (s ++ data)%list) (plain_of (s ++ data)) m ->
     mac_taken mac' (plain_of (s ++ data)) -> P w' (inr ((length s + length data)%nat, mac'))) ->
  (forall w' e, open_any (files w') -> io_failed e -> P w' (inl e)) ->
  wp env (write_piece key t (length s) mac data) P w.
Proof.
  intros Hs Hmac Hok Herr. unfold write_piece.
  assert (plain_of (s ++ data)
          = (plain_of s ++ XORKeyStream (block_Encrypt key) (key_iv key) (length s) data)%list) as Happ.
  { unfold plain_of. by rewrite XORKeyStream_app. }
  set (d := XORKeyStream (block_Encrypt key) (key_iv key) (length s) data) in *.
  assert (exists mac', match mac with
                       | Some m => Some <$> Write (block_Encrypt key) m d
                       | None => Some None
                       end = Some mac' /\ mac_taken mac' (plain_of (s ++ data))) as (mac' & E & Hm).
  { rewrite Happ. destruct mac as [mc|]; [|by exists None]. destruct Hmac as [Hv Hmac].
    destruct (Write_has_taken (block_Encrypt key) (nonce key) mc _ d Hmac) as (mc' & Hw & Hm).
    exists (Some mc'). by rewrite Hw. }
  apply wp_bind. rewrite E. apply wp_Ret, wp_bind_err. rewrite <- (plain_of_length s) in Hs.
  eapply wp_FWrite; [exact Hs| |exact Herr].
  intros w' Hw'. apply wp_Ret. apply Hok; [|done]. by rewrite <- Happ, plain_of_length in Hw'.
Qed.

Lemma wp_copy_loop (fuel : nat) (w : World) (pos : nat) (mac : option megaMACCalculator) (m : Z)
    (P : World -> res (option megaMACCalculator) -> Prop) :
  (forall n e, file_fault (files_env env) n = Some e -> errors_Is e EOF = false) ->
  (pos <= length c)%nat -> (length c - pos < fuel)%nat ->
  open_state (files w) pos pos (plain_of (take pos c)) m ->
  mac_taken mac (plain_of (take pos c)) ->
  (forall w' mac', open_state (files w') (length c) (length c) (plain_of c) m ->
     mac_taken mac' (plain_of c) -> P w' (inr mac')) ->
  (forall w' e, open_any (files w') -> io_failed e -> P w' (inl e)) ->
  wp env (copy_loop key fuel h t pos mac) P w.
Proof using Hht Hi.
  intros Heof Hpos Hfuel Hs Hmac Hok Herr. revert w pos mac Hpos Hfuel Hs Hmac.
  induction fuel as [|fuel IH]; intros w pos mac Hpos Hfuel Hs Hmac; [lia|].
  cbn [copy_loop]. apply wp_bind, wp_CtxErr. intros w1 H1.
  destruct (cancelled_at env (clock w)) eqn:Ec.
  { apply wp_Ret. apply Herr; [rewrite H1; by eapply open_state_any|by eapply io_cancelled]. }
  apply wp_bind. rewrite <- H1 in Hs.
  eapply wp_FRead; [unfold buffer_size; lia|exact Hs|..].
  - intros w2 k Hs2 Hk Hle.
    assert (length (take k (drop pos c)) = k) as Hlk by (rewrite length_take, length_drop; lia).
    rewrite Hlk. replace (0 <? k)%nat with true by (symmetry; by apply Nat.ltb_lt).
    assert (length (take pos c) = pos) as Hlp by (rewrite length_take; lia).
    assert ((take pos c ++ take k (drop pos c))%list = take (pos + k) c) as Htk.
    { by rewrite take_take_drop. }
    apply wp_bind_err. rewrite <- Hlp at 1. eapply wp_write_piece; [|exact Hmac|..].
    + rewrite Hlp. exact Hs2.
    + intros w3 mac' Hs3 Hm3. rewrite Htk in Hs3, Hm3.
      rewrite Hlp, Hlk. apply IH; [lia|lia| |done].
      by replace (length (take (pos + k) c)) with (pos + k)%nat in Hs3 by (rewrite length_take; lia).
    + intros w3 e Ha He. by apply Herr.
  - intros w2 Hs2 Hle. cbn [length Nat.ltb Nat.leb]. apply wp_bind_err, wp_Ret.
    change (errors_Is (ESentinel EOF) EOF) with true. apply wp_Ret.
    rewrite take_ge in Hs2, Hmac by lia. replace pos with (length c) in Hs2 by lia. by apply Hok.
  - intros w2 n e Ha He. cbn [length Nat.ltb Nat.leb]. apply wp_bind_err, wp_Ret.
    rewrite (Heof _ _ He). apply wp_Ret. apply Herr; [done|by eapply io_fault].
Qed.

(** The file is what the link's key encrypted, when the key carries a checksum. *)
Definition genuine (s : bytes) : Prop :=
  verifyMAC key = true -> file_mac (block_Encrypt key) (nonce key) (plain_of s) = expectMAC key.

Lemma mac_matches_genuine (mac : option megaMACCalculator) :
  mac_taken mac (plain_of c) -> (mac_matches key mac = true <-> genuine c).
Proof.
  unfold mac_matches, mac_taken, genuine. destruct mac as [m|].
  - intros [Hv Hm]. apply Sum_has_taken in Hm. rewrite Hm, bool_decide_eq_true, Hv. tauto.
  - intros Hv. rewrite Hv. split; [discriminate 2|reflexivity].
Qed.

(** Why a decryption fails once both files are open. *)
Definition temp_failed (e : error) : Prop := io_failed e \/ (e = mac_mismatch /\ ~ genuine c).

(** What a failure leaves: the temporary file, closed, beside the others. *)
Definition temp_left (fs : FileSys) : Prop :=
  names fs = N /\ (exists f, inodes fs = (I ++ [f])%list)
  /\ (handles fs = H0 \/ exists a, handles fs = <[h := (i, a)]> H0).

Lemma wp_close_left (w : World) (P : World -> Prop) :
  open_any (files w) -> (forall w', temp_left (files w') -> P w') ->
  wp env (call (File (FClose t))) (fun w' _ => P w') w.
Proof using Hht Ht.
  intros (a & b & out & m & Hs) HP. eapply wp_FClose_t; [exact Hs|].
  intros w' r Hn Hhs Hin _. apply HP. split; [done|]. split; [by eexists|]. right. by eexists.
Qed.

Lemma wp_write_temp (fuel : nat) (w : World) (path tmpPath : string) (mode : Z)
    (P : World -> res unit -> Prop) :
  (forall n e, file_fault (files_env env) n = Some e -> errors_Is e EOF = false) ->
  (length c < fuel)%nat -> open_state (files w) 0 0 [] 384 -> N !! tmpPath = Some (length I) ->
  (forall w', names (files w') = <[path := length I]> (delete tmpPath N) ->
     inodes (files w') = (I ++ [mkInode (plain_of c) mode])%list -> handles (files w') = H0 ->
     genuine c -> P w' (inr tt)) ->
  (forall w' e, temp_left (files w') -> temp_failed e -> P w' (inl e)) ->
  wp env (write_temp key fuel h t path tmpPath mode) P w.
Proof using Hht Hh Ht Hi.
  intros Heof Hfuel Hs Htmp Hok Herr.
  assert (forall w' e, open_any (files w') -> io_failed e ->
    wp env (call (File (FClose t))) (fun w'' _ => P w'' (inl e)) w') as Hclose.
  { intros w' e Ha He. apply wp_close_left; [done|]. intros w'' Hl. apply Herr; [done|by left]. }
  unfold write_temp. apply wp_bind_err, wp_or_close.
  eapply wp_FChmod; [exact Hs| |exact Hclose]. intros w1 Hs1.
  apply wp_bind_err, wp_or_close. eapply wp_copy_loop; [exact Heof|lia|lia|exact Hs1| | |exact Hclose].
  { cbn. destruct (verifyMAC key) eqn:Ev; [|exact Ev]. split; [exact Ev|]. apply has_taken_new. }
  intros w2 mac Hs2 Hmac. apply mac_matches_genuine in Hmac.
  destruct (mac_matches key mac) eqn:Em; cbn [negb].
  - apply wp_bind_err, wp_or_close. eapply wp_FSync; [exact Hs2| |exact Hclose]. intros w3 Hs3.
    apply wp_bind_err. eapply wp_FClose_t; [exact Hs3|]. intros w4 r Hn4 Hh4 Hi4 Hr4.
    destruct r as [e|[]].
    { apply Herr; [|left; by apply Hr4]. split; [done|]. split; [by eexists|]. right. by eexists. }
    apply wp_bind_err. eapply wp_FClose_h; [exact Hh4|]. intros w5 r Hn5 Hi5 Hh5 Hr5.
    destruct r as [e|[]].
    { apply Herr; [|left; by apply Hr5]. split; [by rewrite Hn5|]. split; [rewrite Hi5; by eexists|].
      by left. }
    apply (wp_File (FRename tmpPath path)). cbn. rewrite Hn5, Hn4, Htmp. intros w6 Hw6.
    destruct (file_fault (files_env env) (clock w5)) as [e|] eqn:Ef; cbn in *.
    + apply Herr; [|left; by eapply io_fault]. rewrite Hw6. split; [by rewrite Hn5|].
      split; [rewrite Hi5; by eexists|]. by left.
    + apply Hok; rewrite ?Hw6; cbn; [done|by rewrite Hi5, Hi4|done|by apply Hmac].
  - apply wp_bind. apply wp_close_left; [by eapply open_state_any|]. intros w3 Hl. apply wp_Ret.
    apply Herr; [done|]. right. split; [done|]. intros Hg. apply Hmac in Hg. congruence.
Qed.
End Loop.
End TwoFiles.
End FileRules.

(** ** The whole *)

Section InPlace.
Context (env : Env) (key : megaContentKey) (path : string).

(** Why a decryption fails: a fault, a checksum that does not fit, a temporary name that is
    taken, or a path [os.CreateTemp] cannot make a pattern of. *)
Definition decrypt_failed_why (fs : FileSys) (c : bytes) (e : error) : Prop :=
  temp_failed env c key e
  \/ (e = err_exist /\ exists n, is_Some (names fs !!
        temp_name (Dir path) (temp_pattern path) (temp_random (files_env env) n)))
  \/ (e = err_pattern /\ contains_char (temp_pattern path) char_slash = true).

(** What the names of [fs'] show after a decryption that started in [fs]. *)
Definition decrypted_view (fs fs' : FileSys) (f : Inode) (r : res unit) : Prop :=
  match r with
  | inr _ =>
      genuine key (content f)
      /\ forall p, read_file fs' p = if decide (p = path)
                                     then Some (mkInode (plain_of key (content f)) (perm f))
                                     else read_file fs p
  | inl e =>
      decrypt_failed_why fs (content f) e
      /\ (forall p, is_Some (read_file fs p) -> read_file fs' p = read_file fs p)
      /\ ((forall n p, is_ok (remove_at env n p) = true) ->
          forall p, read_file fs' p = read_file fs p)
  end.

Lemma decrypted_view_congr (fs fs1 fs2 : FileSys) (f : Inode) (r : res unit) :
  names fs2 = names fs1 -> inodes fs2 = inodes fs1 ->
  decrypted_view fs fs1 f r -> decrypted_view fs fs2 f r.
Proof.
  intros Hn Hi. assert (forall p, read_file fs2 p = read_file fs1 p) as H.
  { intros p. unfold read_file. by rewrite Hn, Hi. }
  unfold decrypted_view. destruct r.
  - intros (H1 & H2 & H3). split; [done|]. setoid_rewrite H. by split.
  - setoid_rewrite H. done.
Qed.

(** Inodes that are only added change no name's content. *)
Lemma read_file_more (fs fs' : FileSys) (x : Inode) (p : string) :
  fs_ok fs -> inodes fs' = (inodes fs ++ [x])%list -> names fs' !! p = names fs !! p ->
  read_file fs' p = read_file fs p.
Proof.
  intros Hok Hi Hn. unfold read_file. rewrite Hn, Hi.
  destruct (names fs !! p) as [j|] eqn:E; [|done]. cbn. apply lookup_app_l.
  by eapply fs_names in E.
Qed.

Lemma view_unchanged (fs fs' : FileSys) (f : Inode) (e : error) :
  decrypt_failed_why fs (content f) e -> names fs' = names fs -> inodes fs' = inodes fs ->
  decrypted_view fs fs' f (inl e).
Proof.
  intros He Hn Hi. assert (forall p, read_file fs' p = read_file fs p) as H.
  { intros p. unfold read_file. by rewrite Hn, Hi. }
  split; [done|]. split; intros; apply H.
Qed.

(** After a failure, removing the temporary file restores the view. *)
Lemma view_removed (fs fs1 fs2 : FileSys) (f x : Inode) (tmp : string) (n : nat) (e : error) :
  fs_ok fs -> names fs !! tmp = None -> decrypt_failed_why fs (content f) e ->
  names fs1 = <[tmp := length (inodes fs)]> (names fs) -> inodes fs1 = (inodes fs ++ [x])%list ->
  fs2 = (if is_ok (remove_at env n tmp) then remove_name fs1 tmp else fs1) ->
  decrypted_view fs fs2 f (inl e).
Proof.
  intros Hok Htmp He Hn Hi ->. split; [done|].
  assert (forall p, read_file (remove_name fs1 tmp) p = read_file fs p) as Hrem.
  { intros p. eapply read_file_more; [done|by cbn|]. cbn. rewrite Hn. by rewrite delete_insert_id. }
  split.
  - intros p Hp. destruct (is_ok _); [apply Hrem|].
    eapply read_file_more; [done|done|]. rewrite Hn. apply lookup_insert_ne. intros <-.
    unfold read_file in Hp. rewrite Htmp in Hp. by destruct Hp.
  - intros Hall p. rewrite Hall. apply Hrem.
Qed.

(** After a success the download's name shows the plaintext. *)
Lemma view_renamed (fs fs' : FileSys) (f : Inode) (tmp : string) :
  fs_ok fs -> names fs !! tmp = None -> genuine key (content f) ->
  names fs' = <[path := length (inodes fs)]> (delete tmp (<[tmp := length (inodes fs)]> (names fs))) ->
  inodes fs' = (inodes fs ++ [mkInode (plain_of key (content f)) (perm f)])%list ->
  decrypted_view fs fs' f (inr tt).
Proof.
  intros Hok Htmp Hg Hn Hi. split; [done|]. intros p. rewrite delete_insert_id in Hn by done.
  case_decide as E.
  - subst p. unfold read_file. rewrite Hn, Hi, lookup_insert_eq. cbn. by apply list_lookup_middle.
  - eapply read_file_more; [done|done|]. rewrite Hn. by rewrite lookup_insert_ne.
Qed.

Lemma wp_decrypt_opened (fuel i : nat) (fs : FileSys) (f : Inode) (w : World)
    (P : World -> res unit -> Prop) :
  (forall n e, file_fault (files_env env) n = Some e -> errors_Is e EOF = false) ->
  (length (content f) < fuel)%nat -> fs_ok fs -> inodes fs !! i = Some f ->
  files w = fst (open_inode fs i) ->
  (forall w' r, decrypted_view fs (files w') f r ->
     handles (files w') = handles fs
     \/ (exists a, handles (files w') = <[next_handle fs := (i, a)]> (handles fs)) ->
     P w' r) ->
  wp env (decrypt_opened key fuel (next_handle fs) path) P w.
Proof.
  intros Heof Hfuel Hok Hi Hw HP. set (h := next_handle fs) in *.
  assert (handles fs !! h = None /\ handles fs !! S h = None) as [Hh Hh'].
  { split; apply eq_None_not_Some; intros [x Hx]; eapply fs_handles in Hx; [|done| |done]; unfold h in Hx; lia. }
  assert (handles (files w) = <[h := (i, 0%nat)]> (handles fs)) as Hhs by by rewrite Hw.
  assert (forall w' e, files w' = files w -> io_failed env e -> P w' (inl e)) as Hfail.
  { intros w' e Hf He. apply HP; rewrite Hf, Hw; [|right; by eexists].
    apply view_unchanged; [by left; left|done|done]. }
  unfold decrypt_opened. apply wp_bind_err, (wp_File _ (FStat _)). cbn [file_act]. rewrite Hhs, lookup_insert_eq. intros w1 H1.
  destruct (file_fault (files_env env) (clock w)) as [e|] eqn:Ef; cbn [fst snd] in H1 |- *;
    [apply Hfail; [done|by eapply io_fault]|].
  replace (default 0%Z (perm <$> inodes (files w) !! i)) with (perm f)
    by (rewrite Hw; cbn; by rewrite Hi).
  apply wp_bind_err, (wp_File _ (FCreateTemp _ _)). cbn [file_act]. rewrite H1. intros w2.
  set (tmp := temp_name (Dir path) (temp_pattern path) (temp_random (files_env env) (clock w1))).
  assert (names (files w) = names fs) as Hnames by by rewrite Hw.
  destruct (contains_char (temp_pattern path) char_slash) eqn:Ep; cbn [fst snd].
  { intros Hw2. apply HP; rewrite Hw2, Hw; [|right; by eexists].
    apply view_unchanged; [by right; right|done|done]. }
  destruct (file_fault (files_env env) (clock w1)) as [e|] eqn:Ef1; cbn [fst snd].
  { intros Hw2. apply Hfail; [done|by eapply io_fault]. }
  rewrite Hnames. destruct (names fs !! tmp) eqn:Etmp; cbn [fst snd].
  { intros Hw2. apply HP; rewrite Hw2, Hw; [|right; by eexists].
    apply view_unchanged; [|done|done]. right. left. split; [done|]. exists (clock w1).
    fold tmp. by rewrite Etmp. }
  rewrite Hw. cbn [open_inode fst snd]. fold h. intros Hw2.
  assert (open_state (<[tmp := length (inodes fs)]> (names fs)) (handles fs) (inodes fs) h (S h) i
            (files w2) 0 0 [] 384) as Hopen by by rewrite Hw2.
  assert (inodes fs !! i = Some (mkInode (content f) (perm f))) as Hi' by by destruct f.
  apply wp_bind. eapply (wp_write_temp env _ (handles fs) (inodes fs) h (S h) i (content f) (perm f));
    [lia|done|done|exact Hi'|exact Heof|exact Hfuel|exact Hopen|apply lookup_insert_eq|..].
  - intros w3 Hn Hin Hhd Hg. apply wp_Ret, HP; [|by left]. by eapply view_renamed.
  - intros w3 e (Hn & (x & Hx) & Hhd) He. apply wp_bind, wp_OsRemove. intros w4 Hw4.
    apply wp_Ret, HP.
    + eapply view_removed; [done|exact Etmp|by left|exact Hn|exact Hx|exact Hw4].
    + rewrite Hw4. by destruct (is_ok _).
Qed.

Lemma wp_decrypt_in_place (fuel : nat) (w : World) (f : Inode) :
  fs_ok (files w) -> read_file (files w) path = Some f -> (length (content f) < fuel)%nat ->
  (forall n e, file_fault (files_env env) n = Some e -> errors_Is e EOF = false) ->
  wp env (decryptMegaFileInPlace key fuel path)
    (fun w' r => handles (files w') = handles (files w)
                 /\ decrypted_view (files w) (files w') f r) w.
Proof.
  intros Hok Hr Hfuel Heof. unfold read_file in Hr.
  destruct (names (files w) !! path) as [i|] eqn:En; [|done]. cbn in Hr.
  unfold decryptMegaFileInPlace. apply wp_bind_err, (wp_File _ (FOpen _)). cbn [file_act]. rewrite En. intros w1 H1.
  destruct (file_fault (files_env env) (clock w)) as [e|] eqn:Ef; cbn [fst snd open_inode] in H1 |- *.
  { rewrite H1. split; [done|]. apply view_unchanged; [|done|done]. left. left. by eapply io_fault. }
  apply wp_bind. eapply (wp_decrypt_opened fuel i (files w) f); [done..|].
  intros w2 r Hview Hhd. apply wp_bind, (wp_File _ (FClose _)). cbn.
  assert (handles (files w) !! next_handle (files w) = None) as Hh.
  { apply eq_None_not_Some. intros [x Hx]. eapply fs_handles in Hx; [lia|done]. }
  destruct Hhd as [Hhd|[a Hhd]]; rewrite Hhd, ?Hh, ?lookup_insert_eq; cbn [fst snd];
    intros w3 H3; unfold wp; cbn [run]; rewrite H3.
  - by split.
  - split; [by apply delete_insert_id|]. by eapply decrypted_view_congr.
Qed.
End InPlace.

(** ** The file system stays well formed *)

Lemma open_inode_ok (fs : FileSys) (i : nat) : fs_ok fs -> fs_ok (fst (open_inode fs i)).
Proof.
  intros [H1 H2]. split; [done|]. cbn. intros h x. destruct (decide (h = next_handle fs)) as [->|Hne].
  - intros _. lia.
  - rewrite lookup_insert_ne by done. intros Hx. apply H2 in Hx. lia.
Qed.

Lemma set_offset_ok (fs : FileSys) (h i off : nat) :
  fs_ok fs -> is_Some (handles fs !! h) -> fs_ok (set_offset fs h i off).
Proof.
  intros [H1 H2] [y Hy]. split; [done|]. cbn. intros k x. destruct (decide (k = h)) as [->|Hne].
  - intros _. by eapply H2.
  - rewrite lookup_insert_ne by done. apply H2.
Qed.

Lemma alter_inodes_ok (fs : FileSys) (g : Inode -> Inode) (i : nat) :
  fs_ok fs -> fs_ok (fs <| inodes := alter g i (inodes fs) |>).
Proof. intros [H1 H2]. split; cbn; [|done]. by setoid_rewrite length_alter. Qed.

Lemma file_act_ok (fe : FileEnv) (n : nat) (fs : FileSys) (r : file_req) :
  fs_ok fs -> fs_ok (fst (file_act fe n fs r)).
Proof.
  intros Hok. destruct r; cbn [file_act]; repeat case_match; cbn [fst]; simplify_eq; try done;
    try match goal with H : open_inode ?a ?b = (?f, _) |- fs_ok ?f =>
      apply (f_equal fst) in H; cbn [fst] in H; rewrite <- H end.
  - by apply open_inode_ok.
  - apply open_inode_ok. destruct Hok as [K1 K2]. split; cbn; [|done]. intros p i.
    rewrite length_app. cbn.
    match goal with |- <[?k := _]> _ !! _ = _ -> _ => destruct (decide (k = p)) as [->|Hne] end.
    + rewrite lookup_insert_eq. intros [= <-]. lia.
    + rewrite lookup_insert_ne by done. intros Hp. apply K1 in Hp. lia.
  - by apply alter_inodes_ok.
  - by apply set_offset_ok.
  - apply set_offset_ok; [by apply alter_inodes_ok|done].
  - apply set_offset_ok; [by apply alter_inodes_ok|done].
  - destruct Hok as [K1 K2]. split; cbn; [done|]. intros k x [_ Hk]%lookup_delete_Some. by eapply K2.
  - destruct Hok as [K1 K2]. split; cbn; [done|]. intros k x [_ Hk]%lookup_delete_Some. by eapply K2.
  - destruct Hok as [K1 K2]. split; cbn; [|done]. intros p i.
    destruct (decide (new = p)) as [->|Hne].
    + rewrite lookup_insert_eq. intros [= <-]. by eapply K1.
    + rewrite lookup_insert_ne by done. intros [_ Hp]%lookup_delete_Some. by eapply K1.
Qed.

Lemma remove_name_ok (fs : FileSys) (p : string) : fs_ok fs -> fs_ok (remove_name fs p).
Proof.
  intros [H1 H2]. split; cbn; [|done]. intros q i [_ Hq]%lookup_delete_Some. by eapply H1.
Qed.

(** No program of the daemon breaks it. *)
Lemma fs_ok_step {X} (e : ev X) : step_ok (fun w => fs_ok (files w)) e.
Proof.
  intros env w Hw. destruct e; unfold handle, act; cbn; repeat case_match; cbn; try done.
  - by apply remove_name_ok.
  - match goal with H : file_act ?fe ?n ?fs ?r = (_, _) |- _ =>
      pose proof (file_act_ok fe n fs r Hw) as Hok; rewrite H in Hok; exact Hok end.
Qed.

Lemma fs_ok_run {A} (env : Env) (p : prog A) (w : World) :
  fs_ok (files w) -> fs_ok (files (fst (run env p w))).
Proof.
  intros Hw. apply (safe_run (fun w => fs_ok (files w))); [|done].
  induction p as [a| |X e k IH]; [done..|]. split; [apply fs_ok_step|apply IH].
Qed.

(** ** Links *)

(** The key a link with these raw bytes carries. *)
Definition key_of_raw (raw : bytes) : megaContentKey :=
  if (length raw =? 32)%nat
  then mkKey (xor_bytes (take 16 raw) (drop 16 raw)) (take 8 (drop 16 raw)) (take 8 (drop 24 raw)) true
  else mkKey raw (zeros 8) (zeros 8) false.

Lemma parse_key (raw : bytes) :
  raw_key raw -> parseMegaContentKey (EncodeToString raw) = inr (key_of_raw raw).
Proof.
  intros Hraw. destruct Hraw as [Hb Hl]. unfold parseMegaContentKey, key_of_raw.
  rewrite token_TrimSpace by by apply EncodeToString_token. rewrite DecodeString_Encode by done.
  destruct Hl as [-> | ->]; done.
Qed.

(** A link starts and ends with a byte that is no space. *)
Lemma link_TrimSpace (a b : string) :
  (exists c s, a = String c s /\ is_ascii_byte c = true /\ space1 c = false) ->
  string_forallb is_token_char b = true -> b <> "" -> TrimSpace (a ++ b) = a ++ b.
Proof.
  intros (c & s & -> & Hc & Hs) Hb Hne. destruct (rev_str b) as [|d r] eqn:E;
    apply (f_equal rev_str) in E; rewrite rev_str_involutive in E; [by subst b|].
  rewrite rev_str_cons in E. subst b. rewrite string_forallb_app in Hb. cbn in Hb. bool_prop.
  destruct (token_char_plain d) as (Hd1 & Hd2 & _); [done|].
  cbn [String.append]. rewrite str_app_assoc. by apply TrimSpace_id.
Qed.

Lemma parse_public_link (id link : string) (raw : bytes) :
  isValidMegaToken id = true -> raw_key raw -> public_link id raw link ->
  parseMegaFileLink link = inr (id, EncodeToString raw).
Proof.
  intros Hid Hraw Hl. pose proof (EncodeToString_valid raw Hraw) as Hk.
  pose proof Hk as [Hne Htok]%valid_token. unfold parseMegaFileLink.
  destruct Hl as [-> | ->].
  - replace (TrimSpace _) with ("https://mega.nz/file/" ++ id ++ "#" ++ EncodeToString raw);
      [by apply parse_link_file|].
    change ("https://mega.nz/file/" ++ id ++ "#" ++ EncodeToString raw)
      with (("https://mega.nz/file/" ++ (id ++ ("#" ++ EncodeToString raw)))).
    rewrite (str_app_assoc id), (str_app_assoc "https://mega.nz/file/"). symmetry.
    apply link_TrimSpace; [by eexists _, _|done|done].
  - replace (TrimSpace _) with ("https://mega.nz/#!" ++ id ++ "!" ++ EncodeToString raw);
      [by apply parse_link_old|].
    rewrite (str_app_assoc id), (str_app_assoc "https://mega.nz/#!"). symmetry.
    apply link_TrimSpace; [by eexists _, _|done|done].
Qed.

(** ** Running the decryptor on a link *)

Section Link.
Context `{UC : Unicode}.

Lemma mega_site (link : string) : IsMegaJob "mega" link = true.
Proof. reflexivity. Qed.

Lemma wp_MaybeDecrypt (env : Env) (fuel : nat) (id link path : string) (raw : bytes) (w : World)
    (P : World -> bool * option error -> Prop) :
  isValidMegaToken id = true -> raw_key raw -> public_link id raw link ->
  TrimSpace path = path -> path <> "" ->
  wp env (decryptMegaFileInPlace (key_of_raw raw) fuel path)
    (fun w' r => P w' (true, match r with inl e => Some e | inr _ => None end)) w ->
  wp env (megaContentDecryptor_MaybeDecrypt fuel "mega" link path) P w.
Proof.
  intros Hid Hraw Hl Ht Hne H. unfold megaContentDecryptor_MaybeDecrypt. rewrite mega_site. cbn [negb].
  rewrite Ht. apply String.eqb_neq in Hne. rewrite Hne, (parse_public_link id link raw) by done.
  rewrite parse_key by done. apply wp_bind. eapply wp_mono; [|exact H].
  intros w' [e|a] Hr; by apply wp_Ret.
Qed.

(** Nothing goes wrong around the decryption of [path]. *)
Record calm_io (env : Env) (fs : FileSys) (path : string) : Prop := {
  calm_fault : forall n, file_fault (files_env env) n = None;
  calm_cancel : forall n, cancelled_at env n = false;
  calm_remove : forall n p, is_ok (remove_at env n p) = true;
  calm_temp : forall n, names fs !! temp_name (Dir path) (temp_pattern path)
                                      (temp_random (files_env env) n) = None;
  calm_pattern : contains_char (temp_pattern path) char_slash = false
}.

Lemma calm_why (env : Env) (fs : FileSys) (key : megaContentKey) (path : string) (c : bytes) (e : error) :
  calm_io env fs path -> decrypt_failed_why env key path fs c e ->
  e = mac_mismatch /\ ~ genuine key c.
Proof.
  intros [C1 C2 C3 C4 C5] [[[n e' He|n Hn]|H]|[[_ [n Hn]]|[_ H]]].
  - by rewrite C1 in He.
  - by rewrite C2 in Hn.
  - done.
  - rewrite C4 in Hn. by destruct Hn.
  - congruence.
Qed.

(** Does the checksum in the key fit the encrypted bytes? *)
Definition checks (key : megaContentKey) (c : bytes) : bool :=
  negb (verifyMAC key)
  || bool_decide (file_mac (block_Encrypt key) (nonce key) (plain_of key c) = expectMAC key).

Lemma checks_genuine (key : megaContentKey) (c : bytes) : checks key c = true <-> genuine key c.
Proof.
  unfold genuine, checks. rewrite orb_true_iff, bool_decide_eq_true, negb_true_iff.
  destruct (verifyMAC key); split; [by intros [|]|auto|done|by left].
Qed.

Lemma wp_in_place_calm (env : Env) (w : World) (key : megaContentKey) (path : string) (f : Inode)
    (fuel : nat) :
  calm_io env (files w) path -> fs_ok (files w) -> read_file (files w) path = Some f ->
  (length (content f) < fuel)%nat ->
  wp env (decryptMegaFileInPlace key fuel path) (fun w' r =>
    handles (files w') = handles (files w) /\ fs_ok (files w') /\
    if checks key (content f)
    then r = inr tt /\ forall p, read_file (files w') p
           = if decide (p = path) then Some (mkInode (plain_of key (content f)) (perm f))
             else read_file (files w) p
    else r = inl mac_mismatch /\ forall p, read_file (files w') p = read_file (files w) p) w.
Proof.
  intros Hcalm Hok Hread Hfuel.
  assert (forall n e, file_fault (files_env env) n = Some e -> errors_Is e EOF = false) as Heof.
  { intros n e He. by rewrite (calm_fault _ _ _ Hcalm) in He. }
  pose proof (wp_decrypt_in_place env key path fuel w f Hok Hread Hfuel Heof) as H.
  pose proof (fs_ok_run env (decryptMegaFileInPlace key fuel path) w Hok) as Hok'.
  pose proof (checks_genuine key (content f)) as Hg.
  unfold wp in *. destruct (run env _ w) as [w' [[e|[]]|]]; [..|done]; destruct H as [Hh H];
    (split; [exact Hh|]; split; [exact Hok'|]).
  - destruct H as (Hwhy & _ & Hall). destruct (calm_why _ _ _ _ _ _ Hcalm Hwhy) as [-> Hng].
    destruct (checks _ _); [exfalso; by apply Hng, Hg|]. split; [done|]. apply Hall, Hcalm.
  - destruct H as (Hgen & Hall). apply Hg in Hgen. by rewrite Hgen.
Qed.

(** C39. A downloaded MEGA file, encrypted under the key of its link, is replaced by its
    plaintext when the checksum in the key is the plaintext's; otherwise the decryptor
    reports the mismatch and the file is left as it was.  Both forms of a link work, the
    permissions are kept, no other file changes, and no file stays open. *)
Theorem mega_decrypt_roundtrip (env : Env) (w : World) (id link path : string)
    (raw plain : bytes) (mode : Z) (fuel : nat) :
  isValidMegaToken id = true -> raw_key raw -> public_link id raw link ->
  TrimSpace path = path -> path <> "" -> calm_io env (files w) path -> fs_ok (files w) ->
  read_file (files w) path = Some (mkInode (plain_of (key_of_raw raw) plain) mode) ->
  (length plain < fuel)%nat ->
  wp env (megaContentDecryptor_MaybeDecrypt fuel "mega" link path) (fun w' r =>
    handles (files w') = handles (files w) /\
    let key := key_of_raw raw in
    if negb (verifyMAC key)
       || bool_decide (file_mac (block_Encrypt key) (nonce key) plain = expectMAC key)
    then r = (true, None) /\ forall p, read_file (files w') p
           = if decide (p = path) then Some (mkInode plain mode) else read_file (files w) p
    else r = (true, Some mac_mismatch) /\ forall p, read_file (files w') p = read_file (files w) p) w.
Proof.
  intros Hid Hraw Hlink Htrim Hne Hcalm Hok Hread Hfuel. set (key := key_of_raw raw) in *.
  eapply wp_MaybeDecrypt; [exact Hid|exact Hraw|exact Hlink|done|done|].
  eapply wp_mono; [|eapply (wp_in_place_calm env w key path); [done|done|exact Hread|]].
  - intros w' r (Hh & _ & H). split; [done|]. cbn [content perm] in H. unfold checks, plain_of in H.
    rewrite XORKeyStream_twice in H. cbv zeta. destruct (_ || _); by destruct H as [-> Hall].
  - cbn [content]. by rewrite plain_of_length.
Qed.

(** C40. Whatever fails, at any file call: a decryption that succeeds has replaced the file by
    the plaintext of what it was, checked against the key; one that fails says why, changes
    the content of no file, leaves nothing behind unless the removal of the temporary file
    was refused, and the loop never stops for want of fuel.  No file stays open. *)
Theorem decryptMegaFileInPlace_spec (env : Env) (key : megaContentKey) (w : World)
    (path : string) (f : Inode) (fuel : nat) :
  fs_ok (files w) -> read_file (files w) path = Some f -> (length (content f) < fuel)%nat ->
  (forall n e, file_fault (files_env env) n = Some e -> errors_Is e EOF = false) ->
  wp env (decryptMegaFileInPlace key fuel path) (fun w' r =>
    handles (files w') = handles (files w) /\
    match r with
    | inr _ =>
        genuine key (content f)
        /\ forall p, read_file (files w') p
             = if decide (p = path) then Some (mkInode (plain_of key (content f)) (perm f))
               else read_file (files w) p
    | inl e =>
        decrypt_failed_why env key path (files w) (content f) e
        /\ (forall p, is_Some (read_file (files w) p) -> read_file (files w') p = read_file (files w) p)
        /\ ((forall n p, is_ok (remove_at env n p) = true) ->
            forall p, read_file (files w') p = read_file (files w) p)
    end) w.
Proof.
  intros Hok Hr Hfuel Heof. eapply wp_mono; [|by apply wp_decrypt_in_place].
  intros w' r [Hh Hv]. split; [done|]. exact Hv.
Qed.

(** The names that are free stay free. *)
Lemma calm_io_again (env : Env) (w w' : World) (path : string) (f : Inode) :
  calm_io env (files w) path -> fs_ok (files w') -> read_file (files w) path = Some f ->
  (forall p, p <> path -> read_file (files w') p = read_file (files w) p) ->
  calm_io env (files w') path.
Proof.
  intros [C1 C2 C3 C4 C5] Hok Hf Hr. split; [done..| |done]. intros n. specialize (C4 n).
  set (tmp := temp_name _ _ _) in *.
  assert (tmp <> path) as Hne by (intros ->; unfold read_file in Hf; by rewrite C4 in Hf).
  specialize (Hr tmp Hne). unfold read_file in Hr at 2. rewrite C4 in Hr. cbn in Hr.
  unfold read_file in Hr. destruct (names (files w') !! tmp) as [i|] eqn:E; [|done].
  apply (fs_names _ Hok) in E. apply lookup_lt_is_Some in E as [x Hx]. cbn in Hr. by rewrite Hx in Hr.
Qed.

(** With a key that has no checksum, decrypting a file a second time undoes the first:
    both runs report success and the file is encrypted again.  The runner repeats a
    decryption when the daemon stops between the rename and the update of the job's row. *)
Theorem decrypting_twice (env : Env) (w : World) (id link path : string) (raw : bytes)
    (f : Inode) (fuel : nat) :
  isValidMegaToken id = true -> raw_key raw -> length raw = 16%nat -> public_link id raw link ->
  TrimSpace path = path -> path <> "" -> calm_io env (files w) path -> fs_ok (files w) ->
  read_file (files w) path = Some f -> (length (content f) < fuel)%nat ->
  wp env (r1 <- megaContentDecryptor_MaybeDecrypt fuel "mega" link path ;;
          r2 <- megaContentDecryptor_MaybeDecrypt fuel "mega" link path ;;
          Ret (r1, r2))
    (fun w' r => r = ((true, None), (true, None)) /\ read_file (files w') path = Some f) w.
Proof.
  intros Hid Hraw Hlen Hlink Htrim Hne Hcalm Hok Hread Hfuel. set (key := key_of_raw raw) in *.
  assert (forall c, checks key c = true) as Hc.
  { intros c. unfold key, key_of_raw, checks. by rewrite Hlen. }
  assert (forall w g, calm_io env (files w) path -> fs_ok (files w) ->
    read_file (files w) path = Some g -> (length (content g) < fuel)%nat ->
    wp env (megaContentDecryptor_MaybeDecrypt fuel "mega" link path) (fun w' r => r = (true, None)
      /\ fs_ok (files w') /\ forall p, read_file (files w') p
           = if decide (p = path) then Some (mkInode (plain_of key (content g)) (perm g))
             else read_file (files w) p) w) as Hrun.
  { intros w1 g Hc1 Hok1 Hread1 Hf1.
    eapply wp_MaybeDecrypt; [exact Hid|exact Hraw|exact Hlink|done|done|].
    eapply wp_mono; [|by apply (wp_in_place_calm env w1 key path g)].
    intros w' r (_ & Hok' & H). rewrite Hc in H. destruct H as [-> Hall]. by split. }
  apply wp_bind. eapply wp_mono; [|by apply (Hrun w f)]. intros w1 r1 (-> & Hok1 & H1).
  assert (read_file (files w1) path = Some (mkInode (plain_of key (content f)) (perm f))) as Hr1.
  { rewrite H1. by rewrite decide_True. }
  apply wp_bind. eapply wp_mono; [|eapply (Hrun w1 _); [|done|exact Hr1|]].
  - intros w2 r2 (-> & _ & H2). apply wp_Ret. split; [done|]. rewrite H2, decide_True by done.
    cbn [content perm]. unfold plain_of. rewrite XORKeyStream_twice. by destruct f.
  - eapply calm_io_again; [done|done|done|]. intros p Hp. rewrite H1. by rewrite decide_False.
  - cbn [content]. by rewrite plain_of_length.
Qed.
End Link.

(** ** A sample: twenty bytes under a 32-byte and a 16-byte key *)

#[local] Instance AsciiUnicode : Unicode := {| unicode_lower := ascii_lower |}.

Definition sample_plain : bytes := seqZ 65 20.
Definition sample_nonce : bytes := [1; 2; 3; 4; 5; 6; 7; 8]%Z.
Definition sample_aes : bytes := seqZ 16 16.

Definition sample_mac : bytes :=
  Eval vm_compute in file_mac (aes_encrypt sample_aes) sample_nonce sample_plain.

(** The key of a link whose checksum fits. *)
Definition sample_raw : bytes :=
  Eval vm_compute in
    (xor_bytes sample_aes (sample_nonce ++ sample_mac) ++ sample_nonce ++ sample_mac)%list.

Definition sample_link (raw : bytes) : string :=
  "https://mega.nz/file/AbCdEf12#" ++ EncodeToString raw.

Definition sample_files (key : megaContentKey) : FileSys :=
  mkFileSys {["/d/f.bin" := 0%nat]} [mkInode (plain_of key sample_plain) 420] ∅ 0.

Definition files_world (fs : FileSys) : World := (sample_world empty_db) <| files := fs |>.

Lemma sample_files_ok (key : megaContentKey) : fs_ok (sample_files key).
Proof.
  split; cbn; [|by intros h x; rewrite lookup_empty]. intros p i Hp.
  apply lookup_singleton_Some in Hp as [_ <-]. lia.
Qed.

Lemma sample_calm_io (key : megaContentKey) : calm_io (calm_env 0) (sample_files key) "/d/f.bin".
Proof. by split. Qed.

Lemma sample_read (key : megaContentKey) :
  read_file (sample_files key) "/d/f.bin" = Some (mkInode (plain_of key sample_plain) 420).
Proof. reflexivity. Qed.

Lemma bytes_of_bool (l : bytes) :
  forallb (fun b => (0 <=? b) && (b <? 256))%Z l = true -> Forall is_byte l.
Proof.
  rewrite forallb_forall. intros H. apply Forall_forall. intros x Hx%list_elem_of_In.
  apply H in Hx. unfold is_byte. bool_prop. lia.
Qed.

Lemma sample_raw_ok : raw_key sample_raw /\ raw_key sample_aes.
Proof.
  split; (split; [apply bytes_of_bool; vm_compute; reflexivity|]);
    [left; reflexivity|right; reflexivity].
Qed.

Lemma mega_decrypt_roundtrip_witness :
  wp (calm_env 0) (megaContentDecryptor_MaybeDecrypt 64 "mega" (sample_link sample_raw) "/d/f.bin")
    (fun w' r => r = (true, None)
                 /\ read_file (files w') "/d/f.bin" = Some (mkInode sample_plain 420))
    (files_world (sample_files (key_of_raw sample_raw))).
Proof.
  eapply wp_mono; [|apply (mega_decrypt_roundtrip (calm_env 0)
    (files_world (sample_files (key_of_raw sample_raw))) "AbCdEf12" (sample_link sample_raw) "/d/f.bin"
    sample_raw sample_plain 420 64); [reflexivity|apply sample_raw_ok|by left|reflexivity|done
      |apply sample_calm_io|apply sample_files_ok|apply sample_read|apply Nat.ltb_lt; vm_compute; reflexivity]].
  intros w' r [_ H]. cbv zeta in H.
  assert (negb (verifyMAC (key_of_raw sample_raw))
       || bool_decide (file_mac (block_Encrypt (key_of_raw sample_raw)) (nonce (key_of_raw sample_raw))
            sample_plain = expectMAC (key_of_raw sample_raw)) = true) as E by (vm_compute; reflexivity).
  rewrite E in H. destruct H as [Hr Hall]. split; [exact Hr|]. rewrite Hall. reflexivity.
Defined.

Lemma decryptMegaFileInPlace_spec_witness :
  let key := key_of_raw sample_raw in
  wp (calm_env 0) (decryptMegaFileInPlace key 64 "/d/f.bin")
    (fun w' r => handles (files w') = ∅ /\ (r = inr tt -> genuine key (plain_of key sample_plain)))
    (files_world (sample_files key)).
Proof.
  eapply wp_mono; [|apply (decryptMegaFileInPlace_spec (calm_env 0) (key_of_raw sample_raw)
    (files_world (sample_files (key_of_raw sample_raw))) "/d/f.bin"
    (mkInode (plain_of (key_of_raw sample_raw) sample_plain) 420) 64);
      [apply sample_files_ok|apply sample_read|apply Nat.ltb_lt; vm_compute; reflexivity|by intros n e]].
  intros w' r [Hh H]. split; [exact Hh|]. intros ->. exact (proj1 H).
Defined.

Lemma decrypting_twice_witness :
  let key := key_of_raw sample_aes in
  wp (calm_env 0) (r1 <- megaContentDecryptor_MaybeDecrypt 64 "mega" (sample_link sample_aes) "/d/f.bin" ;;
                   r2 <- megaContentDecryptor_MaybeDecrypt 64 "mega" (sample_link sample_aes) "/d/f.bin" ;;
                   Ret (r1, r2))
    (fun w' r => r = ((true, None), (true, None))
                 /\ read_file (files w') "/d/f.bin" = Some (mkInode (plain_of key sample_plain) 420))
    (files_world (sample_files key)).
Proof.
  apply (decrypting_twice (calm_env 0) (files_world (sample_files (key_of_raw sample_aes))) "AbCdEf12"
    (sample_link sample_aes) "/d/f.bin" sample_aes); [reflexivity|apply sample_raw_ok|reflexivity
      |by left|reflexivity|done|apply sample_calm_io|apply sample_files_ok|apply sample_read
      |apply Nat.ltb_lt; vm_compute; reflexivity].
Defined.
