(* ===== verification/RunnerInv.v ===== *)
(** * The runner keeps the store's invariant

    Every program of the runner is safe for any invariant the store's interface promises
    ([StoreSafe]), call by call: so the invariant holds after a tick whatever failed in it,
    and between any two calls of ticks and goroutines that run at the same time. *)

From S2P Require Import Prelude GoStrings GoError Schema Effects Store StoreInv Archive Resolver.
From S2P Require Import Runner.

#[local] Open Scope string_scope.

Section RunnerInv.
Context `{UC : Unicode} (r : Runner) (I : World -> Prop)
  (new_ok : string -> string -> option string -> Z -> Prop).
Context {SS : StoreSafe I new_ok}.

Lemma safe_quiet {A} (p : prog A) : quiet p -> safe I p.
Proof. apply (quiet_safe _ _ safe_core). Qed.

Lemma concurrency_safe : safe I (concurrency r).
Proof. unfold concurrency. client. Qed.

Lemma autoDecryptEnabled_safe : safe I (autoDecryptEnabled r).
Proof. unfold autoDecryptEnabled. client. Qed.

Lemma fail_job_safe (id : Z) (c e m : string) (d : Z) : safe I (fail_job id c e m d).
Proof. unfold fail_job. client. Qed.

Lemma prepareOutputForStart_safe (job : Job) (n : string) (o : gmap string string) :
  safe I (prepareOutputForStart job n o).
Proof. unfold prepareOutputForStart, hasActiveOutputConflict. client. Qed.

Lemma startDownload_safe (job : Job) (t : ResolvedTarget) (o : gmap string string) :
  safe I (startDownload job t o).
Proof. unfold startDownload, with_headers. client. apply fail_job_safe. Qed.

Lemma startResolved_safe (job : Job) (t : ResolvedTarget) : safe I (startResolved job t).
Proof.
  unfold startResolved. client; try apply fail_job_safe; try apply startDownload_safe.
  apply prepareOutputForStart_safe.
Qed.

Lemma resolveAndStart_safe (job : Job) : safe I (resolveAndStart r job).
Proof.
  unfold resolveAndStart. client.
  - apply safe_quiet, ResolveWithSite_quiet.
  - unfold resolve_failed, mapResolverError. client.
  - apply startResolved_safe.
Qed.

Lemma requeueFailed_safe : safe I requeueFailed.
Proof. unfold requeueFailed, requeue_one. client. Qed.

Lemma buildDecryptTask_safe (job : Job) (st : option AriaStatus) :
  safe I (buildDecryptTask r job st).
Proof.
  unfold buildDecryptTask. client.
  - apply safe_quiet, resolveArchiveEntryPath_quiet.
  - unfold shouldDecryptArchive. client. apply autoDecryptEnabled_safe.
  - unfold archiveDecryptWaitMessage. client.
Qed.

Lemma scheduleDecrypt_safe (t : decryptTask) : safe I (scheduleDecrypt t).
Proof. unfold scheduleDecrypt. client. Qed.

Lemma postprocess_failed_safe (id : Z) (m : string) : safe I (postprocess_failed id m).
Proof. unfold postprocess_failed. client. Qed.

Lemma queueDecryptFromStatus_safe (job : Job) (st : AriaStatus) (n : Z) :
  safe I (queueDecryptFromStatus r job st n).
Proof.
  unfold queueDecryptFromStatus. client; first
    [apply buildDecryptTask_safe | apply postprocess_failed_safe | apply scheduleDecrypt_safe].
Qed.

Lemma dispatchCompletedDecrypt_safe : safe I (dispatchCompletedDecrypt r).
Proof.
  unfold dispatchCompletedDecrypt, dispatch_one.
  client; first [apply autoDecryptEnabled_safe | apply buildDecryptTask_safe
                | apply postprocess_failed_safe | apply scheduleDecrypt_safe].
Qed.

Lemma updateActive_safe : safe I (updateActive r).
Proof.
  unfold updateActive, update_one, update_from_status, mapDownloadError.
  client; apply queueDecryptFromStatus_safe.
Qed.

Lemma countDownloading_safe : safe I countDownloading.
Proof. unfold countDownloading. client. Qed.

Lemma start_loop_safe (fuel : nat) (active : Z) : safe I (start_loop fuel r active).
Proof.
  revert active. induction fuel as [|fuel IH]; intros active; cbn [start_loop]; [done|].
  client; first [apply concurrency_safe | apply resolveAndStart_safe | apply countDownloading_safe
                | apply IH].
Qed.

Lemma tick_safe (fuel : nat) : safe I (tick fuel r).
Proof.
  unfold tick. client; first [apply updateActive_safe | apply dispatchCompletedDecrypt_safe
    | apply requeueFailed_safe | apply countDownloading_safe | apply start_loop_safe].
Qed.

Lemma Start_safe (beats fuel : nat) : safe I (Start beats fuel r).
Proof.
  induction beats as [|beats IH]; cbn [Start]; [done|]. client; [apply tick_safe|exact IH].
Qed.

Lemma decrypt_step_failed_safe (id : Z) (e m c : string) : safe I (decrypt_step_failed id e m c).
Proof. unfold decrypt_step_failed. client. Qed.

Lemma decrypt_body_safe (t : decryptTask) : safe I (decrypt_body r t).
Proof.
  unfold decrypt_body, run_mega, run_archive.
  client; first [apply safe_quiet, mega_quiet | apply safe_quiet, archive_quiet
                | apply decrypt_step_failed_safe].
Qed.

Lemma runDecrypt_safe (t : decryptTask) : safe I (runDecrypt r t).
Proof. unfold runDecrypt. client. apply decrypt_body_safe. Qed.
End RunnerInv.
