(* ===== verification/RunnerSpec.v ===== *)
(** * What the runner does

    The theorems of internal/queue/runner.go on a fault-free database: how a claimed job
    ends, that starting jobs respects the concurrency limit, uses it fully and terminates,
    how a poll moves a job, how post-processing ends and when it waits.  A resolver or a
    decryptor is assumed to return, nothing else is assumed of it. *)

From S2P Require Import Prelude GoStrings GoTime GoError Schema Files Effects Status Paths Store.
From S2P Require Import StoreInv StoreSpec Wp Archive Resolver Runner RunnerInv.

#[local] Open Scope string_scope.

(** ** One row changes *)

Lemma update_rows_comp (p : Job -> bool) (f g : Job -> Job) (rows : list Job) :
  (forall x, p (f x) = p x) -> update_rows p g (update_rows p f rows) = update_rows p (fun x => g (f x)) rows.
Proof.
  intros H. unfold update_rows. rewrite map_map. apply map_ext. intros x.
  destruct (p x) eqn:E; [by rewrite H, E|by rewrite E].
Qed.

Lemma update_rows_id (p : Job -> bool) (rows : list Job) : update_rows p (fun x => x) rows = rows.
Proof. unfold update_rows. rewrite <- (map_id rows) at 2. apply map_ext. intros x. by case_bool. Qed.

(** From [w] to [w'] only the row of [id] changed, by [f]. *)
Definition only_row (id : Z) (f : Job -> Job) (w w' : World) : Prop :=
  jobs (db w') = update_rows (has_id id) f (jobs (db w)) /\ (forall x, ID (f x) = ID x).

(** Nothing but the tables, the requests to aria2 and the call counter changed. *)
Definition same_runner (w w' : World) : Prop :=
  threads w' = threads w /\ pending w' = pending w /\ sem w' = sem w /\ settings w' = settings w.

#[global] Instance same_runner_PreOrder : PreOrder same_runner.
Proof. split; [by intros w|]. unfold same_runner. intros w1 w2 w3. intuition congruence. Qed.

Lemma frame_same_runner (w w' : World) : frame w w' -> same_runner w w'.
Proof. by intros (_ & ?). Qed.

Lemma only_row_refl (id : Z) (w w' : World) :
  jobs (db w') = jobs (db w) -> only_row id (fun x => x) w w'.
Proof. intros H. split; [by rewrite update_rows_id|done]. Qed.

Lemma only_row_trans (id : Z) (f g : Job -> Job) (w1 w2 w3 : World) :
  only_row id f w1 w2 -> only_row id g w2 w3 -> only_row id (fun x => g (f x)) w1 w3.
Proof.
  intros [H1 F1] [H2 F2]. split; [|intros x; by rewrite F2, F1].
  rewrite H2, H1. apply update_rows_comp. intros x. unfold has_id. by rewrite F1.
Qed.

Lemma only_row_same (id : Z) (f : Job -> Job) (w1 w2 w3 : World) :
  only_row id f w1 w2 -> jobs (db w3) = jobs (db w2) -> only_row id f w1 w3.
Proof. intros [H F] H2. split; [by rewrite H2|done]. Qed.

Lemma only_row_update (id : Z) (f : Job -> Job) (w w' : World) :
  db w' = update_where (has_id id) f (db w) -> (forall x, ID (f x) = ID x) -> only_row id f w w'.
Proof. intros H F. split; [by rewrite H|done]. Qed.

Lemma find_job_one (id k : Z) (f : Job -> Job) (w w' : World) :
  jobs (db w') = update_rows (has_id k) f (jobs (db w)) -> (forall x, ID (f x) = ID x) ->
  find_job id (db w') = (fun j => if (ID j =? k)%Z then f j else j) <$> find_job id (db w).
Proof. intros H Hf. unfold find_job, rows_where. rewrite H. by apply (find_update_rows (has_id k)). Qed.

Section RunnerSpec.
Context `{UC : Unicode} (env : Env) (Hnf : no_faults env).

Lemma wp_fail_job (id : Z) (code event msg : string) (delay : Z) P (w : World) :
  (forall t0 t w' r, only_row id (failed_row code msg (Some (t0 + delay)%Z) t) w w' -> frame w w' -> P w' r) ->
  wp env (fail_job id code event msg delay) P w.
Proof.
  intros H. unfold fail_job. apply wp_bind, wp_AddEvent_jobs; [done|]. intros w1 r1 H1 F1.
  apply wp_bind, wp_now. intros t0 w2 H2 F2. apply wp_MarkFailed; [done|]. intros t w3 r3 H3 F3.
  apply (H t0 t); [|by etrans; [exact F1|etrans]]. split; [|done]. by rewrite H3, H2, H1.
Qed.

(** ** Starting a claimed job *)

(** How the attempt to start job [id] ended: [f] is what it did to the row. *)
Definition started_row (f : Job -> Job) (j : Job) (w w' : World) : Prop :=
  Status (f j) = StatusDownloading /\ Attempts (f j) = Attempts j
  /\ exists gid u options, EngineGID (f j) = Some gid /\ ResolvedURL (f j) = Some u
     /\ requests w' = AddURI u options :: requests w.

Definition failed_start (f : Job -> Job) (j : Job) (w w' : World) : Prop :=
  Status (f j) = StatusFailed /\ Attempts (f j) = (Attempts j + 1)%Z /\ Error (f j) <> None
  /\ ErrorCode (f j) <> None /\ NextRetryAt (f j) <> None
  /\ (requests w' = requests w \/ exists u options, requests w' = AddURI u options :: requests w).

Definition start_outcome (id : Z) (w w' : World) : Prop :=
  exists f, only_row id f w w' /\ same_runner w w'
    /\ (forall j, EngineGID (f j) = EngineGID j \/ Status (f j) = StatusDownloading)
    /\ forall j, started_row f j w w' \/ failed_start f j w w'.

Lemma failed_start_row (code msg : string) (t0 t : Z) (f : Job -> Job) (j : Job) (w w' : World) :
  Attempts (f j) = Attempts j ->
  (requests w' = requests w \/ exists u options, requests w' = AddURI u options :: requests w) ->
  failed_start (fun x => failed_row code msg (Some t0) t (f x)) j w w'.
Proof. intros H Hr. unfold failed_start. cbn. rewrite H. by split_and!. Qed.

Lemma wp_startDownload (job : Job) (target : ResolvedTarget) (options : gmap string string)
    (f : Job -> Job) (w0 w : World) :
  only_row (ID job) f w0 w -> frame w0 w ->
  (forall j, Attempts (f j) = Attempts j /\ EngineGID (f j) = EngineGID j
             /\ ResolvedURL (f j) = Some (TargetURL target)) ->
  wp env (startDownload job target options) (fun w' _ => start_outcome (ID job) w0 w') w.
Proof.
  intros H0 F0 Hf. unfold startDownload. apply wp_bind.
  assert (forall P, (forall w' o, db w' = db w -> frame w w' -> P w' o) ->
            wp env (with_headers target options) P w) as Hh.
  { intros P HP. unfold with_headers. case_bool; [|by apply wp_Ret, HP].
    apply wp_bind, wp_call_out; [done|]. intros w1 l H1 F1. apply wp_Ret. by apply HP. }
  apply Hh. clear Hh. intros w1 o H1 F1. apply wp_bind, wp_aria. intros w2 H2 F2.
  assert (only_row (ID job) f w0 w2) as R2 by (eapply only_row_same; [exact H0|by rewrite H2, H1]).
  assert (same_runner w0 w2) as S2.
  { etrans; [apply frame_same_runner, F0|]. etrans; [apply frame_same_runner, F1|]. by destruct F2. }
  assert (requests w2 = AddURI (TargetURL target) o :: requests w0) as Q2.
  { destruct F2 as (-> & _). cbn. destruct F1 as (-> & _). by destruct F0 as (-> & _). }
  destruct (aria_at env (clock w1) (AddURI (TargetURL target) o)) as [err|gid].
  - apply wp_fail_job. intros t0 t w3 r R3 F3. eexists. split; [by eapply only_row_trans|].
    split; [etrans; [exact S2|by apply frame_same_runner]|]. split; [left; apply Hf|].
    intros j. right. apply failed_start_row; [apply Hf|]. right. destruct F3 as (-> & _). eauto.
  - apply wp_bind, wp_AddEvent_jobs; [done|]. intros w3 r3 H3 F3. unfold MarkDownloading.
    apply wp_now_update; [done|]. intros t w4 H4 F4.
    assert (frame w2 w4) as F24 by by etrans.
    eexists. split; [eapply only_row_trans; [exact R2|]|].
    { split; [by rewrite H4; cbn; rewrite H3|done]. }
    split; [etrans; [exact S2|by apply frame_same_runner]|]. split; [by right|].
    intros j. left. split; [done|]. split; [apply Hf|]. exists gid, (TargetURL target), o.
    split; [done|]. split; [apply Hf|]. by destruct F24 as (-> & _).
Qed.

Lemma wp_prepareOutput (job : Job) (name : string) (o : gmap string string) P (w : World) :
  (forall w' r, db w' = db w -> frame w w' -> P w' r) -> wp env (prepareOutputForStart job name o) P w.
Proof.
  intros H. unfold prepareOutputForStart. case_bool; [by apply wp_Ret, H|].
  apply wp_bind. unfold hasActiveOutputConflict.
  assert (forall (b : bool) w', db w' = db w -> frame w w' ->
    wp env (if b then Ret (inr tt)
            else removed <- call (OsRemove (String.append (GoPath.path_Join2 (OutDir job) name) ".aria2")) ;;
                 match removed with
                 | inl err => if errors_Is err ErrNotExist then Ret (inr tt) else Ret (inl err)
                 | inr _ => Ret (inr tt)
                 end) P w') as Hrest.
  { intros b w1 H1 F1. destruct b; [by apply wp_Ret, H|]. apply wp_bind, wp_call_out; [done|].
    intros w2 [err|u] H2 F2; [|apply wp_Ret, H; [by rewrite H2|by etrans]].
    case_bool; (apply wp_Ret, H; [by rewrite H2|by etrans]). }
  case_bool; [apply wp_Ret; by apply (Hrest false)|].
  apply wp_bind, wp_ListJobs; [done|]. intros w1 H1 F1.
  apply wp_Ret. by apply (Hrest (existsb (output_conflicts job name) _)).
Qed.

Lemma wp_startResolved (job : Job) (target : ResolvedTarget) (w0 w : World) :
  db w = db w0 -> frame w0 w ->
  wp env (startResolved job target) (fun w' _ => start_outcome (ID job) w0 w') w.
Proof.
  intros H0 F0. unfold startResolved. apply wp_bind_err. unfold UpdateResolving.
  apply wp_now_update; [done|]. intros t w1 H1 F1.
  set (f := fun j : Job => j <| ResolvedURL := Some (TargetURL target) |>
              <| Filename := Some (sanitizeFilename (TargetFilename target)) |>
              <| SizeBytes := Some (Size target) |> <| UpdatedAt := t |>).
  assert (only_row (ID job) f w0 w1) as R1 by (apply only_row_update; [by rewrite H1, H0|done]).
  assert (frame w0 w1) as F01 by by etrans.
  assert (forall c e m d w2, db w2 = db w1 -> frame w1 w2 ->
    wp env (fail_job (ID job) c e m d) (fun w' _ => start_outcome (ID job) w0 w') w2) as Hfail.
  { intros c e m d w2 H2 F2. apply wp_fail_job. intros t0 t1 w3 r R3 F3.
    assert (frame w0 w3) as F03 by (etrans; [exact F01|by etrans]).
    eexists. split; [eapply only_row_trans; [|exact R3]; eapply only_row_same; [exact R1|by rewrite H2]|].
    split; [by apply frame_same_runner|]. split; [by left|].
    intros j. right. apply failed_start_row; [done|]. left. by destruct F03 as (-> & _). }
  case_bool; [by apply Hfail|]. apply wp_bind.
  assert (forall w2 (r : res unit), db w2 = db w1 -> frame w1 w2 ->
    wp env (match r with
            | inl err => fail_job (ID job) "prepare_output_failed"
                ("prepare output failed: " ++ error_text err)%string (error_text err) (minutes 10)
            | inr _ => startDownload job target
                (merge_options (base_options job (sanitizeFilename (TargetFilename target))) (Options target))
            end) (fun w' _ => start_outcome (ID job) w0 w') w2) as Hrest.
  { intros w2 [err|u] H2 F2; [by apply Hfail|]. apply (wp_startDownload job target _ f).
    - eapply only_row_same; [exact R1|by rewrite H2].
    - by etrans.
    - done. }
  case_bool; [by apply wp_prepareOutput|apply wp_Ret; by apply (Hrest _ (inr tt))].
Qed.

Lemma wp_resolveAndStart (r : Runner) (job : Job) (w : World) (j : Job) :
  returns env (ResolveWithSite (Resolvers r) (Site job) (URL job)) ->
  find_job (ID job) (db w) = Some j ->
  wp env (resolveAndStart r job) (fun w' _ =>
    if not_deleted j then start_outcome (ID job) w w'
    else jobs (db w') = jobs (db w) /\ frame w w') w.
Proof.
  intros Hret Hj. unfold resolveAndStart. apply wp_bind, wp_GetJob; [done|]. intros w1 H1 F1.
  rewrite Hj. cbn [is_deleted]. destruct (not_deleted j); cbn [negb].
  - apply wp_bind, wp_quiet; [apply ResolveWithSite_quiet|done|]. intros w2 [err|target] H2 F2.
    + unfold resolve_failed, mapResolverError. apply wp_bind, wp_bind, wp_now. intros t0 w3 H3 F3.
      apply wp_Ret. set (m := if errors_Is err ErrLoginRequired then _ else _).
      destruct m as [[code msg] retryAt]. apply wp_bind, wp_AddEvent_jobs; [done|]. intros w4 r4 H4 F4.
      apply wp_MarkFailed; [done|]. intros t w5 r5 H5 F5.
      assert (frame w w5) as F by (etrans; [exact F1|]; etrans; [exact F2|]; etrans; [exact F3|]; by etrans).
      exists (failed_row code msg (Some retryAt) t). split.
      { split; [by rewrite H5, H4, H3, H2, H1|done]. }
      split; [by apply frame_same_runner|]. split; [by left|].
      intros x. right. apply (failed_start_row code msg retryAt t (fun x => x)); [done|].
      left. by destruct F as (-> & _).
    + apply wp_startResolved; [by rewrite H2|by etrans].
  - apply wp_AddEvent_jobs; [done|]. intros w2 r2 H2 F2. split; [by rewrite H2, H1|by etrans].
Qed.

(** ** Starting jobs up to the limit *)

Definition is_queued (j : Job) : bool := String.eqb (Status j) StatusQueued.

Definition queued_count (w : World) : nat := List.length (rows_where is_queued (db w)).

(** What [countDownloading] counts. *)
Definition downloading_count (w : World) : Z :=
  Z.of_nat (List.length (rows_where (list_filter StatusDownloading false) (db w))).

Lemma update_rows_split (f : Job -> Job) (rows : list Job) (j : Job) :
  StronglySorted Z.lt (map ID rows) -> j ∈ rows ->
  exists a b, rows = (a ++ j :: b)%list /\ update_rows (has_id (ID j)) f rows = (a ++ f j :: b)%list.
Proof.
  intros Hs Hj. induction rows as [|x rows IH]; [by apply elem_of_nil in Hj|].
  simpl in Hs. apply StronglySorted_inv in Hs as [Hs Hx]. rewrite Forall_forall in Hx.
  assert (forall y, y ∈ rows -> (ID x < ID y)%Z) as Hlt.
  { intros y Hy. apply Hx. apply (list_elem_of_fmap_2 ID _ _ Hy). }
  apply elem_of_cons in Hj as [->|Hj].
  - exists [], rows. split; [done|]. cbn. unfold has_id at 1. rewrite Z.eqb_refl. f_equal.
    etrans; [|apply map_id]. apply map_ext_in. intros y Hy. apply list_elem_of_In, Hlt in Hy.
    unfold has_id. destruct (ID y =? ID x)%Z eqn:E; bool_prop; [lia|done].
  - destruct (IH Hs Hj) as (a & b & Ha & Hb). exists (x :: a), b. split; [by rewrite Ha|].
    change (update_rows (has_id (ID j)) f (x :: rows))
      with ((if has_id (ID j) x then f x else x) :: update_rows (has_id (ID j)) f rows).
    rewrite Hb. unfold has_id. specialize (Hlt _ Hj).
    destruct (ID x =? ID j)%Z eqn:E; bool_prop; [lia|done].
Qed.

(** How counting rows changes when one row does. *)
Lemma count_update (p : Job -> bool) (f : Job -> Job) (d d' : Db) (j : Job) :
  StronglySorted Z.lt (map ID (jobs d)) -> j ∈ jobs d ->
  jobs d' = update_rows (has_id (ID j)) f (jobs d) ->
  (List.length (rows_where p d') + Nat.b2n (p j) = List.length (rows_where p d) + Nat.b2n (p (f j)))%nat.
Proof.
  intros Hs Hj Hd. destruct (update_rows_split f (jobs d) j Hs Hj) as (a & b & Ha & Hb).
  unfold rows_where. rewrite Hd, Hb, Ha, !List.filter_app, !length_app. cbn.
  destruct (p j), (p (f j)); cbn; lia.
Qed.

Lemma claimable_queued (roots : list string) (t : Z) (j : Job) :
  row_ok roots j -> claimable t j = is_queued j.
Proof.
  intros Hok. unfold claimable, is_queued. destruct (String.eqb (Status j) StatusQueued) eqn:E; [|done].
  bool_prop. destruct (row_queued _ _ Hok E) as (Hd & Hn & _). unfold not_deleted.
  by rewrite Hd, Hn.
Qed.

Lemma next_claim_none (roots : list string) (t : Z) (w : World) :
  DbOk roots (db w) -> next_claim t (db w) = None -> queued_count w = 0%nat.
Proof.
  intros Hok Hn. unfold next_claim in Hn. apply head_None in Hn. unfold queued_count.
  replace (rows_where is_queued (db w)) with (rows_where (claimable t) (db w)); [by rewrite Hn|].
  apply filter_ext_in. intros j Hj. apply (claimable_queued roots).
  pose proof (ok_rows _ _ Hok) as Hr. rewrite Forall_forall in Hr. apply Hr. by apply list_elem_of_In.
Qed.

Lemma wp_safe {A} (I : World -> Prop) (p : prog A) P (w : World) :
  safe I p -> I w -> wp env p P w -> wp env p (fun w' a => I w' /\ P w' a) w.
Proof.
  intros Hs HI. pose proof (safe_run I env p w Hs HI) as H. unfold wp.
  destruct (run env p w) as [w' [a|]]; [by split|done].
Qed.

(** The limit the runner works under in a given world. *)
Definition limit (r : Runner) (w : World) : Z :=
  match GetConcurrency r with
  | Some get => if (0 <? get (settings w))%Z then get (settings w) else static_concurrency r
  | None => static_concurrency r
  end.

Lemma wp_concurrency (r : Runner) P (w : World) :
  (forall w', db w' = db w -> frame w w' -> P w' (limit r w)) -> wp env (concurrency r) P w.
Proof.
  intros H. unfold concurrency, limit in *. destruct (GetConcurrency r) as [get|]; [|by apply wp_Ret, H].
  apply wp_bind, wp_settings. intros w' H1 F1. specialize (H w' H1 F1).
  destruct (0 <? get (settings w))%Z; by apply wp_Ret.
Qed.

Lemma wp_countDownloading P (w : World) :
  (forall w', db w' = db w -> frame w w' -> P w' (downloading_count w)) -> wp env countDownloading P w.
Proof.
  intros H. unfold countDownloading. apply wp_bind, wp_ListJobs; [done|]. intros w1 H1 F1.
  apply wp_Ret. rewrite length_rev. by apply H.
Qed.

(** A claim takes the first job of the queue, or finds the queue empty. *)
Lemma wp_claim_first (roots : list string) (w : World) :
  db_inv (DbOk roots) w ->
  wp env ClaimNextQueued (fun w1 c =>
    db_inv (DbOk roots) w1 /\ same_runner w w1
    /\ match c with
       | inl _ => jobs (db w1) = jobs (db w) /\ queued_count w = 0%nat
       | inr job => exists j t, j ∈ jobs (db w) /\ ID j = ID job /\ is_queued j = true
           /\ (forall x, x ∈ jobs (db w) -> is_queued x = true -> (ID j <= ID x)%Z)
           /\ jobs (db w1) = update_rows (has_id (ID j)) (claimed t) (jobs (db w))
       end) w.
Proof.
  intros Hinv. pose proof (proj1 Hinv) as Hok. pose proof (ok_ids _ _ Hok) as Hs.
  apply (wp_safe (db_inv (DbOk roots))); [apply safe_ClaimNextQueued|done|].
  apply wp_Claim; [done..|]. intros t w1 c F1 H. apply frame_same_runner in F1. split; [done|].
  destruct (next_claim t (db w)) as [j|] eqn:Ej; destruct H as [-> Hd].
  2: { apply (next_claim_none roots) in Ej; [by rewrite Hd|done]. }
  destruct (next_claim_first t (db w) j Hs Ej) as (Hin & Hcl & Hfirst). apply claimable_iff in Hcl.
  assert (forall x, x ∈ jobs (db w) -> claimable t x = is_queued x) as Heq.
  { intros x Hx. apply (claimable_queued roots). pose proof (ok_rows _ _ Hok) as Hr.
    rewrite Forall_forall in Hr. by apply Hr. }
  exists j, t. split; [done|]. split; [done|]. split; [by rewrite <- Heq|]. split; [|by rewrite Hd].
  intros x Hx Hq. apply Hfirst; [done|]. apply claimable_iff. by rewrite Heq.
Qed.

(** So the queue is one shorter and the number of downloads the same. *)
Lemma wp_claim_queued (roots : list string) (w : World) :
  db_inv (DbOk roots) w ->
  wp env ClaimNextQueued (fun w1 c =>
    db_inv (DbOk roots) w1 /\ same_runner w w1 /\ downloading_count w1 = downloading_count w
    /\ match c with
       | inl _ => queued_count w = 0%nat /\ queued_count w1 = 0%nat
       | inr job => exists j, j ∈ jobs (db w1) /\ ID j = ID job /\ Status j = StatusResolving
                     /\ DeletedAt j = None /\ S (queued_count w1) = queued_count w
       end) w.
Proof.
  intros Hinv. pose proof (proj1 Hinv) as Hok. pose proof (ok_ids _ _ Hok) as Hs.
  eapply wp_mono; [|by apply wp_claim_first]. intros w1 [e|job] (Hinv1 & S1 & H).
  { destruct H as [Hj Hq]. unfold downloading_count, queued_count, rows_where in *. by rewrite Hj. }
  destruct H as (j & t & Hin & Hid & Hcl & _ & Hj1).
  pose proof (count_update is_queued (claimed t) (db w) (db w1) j Hs Hin Hj1) as Hq1.
  pose proof (count_update (list_filter StatusDownloading false) (claimed t) (db w) (db w1) j Hs Hin Hj1) as Hd1.
  unfold is_queued in Hq1, Hcl. rewrite Hcl in Hq1. bool_prop.
  unfold list_filter in Hd1. rewrite Hcl in Hd1. cbn in Hq1, Hd1. rewrite !andb_false_r in Hd1. cbn in Hd1.
  split; [done|]. split; [done|]. split; [unfold downloading_count, list_filter; cbn; lia|].
  exists (claimed t j). split; [|split; [done|]; split; [done|]; split].
  - destruct (update_rows_split (claimed t) (jobs (db w)) j Hs Hin) as (a & b & _ & Hb).
    rewrite Hj1, Hb. apply elem_of_app. right. by left.
  - pose proof (ok_rows _ _ Hok) as Hr. rewrite Forall_forall in Hr.
    by destruct (row_queued _ _ (Hr _ Hin) Hcl).
  - unfold queued_count, is_queued. lia.
Qed.

(** Starting a claimed job changes its row only, which ends downloading or failed. *)
Lemma wp_start_row (r : Runner) (roots : list string) (job j : Job) (w : World) :
  returns env (ResolveWithSite (Resolvers r) (Site job) (URL job)) ->
  db_inv (DbOk roots) w -> j ∈ jobs (db w) -> ID j = ID job -> DeletedAt j = None ->
  wp env (resolveAndStart r job) (fun w' _ =>
    db_inv (DbOk roots) w' /\ same_runner w w'
    /\ exists f, jobs (db w') = update_rows (has_id (ID j)) f (jobs (db w))
       /\ (forall y, ID (f y) = ID y)
       /\ (Status (f j) = StatusDownloading \/ Status (f j) = StatusFailed)) w.
Proof.
  intros Hret Hinv Hin Hid Hdel. pose proof (ok_ids _ _ (proj1 Hinv)) as Hs.
  apply (wp_safe (db_inv (DbOk roots)));
    [exact (resolveAndStart_safe r _ _ job (SS := StoreSafe_DbOk roots))|done|].
  assert (find_job (ID job) (db w) = Some j) as Hfind by by apply find_job_In.
  eapply wp_mono; [|by apply (wp_resolveAndStart r job w j)]. intros w' x.
  assert (not_deleted j = true) as -> by (unfold not_deleted; by rewrite Hdel).
  cbn beta iota. intros (f & [Hrow Hf] & Hsame & _ & Hout). split; [done|].
  exists f. rewrite Hid. split; [done|]. split; [done|]. destruct (Hout j) as [(H & _)|(H & _)]; auto.
Qed.

(** It adds at most one download and queues nothing. *)
Lemma start_row_counts (w w' : World) (f : Job -> Job) (j : Job) :
  StronglySorted Z.lt (map ID (jobs (db w))) -> j ∈ jobs (db w) -> Status j = StatusResolving ->
  jobs (db w') = update_rows (has_id (ID j)) f (jobs (db w)) ->
  Status (f j) = StatusDownloading \/ Status (f j) = StatusFailed ->
  queued_count w' = queued_count w
  /\ (downloading_count w <= downloading_count w' <= downloading_count w + 1)%Z.
Proof.
  intros Hs Hin Hst Hrow Hout.
  pose proof (count_update is_queued f (db w) (db w') j Hs Hin Hrow) as Hq1.
  pose proof (count_update (list_filter StatusDownloading false) f (db w) (db w') j Hs Hin Hrow) as Hd1.
  assert (is_queued j = false) as Ej by (unfold is_queued; by rewrite Hst).
  assert (list_filter StatusDownloading false j = false) as Ej2.
  { unfold list_filter. rewrite Hst. cbn. by rewrite andb_false_r. }
  assert (is_queued (f j) = false) as Efj by (unfold is_queued; by destruct Hout as [-> | ->]).
  rewrite Ej, Efj in Hq1. rewrite Ej2 in Hd1. unfold queued_count, downloading_count.
  destruct (list_filter StatusDownloading false (f j)); cbn in Hq1, Hd1; lia.
Qed.

Lemma wp_start_claimed (r : Runner) (roots : list string) (job j : Job) (w : World) :
  returns env (ResolveWithSite (Resolvers r) (Site job) (URL job)) ->
  db_inv (DbOk roots) w -> j ∈ jobs (db w) -> ID j = ID job -> Status j = StatusResolving ->
  DeletedAt j = None ->
  wp env (resolveAndStart r job) (fun w' _ =>
    db_inv (DbOk roots) w' /\ same_runner w w' /\ queued_count w' = queued_count w
    /\ (downloading_count w <= downloading_count w' <= downloading_count w + 1)%Z) w.
Proof.
  intros Hret Hinv Hin Hid Hst Hdel. eapply wp_mono; [|by apply (wp_start_row r roots job j)].
  intros w' x (Hinv' & Hsame & f & Hrow & _ & Hout). split; [done|]. split; [done|].
  apply (start_row_counts w w' f j); [by apply (ok_ids roots), (proj1 Hinv)|done..].
Qed.

Lemma wp_bind_inv {A B} (I : World -> Prop) (p : prog A) (f : A -> prog B) P (w : World) :
  safe I p -> I w -> wp env p (fun w' a => I w' -> wp env (f a) P w') w -> wp env (bind p f) P w.
Proof.
  intros Hs HI H. apply wp_bind. eapply wp_mono; [|exact (wp_safe I p _ w Hs HI H)].
  intros w' a [H1 H2]. by apply H2.
Qed.

(** The loop, from any world where the invariant holds. *)
Lemma wp_start_loop (r : Runner) (roots : list string) (fuel : nat) (w : World) :
  (forall job, returns env (ResolveWithSite (Resolvers r) (Site job) (URL job))) ->
  db_inv (DbOk roots) w -> (queued_count w < fuel)%nat ->
  wp env (start_loop fuel r (downloading_count w)) (fun w' ended =>
    ended = true /\ same_runner w w'
    /\ (downloading_count w <= downloading_count w' <= Z.max (downloading_count w) (limit r w))%Z
    /\ ((limit r w <= downloading_count w')%Z \/ queued_count w' = 0%nat)) w.
Proof.
  intros Hret. revert w. induction fuel as [|fuel IH]; intros w Hinv Hq; [lia|]. cbn [start_loop].
  pose proof (StoreSafe_DbOk roots) as SS.
  apply (wp_bind_inv (db_inv (DbOk roots))); [by eapply concurrency_safe|done|].
  apply wp_concurrency. intros w1 H1 F1 Hinv1.
  assert (same_runner w w1) as S1 by by apply frame_same_runner.
  assert (downloading_count w1 = downloading_count w) as D1 by (unfold downloading_count; by rewrite H1).
  assert (queued_count w1 = queued_count w) as Q1 by (unfold queued_count; by rewrite H1).
  destruct (limit r w <=? downloading_count w)%Z eqn:El; bool_prop.
  { apply wp_Ret. rewrite D1. split_and!; try done; lia. }
  apply wp_bind. eapply wp_mono; [|by apply (wp_claim_queued roots)].
  intros w2 c (Hinv2 & S2 & D2 & H). assert (same_runner w w2) as S02 by by etrans.
  destruct c as [e|job].
  { destruct H as [H Hz]. apply wp_Ret. rewrite D2, D1. split_and!; try done; try lia. }
  destruct H as (j & Hin & Hid & Hst & Hdel & Hq2). apply wp_bind.
  eapply wp_mono; [|by apply (wp_start_claimed r roots job j)].
  intros w3 x (Hinv3 & S3 & Q3 & D3).
  apply (wp_bind_inv (db_inv (DbOk roots))); [by eapply countDownloading_safe|done|].
  apply wp_countDownloading. intros w4 H4 F4 Hinv4.
  assert (downloading_count w4 = downloading_count w3) as D4 by (unfold downloading_count; by rewrite H4).
  assert (queued_count w4 = queued_count w3) as Q4 by (unfold queued_count; by rewrite H4).
  assert (same_runner w w4) as S04 by (etrans; [exact S02|etrans; [exact S3|by apply frame_same_runner]]).
  assert (limit r w4 = limit r w) as L4.
  { unfold limit. destruct S04 as (_ & _ & _ & ->). done. }
  rewrite <- D4. eapply wp_mono; [|apply (IH w4 Hinv4); lia].
  intros w5 b (-> & S5 & D5 & D6). rewrite L4 in *. split; [done|]. split; [by etrans|]. lia.
Qed.
(** The tick before its last loop: polling, post-processing and requeueing. *)
Definition polled (r : Runner) : prog (res unit) :=
  updateActive r ;;
  dispatchCompletedDecrypt r ;;
  requeueFailed.

Lemma polled_safe (r : Runner) (I : World -> Prop) new_ok :
  StoreSafe I new_ok -> safe I (polled r).
Proof.
  intros SS. unfold polled. client; first [by eapply updateActive_safe
    | by eapply dispatchCompletedDecrypt_safe | by eapply requeueFailed_safe].
Qed.

Lemma run_tick (fuel : nat) (r : Runner) (w : World) :
  run env (tick fuel r) w
  = run env (polled r ;; active <- countDownloading ;; start_loop fuel r active) w.
Proof.
  unfold tick, polled. rewrite !run_bind. destruct (run env (updateActive r) w) as [w1 [x1|]]; [|done].
  rewrite !run_bind. destruct (run env (dispatchCompletedDecrypt r) w1) as [w2 [x2|]]; [|done].
  rewrite !run_bind. by destruct (run env requeueFailed w2) as [w3 [x3|]].
Qed.

(** A tick is its polling followed by the loop that starts jobs. *)
Lemma wp_tick (r : Runner) (roots : list string) (fuel : nat) (w w1 : World) (x : res unit) P :
  db_inv (DbOk roots) w -> run env (polled r) w = (w1, Some x) ->
  (forall w2, db w2 = db w1 -> limit r w2 = limit r w -> db_inv (DbOk roots) w2 ->
     wp env (start_loop fuel r (downloading_count w2)) P w2) ->
  wp env (tick fuel r) P w.
Proof.
  intros Hinv Hrun H. pose proof (StoreSafe_DbOk roots) as SS.
  assert (db_inv (DbOk roots) w1) as Hinv1.
  { pose proof (safe_run _ env _ w (polled_safe r _ _ SS) Hinv) as H1. by rewrite Hrun in H1. }
  assert (limit r w1 = limit r w) as Hl.
  { pose proof (safe_run _ env _ w (polled_safe r _ _ (StoreSafe_settings (settings w))) eq_refl) as H1.
    rewrite Hrun in H1. unfold same_settings in H1. cbn in H1. unfold limit. by rewrite H1. }
  unfold wp. rewrite run_tick, run_bind, Hrun.
  fold (wp env (active <- countDownloading ;; start_loop fuel r active) P w1).
  apply (wp_bind_inv (db_inv (DbOk roots))); [by eapply countDownloading_safe|done|].
  apply wp_countDownloading. intros w2 H2 F2 Hinv2.
  assert (downloading_count w2 = downloading_count w1) as D2 by (unfold downloading_count; by rewrite H2).
  rewrite <- D2. apply H; [done| |done]. rewrite <- Hl. unfold limit. by destruct F2 as (_ & _ & _ & _ & ->).
Qed.

(** A tick ends by itself and uses the runner's capacity exactly.  Let [w1] be the world
    after the tick has polled aria2, dispatched post-processing and requeued failures, with
    the invariant of the tables holding at its start.  Given more fuel than there are queued
    jobs in [w1], the loop that starts jobs ends without exhausting it; it never raises the
    number of running downloads above the concurrency setting, and stops only when that many
    are running or no queued job is left. *)
Theorem tick_capacity (r : Runner) (roots : list string) (fuel : nat) (w w1 : World) (x : res unit) :
  (forall job, returns env (ResolveWithSite (Resolvers r) (Site job) (URL job))) ->
  db_inv (DbOk roots) w -> run env (polled r) w = (w1, Some x) -> (queued_count w1 < fuel)%nat ->
  wp env (tick fuel r) (fun w' ended =>
    ended = true
    /\ (downloading_count w1 <= downloading_count w' <= Z.max (downloading_count w1) (limit r w))%Z
    /\ ((limit r w <= downloading_count w')%Z \/ queued_count w' = 0%nat)) w.
Proof.
  intros Hret Hinv Hrun Hq. apply (wp_tick r roots fuel w w1 x); [done..|]. intros w2 H2 L2 Hinv2.
  assert (downloading_count w2 = downloading_count w1) as D2 by (unfold downloading_count; by rewrite H2).
  assert (queued_count w2 = queued_count w1) as Q2 by (unfold queued_count; by rewrite H2).
  eapply wp_mono; [|apply (wp_start_loop r roots fuel w2 Hret Hinv2); lia].
  intros w3 b (-> & _ & D3 & D4). rewrite L2, D2 in *. done.
Qed.

(** ** Post-processing *)

(** A step never reports an error. *)
Definition succeeds (p : prog (bool * option error)) : Prop :=
  forall w, exists w' b, run env p w = (w', Some (b, None)).

Definition completed_row (j : Job) : Prop :=
  Status j = StatusCompleted /\ Error j = None /\ ErrorCode j = None /\ CompletedAt j <> None.

Definition extraction_failed_row (j : Job) : Prop :=
  Status j = StatusDecryptFail /\ Error j <> None /\ CompletedAt j <> None
  /\ (ErrorCode j = Some "mega_decrypt_failed" \/ ErrorCode j = Some "archive_decrypt_failed").

Definition row_now (id : Z) (w w' : World) (Q : Job -> Prop) : Prop :=
  exists f, only_row id f w w' /\ forall x, Q (f x).

Lemma wp_decrypt_step_failed (id : Z) (event msg code : string) (w : World) :
  code = "mega_decrypt_failed" \/ code = "archive_decrypt_failed" ->
  wp env (decrypt_step_failed id event msg code) (fun w' _ =>
    row_now id w w' (fun x => ArchivePassword x = None /\ extraction_failed_row x) /\ frame w w') w.
Proof.
  intros Hc. unfold decrypt_step_failed. apply wp_bind, wp_AddEvent_jobs; [done|]. intros w1 r1 H1 F1.
  apply wp_bind. unfold MarkPostprocessFailed.
  replace (String.eqb (TrimSpace code) "") with false by (by destruct Hc as [-> | ->]).
  apply wp_now_update; [done|]. intros t w2 H2 F2.
  apply wp_bind. unfold ClearArchivePassword. apply wp_now_update; [done|]. intros t2 w3 H3 F3.
  apply wp_Ret. split; [|etrans; [exact F1|by etrans]]. eexists. split.
  - eapply only_row_trans; [eapply only_row_trans; [by apply only_row_refl|]|];
      (apply only_row_update; [eassumption|done]).
  - intros x. split; [done|]. split_and!; try done. cbn. by destruct Hc as [-> | ->]; [left|right].
Qed.

(** Running a decryptor: it changes nothing of the daemon, and an error means it can fail. *)
Lemma wp_attempt {A} (p : prog (bool * option error)) (k : bool * option error -> prog A) P (w : World) :
  quiet p -> returns env p ->
  (forall b w', db w' = db w -> frame w w' -> wp env (k (b, None)) P w') ->
  (forall b err w', db w' = db w -> frame w w' -> ~ succeeds p -> wp env (k (b, Some err)) P w') ->
  wp env (bind p k) P w.
Proof.
  intros Hq Hret Hok Hfail. apply wp_bind. unfold wp at 1.
  pose proof (Hret w) as Hr. pose proof (quiet_run env p w Hq) as Hc.
  destruct (run env p w) as [w' [[b [err|]]|]] eqn:Erun; [| |done];
    apply same_core_frame in Hc as [H F]; [|by apply Hok].
  apply Hfail; [done..|]. intros Hs. destruct (Hs w) as (w2 & b2 & H2). by rewrite Erun in H2.
Qed.

(** The step either goes on with the jobs as they were, or has failed the row. *)
Definition step_post (id : Z) (can_fail : Prop) (w w' : World) (ok : bool) : Prop :=
  frame w w' /\
  if ok then jobs (db w') = jobs (db w)
  else can_fail /\ row_now id w w' (fun x => ArchivePassword x = None /\ extraction_failed_row x).

Lemma wp_step_failed (id : Z) (event msg code : string) (can_fail : Prop) (w0 w : World) :
  code = "mega_decrypt_failed" \/ code = "archive_decrypt_failed" -> can_fail ->
  jobs (db w) = jobs (db w0) -> frame w0 w ->
  wp env (decrypt_step_failed id event msg code ;; Ret false) (step_post id can_fail w0) w.
Proof.
  intros Hc Hf Hj F0. apply wp_bind. eapply wp_mono; [|by apply wp_decrypt_step_failed].
  intros w' _ [(f & [H1 H2] & HQ) F1]. apply wp_Ret. split; [by etrans|]. split; [done|].
  exists f. split; [|done]. split; [by rewrite H1, Hj|done].
Qed.

Lemma wp_step_event (id : Z) (level msg : string) (can_fail : Prop) (w0 w : World) :
  jobs (db w) = jobs (db w0) -> frame w0 w ->
  wp env (AddEvent id level msg ;; Ret true) (step_post id can_fail w0) w.
Proof.
  intros Hj F0. apply wp_bind, wp_AddEvent_jobs; [done|]. intros w' r H1 F1. apply wp_Ret.
  split; [by etrans|by rewrite H1].
Qed.

Definition mega_can_fail (r : Runner) (t : decryptTask) : Prop :=
  exists dec, MegaDec r = Some dec /\ decryptMega t = true
              /\ ~ succeeds (mega_MaybeDecrypt dec (site t) (rawURL t) (megaPath t)).

Definition archive_can_fail (r : Runner) (t : decryptTask) : Prop :=
  exists dec, ArchiveDec r = Some dec /\ decryptArch t = true
              /\ ~ succeeds (archive_MaybeDecrypt dec (archivePath t) (taskOutDir t) (password t)).

(** The decryptors a task uses return. *)
Definition decryptors_return (r : Runner) (t : decryptTask) : Prop :=
  (forall dec, MegaDec r = Some dec -> returns env (mega_MaybeDecrypt dec (site t) (rawURL t) (megaPath t)))
  /\ forall dec, ArchiveDec r = Some dec ->
       returns env (archive_MaybeDecrypt dec (archivePath t) (taskOutDir t) (password t)).

Lemma wp_run_mega (r : Runner) (t : decryptTask) (w : World) :
  decryptors_return r t ->
  wp env (run_mega r t) (step_post (jobID t) (mega_can_fail r t) w) w.
Proof.
  intros [Hret _]. unfold run_mega. destruct (decryptMega t) eqn:Et; [|by apply wp_Ret].
  destruct (MegaDec r) as [dec|] eqn:Ed; [|by apply wp_Ret].
  apply wp_bind, wp_AddEvent_jobs; [done|]. intros w1 r1 H1 F1.
  apply wp_attempt; [apply mega_quiet|by apply Hret| |].
  - intros b w2 H2 F2. assert (frame w w2) as F by by etrans.
    destruct b; [apply wp_step_event; [by rewrite H2|done]|]. apply wp_Ret. split; [done|by rewrite H2].
  - intros b err w2 H2 F2 Hf.
    destruct b; (apply wp_step_failed; [by left|by exists dec|by rewrite H2|by etrans]).
Qed.

Lemma wp_run_archive (r : Runner) (t : decryptTask) (w : World) :
  decryptors_return r t ->
  wp env (run_archive r t) (step_post (jobID t) (archive_can_fail r t) w) w.
Proof.
  intros [_ Hret]. unfold run_archive. destruct (decryptArch t) eqn:Et; [|by apply wp_Ret].
  destruct (ArchiveDec r) as [dec|] eqn:Ed; [|by apply wp_Ret].
  apply wp_bind, wp_AddEvent_jobs; [done|]. intros w1 r1 H1 F1.
  apply wp_attempt; [apply archive_quiet|by apply Hret| |].
  - intros b w2 H2 F2. assert (frame w w2) as F by by etrans.
    destruct b; (apply wp_step_event; [by rewrite H2|done]).
  - intros b err w2 H2 F2 Hf.
    destruct b; (apply wp_step_failed; [by right|by exists dec|by rewrite H2|by etrans]).
Qed.

(** How the work of a decrypt goroutine ends for its row. *)
Definition decrypt_outcome (r : Runner) (t : decryptTask) (w w' : World) : Prop :=
  frame w w' /\ row_now (jobID t) w w' (fun x => ArchivePassword x = None
    /\ (completed_row x
        \/ (extraction_failed_row x /\ (mega_can_fail r t \/ archive_can_fail r t)))).

Lemma row_now_from (id : Z) (w0 w w' : World) (Q R : Job -> Prop) :
  jobs (db w) = jobs (db w0) -> (forall x, Q x -> R x) -> row_now id w w' Q -> row_now id w0 w' R.
Proof.
  intros Hj HQ (f & [H1 H2] & H3). exists f. split; [split; [by rewrite H1, Hj|done]|]. auto.
Qed.

Lemma wp_decrypt_body (r : Runner) (t : decryptTask) (w : World) :
  decryptors_return r t ->
  wp env (decrypt_body r t) (fun w' _ => decrypt_outcome r t w w') w.
Proof.
  intros Hret. unfold decrypt_body. apply wp_bind. eapply wp_mono; [|by apply wp_run_mega].
  intros w1 [] [F1 H1]; cbn [negb].
  2: { destruct H1 as [Hf H1]. apply wp_Ret. split; [done|]. eapply row_now_from; [done| |exact H1].
       intros x [Hx1 Hx2]. split; [done|]. right. split; [done|by left]. }
  apply wp_bind. eapply wp_mono; [|by apply wp_run_archive].
  intros w2 [] [F2 H2]; cbn [negb].
  2: { destruct H2 as [Hf H2]. apply wp_Ret. split; [by etrans|]. eapply row_now_from; [exact H1| |exact H2].
       intros x [Hx1 Hx2]. split; [done|]. right. split; [done|by right]. }
  apply wp_bind. unfold MarkCompleted. apply wp_now_update; [done|]. intros t1 w3 H3 F3.
  apply wp_bind. unfold ClearArchivePassword. apply wp_now_update; [done|]. intros t2 w4 H4 F4.
  apply wp_Ret. split; [etrans; [exact F1|]; etrans; [exact F2|by etrans]|]. eexists. split.
  - eapply only_row_trans; [eapply only_row_trans; [apply only_row_refl; by rewrite H2, H1|]|];
      (apply only_row_update; [eassumption|done]).
  - intros x. split; [done|]. by left.
Qed.

(** ** Polling *)

(** The code and retry delay of an aria2 failure. *)
Definition download_error_class (msg : string) (t0 : Z) : string * Z :=
  let lower := ToLower (TrimSpace msg) in
  if Contains lower "status=509" || Contains lower "status code 509" || Contains lower "status 509"
  then ("quota_exceeded", (t0 + 7200)%Z) else ("download_error", (t0 + 600)%Z).

(** What aria2's answer about its task does to a downloading job. *)
Definition polled_row (answer : res AriaStatus) (x y : Job) : Prop :=
  match answer with
  | inl err =>
      if errors_Is err AriaErrGIDNotFound then
        Status y = StatusFailed /\ ErrorCode y = Some "gid_not_found"
        /\ Error y = Some (error_text err) /\ Attempts y = (Attempts x + 1)%Z
      else y = x
  | inr st =>
      if String.eqb (StStatus st) "complete" then
        In (Status y) [StatusCompleted; StatusDecrypting; StatusDecryptFail]
        /\ Attempts y = Attempts x
      else if String.eqb (StStatus st) "error" then
        let msg := if String.eqb (StErrorMessage st) "" then "download error" else StErrorMessage st in
        exists t0, Status y = StatusFailed /\ Error y = Some msg
          /\ ErrorCode y = Some (fst (download_error_class msg t0))
          /\ NextRetryAt y = Some (snd (download_error_class msg t0))
          /\ Attempts y = (Attempts x + 1)%Z
      else
        Status y = StatusDownloading /\ BytesDone y = fst (ParseInt (StCompletedLen st))
        /\ DownloadSpeed y = Some (fst (ParseInt (StDownloadSpeed st)))
        /\ EtaSeconds y = Some (eta_seconds (fst (ParseInt (StDownloadSpeed st)))
                                 (fst (ParseInt (StTotalLength st))) (fst (ParseInt (StCompletedLen st))))
        /\ Attempts y = Attempts x
  end.

Lemma row_now_rel (id : Z) (w w' : World) (f : Job -> Job) (Q : Job -> Job -> Prop) :
  only_row id f w w' -> (forall x, Q x (f x)) -> exists f, only_row id f w w' /\ forall x, Q x (f x).
Proof. intros H1 H2. by exists f. Qed.

Lemma wp_ignored {A B} (p : prog A) (k : prog B) P (w : World) :
  wp env p (fun w' _ => wp env k P w') w -> wp env (p ;; k) P w.
Proof. apply wp_bind. Qed.

Lemma wp_scheduleDecrypt (t : decryptTask) P (w : World) :
  (forall w', db w' = db w -> P w' tt) -> wp env (scheduleDecrypt t) P w.
Proof.
  intros H. unfold scheduleDecrypt. apply wp_bind. unfold wp, call. cbn.
  destruct (bool_decide _); cbn; by apply H.
Qed.

Lemma autoDecryptEnabled_quiet (r : Runner) : quiet (autoDecryptEnabled r).
Proof.
  unfold autoDecryptEnabled. destruct (GetAutoDecrypt r); [|apply quiet_Ret].
  apply quiet_bind; [by apply quiet_call_out|]. intros x. apply quiet_Ret.
Qed.

Lemma archiveDecryptWaitMessage_quiet (job : Job) (p : string) : quiet (archiveDecryptWaitMessage job p).
Proof.
  unfold archiveDecryptWaitMessage. apply quiet_bind; [apply quiet_or_panic|]. intros [k b].
  case_bool; [apply quiet_Ret|]. apply quiet_bind; [apply query_quiet|].
  intros [e|l]; [apply quiet_Ret|]. apply quiet_bind; [apply quiet_or_panic|]. intros [[n a] c].
  repeat case_bool; apply quiet_Ret.
Qed.

(** Deciding what a file needs changes nothing. *)
Lemma buildDecryptTask_quiet (r : Runner) (job : Job) (st : option AriaStatus) :
  quiet (buildDecryptTask r job st).
Proof.
  unfold buildDecryptTask. apply quiet_bind; [apply resolveArchiveEntryPath_quiet|]. intros p.
  apply quiet_bind.
  - unfold shouldDecryptArchive. destruct (ArchiveDec r); [|apply quiet_Ret].
    case_bool; [apply quiet_Ret|]. apply quiet_bind; [apply autoDecryptEnabled_quiet|].
    intros []; apply quiet_Ret.
  - intros arch. repeat (case_bool; [apply quiet_Ret|]). destruct arch; [|apply quiet_Ret].
    apply quiet_bind; [apply archiveDecryptWaitMessage_quiet|]. intros m. case_bool; apply quiet_Ret.
Qed.

Lemma wp_queueDecrypt (r : Runner) (job : Job) (st : AriaStatus) (n : Z) P (w : World) :
  snd (run env (buildDecryptTask r job (Some st)) w) <> None ->
  (forall w', jobs (db w') = jobs (db w) -> P w' false) ->
  (forall f w', only_row (ID job) f w w' ->
     (forall x, In (Status (f x)) [StatusDecrypting; StatusDecryptFail] /\ Attempts (f x) = Attempts x) ->
     P w' true) ->
  wp env (queueDecryptFromStatus r job st n) P w.
Proof.
  intros Hret Hfalse Htrue. unfold queueDecryptFromStatus. apply wp_bind. unfold wp at 1.
  pose proof (quiet_run env _ w (buildDecryptTask_quiet r job (Some st))) as [Hsame _].
  destruct (run env (buildDecryptTask r job (Some st)) w) as [w1 [[[[task should] wait] failMsg]|]] eqn:E;
    [|done]. cbn [fst] in Hsame.
  destruct should; cbn [negb]; [|apply wp_Ret, Hfalse; by rewrite Hsame].
  destruct (String.eqb failMsg ""); cbn [negb].
  - apply wp_bind. unfold MarkDecrypting. apply wp_now_update; [done|]. intros t w2 H2 F2.
    apply wp_bind, wp_AddEvent_jobs; [done|]. intros w3 r3 H3 F3.
    assert (exists f, only_row (ID job) f w w3 /\ forall x, In (Status (f x)) [StatusDecrypting; StatusDecryptFail]
              /\ Attempts (f x) = Attempts x) as (f & Hf1 & Hf2).
    { eexists. split; [split; [by rewrite H3, H2, Hsame|done]|]. intros x. split; [by left|done]. }
    destruct (String.eqb wait ""); cbn [negb].
    + apply wp_bind, wp_scheduleDecrypt. intros w4 H4. apply wp_Ret.
      apply (Htrue f); [|done]. eapply only_row_same; [exact Hf1|by rewrite H4].
    + apply wp_bind, wp_AddEvent_jobs; [done|]. intros w4 r4 H4 F4. apply wp_Ret.
      apply (Htrue f); [|done]. by eapply only_row_same.
  - apply wp_bind. unfold postprocess_failed. apply wp_bind, wp_AddEvent_jobs; [done|].
    intros w2 r2 H2 F2. apply wp_bind. unfold MarkPostprocessFailed.
    change (String.eqb (TrimSpace "postprocess_failed") "") with false.
    apply wp_now_update; [done|]. intros t w3 H3 F3. apply wp_bind. unfold ClearArchivePassword.
    apply wp_now_update; [done|]. intros t2 w4 H4 F4. apply wp_Ret. apply wp_Ret.
    eapply Htrue; [eapply only_row_trans; [eapply only_row_trans;
      [apply (only_row_refl _ w w2); by rewrite H2, Hsame|]|]; (apply only_row_update; [eassumption|done])|].
    intros x. split; [by right; left|done].
Qed.
(** Polling one downloading job moves its row as aria2's answer says and touches no other
    row.  A task aria2 no longer knows fails the job, any other RPC error leaves it; a
    finished task ends completed, or waits for or failed its post-processing; an aria2 error
    fails it with the message, quota_exceeded and two hours for an HTTP 509 and
    download_error and ten minutes otherwise; any other state records the progress.  The
    attempts go up exactly when the job fails. *)
Theorem update_one_spec (r : Runner) (job : Job) (gid : string) (w : World) :
  EngineGID job = Some gid ->
  (forall st w', aria_at env (clock w) (TellStatus gid) = inr st ->
     snd (run env (buildDecryptTask r job (Some st)) w') <> None) ->
  wp env (update_one r job) (fun w' _ =>
    exists f, only_row (ID job) f w w'
              /\ forall x, polled_row (aria_at env (clock w) (TellStatus gid)) x (f x)) w.
Proof.
  intros Hg Hret. unfold update_one. rewrite Hg. apply wp_bind, wp_aria. intros w1 H1 F1.
  destruct (aria_at env (clock w) (TellStatus gid)) as [err|st]; unfold polled_row.
  - destruct (errors_Is err AriaErrGIDNotFound).
    + apply wp_bind, wp_now. intros t0 w2 H2 F2. apply wp_bind, wp_MarkFailed; [done|].
      intros t w3 r3 H3 F3. apply wp_Ret. eexists. split; [split; [by rewrite H3, H2, H1|done]|done].
    + apply wp_bind, wp_AddEvent_jobs; [done|]. intros w2 r2 H2 F2. apply wp_Ret.
      exists (fun x => x). split; [apply only_row_refl; by rewrite H2, H1|done].
  - specialize (Hret st w1 eq_refl). unfold update_from_status.
    destruct (String.eqb (StStatus st) "complete"); [|destruct (String.eqb (StStatus st) "error")].
    + apply wp_bind, wp_queueDecrypt; [done| |].
      * intros w2 H2. apply wp_bind. unfold UpdateProgress. apply wp_now_update; [done|].
        intros t w3 H3 F3. apply wp_bind, wp_AddEvent_jobs; [done|]. intros w4 r4 H4 F4.
        apply wp_bind. unfold MarkCompleted. apply wp_now_update; [done|]. intros t2 w5 H5 F5. apply wp_Ret.
        eexists. split.
        { eapply only_row_trans; [eapply only_row_trans; [apply (only_row_refl _ w w2); by rewrite H2, H1|]|].
          - eapply only_row_same; [apply only_row_update; [exact H3|done]|done].
          - apply only_row_update; [exact H5|done]. }
        intros x. split; [by left|done].
      * intros f w2 Hf Hx. apply wp_Ret. exists f. split.
        { destruct Hf as [Hf1 Hf2]. split; [by rewrite Hf1, H1|done]. }
        intros x. destruct (Hx x) as [Hs Ha]. split; [by right|done].
    + apply wp_bind. unfold mapDownloadError. apply wp_bind, wp_now. intros t0 w2 H2 F2. apply wp_Ret.
      set (msg := if String.eqb (StErrorMessage st) "" then _ else _).
      set (cls := if _ || _ || _ then _ else _). assert (cls = download_error_class msg t0) as Hcls by done.
      clearbody cls. destruct cls as [code retryAt].
      apply wp_bind, wp_AddEvent_jobs; [done|]. intros w3 r3 H3 F3.
      apply wp_bind, wp_MarkFailed; [done|]. intros t w4 r4 H4 F4. apply wp_Ret.
      eexists. split; [split; [by rewrite H4, H3, H2, H1|done]|]. intros x. exists t0.
      rewrite <- Hcls. done.
    + apply wp_bind. unfold UpdateProgress. apply wp_now_update; [done|]. intros t w2 H2 F2. apply wp_Ret.
      eexists. split; [split; [by rewrite H2, H1|done]|done].
Qed.

(** The estimate of the remaining time never overflows: for a non-negative count of
    bytes done it is the exact quotient rounded down, zero when the speed or the size is
    unknown or the download is complete. *)
Theorem eta_seconds_spec (speedText totalText doneText : string) :
  let speed := fst (ParseInt speedText) in
  let total := fst (ParseInt totalText) in
  let done := fst (ParseInt doneText) in
  (0 <= done)%Z ->
  (0 <= eta_seconds speed total done <= max_int64)%Z
  /\ ((0 < speed)%Z -> (done < total)%Z ->
      (eta_seconds speed total done * speed <= total - done
       < (eta_seconds speed total done + 1) * speed)%Z)
  /\ ((speed <= 0 \/ total <= done)%Z -> eta_seconds speed total done = 0%Z).
Proof.
  intros speed total done Hd. pose proof (ParseInt_range totalText) as Ht. fold total in Ht.
  unfold eta_seconds. destruct (_ && _) eqn:E.
  - bool_prop. rewrite wrap64_id by (unfold min_int64, max_int64 in *; lia).
    rewrite Z.quot_div_nonneg by lia.
    pose proof (Z.div_mod (total - done) speed). pose proof (Z.mod_pos_bound (total - done) speed).
    split_and!; [apply Z.div_pos; lia| |nia|lia].
    apply Z.le_trans with (total - done)%Z; [apply Z.div_le_upper_bound; nia|lia].
  - split; [unfold max_int64; lia|]. split; [|done]. intros H1 H2. exfalso.
    apply andb_false_iff in E as [E|E]; [apply andb_false_iff in E as [E|E]|]; bool_prop; lia.
Qed.
(** ** Waiting for the parts of an archive *)

(** [other] downloads into the directory of [job] and its file belongs to the set [key]. *)
Definition sibling (job : Job) (key : string) (other : Job) : bool :=
  negb (ID other =? ID job)%Z && String.eqb (OutDir other) (OutDir job)
  && match multipartArchiveGroupKey (archivePathForJob other) with
     | Some (k, _) => negb (String.eqb k "") && String.eqb k key
     | None => false
     end.

Definition pending_sibling (job : Job) (key : string) (other : Job) : bool :=
  sibling job key other && isMultipartSiblingPending (Status other).

Definition count_rows (p : Job -> bool) (l : list Job) : Z := Z.of_nat (List.length (List.filter p l)).

Lemma wait_scan_spec (job : Job) (key : string) (others : list Job) (n : Z) (seen expl : bool) :
  Forall (fun o => multipartArchiveGroupKey (archivePathForJob o) <> None) others ->
  exists expl', wait_scan job key others n seen expl
    = Some ((n + count_rows (pending_sibling job key) others)%Z,
            seen || existsb (sibling job key) others, expl').
Proof.
  intros Hall. revert n seen expl. induction Hall as [|o others Ho Hall IH]; intros n seen expl.
  { exists expl. cbn. by rewrite Z.add_0_r, orb_false_r. }
  assert (count_rows (pending_sibling job key) (o :: others)
          = Z.b2z (pending_sibling job key o) + count_rows (pending_sibling job key) others)%Z as Hc.
  { unfold count_rows. cbn [List.filter]. destruct (pending_sibling job key o); cbn [List.length Z.b2z]; lia. }
  rewrite Hc. cbn [wait_scan existsb].
  change (pending_sibling job key o) with (sibling job key o && isMultipartSiblingPending (Status o)).
  assert (sibling job key o = negb (ID o =? ID job)%Z && String.eqb (OutDir o) (OutDir job)
    && match multipartArchiveGroupKey (archivePathForJob o) with
       | Some (k, _) => negb (String.eqb k "") && String.eqb k key
       | None => false
       end) as Hsib by done.
  rewrite Hsib. clear Hsib Hc.
  destruct (ID o =? ID job)%Z; cbn [orb andb negb Z.b2z]; [rewrite Z.add_0_l; apply IH|].
  destruct (String.eqb (OutDir o) (OutDir job)); cbn [orb andb negb Z.b2z]; [|rewrite Z.add_0_l; apply IH].
  destruct (multipartArchiveGroupKey (archivePathForJob o)) as [[k e]|]; [|done].
  cbn [mbind option_bind]. destruct (String.eqb k ""); cbn [orb andb negb Z.b2z]; [rewrite Z.add_0_l; apply IH|].
  destruct (String.eqb k key); cbn [orb andb negb Z.b2z]; [|rewrite Z.add_0_l; apply IH].
  rewrite orb_true_r.
  destruct (isMultipartSiblingPending (Status o)); cbn [Z.b2z];
    [destruct (IH (n + 1)%Z true (expl || e)) as [e' ->]|destruct (IH n true (expl || e)) as [e' ->]];
    exists e'; do 3 f_equal; lia.
Qed.

Lemma count_none (p q : Job -> bool) (l : list Job) :
  (forall j, p j = true -> q j = true) -> existsb q l = false -> count_rows p l = 0%Z.
Proof.
  intros Hpq Hq. unfold count_rows. induction l as [|j l IH]; [done|]. cbn in *.
  apply orb_false_elim in Hq as [H1 H2]. destruct (p j) eqn:E; [apply Hpq in E; congruence|auto].
Qed.

(** The message of the wait, and that asking for it changes nothing. *)
Definition wait_answer (job : Job) (key : string) (d : Db) : string :=
  let n := count_rows (pending_sibling job key) (rows_where not_deleted d) in
  if negb (String.eqb key "") && (0 <? n)%Z then wait_message n else "".

Lemma wp_archiveDecryptWaitMessage (job : Job) (path key : string) (explicit : bool) P (w : World) :
  multipartArchiveGroupKey path = Some (key, explicit) ->
  Forall (fun o => multipartArchiveGroupKey (archivePathForJob o) <> None) (jobs (db w)) ->
  (forall w', db w' = db w -> frame w w' -> P w' (wait_answer job key (db w))) ->
  wp env (archiveDecryptWaitMessage job path) P w.
Proof.
  intros Hk Hall HP. unfold archiveDecryptWaitMessage, wait_answer in *. rewrite Hk. apply wp_bind, wp_Ret.
  destruct (String.eqb key ""); cbn [negb andb] in *; [by apply wp_Ret, HP|].
  apply wp_bind, wp_ListJobs; [done|]. intros w1 H1 F1. specialize (HP w1 H1 F1). set (l := rev _).
  assert (Forall (fun o => multipartArchiveGroupKey (archivePathForJob o) <> None) l) as Hl.
  { apply Forall_rev. rewrite Forall_forall in *. intros o Ho. apply rows_where_In in Ho as [Ho _].
    by apply Hall. }
  destruct (wait_scan_spec job key l 0 false explicit Hl) as [e Hscan]. rewrite Hscan.
  apply wp_bind, wp_Ret. cbn [orb]. rewrite Z.add_0_l.
  assert (count_rows (pending_sibling job key) l
          = count_rows (pending_sibling job key) (rows_where not_deleted (db w))) as Hc.
  { unfold l, count_rows. rewrite List.filter_rev, length_rev. unfold rows_where.
    do 3 f_equal. apply List.filter_ext. intros j. unfold list_filter. cbn. by rewrite andb_true_r. }
  rewrite Hc in *. set (n := count_rows _ _) in *.
  destruct (negb e && negb (existsb (sibling job key) l)) eqn:Es.
  - apply wp_Ret. bool_prop. assert (n = 0%Z) as Hn; [|by rewrite Hn in HP].
    rewrite <- Hc. eapply count_none; [|done].
    intros j Hj. unfold pending_sibling in Hj. by bool_prop.
  - by destruct (0 <? n)%Z; apply wp_Ret.
Qed.

(** Extraction of a part of an archive set waits exactly as long as some other job that
    is not deleted downloads a part of the same set into the same directory and is still
    queued, resolving, downloading or paused; the message counts those jobs.  (Whether the
    set is named as one, or another sibling was seen, makes no difference.)  A file of no set
    never waits. *)
Theorem archiveDecryptWaitMessage_spec (job : Job) (path key : string) (explicit : bool) (w : World) :
  multipartArchiveGroupKey path = Some (key, explicit) ->
  Forall (fun o => multipartArchiveGroupKey (archivePathForJob o) <> None) (jobs (db w)) ->
  wp env (archiveDecryptWaitMessage job path) (fun w' m =>
    db w' = db w
    /\ let n := count_rows (pending_sibling job key) (rows_where not_deleted (db w)) in
       m = if negb (String.eqb key "") && (0 <? n)%Z then wait_message n else "") w.
Proof.
  intros Hk Hall. eapply wp_archiveDecryptWaitMessage; [done..|]. intros w' H F. by split.
Qed.
End RunnerSpec.

(** ** A name that stops the daemon *)

(** C37. When a download whose job is named with three letters U+0130 finishes, the poll
    panics, whatever decryptors are configured: the name passes every check of job creation,
    and after a restart the job is still downloading and the next poll panics again. *)
Theorem finished_download_panics `{UC : Unicode} (env : Env) (r : Runner) (job : Job) (gid : string)
    (st : AriaStatus) (w : World) :
  unicode_lower dotted_name = "iii" ->
  Name job = dotted_name -> OutDir job = "/data" -> EngineGID job = Some gid ->
  aria_at env (clock w) (TellStatus gid) = inr st -> StStatus st = "complete" -> StFiles st = [] ->
  cleanUserFilename (Name job) = inr (Name job)
  /\ snd (run env (update_one r job) w) = None
  /\ db (fst (run env (update_one r job) w)) = db w.
Proof.
  intros Hu Hn Ho Hg Ha Hs Hf. apply dotted_lower in Hu. split; [by rewrite Hn; vm_compute|].
  assert (archivePathForJob job = ("/data/" ++ dotted_name)%string) as Hpath.
  { unfold archivePathForJob, outputNameForJob. rewrite Hn, Ho. by vm_compute. }
  assert (resolveArchiveEntryPath ("/data/" ++ dotted_name)%string = Panic) as Hpanic.
  { unfold resolveArchiveEntryPath.
    assert (TrimSpace ("/data/" ++ dotted_name) = "/data/" ++ dotted_name)%string as Ht by by vm_compute.
    rewrite Ht. change (String.eqb ("/data/" ++ dotted_name) "") with false. cbn iota.
    unfold multipartArchiveFirstVolume. rewrite Ht.
    assert (GoPath.Base ("/data/" ++ dotted_name) = dotted_name) as Hb by by vm_compute.
    rewrite Hb, Hu. by vm_compute. }
  assert (queueDecryptFromStatus r job st = fun _ => Panic) as Hq.
  { unfold queueDecryptFromStatus, buildDecryptTask, firstStatusPath. rewrite Hf.
    change (default "" (head (List.filter (fun p => negb (String.eqb p "")) (map TrimSpace [])))) with "".
    change (String.eqb "" "") with true. cbn iota. rewrite Hpath, Hpanic. done. }
  unfold update_one. rewrite Hg, run_bind, run_call. unfold handle, act. cbn [clock].
  change (aria_at env (clock w) (TellStatus gid)) with (aria_at env (clock w) (TellStatus gid)).
  rewrite Ha. cbn [fst snd]. unfold update_from_status. rewrite Hs.
  change (String.eqb "complete" "complete") with true. cbn iota. by rewrite Hq.
Qed.

(** ** Witnesses *)

#[local] Instance RunnerUnicode : Unicode := {| unicode_lower := lower_dotted |}.

(** A runner that follows direct links and extracts nothing. *)
Definition plain_runner : Runner :=
  mkRunner (NewRegistry [NewHTTPResolver]) None None 2 (Some Concurrency) (Some AutoDecrypt) 1.

Lemma http_returns (env : Env) (site u : string) :
  returns env (ResolveWithSite (Resolvers plain_runner) site u).
Proof.
  intros w. unfold ResolveWithSite, Resolve. cbn [Resolvers plain_runner NewRegistry resolvers siteResolvers].
  destruct (negb _); [rewrite lookup_empty; done|]. cbn [List.find].
  destruct (CanHandle _ u); done.
Qed.

Definition claimed_job : Job := sample_job 2 StatusResolving None.


Definition queue_world : World :=
  sample_world (mkDb [sample_job 1 StatusQueued None; sample_job 2 StatusQueued None;
                      sample_job 3 StatusQueued None] [] 3 0).

Lemma queue_ok : db_inv (DbOk ["/data/tv"]) queue_world.
Proof.
  split; [|done]. constructor; cbn; try done.
  - repeat constructor.
  - repeat (apply Forall_cons; split; [constructor; try done; try (by vm_compute);
      try (apply list_elem_of_In; vm_compute; tauto)|]). constructor.
  - constructor.
Qed.

(** With a limit of two and three queued jobs, two start. *)
Lemma tick_capacity_witness :
  wp (calm_env 200) (tick 10 plain_runner)
    (fun w' ended => ended = true /\ (downloading_count w' <= 2)%Z
                     /\ ((2 <= downloading_count w')%Z \/ queued_count w' = 0%nat)) queue_world.
Proof.
  destruct (run (calm_env 200) (polled plain_runner) queue_world) as [w1 o] eqn:E.
  assert (snd (run (calm_env 200) (polled plain_runner) queue_world) = Some (inr tt)) as Ho
    by (vm_compute; reflexivity).
  assert (queued_count (fst (run (calm_env 200) (polled plain_runner) queue_world)) = 3%nat) as Hq
    by (vm_compute; reflexivity).
  assert (downloading_count (fst (run (calm_env 200) (polled plain_runner) queue_world)) = 0%Z) as Hd
    by (vm_compute; reflexivity).
  rewrite E in Ho, Hq, Hd. cbn [fst snd] in Ho, Hq, Hd. subst o.
  eapply wp_mono; [|apply (tick_capacity (calm_env 200) (fun _ => eq_refl) plain_runner ["/data/tv"] 10
    queue_world w1 (inr tt) (fun job => http_returns _ _ _) queue_ok E); rewrite Hq; lia].
  intros w' b (Hb & Hmax & Hmin). rewrite Hd in Hmax.
  assert (limit plain_runner queue_world = 2%Z) as Hl by (vm_compute; reflexivity).
  rewrite Hl in *. split; [exact Hb|]. split; [lia|exact Hmin].
Defined.

Lemma ok_quiet (a o p : string) : quiet (Ret (true, @None error)).
Proof. apply quiet_Ret. Qed.

(** A runner whose extractions always work. *)
Definition extracting_runner : Runner :=
  mkRunner (NewRegistry [NewHTTPResolver]) None
    (Some (mkArchiveDecryptor (fun _ _ _ => Ret (true, None)) ok_quiet)) 2
    (Some Concurrency) (Some AutoDecrypt) 1.

Definition sample_task : decryptTask :=
  mkTask 5 "/data/tv/a.rar" "/data/tv/a.rar" "/data/tv" "pw" "https://example.com/f.bin" "" false true.

Definition decrypting_world : World :=
  (sample_world (mkDb [(sample_job 5 StatusDecrypting None) <| ArchivePassword := Some "pw" |>] [] 5 0))
    <| pending := {[5%Z]} |>.


Definition downloading_job : Job :=
  (sample_job 4 StatusDownloading None) <| EngineGID := Some "gid-4" |>.

Definition downloading_world : World := sample_world (mkDb [downloading_job] [] 4 0).

(** aria2 reports 40 of 100 bytes at 10 bytes per second: six seconds remain. *)
Lemma update_one_spec_witness :
  wp (calm_env 200) (update_one plain_runner downloading_job) (fun w' _ =>
    exists f, only_row 4 f downloading_world w' /\ forall x, EtaSeconds (f x) = Some 6%Z)
    downloading_world.
Proof.
  assert (forall st w', aria_at (calm_env 200) (clock downloading_world) (TellStatus "gid-4") = inr st ->
            snd (run (calm_env 200) (buildDecryptTask plain_runner downloading_job (Some st)) w') <> None) as Hb.
  { intros st w' [= <-]. vm_compute. discriminate. }
  pose proof (update_one_spec (calm_env 200) (fun _ => eq_refl) plain_runner downloading_job "gid-4"
    downloading_world eq_refl Hb) as H.
  eapply wp_mono; [|exact H]. intros w' _ (f & Hf & Hrow). exists f. split; [exact Hf|]. intros x.
  destruct (Hrow x) as (_ & _ & _ & He & _). rewrite He. vm_compute. reflexivity.
Defined.

Lemma eta_seconds_spec_witness :
  (eta_seconds (fst (ParseInt "10")) (fst (ParseInt "100")) (fst (ParseInt "45")) * 10 <= 100 - 45)%Z.
Proof.
  destruct (eta_seconds_spec "10" "100" "45" ltac:(apply Z.leb_le; vm_compute; reflexivity)) as (_ & H & _).
  apply H; apply Z.ltb_lt; vm_compute; reflexivity.
Defined.

Definition part_job (id : Z) (status name : string) : Job :=
  (new_row "https://example.com/p" "" "/data/tv" name None 5 100 id) <| Status := status |>.

Definition parts_world : World :=
  sample_world (mkDb [part_job 1 StatusDownloading "x.part1.rar"; part_job 2 StatusPaused "x.part2.rar";
                      part_job 3 StatusFailed "x.part3.rar"; part_job 4 StatusQueued "y.part1.rar"] [] 4 0).

(** Of the other jobs only job 2 is a part of the same set that is still on its way. *)
Lemma archiveDecryptWaitMessage_spec_witness :
  wp (calm_env 200)
    (archiveDecryptWaitMessage (part_job 1 StatusDownloading "x.part1.rar") "/data/tv/x.part1.rar")
    (fun _ m => m = "archive decrypt waiting: multipart set still downloading (1 part job(s))")
    parts_world.
Proof.
  assert (Forall (fun o => multipartArchiveGroupKey (archivePathForJob o) <> None) (jobs (db parts_world)))
    as Hall by (repeat (apply Forall_cons; split; [vm_compute; discriminate|]); constructor).
  pose proof (archiveDecryptWaitMessage_spec (calm_env 200) (fun _ => eq_refl)
    (part_job 1 StatusDownloading "x.part1.rar") "/data/tv/x.part1.rar" "/data/tv|partrar|x" true
    parts_world ltac:(vm_compute; reflexivity) Hall) as H.
  eapply wp_mono; [|exact H]. intros w' m [_ Hm]. cbn zeta in Hm.
  assert (count_rows (pending_sibling (part_job 1 StatusDownloading "x.part1.rar") "/data/tv|partrar|x")
            (rows_where not_deleted (db parts_world)) = 1%Z) as Hc by (vm_compute; reflexivity).
  rewrite Hc in Hm. rewrite Hm. vm_compute. reflexivity.
Defined.

(** aria2 reports every task complete, with no file. *)
Definition complete_env : Env :=
  mkEnv (fun _ => 0%Z) (fun _ => None)
    (fun _ r => match r return aria_resp r with
                | AddURI _ _ => inr "gid"
                | TellStatus g => inr (mkStatus g "complete" "100" "100" "0" "" "" [])
                | _ => inr tt
                end)
    (fun _ _ => inr tt) (fun _ _ => inr tt) (fun _ _ _ => ("", None)) (fun _ _ => inr tt)
    (fun _ m => map_to_list m) (fun _ => false) calm_files calm_os no_net.

Definition doomed_job : Job :=
  (new_row "https://example.com/p" "" "/data" dotted_name None 5 100 1)
    <| Status := StatusDownloading |> <| EngineGID := Some "gid" |>.

Lemma finished_download_panics_witness :
  snd (run complete_env (update_one plain_runner doomed_job) (sample_world (mkDb [doomed_job] [] 1 0))) = None.
Proof.
  apply (finished_download_panics complete_env plain_runner doomed_job "gid"
    (mkStatus "gid" "complete" "100" "100" "0" "" "" []) (sample_world (mkDb [doomed_job] [] 1 0)));
    vm_compute; reflexivity.
Defined.
