(* ===== verification/Rows.v ===== *)
(** * Loops over rows

    The runner's phases are loops over jobs it has read, each turn of which changes the job's
    own row, may start a decrypt goroutine for it and may ask aria2 something.  The rule
    [wp_each] puts the turns together: what every job's turn found, in which order, and what
    the loop left. *)

From S2P Require Import Prelude GoStrings GoError Schema Files Effects Store StoreSpec Wp Runner RunnerSpec.

(** The goroutine a turn starts for the job, unless it has one. *)
Definition started_for (id : Z) (task : option decryptTask) (w w' : World) : Prop :=
  match task with
  | Some t => if decide (id ∈ pending w) then threads w' = threads w /\ pending w' = pending w
              else threads w' = t :: threads w /\ pending w' = {[id]} ∪ pending w
  | None => threads w' = threads w /\ pending w' = pending w
  end.

(** The same, as the list of the goroutines started. *)
Lemma started_list (id : Z) (task : option decryptTask) (w w' : World) :
  (forall t, task = Some t -> jobID t = id) -> started_for id task w w' ->
  exists new, threads w' = (new ++ threads w)%list /\ pending w' = list_to_set (map jobID new) ∪ pending w
    /\ forall t, t ∈ new <-> task = Some t /\ id ∉ pending w.
Proof.
  intros Hid. unfold started_for. destruct task as [t|].
  - destruct (decide (id ∈ pending w)) as [Hin|Hin]; intros [-> ->]; [exists []|exists [t]]; cbn;
      rewrite ?(Hid t eq_refl), ?union_empty_l_L, ?union_empty_r_L; (split_and!; [done..|]); intros x.
    + split; [by intros ?%elem_of_nil|by intros [_ ?]].
    + rewrite list_elem_of_singleton. split; [by intros ->|by intros [[= ->] _]].
  - intros [-> ->]. exists []. cbn. rewrite union_empty_l_L. split_and!; [done..|].
    intros x. split; [by intros ?%elem_of_nil|by intros [? _]].
Qed.

Lemma only_row_ids (id : Z) (f : Job -> Job) (w w' : World) :
  only_row id f w w' -> map ID (jobs (db w')) = map ID (jobs (db w)).
Proof.
  intros [-> Hf]. unfold update_rows. rewrite map_map. apply map_ext. intros x. by case_bool.
Qed.

Lemma only_row_found (id : Z) (f : Job -> Job) (j : Job) (w w' : World) :
  find_job id (db w) = Some j -> only_row id f w w' ->
  find_job id (db w') = Some (f j)
  /\ forall k, k <> id -> find_job k (db w') = find_job k (db w).
Proof.
  intros Hj [H Hf]. split.
  - erewrite find_job_one by done. rewrite Hj. apply find_job_Some in Hj as [_ Hj]. cbn. by rewrite Hj, Z.eqb_refl.
  - intros k Hk. erewrite find_job_one by done. destruct (find_job k (db w)) as [x|] eqn:E; [|done].
    apply find_job_Some in E as [_ Hx]. cbn. rewrite Hx. by rewrite (proj2 (Z.eqb_neq _ _) Hk).
Qed.

(** What a later turn sees, and starts, does not depend on which turn came first. *)
Lemma turn_view (j : Job) (l a : list Job) (x : Job) (b : list Job) (id : Z) (w w1 w' : World) :
  ID j ∉ map ID l -> l = (a ++ x :: b)%list ->
  (forall k, k ∉ map ID l -> find_job k (db w') = find_job k (db w1)) ->
  (forall k, k <> ID j -> find_job k (db w1) = find_job k (db w)) ->
  find_job id (db (if decide (id ∈ map ID a) then w' else w1))
  = find_job id (db (if decide (id ∈ map ID (j :: a)) then w' else w)).
Proof.
  intros Hj Hl H2 Hother. destruct (decide (id = ID j)) as [->|Hne].
  - rewrite (decide_True (P := ID j ∈ map ID (j :: a))) by apply list_elem_of_here.
    case_decide; [done|]. by rewrite H2.
  - case_decide as Ha.
    + by rewrite decide_True by (by apply list_elem_of_further).
    + rewrite decide_False; [by apply Hother|]. by apply not_elem_of_cons.
Qed.

Lemma started_also (id k : Z) (tx : option decryptTask) (new news : list decryptTask) (w w1 : World) :
  k <> id ->
  (forall t, t ∈ new -> jobID t = id) ->
  pending w1 = list_to_set (map jobID new) ∪ pending w ->
  (forall t, t ∈ news /\ jobID t = k <-> tx = Some t /\ k ∉ pending w1) ->
  forall t, t ∈ (news ++ new)%list /\ jobID t = k <-> tx = Some t /\ k ∉ pending w.
Proof.
  intros Hne Hnew T2 H t. specialize (H t).
  assert (k ∉ list_to_set (C := gset Z) (map jobID new)) as Hk.
  { rewrite elem_of_list_to_set, list_elem_of_fmap. intros (t' & -> & Ht'). by rewrite (Hnew t' Ht') in Hne. }
  rewrite T2, not_elem_of_union in H. rewrite elem_of_app. split.
  - intros [[Ht|Ht] Hid]; [tauto|]. rewrite (Hnew t Ht) in Hid. by symmetry in Hid.
  - intros [Hd Hp]. destruct H as [_ H]. destruct H; [done|]. tauto.
Qed.

(** Tables with the same ids, and the same row for each, have the same rows. *)
Lemma same_rows_found (d d' : Db) :
  StronglySorted Z.lt (map ID (jobs d)) -> map ID (jobs d') = map ID (jobs d) ->
  (forall id, find_job id d' = find_job id d) -> jobs d' = jobs d.
Proof.
  intros Hs Hids Hf. assert (List.length (jobs d') = List.length (jobs d)) as Hlen.
  { by rewrite <- (length_map ID), Hids, length_map. }
  apply list_eq_same_length with (List.length (jobs d)); [done..|]. intros i x y _ Hx Hy.
  assert (ID x = ID y) as Hxy.
  { apply (f_equal (fun l => l !! i)) in Hids. rewrite !list_lookup_fmap, Hx, Hy in Hids. by injection Hids. }
  pose proof (find_job_In (ID x) d' x ltac:(by rewrite Hids) (list_elem_of_lookup_2 _ _ _ Hx) eq_refl) as H1.
  pose proof (find_job_In (ID x) d y Hs (list_elem_of_lookup_2 _ _ _ Hy) (eq_sym Hxy)) as H2.
  rewrite Hf, H2 in H1. by injection H1.
Qed.

Section EachRow.
Context (env : Env) (body : Job -> prog unit).

(** What a turn does: the world it starts from, the new row and the goroutine asked for. *)
Context (Turn : Job -> World -> Job -> option decryptTask -> Prop).
Context (asks : Job -> list aria_req).

(** What the turns keep. *)
Context (Same : World -> World -> Prop) `{HSame : !PreOrder Same}.

Definition turn (j y : Job) (task : option decryptTask) (w w' : World) : Prop :=
  Turn j w y task /\ Same w w'
  /\ (exists f, only_row (ID j) f w w' /\ f j = y)
  /\ (forall t, task = Some t -> jobID t = ID j) /\ started_for (ID j) task w w'
  /\ requests w' = (asks j ++ requests w)%list.

(** From [w] to [w'] the jobs of [l] had their turns, in this order. *)
Definition each (l : list Job) (news : list decryptTask) (w w' : World) : Prop :=
  Same w w'
  /\ map ID (jobs (db w')) = map ID (jobs (db w))
  /\ (forall id, id ∉ map ID l -> find_job id (db w') = find_job id (db w))
  /\ (forall a j b, l = (a ++ j :: b)%list -> exists wj y task,
        Same w wj /\ Turn j wj y task /\ map ID (jobs (db wj)) = map ID (jobs (db w))
        /\ (forall id, find_job id (db wj) = find_job id (db (if decide (id ∈ map ID a) then w' else w)))
        /\ find_job (ID j) (db w') = Some y
        /\ forall t, t ∈ news /\ jobID t = ID j <-> task = Some t /\ ID j ∉ pending w)
  /\ threads w' = (news ++ threads w)%list
  /\ pending w' = list_to_set (map jobID news) ∪ pending w
  /\ Forall (fun t => jobID t ∈ map ID l) news
  /\ requests w' = (concat (map asks (rev l)) ++ requests w)%list.

Lemma each_nil (w : World) : each [] [] w w.
Proof.
  split_and!; try done.
  - intros a j b H. by destruct a.
  - cbn. by rewrite union_empty_l_L.
Qed.

(** The tables were read before the first turn. *)
Lemma each_from (l : list Job) (news : list decryptTask) (w w1 w' : World) :
  db w1 = db w -> frame w w1 -> Same w w1 -> each l news w1 w' -> each l news w w'.
Proof.
  unfold each. intros H1 (-> & -> & -> & _ & _) HS. rewrite H1. intros (R0 & R1 & R2 & R3 & R).
  split_and!; [by etrans|done|done| |by apply R..].
  intros a j b Hl. destruct (R3 a j b Hl) as (wj & y & task & Hj & Ht & Hi & Hv & H).
  exists wj, y, task. split_and!; [by etrans|done|done| |by apply H..].
  intros id. rewrite Hv. case_decide; [done|by rewrite H1].
Qed.

Lemma each_cons (j : Job) (l : list Job) (y : Job) (task : option decryptTask)
    (news : list decryptTask) (w w1 w' : World) :
  ID j ∉ map ID l -> find_job (ID j) (db w) = Some j -> turn j y task w w1 -> each l news w1 w' ->
  exists news', each (j :: l) news' w w'.
Proof.
  intros Hj Hfound (Hturn & HS & (f & Hf & Hy) & Htask & Hstart & Hreq) (R0 & R1 & R2 & R3 & R4 & R5 & R6 & R7).
  destruct (only_row_found _ f j w w1 Hfound Hf) as [Hown Hother]. rewrite Hy in Hown.
  destruct (started_list _ _ _ _ Htask Hstart) as (new & T1 & T2 & T3). clear Hstart.
  assert (forall t, t ∈ new -> jobID t = ID j) as Hnew by (intros t Ht; by apply Htask, T3).
  exists (news ++ new)%list. split_and!.
  - by etrans.
  - rewrite R1. by eapply only_row_ids.
  - intros id Hid. apply not_elem_of_cons in Hid as [? ?]. by rewrite R2, Hother.
  - intros a x b Hab. destruct a as [|j' a]; cbn in Hab; injection Hab as <- Hab.
    + exists w, y, task. split_and!; [done|done|done| |by rewrite R2|].
      { intros id. rewrite decide_False; [done|apply not_elem_of_nil]. }
      intros t. rewrite elem_of_app, T3.
      split; [intros [[Ht|Ht] Hid]; [|done]|intros [Hd Hp]; split; [by right|by apply Htask]].
      rewrite Forall_forall in R6. destruct Hj. rewrite <- Hid. by apply R6.
    + destruct (R3 a x b Hab) as (wj & z & tx & H1 & H2 & H6 & H3 & H4 & H5).
      exists wj, z, tx. split_and!; [by etrans|done|by rewrite H6; eapply only_row_ids| |done|].
      * intros id. rewrite H3. by eapply turn_view.
      * eapply started_also; [|exact Hnew|exact T2|exact H5]. rewrite Hab in Hj. intros Heq. destruct Hj. rewrite <- Heq, map_app.
        apply elem_of_app. right. apply list_elem_of_here.
  - by rewrite R4, T1, app_assoc.
  - rewrite R5, T2, map_app, list_to_set_app_L. by rewrite (assoc_L (∪)).
  - apply Forall_app. split; [eapply Forall_impl; [exact R6|intros t Ht; by apply list_elem_of_further]|].
    apply Forall_forall. intros t Ht. rewrite (Hnew t Ht). apply list_elem_of_here.
  - rewrite R7, Hreq. cbn [rev]. rewrite map_app, concat_app. cbn. by rewrite app_nil_r, app_assoc.
Qed.

(** The rule. *)
Lemma wp_each (l : list Job) (w : World) :
  (forall j w', j ∈ l -> Same w w' -> find_job (ID j) (db w') = Some j ->
     wp env (body j) (fun w2 _ => exists y task, turn j y task w' w2) w') ->
  NoDup (map ID l) -> (forall j, j ∈ l -> find_job (ID j) (db w) = Some j) ->
  wp env (for_each l body) (fun w' _ => exists news, each l news w w') w.
Proof.
  revert w. induction l as [|j l IH]; intros w Hbody Hnd Hl; [apply wp_Ret; exists []; apply each_nil|].
  cbn [map] in Hnd. apply NoDup_cons in Hnd as [Hj Hnd].
  pose proof (Hl j (list_elem_of_here _ _)) as Hfound.
  cbn [for_each]. apply wp_bind.
  eapply wp_mono; [|apply Hbody; [apply list_elem_of_here|reflexivity|done]].
  intros w1 _ (y & task & Hturn). pose proof Hturn as (_ & HS & (f & Hf & _) & _).
  destruct (only_row_found _ f j w w1 Hfound Hf) as [_ Hother].
  eapply wp_mono; [|apply IH; [|done|]].
  - intros w' _ (news & H). by eapply each_cons.
  - intros x w' Hx Hw'. apply Hbody; [by apply list_elem_of_further|by etrans].
  - intros x Hx. rewrite Hother; [by apply Hl, list_elem_of_further|]. intros Heq. destruct Hj.
    rewrite <- Heq. by apply (list_elem_of_fmap_2 ID).
Qed.
End EachRow.
