(* ===== verification/Dispatch.v ===== *)
(** * Post-processing is handed out

    [dispatchCompletedDecrypt] of internal/queue/runner.go looks in every tick at the jobs
    whose download is done and whose post-processing is not: those still decrypting, and
    completed ones with a password.  [dispose] is the decision it takes for one of them, as a
    function of the row and the other rows; the theorems say that the code takes it, for the
    first hundred of these jobs and no others, and what follows from the hundred. *)

From S2P Require Import Prelude GoStrings GoTime GoError Schema Files Effects Status Paths Store.
From S2P Require Import StoreInv StoreSpec Wp Archive Resolver Runner RunnerInv RunnerSpec Rows.

#[local] Open Scope string_scope.

(** What becomes of a job: nothing, done, failed with a reason, waiting for other parts of its
    archive, or a task for a decrypt goroutine. *)
Inductive disposal : Type :=
  | Keep
  | Complete
  | FailWith (reason : string)
  | Await
  | Work (task : decryptTask).

Definition given {A} (x : option A) : bool := match x with Some _ => true | None => false end.

Section Dispatch.
Context `{UC : Unicode}.

Definition auto_decrypt (r : Runner) (w : World) : bool :=
  match GetAutoDecrypt r with Some get => get (settings w) | None => false end.

Definition is_decrypting (j : Job) : bool := String.eqb (Status j) StatusDecrypting.

(** Jobs that keep the other parts of the archive [path] from being extracted. *)
Definition missing_parts (job : Job) (path : string) (d : Db) : Z :=
  match multipartArchiveGroupKey path with
  | Some (key, _) =>
      if String.eqb key "" then 0
      else count_rows (pending_sibling job key) (rows_where not_deleted d)
  | None => 0
  end.

(** The decision for [job], whose file is [path] and its archive entered at [entry], when the
    switch is [auto]. *)
Definition dispose (r : Runner) (auto : bool) (d : Db) (job : Job) (path entry : string) : disposal :=
  let password := TrimSpace (nullString (ArchivePassword job)) in
  let mega := shouldDecryptMega r job path in
  let arch := given (ArchiveDec r) && (is_decrypting job || auto)
              && (negb (String.eqb password "") || isArchiveFile entry) in
  if negb mega && negb arch then if is_decrypting job then Complete else Keep
  else if mega && String.eqb (TrimSpace path) ""
  then FailWith "postprocess failed: missing file path for mega decrypt"
  else if arch && String.eqb (TrimSpace entry) ""
  then FailWith "postprocess failed: missing file path for archive decrypt"
  else if arch && (0 <? missing_parts job entry d)%Z then Await
  else Work (mkTask (ID job) path entry (OutDir job) password (URL job) (Site job) mega arch).

Lemma dispose_task (r : Runner) (auto : bool) (d : Db) (job : Job) (path entry : string) (t : decryptTask) :
  dispose r auto d job path entry = Work t -> jobID t = ID job.
Proof.
  unfold dispose. cbv zeta. repeat match goal with |- (if ?b then _ else _) = _ -> _ => destruct b end;
    try discriminate. by intros [= <-].
Qed.

(** The row [y] that the decision leaves of [x]. *)
Definition disposed (dec : disposal) (x y : Job) : Prop :=
  match dec with
  | Keep => y = x
  | Complete => completed_row y /\ ArchivePassword y = None
  | FailWith reason =>
      Status y = StatusDecryptFail /\ Error y = Some reason
      /\ ErrorCode y = Some "postprocess_failed" /\ ArchivePassword y = None
  | Await | Work _ =>
      if is_decrypting x then y = x
      else Status y = StatusDecrypting /\ ErrorCode y = None /\ ArchivePassword y = ArchivePassword x
  end.

(** An archive is entered at its own file or at the first volume of its set. *)
Definition entry_of (path entry : string) : Prop :=
  entry = TrimSpace path \/ multipartArchiveFirstVolume (TrimSpace path) = Some entry.

(** Neither the file name nor that of its first volume is one that lower-casing
    shortens, on which the code panics. *)
Definition readable_path (path : string) : bool :=
  let key path := given (multipartArchiveGroupKey path) in
  key path && key (TrimSpace path)
  && match multipartArchiveFirstVolume (TrimSpace path) with
     | Some first => key first
     | None => false
     end.

Definition readable (j : Job) : bool := readable_path (archivePathForJob j).

(** The jobs a tick looks at: none without a decryptor, and else the hundred with the smallest
    ids. *)
Definition handled (r : Runner) (d : Db) : list Job :=
  match ArchiveDec r, MegaDec r with
  | None, None => []
  | _, _ => take 100 (rows_where pending_postprocess d)
  end.

(** ** Rows that look alike to the scan for missing parts *)

Definition alike (x y : Job) : Prop :=
  ID y = ID x /\ OutDir y = OutDir x /\ archivePathForJob y = archivePathForJob x
  /\ not_deleted y = not_deleted x
  /\ isMultipartSiblingPending (Status y) = isMultipartSiblingPending (Status x).

#[export] Instance alike_Reflexive : Reflexive alike.
Proof. by intros x. Qed.

#[export] Instance alike_Transitive : Transitive alike.
Proof. unfold alike. intros x y z. intuition congruence. Qed.

Lemma alike_readable (x y : Job) : alike x y -> readable y = readable x.
Proof. intros (_ & _ & H & _). unfold readable. by rewrite H. Qed.

Lemma alike_missing (job : Job) (path : string) (d d' : Db) :
  Forall2 alike (jobs d) (jobs d') -> missing_parts job path d' = missing_parts job path d.
Proof.
  intros H. unfold missing_parts. destruct (multipartArchiveGroupKey path) as [[key e]|]; [|done].
  case_bool; [done|]. unfold count_rows, rows_where. f_equal.
  induction H as [|x y l l' Hxy _ IH]; [done|]. destruct Hxy as (H1 & H2 & H3 & H4 & H5).
  cbn [List.filter]. rewrite H4. destruct (not_deleted x); [|exact IH]. cbn [List.filter].
  assert (pending_sibling job key y = pending_sibling job key x) as ->.
  { unfold pending_sibling, sibling. by rewrite H1, H2, H3, H5. }
  destruct (pending_sibling job key x); cbn [List.length]; by rewrite IH.
Qed.

Lemma alike_dispose (r : Runner) (auto : bool) (job : Job) (path entry : string) (d d' : Db) :
  Forall2 alike (jobs d) (jobs d') -> dispose r auto d' job path entry = dispose r auto d job path entry.
Proof. intros H. unfold dispose. by rewrite (alike_missing _ _ _ _ H). Qed.

(** ** One job *)

Context (env : Env) (Hnf : no_faults env).

Lemma wp_autoDecrypt (r : Runner) P (w : World) :
  (forall w', db w' = db w -> frame w w' -> P w' (auto_decrypt r w)) -> wp env (autoDecryptEnabled r) P w.
Proof.
  intros H. unfold autoDecryptEnabled, auto_decrypt in *.
  destruct (GetAutoDecrypt r); [|by apply wp_Ret, H]. apply wp_bind, wp_settings. intros. by apply wp_Ret, H.
Qed.

Lemma wp_entry (path : string) P (w : World) :
  multipartArchiveFirstVolume (TrimSpace path) <> None ->
  (forall w' entry, db w' = db w -> frame w w' -> entry_of path entry -> P w' entry) ->
  wp env (resolveArchiveEntryPath path) P w.
Proof.
  intros Hf H. unfold resolveArchiveEntryPath. case_bool; [by apply wp_Ret, H; [..|left]|].
  destruct (multipartArchiveFirstVolume (TrimSpace path)) as [c|] eqn:E; [|done].
  apply wp_bind, wp_Ret. case_bool; [by apply wp_Ret, H; [..|left]|].
  apply wp_bind, wp_call_out; [done|]. intros w' [err|[]] H1 F1; (apply wp_Ret, H; [done..|]); [by left|by right].
Qed.

Lemma wp_shouldDecryptArchive (r : Runner) (job : Job) (path password : string) P (w : World) :
  (forall w', db w' = db w -> frame w w' ->
     P w' (given (ArchiveDec r) && (is_decrypting job || auto_decrypt r w)
           && (negb (String.eqb (TrimSpace password) "") || isArchiveFile path))) ->
  wp env (shouldDecryptArchive r job path password) P w.
Proof.
  intros H. unfold shouldDecryptArchive, is_decrypting in *.
  destruct (ArchiveDec r); [|by apply wp_Ret, H]. destruct (String.eqb (Status job) _); [by apply wp_Ret, H|].
  apply wp_bind, wp_autoDecrypt. intros w' H1 F1. specialize (H w' H1 F1).
  by destruct (auto_decrypt r w); apply wp_Ret.
Qed.

(** What [buildDecryptTask] answers, and the decision it stands for. *)
Definition built (dec : disposal) (job : Job) (out : decryptTask * bool * string * string) : Prop :=
  let '(task, shouldProcess, waitMsg, failMsg) := out in
  match dec with
  | Keep => shouldProcess = false /\ is_decrypting job = false
  | Complete => shouldProcess = false /\ is_decrypting job = true
  | FailWith reason => shouldProcess = true /\ failMsg = reason /\ reason <> ""
  | Await => shouldProcess = true /\ failMsg = "" /\ waitMsg <> ""
  | Work t => shouldProcess = true /\ failMsg = "" /\ waitMsg = "" /\ task = t
  end.

Lemma readable_names (d : Db) :
  Forall (fun o => readable o = true) (jobs d) ->
  Forall (fun o => multipartArchiveGroupKey (archivePathForJob o) <> None) (jobs d).
Proof.
  intros Hd. eapply Forall_impl; [exact Hd|]. unfold readable, readable_path. intros o H. bool_prop.
  by destruct (multipartArchiveGroupKey (archivePathForJob o)).
Qed.

Lemma entry_key (path entry : string) :
  readable_path path = true -> entry_of path entry ->
  exists key e, multipartArchiveGroupKey entry = Some (key, e).
Proof.
  unfold readable_path. intros H Hent. bool_prop. cbv zeta in *.
  destruct (multipartArchiveGroupKey entry) as [[k e]|] eqn:E; [by eexists _, _|]. exfalso.
  destruct Hent as [->|Hf]; [by destruct (multipartArchiveGroupKey (TrimSpace _))|].
  by rewrite Hf, E in *.
Qed.

(** The file of a job: where aria2 says it is, or where it must be. *)
Definition download_path (job : Job) (st : option AriaStatus) : string :=
  if String.eqb (firstStatusPath st) "" then archivePathForJob job else firstStatusPath st.

Lemma wp_build (r : Runner) (job : Job) (st : option AriaStatus) P (w : World) :
  readable_path (download_path job st) = true -> Forall (fun o => readable o = true) (jobs (db w)) ->
  (forall w' entry out, db w' = db w -> frame w w' -> entry_of (download_path job st) entry ->
     built (dispose r (auto_decrypt r w) (db w) job (download_path job st) entry) job out -> P w' out) ->
  wp env (buildDecryptTask r job st) P w.
Proof.
  intros Hr Hall H. unfold buildDecryptTask. fold (download_path job st). cbv zeta.
  set (path := download_path job st) in *. apply wp_bind, wp_entry.
  { unfold readable_path in Hr. bool_prop. by destruct (multipartArchiveFirstVolume _). }
  intros w1 entry H1 F1 Hent. specialize (fun w' out Hd Hf => H w' entry out Hd Hf Hent).
  apply wp_bind, wp_shouldDecryptArchive. intros w2 H2 F2.
  assert (frame w w2) as F by by etrans. assert (db w2 = db w) as Hd by by rewrite H2.
  assert (auto_decrypt r w1 = auto_decrypt r w) as -> by (unfold auto_decrypt; by destruct F1 as (_ & _ & _ & _ & ->)).
  unfold dispose in H. rewrite TrimSpace_idem. cbv zeta in *. set (mega := shouldDecryptMega _ _ _) in *.
  set (arch := _ && _ && _) in *. cbn [megaPath].
  destruct (negb mega && negb arch).
  { apply wp_Ret, H; [done..|]. by destruct (is_decrypting job) eqn:E. }
  destruct (mega && _); [by apply wp_Ret, H|]. destruct (arch && String.eqb _ _); [by apply wp_Ret, H|].
  destruct arch; [|by apply wp_Ret, H]. destruct (entry_key path entry Hr Hent) as (key & e & Hk).
  apply wp_bind. eapply wp_archiveDecryptWaitMessage; [done|exact Hk|by rewrite Hd; apply readable_names|].
  intros w3 H3 F3. assert (frame w w3) as F' by by etrans. rewrite Hd in H3 |- *.
  unfold wait_answer, missing_parts in *. rewrite Hk in H. cbn [andb] in H.
  destruct (String.eqb key ""); cbn [negb andb]; [by apply wp_Ret, H|].
  destruct (0 <? _)%Z; by apply wp_Ret, H.
Qed.

Definition task_of (dec : disposal) : option decryptTask :=
  match dec with Work t => Some t | _ => None end.

(** Nothing but the goroutine a decision asks for. *)
Definition spawned (id : Z) (dec : disposal) (w w' : World) : Prop :=
  requests w' = requests w /\ sem w' = sem w /\ settings w' = settings w
  /\ started_for id (task_of dec) w w'.

(** From [w] to [w'] a decision for [job] was carried out, and nothing else. *)
Definition settled_as (job y : Job) (dec : disposal) (w w' : World) : Prop :=
  (exists f, only_row (ID job) f w w' /\ f job = y)
  /\ disposed dec job y /\ alike job y /\ spawned (ID job) dec w w'.

Definition acted (r : Runner) (job : Job) (entry : string) (y : Job) (w w' : World) : Prop :=
  settled_as job y (dispose r (auto_decrypt r w) (db w) job (archivePathForJob job) entry) w w'.

Lemma spawned_none (id : Z) (dec : disposal) (w w' : World) :
  (forall t, dec <> Work t) -> frame w w' -> spawned id dec w w'.
Proof. intros Hd (H1 & H2 & H3 & H4 & H5). split_and!; [done..|]. by destruct dec; try destruct (Hd task). Qed.

Lemma settled_same (job : Job) (dec : disposal) (w w' : World) :
  jobs (db w') = jobs (db w) -> disposed dec job job -> spawned (ID job) dec w w' ->
  settled_as job job dec w w'.
Proof. intros Hj Hd Hs. split_and!; [|done..]. exists (fun x => x). by split; [apply only_row_refl|]. Qed.

Lemma wp_scheduled (t : decryptTask) P (w : World) :
  (forall w', db w' = db w -> spawned (jobID t) (Work t) w w' -> P w' tt) -> wp env (scheduleDecrypt t) P w.
Proof.
  intros H. unfold scheduleDecrypt. apply wp_bind, wp_call. unfold handle, act. cbn.
  destruct (decide (jobID t ∈ pending w)) as [Hin|Hin].
  - rewrite bool_decide_true by done. apply wp_Ret, H; [done|]. do 3 (split; [done|]).
    unfold started_for. cbn. by rewrite decide_True.
  - rewrite bool_decide_false by done. apply wp_call. cbn. apply H; [done|]. do 3 (split; [done|]).
    unfold started_for. cbn. by rewrite decide_False.
Qed.

Lemma wp_postprocess_failed (id : Z) (reason : string) P (w : World) :
  (forall f w', only_row id f w w' -> frame w w' ->
     (forall x, Status (f x) = StatusDecryptFail /\ Error (f x) = Some reason
       /\ ErrorCode (f x) = Some "postprocess_failed" /\ ArchivePassword (f x) = None
       /\ OutDir (f x) = OutDir x /\ Name (f x) = Name x /\ Filename (f x) = Filename x
       /\ DeletedAt (f x) = DeletedAt x) -> P w' tt) ->
  wp env (postprocess_failed id reason) P w.
Proof.
  intros H. unfold postprocess_failed. apply wp_bind, wp_AddEvent_jobs; [done|]. intros w1 r1 H1 F1.
  apply wp_bind. unfold MarkPostprocessFailed. change (String.eqb (TrimSpace "postprocess_failed") "") with false.
  apply wp_now_update; [done|]. intros t w2 H2 F2. apply wp_bind. unfold ClearArchivePassword.
  apply wp_now_update; [done|]. intros t2 w3 H3 F3. apply wp_Ret.
  eapply H; [eapply only_row_trans; [eapply only_row_trans; [by apply (only_row_refl id w w1)|]|];
      (apply only_row_update; [eassumption|done])|etrans; [exact F1|by etrans]|done].
Qed.

(** A job of the list is not one another job's archive would wait for. *)
Lemma not_waited_for (x y : Job) :
  pending_postprocess x = true -> ID y = ID x -> OutDir y = OutDir x -> Name y = Name x ->
  Filename y = Filename x -> DeletedAt y = DeletedAt x ->
  isMultipartSiblingPending (Status y) = false -> alike x y.
Proof.
  intros Hp H1 H2 H3 H4 H5 H6. split_and!; [done|done| | |].
  - unfold archivePathForJob, outputNameForJob. by rewrite H2, H3, H4.
  - unfold not_deleted. by rewrite H5.
  - rewrite H6. unfold pending_postprocess in Hp. bool_prop.
    destruct (String.eqb (Status x) StatusDecrypting) eqn:E; bool_prop; [by rewrite E|].
    destruct (String.eqb (Status x) StatusCompleted) eqn:E2; [bool_prop; by rewrite E2|done].
Qed.

(** Marking the row before a task is started or waits. *)
Lemma wp_marked (job : Job) (k : res bool -> prog unit) P (w : World) :
  pending_postprocess job = true ->
  (forall b f w', (exists g, only_row (ID job) g w w' /\ g job = f) -> frame w w' ->
     (if is_decrypting job then f = job
      else Status f = StatusDecrypting /\ ErrorCode f = None /\ ArchivePassword f = ArchivePassword job) ->
     alike job f -> wp env (k (inr b)) P w') ->
  wp env (marked <- (if negb (String.eqb (Status job) StatusDecrypting)
                     then x <-? MarkDecrypting (ID job) (BytesDone job) ;; Ret (inr true)
                     else Ret (inr false)) ;; k marked) P w.
Proof.
  intros Hp H. apply wp_bind. unfold is_decrypting in H. destruct (String.eqb (Status job) StatusDecrypting); cbn [negb].
  { apply wp_Ret. eapply H; [|done..]. exists (fun x => x). by split; [apply only_row_refl|]. }
  apply wp_bind_err. unfold MarkDecrypting. apply wp_now_update; [done|]. intros t w1 H1 F1. apply wp_Ret.
  eapply H; [eexists; split; [by apply only_row_update|done]|done|done|]. by apply not_waited_for.
Qed.

Lemma wp_completed (job : Job) (w0 w : World) :
  pending_postprocess job = true -> db w = db w0 -> frame w0 w ->
  wp env (MarkCompleted (ID job) ;; ClearArchivePassword (ID job) ;; Ret tt)
    (fun w' _ => exists y, settled_as job y Complete w0 w') w.
Proof.
  intros Hp Hd F. apply wp_bind. unfold MarkCompleted. apply wp_now_update; [done|]. intros t w1 H1 F1.
  apply wp_bind. unfold ClearArchivePassword. apply wp_now_update; [done|]. intros t2 w2 H2 F2.
  eassert (only_row (ID job) _ w0 w2) as Hf.
  { eapply only_row_trans; [eapply only_row_trans; [apply (only_row_refl _ w0 w); by rewrite Hd|]|];
      (apply only_row_update; [eassumption|done]). }
  apply wp_Ret. eexists. split; [eexists; split; [exact Hf|reflexivity]|split; [done|split]].
  - by apply not_waited_for.
  - apply spawned_none; [done|]. etrans; [exact F|by etrans].
Qed.

Lemma wp_failed_now (job : Job) (reason : string) (w0 w : World) :
  pending_postprocess job = true -> db w = db w0 -> frame w0 w ->
  wp env (postprocess_failed (ID job) reason)
    (fun w' _ => exists y, settled_as job y (FailWith reason) w0 w') w.
Proof.
  intros Hp Hd F. apply wp_postprocess_failed. intros f w1 [Hf1 Hf2] F1 Hf. exists (f job).
  destruct (Hf job) as (S1 & S2 & S3 & S4 & S5 & S6 & S7 & S8).
  split; [exists f; split; [|done]; split; [by rewrite Hf1, Hd|done]|split; [done|split]].
  - apply not_waited_for; [done|apply Hf2|done..|]. by rewrite S1.
  - apply spawned_none; [done|by etrans].
Qed.

(** The end of the handler: the row is decrypting, and waits or has its goroutine. *)
Lemma wp_handed_on (job : Job) (dec : disposal) (task : decryptTask) (waitMsg : string) (w0 w : World) :
  pending_postprocess job = true -> db w = db w0 -> frame w0 w ->
  dec = Await /\ waitMsg <> "" \/ dec = Work task /\ jobID task = ID job /\ waitMsg = "" ->
  wp env (marked <- (if negb (String.eqb (Status job) StatusDecrypting)
                     then x <-? MarkDecrypting (ID job) (BytesDone job) ;; Ret (inr true)
                     else Ret (inr false)) ;;
          match marked with
          | inl _ => Ret tt
          | inr markedDecrypting =>
              if negb (String.eqb waitMsg "") then
                if (markedDecrypting : bool) then AddEvent (ID job) "info" waitMsg ;; Ret tt else Ret tt
              else scheduleDecrypt task
          end) (fun w' _ => exists y, settled_as job y dec w0 w') w.
Proof.
  intros Hp Hd F Hdec. apply wp_marked; [done|]. intros b y w1 (g & [Hg1 Hg2] & Hgy) F1 Hy Hal. cbn iota beta.
  assert (forall w', jobs (db w') = jobs (db w1) -> spawned (ID job) dec w0 w' ->
    exists y, settled_as job y dec w0 w') as Hend.
  { intros w' H' S'. exists y. split; [|split; [by destruct Hdec as [[-> _]|(-> & _)]|done]].
    exists g. split; [|done]. split; [by rewrite H', Hg1, Hd|done]. }
  destruct Hdec as [[-> Hne]|(-> & Hid & ->)].
  - rewrite (proj2 (String.eqb_neq _ _) Hne). cbn [negb].
    destruct b; [|by apply wp_Ret, Hend, spawned_none; [..|by etrans]].
    apply wp_bind, wp_AddEvent_jobs; [done|]. intros w2 r2 H2 F2.
    apply wp_Ret, Hend, spawned_none; [done|done|]. etrans; [exact F|by etrans].
  - change (String.eqb "" "") with true. cbn [negb].
    apply wp_scheduled. intros w2 H2 S2. apply Hend; [by rewrite H2|].
    assert (frame w0 w1) as (E1 & E2 & E3 & E4 & E5) by by etrans. rewrite Hid in S2.
    unfold spawned, started_for in *. by rewrite E1, E2, E3, E4, E5 in S2.
Qed.

Lemma wp_dispatch_one (r : Runner) (job : Job) (w : World) :
  pending_postprocess job = true -> readable job = true ->
  Forall (fun o => readable o = true) (jobs (db w)) ->
  wp env (dispatch_one r job) (fun w' _ =>
    exists entry y, entry_of (archivePathForJob job) entry /\ acted r job entry y w w') w.
Proof.
  intros Hp Hr Hall. unfold dispatch_one. apply wp_bind, wp_autoDecrypt. intros w1 H1 F1.
  destruct (negb (auto_decrypt r w) && _ && _) eqn:Eskip.
  { apply wp_Ret. exists (TrimSpace (archivePathForJob job)), job. split; [by left|].
    apply andb_prop in Eskip as [Eskip Hm]. apply andb_prop in Eskip as [Ha Hs]. rewrite !negb_true_iff in *.
    assert (dispose r (auto_decrypt r w) (db w) job (archivePathForJob job) (TrimSpace (archivePathForJob job)) = Keep) as Hk.
    { unfold dispose, is_decrypting. cbv zeta. by rewrite Hm, Ha, Hs, andb_false_r. }
    unfold acted. rewrite Hk. apply settled_same; [by rewrite H1|done|by apply spawned_none]. }
  clear Eskip. apply wp_bind, wp_build; [done|by rewrite H1|].
  intros w2 entry [[[task should] wait] failMsg] H2 F2 Hent Hb.
  assert (auto_decrypt r w1 = auto_decrypt r w) as Hauto by (unfold auto_decrypt; by destruct F1 as (_ & _ & _ & _ & ->)).
  assert (db w2 = db w) as Hd by by rewrite H2. assert (frame w w2) as F by by etrans.
  rewrite H1, Hauto in Hb. clear w1 H1 F1 H2 F2 Hauto.
  apply (wp_mono env _ (fun w' _ => exists y, acted r job entry y w w')).
  { intros w' _ [y Hy]. by exists entry, y. }
  unfold acted. change (download_path job None) with (archivePathForJob job) in Hb.
  set (dec := dispose _ _ _ _ _ _) in *. destruct dec as [| |reason| |t] eqn:Edec.
  - destruct Hb as [-> Hs]. unfold is_decrypting in Hs. cbn [negb]. rewrite Hs. apply wp_Ret. exists job.
    apply settled_same; [by rewrite Hd|done|by apply spawned_none].
  - destruct Hb as [-> Hs]. unfold is_decrypting in Hs. cbn [negb]. rewrite Hs. by apply wp_completed.
  - destruct Hb as (-> & -> & Hne). cbn [negb]. rewrite (proj2 (String.eqb_neq _ _) Hne). by apply wp_failed_now.
  - destruct Hb as (-> & -> & Hne). apply wp_handed_on; [done..|by left].
  - destruct Hb as (-> & -> & -> & ->). apply wp_handed_on; [done..|right].
    split; [done|]. split; [by eapply dispose_task|done].
Qed.

(** ** All of them *)

(** From [w] to [w'] every job of [l] got its decision, by the rows as they were in [w], and no
    other row changed; [news] are the goroutines started. *)
Definition handed_out (r : Runner) (l : list Job) (news : list decryptTask) (w w' : World) : Prop :=
  Forall2 alike (jobs (db w)) (jobs (db w'))
  /\ (forall id, id ∉ map ID l -> find_job id (db w') = find_job id (db w))
  /\ (forall j, j ∈ l -> exists entry y,
        let dec := dispose r (auto_decrypt r w) (db w) j (archivePathForJob j) entry in
        entry_of (archivePathForJob j) entry /\ find_job (ID j) (db w') = Some y /\ disposed dec j y
        /\ forall t, t ∈ news /\ jobID t = ID j <-> dec = Work t /\ ID j ∉ pending w)
  /\ threads w' = (news ++ threads w)%list
  /\ pending w' = list_to_set (map jobID news) ∪ pending w
  /\ Forall (fun t => jobID t ∈ map ID l) news
  /\ requests w' = requests w /\ sem w' = sem w /\ settings w' = settings w.

Lemma alike_ids (l l' : list Job) : Forall2 alike l l' -> map ID l' = map ID l.
Proof. induction 1 as [|x y l l' (H & _) _ IH]; [done|]. cbn. by rewrite H, IH. Qed.

Lemma alike_all_readable (l l' : list Job) :
  Forall2 alike l l' -> Forall (fun o => readable o = true) l -> Forall (fun o => readable o = true) l'.
Proof.
  induction 1 as [|x y l l' H _ IH]; [done|]. intros Hl. apply Forall_cons in Hl as [Hx Hl].
  constructor; [by rewrite (alike_readable x y)|by apply IH].
Qed.

Lemma handed_out_from (r : Runner) (l : list Job) (news : list decryptTask) (w w1 w' : World) :
  db w1 = db w -> frame w w1 -> handed_out r l news w1 w' -> handed_out r l news w w'.
Proof. unfold handed_out, auto_decrypt. intros -> (-> & -> & -> & -> & ->). done. Qed.

(** What a turn of the loop does, and keeps. *)
Definition dispatch_turn (r : Runner) (j : Job) (w : World) (y : Job) (task : option decryptTask) : Prop :=
  exists entry, let dec := dispose r (auto_decrypt r w) (db w) j (archivePathForJob j) entry in
    entry_of (archivePathForJob j) entry /\ disposed dec j y /\ task = task_of dec.

Definition dispatch_keeps (w w' : World) : Prop :=
  Forall2 alike (jobs (db w)) (jobs (db w')) /\ sem w' = sem w /\ settings w' = settings w.

#[export] Instance dispatch_keeps_PreOrder : PreOrder dispatch_keeps.
Proof.
  split; [by intros w|]. intros w1 w2 w3 (A1 & A2 & A3) (B1 & B2 & B3). split_and!; [by etrans|congruence..].
Qed.

Lemma acted_turn (r : Runner) (job : Job) (entry : string) (y : Job) (w w' : World) :
  StronglySorted Z.lt (map ID (jobs (db w))) -> find_job (ID job) (db w) = Some job ->
  entry_of (archivePathForJob job) entry -> acted r job entry y w w' ->
  exists task, turn (dispatch_turn r) (fun _ => []) dispatch_keeps job y task w w'.
Proof.
  intros Hs Hin Hent (Hrow & Hdis & Hal & S1 & S2 & S3 & S4). apply find_job_Some in Hin as [Hin _].
  eexists. split_and!; [by exists entry| |done| |exact S4|done].
  - split_and!; [|done..]. destruct Hrow as (f & [Hf1 _] & Hy).
    destruct (update_rows_split f _ job Hs Hin) as (a & b & Ha & Hb). rewrite Hf1, Hb, Ha.
    apply Forall2_app; [reflexivity|]. constructor; [by rewrite Hy|reflexivity].
  - intros t Ht. destruct (dispose _ _ _ _ _ _) eqn:E; try discriminate Ht. injection Ht as <-. by eapply dispose_task.
Qed.

(** The loop's account of its turns is the one of [handed_out]: no turn's decision depends on
    the others. *)
Lemma each_handed_out (r : Runner) (l : list Job) (news : list decryptTask) (w w' : World) :
  each (dispatch_turn r) (fun _ => []) dispatch_keeps l news w w' -> handed_out r l news w w'.
Proof.
  intros ((Ha & Hsem & Hset) & _ & Hother & Hturns & Ht & Hp & Hn & Hr). split_and!; try done.
  - intros j Hj. apply list_elem_of_split in Hj as (a & b & Hl).
    destruct (Hturns a j b Hl) as (wj & y & task & (Haj & _ & Hsj) & (entry & Hent & Hd & ->) & _ & _ & Hy & Hnews).
    assert (dispose r (auto_decrypt r wj) (db wj) j (archivePathForJob j) entry
            = dispose r (auto_decrypt r w) (db w) j (archivePathForJob j) entry) as Heq.
    { unfold auto_decrypt. rewrite Hsj. by apply alike_dispose. }
    rewrite Heq in Hd, Hnews. exists entry, y. cbv zeta. split_and!; [done..|]. intros t. rewrite Hnews.
    set (dec := dispose _ _ _ _ _ _). split; intros [H ?]; (split; [|done]); destruct dec; try discriminate H;
      [by injection H as ->|by injection H as ->].
  - rewrite Hr. clear Hr. induction (rev l) as [|x l' IH]; [done|exact IH].
Qed.

Lemma wp_hand_out (r : Runner) (l : list Job) (w : World) :
  StronglySorted Z.lt (map ID (jobs (db w))) -> NoDup (map ID l) ->
  (forall j, j ∈ l -> j ∈ jobs (db w) /\ pending_postprocess j = true) ->
  Forall (fun o => readable o = true) (jobs (db w)) ->
  wp env (for_each l (dispatch_one r)) (fun w' _ => exists news, handed_out r l news w w') w.
Proof.
  intros Hs Hnd Hl Hall. eapply wp_mono; [|apply (wp_each env _ (dispatch_turn r) (fun _ => []) dispatch_keeps)].
  - intros w' _ (news & H). exists news. by apply each_handed_out.
  - intros j w1 Hj (Ha & _) Hfound. pose proof (Hl j Hj) as [Hin Hp].
    eapply wp_mono; [|apply wp_dispatch_one].
    + intros w2 _ (entry & y & Hent & Hact). exists y. eapply acted_turn; try done. by rewrite (alike_ids _ _ Ha).
    + done.
    + rewrite Forall_forall in Hall. by apply Hall.
    + by eapply alike_all_readable.
  - done.
  - intros j Hj. apply Hl in Hj as [Hj _]. by apply find_job_In.
Qed.

Lemma handled_rows (r : Runner) (d : Db) :
  exists k, handled r d = take k (rows_where pending_postprocess d).
Proof. unfold handled. destruct (ArchiveDec r), (MegaDec r); eauto. by exists 0%nat. Qed.

Lemma handled_pending (r : Runner) (d : Db) (j : Job) :
  j ∈ handled r d -> j ∈ jobs d /\ pending_postprocess j = true.
Proof.
  destruct (handled_rows r d) as [k ->]. intros H%elem_of_take. destruct H as (n & H & _).
  by apply rows_where_In, (list_elem_of_lookup_2 _ n).
Qed.

Lemma handled_NoDup (r : Runner) (d : Db) :
  StronglySorted Z.lt (map ID (jobs d)) -> NoDup (map ID (handled r d)).
Proof.
  intros Hs. destruct (handled_rows r d) as [k ->]. rewrite <- firstn_map.
  eapply sublist_NoDup; [|apply sublist_take]. by apply sorted_NoDup, sorted_filter.
Qed.

Lemma wp_dispatch (r : Runner) (w : World) :
  StronglySorted Z.lt (map ID (jobs (db w))) ->
  Forall (fun o => readable o = true) (jobs (db w)) ->
  wp env (dispatchCompletedDecrypt r) (fun w' _ => exists news, handed_out r (handled r (db w)) news w w') w.
Proof.
  intros Hs Hall.
  assert (wp env (jobs <-? ListPendingPostprocess 100 ;; for_each jobs (dispatch_one r) ;; Ret (inr tt))
    (fun w' _ => exists news, handed_out r (take 100 (rows_where pending_postprocess (db w))) news w w') w) as H.
  { apply wp_bind_err. apply wp_query; [done|]. intros w1 H1 F1. apply wp_bind.
    change (limit_rows 100 (rows_where pending_postprocess (db w)))
      with (take 100 (rows_where pending_postprocess (db w))).
    eapply wp_mono; [|apply wp_hand_out; rewrite ?H1; [done| | |done]].
    - intros w2 _ (news & H). apply wp_Ret. exists news. by eapply handed_out_from.
    - rewrite <- firstn_map. eapply sublist_NoDup; [|apply sublist_take]. by apply sorted_NoDup, sorted_filter.
    - intros j Hj. apply elem_of_take in Hj as (n & Hj & _). by apply rows_where_In, (list_elem_of_lookup_2 _ n). }
  unfold dispatchCompletedDecrypt, handled. destruct (ArchiveDec r), (MegaDec r); try exact H.
  apply wp_Ret. exists []. apply each_handed_out, each_nil, _.
Qed.

(** Jobs without an archive to decide about, with the switch off: completed with a password,
    and not from MEGA. *)
Definition stuck (r : Runner) (j : Job) : bool :=
  pending_postprocess j && negb (is_decrypting j) && negb (shouldDecryptMega r j (archivePathForJob j)).

Lemma stuck_kept (r : Runner) (d : Db) (j : Job) (entry : string) :
  stuck r j = true -> dispose r false d j (archivePathForJob j) entry = Keep.
Proof.
  unfold stuck. intros H. apply andb_prop in H as [H Hm]. apply andb_prop in H as [_ Hd].
  rewrite negb_true_iff in *. unfold dispose. cbv zeta. by rewrite Hm, Hd, andb_false_r.
Qed.

Lemma filter_nothing (p : Job -> bool) (l : list Job) :
  (forall j, j ∈ l -> p j = false) -> List.filter p l = [].
Proof.
  induction l as [|x l IH]; [done|]. intros H. cbn. rewrite (H x) by apply list_elem_of_here.
  apply IH. intros j Hj. by apply H, list_elem_of_further.
Qed.

Lemma filter_twice (p q c : Job -> bool) (l : list Job) :
  (forall j, p j = true -> q j = true) ->
  List.filter (fun j => p j && c j) (List.filter q l) = List.filter (fun j => p j && c j) l.
Proof.
  intros H. induction l as [|x l IH]; [done|]. cbn [List.filter]. specialize (H x). destruct (q x).
  - cbn [List.filter]. by rewrite IH.
  - destruct (p x); [by discriminate (H eq_refl)|exact IH].
Qed.

(** A row with [n] rows before it is not among the first [n]. *)
Lemma not_among_first (p : Job -> bool) (l : list Job) (n : nat) (id : Z) :
  StronglySorted Z.lt (map ID l) ->
  (n <= List.length (List.filter (fun j => p j && (ID j <? id)%Z) l))%nat -> id ∉ map ID (take n l).
Proof.
  revert n. induction l as [|x l IH]; intros n Hs Hn; [by rewrite take_nil; apply not_elem_of_nil|].
  destruct n as [|n]; [apply not_elem_of_nil|]. cbn [take map]. cbn [map] in Hs.
  apply StronglySorted_inv in Hs as [Hs Hx]. rewrite Forall_forall in Hx. cbn [List.filter] in Hn.
  apply not_elem_of_cons. split.
  - intros ->. rewrite Z.ltb_irrefl, andb_false_r in Hn.
    assert (List.filter (fun j => p j && (ID j <? ID x)%Z) l = []) as Hf; [|by rewrite Hf in Hn; cbn in Hn; lia].
    apply filter_nothing. intros y Hy. specialize (Hx (ID y) (list_elem_of_fmap_2 ID _ _ Hy)).
    apply andb_false_iff. right. apply Z.ltb_ge. lia.
  - apply IH; [done|]. destruct (_ && _); cbn in Hn; lia.
Qed.

(** C15. What a tick does for finished downloads, on a database without faults and file names
    the code can read.  The hundred oldest of the jobs that are decrypting, or completed with
    a password, each get the decision [dispose] takes for their row as the tick found it,
    whatever the earlier ones of the hundred led to: a job with nothing to decrypt is
    completed and its password forgotten, or left alone when it is completed; one without a
    file path fails; one with parts missing waits; for the others a goroutine is started
    exactly when the job has none, with the task that [dispose] gives.  No other row changes,
    no other goroutine is started and aria2 is asked nothing. *)
Theorem dispatch_spec (r : Runner) (w : World) :
  StronglySorted Z.lt (map ID (jobs (db w))) ->
  Forall (fun o => readable o = true) (jobs (db w)) ->
  wp env (dispatchCompletedDecrypt r) (fun w' _ =>
    exists news, handed_out r (handled r (db w)) news w w') w.
Proof. apply wp_dispatch. Qed.

Definition stuck_before (r : Runner) (id : Z) (j : Job) : bool := stuck r j && (ID j <? id)%Z.

Lemma stuck_stay (r : Runner) (id : Z) (news : list decryptTask) (w w' : World) :
  StronglySorted Z.lt (map ID (jobs (db w))) -> auto_decrypt r w = false ->
  handed_out r (handled r (db w)) news w w' ->
  (List.length (List.filter (stuck_before r id) (jobs (db w)))
   <= List.length (List.filter (stuck_before r id) (jobs (db w'))))%nat.
Proof.
  intros Hs Hoff (Ha & Hkeep & Hdone & _). apply submseteq_length, NoDup_submseteq.
  { apply (NoDup_fmap_1 ID), sorted_NoDup, sorted_filter, Hs. }
  intros j Hj. apply list_elem_of_In, filter_In in Hj as [Hj Hst]. apply list_elem_of_In in Hj.
  apply list_elem_of_In, filter_In. split; [|done]. apply list_elem_of_In.
  apply (find_job_Some (ID j)). destruct (decide (ID j ∈ map ID (handled r (db w)))) as [Hin|Hin].
  - apply list_elem_of_fmap in Hin as (x & Hx & Hin). pose proof (handled_pending r _ x Hin) as [Hxj _].
    assert (x = j) as -> by by eapply (sorted_ids_unique (jobs (db w))).
    destruct (Hdone j Hin) as (entry & y & _ & Hy & Hd & _). rewrite Hy, Hoff in *.
    rewrite stuck_kept in Hd by (by apply andb_prop in Hst as [? _]). by cbn in Hd; subst y.
  - rewrite Hkeep by done. by apply find_job_In.
Qed.

End Dispatch.

(** ** Witnesses *)

#[local] Instance DispatchUnicode : Unicode := {| unicode_lower := lower_dotted |}.

(** After a restart: job 1 was being extracted, job 2 has its parts 1 and 3 still downloading,
    job 5 was decrypting but there is nothing to extract. *)
Definition restarted_world : World :=
  sample_world (mkDb [(part_job 1 StatusDecrypting "a.rar") <| ArchivePassword := Some "pw" |>;
                      part_job 2 StatusDecrypting "x.part2.rar"; part_job 3 StatusDownloading "x.part1.rar";
                      part_job 4 StatusPaused "x.part3.rar"; part_job 5 StatusDecrypting "film.mkv"] [] 5 0).

Definition decided (j : Job) (dec : disposal) : Prop :=
  forall entry, entry_of (archivePathForJob j) entry ->
    dispose extracting_runner (auto_decrypt extracting_runner restarted_world) (db restarted_world) j (archivePathForJob j) entry = dec.

Lemma decided_by (j : Job) (dec : disposal) (first : string) :
  multipartArchiveFirstVolume (TrimSpace (archivePathForJob j)) = Some first ->
  dispose extracting_runner true (db restarted_world) j (archivePathForJob j) (TrimSpace (archivePathForJob j)) = dec ->
  dispose extracting_runner true (db restarted_world) j (archivePathForJob j) first = dec -> decided j dec.
Proof. intros Hf H1 H2 entry [->|He]; [exact H1|]. rewrite Hf in He. injection He as <-. exact H2. Qed.

Lemma restarted_decisions :
  decided ((part_job 1 StatusDecrypting "a.rar") <| ArchivePassword := Some "pw" |>)
    (Work (mkTask 1 "/data/tv/a.rar" "/data/tv/a.rar" "/data/tv" "pw" "https://example.com/p" "" false true))
  /\ decided (part_job 2 StatusDecrypting "x.part2.rar") Await
  /\ decided (part_job 5 StatusDecrypting "film.mkv") Complete.
Proof.
  split; [|split]; [apply (decided_by _ _ "/data/tv/a.rar")|apply (decided_by _ _ "/data/tv/x.part1.rar")
    |apply (decided_by _ _ "/data/tv/film.mkv")]; vm_compute; reflexivity.
Qed.

Lemma restarted_readable : Forall (fun o => readable o = true) (jobs (db restarted_world)).
Proof. repeat (apply Forall_cons; split; [vm_compute; reflexivity|]). constructor. Qed.

(** The extraction is taken up again, the parts are waited for, and the last job completes. *)
Lemma dispatch_spec_witness :
  wp (calm_env 200) (dispatchCompletedDecrypt extracting_runner) (fun w' _ =>
    (exists t, t ∈ threads w' /\ jobID t = 1%Z)
    /\ find_job 2 (db w') = find_job 2 (db restarted_world)
    /\ find_job 3 (db w') = find_job 3 (db restarted_world)
    /\ exists y, find_job 5 (db w') = Some y /\ completed_row y) restarted_world.
Proof.
  assert (StronglySorted Z.lt (map ID (jobs (db restarted_world)))) as Hs by (simpl; repeat constructor).
  eapply wp_mono; [|apply (dispatch_spec (calm_env 200) (fun _ => eq_refl) extracting_runner restarted_world Hs
    restarted_readable)].
  intros w' _ (news & _ & Hkeep & Hdone & Hthreads & _).
  assert (handled extracting_runner (db restarted_world)
    = [(part_job 1 StatusDecrypting "a.rar") <| ArchivePassword := Some "pw" |>;
       part_job 2 StatusDecrypting "x.part2.rar"; part_job 5 StatusDecrypting "film.mkv"]) as Hl by reflexivity.
  rewrite Hl in Hkeep, Hdone. destruct restarted_decisions as (D1 & D2 & D5).
  split; [|split; [|split]].
  - destruct (Hdone _ (list_elem_of_here _ _)) as (e & y & He & _ & _ & Ht). rewrite (D1 e He) in Ht.
    eexists. rewrite Hthreads, elem_of_app. destruct (proj2 (Ht _) (conj eq_refl (not_elem_of_empty _))) as [H1 H2].
    split; [left; exact H1|exact H2].
  - destruct (Hdone (part_job 2 StatusDecrypting "x.part2.rar")) as (e & y & He & Hy & Hd & _);
      [right; left|]. rewrite (D2 e He) in Hd. exact (eq_trans Hy (f_equal Some Hd)).
  - apply Hkeep. intros H. repeat (apply elem_of_cons in H as [H|H]; [discriminate H|]). by apply elem_of_nil in H.
  - destruct (Hdone (part_job 5 StatusDecrypting "film.mkv")) as (e & y & He & Hy & Hd & _);
      [right; right; left|]. rewrite (D5 e He) in Hd. exists y. exact (conj Hy (proj1 Hd)).
Defined.

(** A hundred completed downloads with a password while auto-decrypt is off. *)
Definition crowded_world : World :=
  (sample_world (mkDb (map (fun n => (part_job (Z.of_nat n) StatusCompleted "film.mkv") <| ArchivePassword := Some "pw" |>)
                         (seq 1 100) ++ [part_job 101 StatusDecrypting "a.rar"]) [] 101 0))
    <| settings := mkSettings 2 5 false |>.

