(* ===== verification/Poll.v ===== *)
(** * Polling aria2

    [updateActive] of internal/queue/runner.go asks aria2 about every job that is downloading,
    the newest first, and moves its row as the answer says.  A finished download goes through
    the decision of [Dispatch.dispose]; since a poll can finish the download of one part of an
    archive before it asks about the next, what a poll finds depends on the polls before it,
    and the theorem says how. *)

From S2P Require Import Prelude GoStrings GoTime GoError Schema Files Effects Status Paths Store.
From S2P Require Import StoreInv StoreSpec Wp Archive Resolver Runner RunnerInv RunnerSpec Rows Dispatch.

#[local] Open Scope string_scope.

Section Poll.
Context `{UC : Unicode}.

(** The bytes of a finished download: aria2's count, or the size when it counts none. *)
Definition finished_bytes (st : AriaStatus) : Z :=
  let done := fst (ParseInt (StCompletedLen st)) in
  let total := fst (ParseInt (StTotalLength st)) in
  if (done =? 0)%Z && (0 <? total)%Z then total else done.

Definition is_complete (st : AriaStatus) : bool := String.eqb (StStatus st) "complete".

(** The decision an answer of aria2 leads to, if any. *)
Definition poll_decision (r : Runner) (auto : bool) (d : Db) (answer : res AriaStatus) (job : Job)
    (entry : string) : option disposal :=
  match answer with
  | inr st => if is_complete st then Some (dispose r auto d job (download_path job (Some st)) entry) else None
  | inl _ => None
  end.

(** The row of a download with nothing to decrypt: completed, its password kept. *)
Definition finished_row (n : Z) (x y : Job) : Prop :=
  Status y = StatusCompleted /\ Error y = None /\ ErrorCode y = None /\ CompletedAt y <> None
  /\ ArchivePassword y = ArchivePassword x
  /\ BytesDone y = match SizeBytes x with Some size => if (n =? 0)%Z then size else n | None => n end.

Definition post_row (dec : disposal) (n : Z) (x y : Job) : Prop :=
  match dec with
  | Keep | Complete => finished_row n x y
  | FailWith reason =>
      Status y = StatusDecryptFail /\ Error y = Some reason
      /\ ErrorCode y = Some "postprocess_failed" /\ ArchivePassword y = None
  | Await | Work _ =>
      Status y = StatusDecrypting /\ ErrorCode y = None /\ ArchivePassword y = ArchivePassword x
      /\ BytesDone y = decrypting_bytes n x
  end.

(** The row [y] an answer makes of [x]. *)
Definition answered_row (dec : option disposal) (answer : res AriaStatus) (x y : Job) : Prop :=
  match dec, answer with
  | Some dec, inr st => post_row dec (finished_bytes st) x y
  | _, _ => polled_row answer x y
  end.

(** A poll keeps the files of the jobs where they are. *)
Definition same_file (x y : Job) : Prop :=
  ID y = ID x /\ OutDir y = OutDir x /\ archivePathForJob y = archivePathForJob x /\ DeletedAt y = DeletedAt x.

#[export] Instance same_file_PreOrder : PreOrder same_file.
Proof. split; [by intros x|]. unfold same_file. intros x y z. intuition congruence. Qed.

Definition poll_keeps (w w' : World) : Prop :=
  Forall2 same_file (jobs (db w)) (jobs (db w')) /\ sem w' = sem w /\ settings w' = settings w.

#[export] Instance poll_keeps_PreOrder : PreOrder poll_keeps.
Proof.
  split; [by intros w|]. intros w1 w2 w3 (A1 & A2 & A3) (B1 & B2 & B3). split_and!; [by etrans|congruence..].
Qed.

Lemma same_files_readable (l l' : list Job) :
  Forall2 same_file l l' -> Forall (fun o => readable o = true) l -> Forall (fun o => readable o = true) l'.
Proof.
  induction 1 as [|x y l l' (_ & _ & H & _) _ IH]; [done|]. intros Hl. apply Forall_cons in Hl as [Hx Hl].
  constructor; [|by apply IH]. unfold readable in *. by rewrite H.
Qed.

Lemma only_row_files (id : Z) (f : Job -> Job) (w w' : World) :
  only_row id f w w' -> (forall x, same_file x (f x)) ->
  Forall2 same_file (jobs (db w)) (jobs (db w')).
Proof.
  intros [-> Hf] Hp. unfold update_rows. induction (jobs (db w)) as [|x l IH]; [constructor|].
  constructor; [|exact IH]. case_bool; [apply Hp|reflexivity].
Qed.

(** ** One poll *)

Context (env : Env) (Hnf : no_faults env).

(** What becomes of a finished download: nothing yet, or its row moved and its goroutine started. *)
Definition queued_as (job : Job) (n : Z) (dec : disposal) (w w' : World) (b : bool) : Prop :=
  match dec with
  | Keep | Complete => b = false /\ jobs (db w') = jobs (db w) /\ frame w w'
  | _ => b = true /\ spawned (ID job) dec w w'
         /\ exists f, only_row (ID job) f w w' /\ (forall x, same_file x (f x))
                      /\ post_row dec n job (f job)
  end.

Lemma wp_queued (r : Runner) (job : Job) (st : AriaStatus) (n : Z) (w : World) :
  readable_path (download_path job (Some st)) = true ->
  Forall (fun o => readable o = true) (jobs (db w)) ->
  wp env (queueDecryptFromStatus r job st n) (fun w' b => exists entry,
    entry_of (download_path job (Some st)) entry
    /\ queued_as job n (dispose r (auto_decrypt r w) (db w) job (download_path job (Some st)) entry) w w' b) w.
Proof.
  intros Hp Hall. unfold queueDecryptFromStatus. apply wp_bind, wp_build; [done..|].
  intros w1 entry [[[task should] wait] failMsg] H1 F1 Hent Hb.
  set (dec := dispose _ _ _ _ _ _) in *. apply (wp_mono env _ (queued_as job n dec w)).
  { intros w' b H. by exists entry. }
  destruct dec as [| |reason| |t] eqn:Edec.
  - destruct Hb as [-> _]. cbn [negb]. apply wp_Ret. split; [done|]. split; [by rewrite H1|done].
  - destruct Hb as [-> _]. cbn [negb]. apply wp_Ret. split; [done|]. split; [by rewrite H1|done].
  - destruct Hb as (-> & -> & Hne). cbn [negb]. rewrite (proj2 (String.eqb_neq _ _) Hne). cbn [negb].
    apply wp_bind, wp_postprocess_failed; [done|]. intros f w2 [Hf1 Hf2] F2 Hf. apply wp_Ret.
    split; [done|]. split; [apply spawned_none; [done|by etrans]|]. exists f.
    split; [split; [by rewrite Hf1, H1|done]|]. split.
    + intros x. destruct (Hf x) as (_ & _ & _ & _ & S5 & S6 & S7 & S8).
      split_and!; [apply Hf2|done| |done]. unfold archivePathForJob, outputNameForJob. by rewrite S5, S6, S7.
    + by destruct (Hf job) as (S1 & S2 & S3 & S4 & _).
  - destruct Hb as (-> & -> & Hne). cbn [negb]. change (String.eqb "" "") with true. cbn [negb].
    apply wp_bind. unfold MarkDecrypting. apply wp_now_update; [done|]. intros t w2 H2 F2.
    apply wp_bind, wp_AddEvent_jobs; [done|]. intros w3 r3 H3 F3.
    rewrite (proj2 (String.eqb_neq _ _) Hne). cbn [negb].
    apply wp_bind, wp_AddEvent_jobs; [done|]. intros w4 r4 H4 F4. apply wp_Ret.
    split; [done|]. split; [apply spawned_none; [done|]; etrans; [exact F1|]; etrans; [exact F2|by etrans]|].
    eexists. split; [split; [by rewrite H4, H3, H2, H1|done]|by split].
  - destruct Hb as (-> & -> & -> & ->). cbn [negb]. change (String.eqb "" "") with true. cbn [negb].
    apply wp_bind. unfold MarkDecrypting. apply wp_now_update; [done|]. intros t2 w2 H2 F2.
    apply wp_bind, wp_AddEvent_jobs; [done|]. intros w3 r3 H3 F3.
    change (String.eqb "" "") with true. cbn [negb].
    apply wp_bind, wp_scheduled. intros w4 H4 S4. apply wp_Ret. split; [done|]. split.
    + rewrite (dispose_task _ _ _ _ _ _ _ Edec) in S4.
      assert (frame w w3) as (E1 & E2 & E3 & E4 & E5) by (etrans; [exact F1|by etrans]).
      unfold spawned, started_for in *. by rewrite E1, E2, E3, E4, E5 in S4.
    + eexists. split; [split; [by rewrite H4, H3, H2, H1|done]|by split].
Qed.

(** What aria2 is asked about a job. *)
Definition asks (j : Job) : list aria_req :=
  match EngineGID j with Some gid => [TellStatus gid] | None => [] end.

(** What a poll in the world [w] makes of the job's row. *)
Definition poll_turn (r : Runner) (j : Job) (w : World) (y : Job) (task : option decryptTask) : Prop :=
  match EngineGID j with
  | None => y = j /\ task = None
  | Some gid =>
      let answer := aria_at env (clock w) (TellStatus gid) in
      exists entry,
        let dec := poll_decision r (auto_decrypt r w) (db w) answer j entry in
        (forall st, answer = inr st -> is_complete st = true -> entry_of (download_path j (Some st)) entry)
        /\ answered_row dec answer j y /\ task = default None (task_of <$> dec)
  end.

Lemma poll_turned (r : Runner) (j : Job) (f : Job -> Job) (task : option decryptTask) (w w' : World) :
  poll_turn r j w (f j) task -> only_row (ID j) f w w' ->
  (forall x, same_file x (f x)) ->
  (forall t, task = Some t -> jobID t = ID j) -> started_for (ID j) task w w' ->
  requests w' = (asks j ++ requests w)%list -> sem w' = sem w -> settings w' = settings w ->
  exists y task, turn (poll_turn r) asks poll_keeps j y task w w'.
Proof.
  intros Ht Hrow Hf Hid Hs Hr Hsem Hset. exists (f j), task.
  split; [done|]. split; [split; [by eapply only_row_files|done]|]. split; [by exists f|]. done.
Qed.

(** A poll that starts nothing. *)
Lemma poll_turned_none (r : Runner) (j : Job) (gid : string) (f : Job -> Job) (w w1 w' : World) :
  EngineGID j = Some gid -> frame (w <| requests := TellStatus gid :: requests w |>) w1 ->
  poll_turn r j w (f j) None -> only_row (ID j) f w1 w' -> db w1 = db w -> frame w1 w' ->
  (forall x, same_file x (f x)) ->
  exists y task, turn (poll_turn r) asks poll_keeps j y task w w'.
Proof.
  intros Hg F1 Ht [Hr Hid] H1 F2 Hf. assert (frame (w <| requests := TellStatus gid :: requests w |>) w') as
    (E1 & E2 & E3 & E4 & E5) by by etrans.
  eapply (poll_turned r j f None); [done|by split; [rewrite Hr, H1|]|done|done| | |done|done].
  - by split.
  - rewrite E1. unfold asks. by rewrite Hg.
Qed.

Lemma poll_turn_plain (r : Runner) (j : Job) (gid : string) (w : World) (y : Job) :
  EngineGID j = Some gid ->
  (forall st, aria_at env (clock w) (TellStatus gid) = inr st -> is_complete st = false) ->
  polled_row (aria_at env (clock w) (TellStatus gid)) j y -> poll_turn r j w y None.
Proof.
  intros Hg Hc Hy. unfold poll_turn. rewrite Hg. exists "". unfold poll_decision.
  destruct (aria_at env (clock w) (TellStatus gid)) as [err|st]; [by split|].
  rewrite (Hc st eq_refl). split_and!; [|done..]. intros st' [= <-] H. by rewrite (Hc st eq_refl) in H.
Qed.

Lemma poll_turn_done (r : Runner) (j : Job) (gid entry : string) (w : World) (st : AriaStatus) (y : Job) :
  EngineGID j = Some gid -> aria_at env (clock w) (TellStatus gid) = inr st -> is_complete st = true ->
  entry_of (download_path j (Some st)) entry ->
  let dec := dispose r (auto_decrypt r w) (db w) j (download_path j (Some st)) entry in
  post_row dec (finished_bytes st) j y -> poll_turn r j w y (task_of dec).
Proof.
  intros Hg Ha Hc He dec Hy. unfold poll_turn. rewrite Hg, Ha. exists entry. unfold poll_decision. rewrite Hc.
  split_and!; [|done..]. by intros st' [= <-].
Qed.

Lemma wp_poll_complete (r : Runner) (j : Job) (gid : string) (st : AriaStatus) (w w1 : World) :
  EngineGID j = Some gid -> frame (w <| requests := TellStatus gid :: requests w |>) w1 -> db w1 = db w ->
  aria_at env (clock w) (TellStatus gid) = inr st -> is_complete st = true ->
  readable_path (download_path j (Some st)) = true -> Forall (fun o => readable o = true) (jobs (db w)) ->
  wp env (update_from_status r j st) (fun w' _ => exists y task, turn (poll_turn r) asks poll_keeps j y task w w') w1.
Proof.
  intros Hg F1 H1 Ha Hc Hp Hall. unfold update_from_status. unfold is_complete in Hc. rewrite Hc.
  fold (finished_bytes st). apply wp_bind. eapply wp_mono; [|by apply wp_queued; [|rewrite H1]].
  intros w2 b (entry & Hent & Hq).
  assert (auto_decrypt r w1 = auto_decrypt r w) as Hauto by (unfold auto_decrypt; by destruct F1 as (_ & _ & _ & _ & ->)).
  rewrite H1, Hauto in Hq. set (dec := dispose _ _ _ _ _ _) in *.
  assert (forall y, post_row dec (finished_bytes st) j y -> poll_turn r j w y (task_of dec)) as Hturn.
  { intros y. by apply poll_turn_done with (gid := gid). }
  assert (forall t, task_of dec = Some t -> jobID t = ID j) as Hid.
  { intros t Ht. destruct dec eqn:E; try discriminate Ht. injection Ht as <-. by eapply dispose_task. }
  clearbody dec.
  assert (b = false -> (dec = Keep \/ dec = Complete) /\ jobs (db w2) = jobs (db w) /\ frame w1 w2) as Hfalse.
  { unfold queued_as in Hq. rewrite H1 in Hq. destruct dec, b; try (by destruct Hq as [[=] _]); intros _;
      destruct Hq as (_ & ? & ?); (split; [|done]); [by left|by right]. }
  destruct b.
  - apply wp_Ret. assert (spawned (ID j) dec w1 w2 /\ exists f, only_row (ID j) f w1 w2
      /\ (forall x, same_file x (f x))
      /\ post_row dec (finished_bytes st) j (f j)) as ((S1 & S2 & S3 & S4) & f & [Hf1 Hf2] & Hf3 & Hf4).
    { unfold queued_as in Hq. destruct dec; (try by destruct Hq as [[=] _]); by destruct Hq as [_ Hq]. }
    destruct F1 as (E1 & E2 & E3 & E4 & E5).
    eapply (poll_turned r j f (task_of dec)); [by apply Hturn| |done|done| | | |].
    + split; [by rewrite Hf1, H1|done].
    + unfold started_for in *. by rewrite E2, E3 in S4.
    + rewrite S1, E1. unfold asks. by rewrite Hg.
    + by rewrite S2, E4.
    + by rewrite S3, E5.
  - destruct (Hfalse eq_refl) as (Hdec & H2 & F2). clear Hq Hfalse.
    apply wp_bind. unfold UpdateProgress. apply wp_now_update; [done|]. intros t w3 H3 F3.
    apply wp_bind, wp_AddEvent_jobs; [done|]. intros w4 r4 H4 F4.
    apply wp_bind. unfold MarkCompleted. apply wp_now_update; [done|]. intros t2 w5 H5 F5. apply wp_Ret.
    eassert (only_row (ID j) _ w1 w5) as Hrow.
    { eapply only_row_trans; [eapply only_row_trans; [apply (only_row_refl _ w1 w2); by rewrite H2, H1|]|].
      - eapply only_row_same; [apply only_row_update; [exact H3|done]|exact H4].
      - apply only_row_update; [exact H5|done]. }
    assert (task_of dec = None) as Hnone by (by destruct Hdec as [-> | ->]).
    rewrite Hnone in Hturn. eapply poll_turned_none; [done|exact F1| |exact Hrow|done| |done].
    + apply Hturn. by destruct Hdec as [-> | ->].
    + etrans; [exact F2|]. etrans; [exact F3|by etrans].
Qed.

Lemma readable_nowhere : readable_path "" = true.
Proof. done. Qed.

Lemma wp_poll_one (r : Runner) (j : Job) (w : World) :
  (forall n gid st, aria_at env n (TellStatus gid) = inr st -> readable_path (firstStatusPath (Some st)) = true) ->
  readable j = true -> Forall (fun o => readable o = true) (jobs (db w)) ->
  wp env (update_one r j) (fun w' _ => exists y task, turn (poll_turn r) asks poll_keeps j y task w w') w.
Proof.
  intros Hpaths Hj Hall. unfold update_one. destruct (EngineGID j) as [gid|] eqn:Hg.
  2: { apply wp_Ret. eapply (poll_turned r j (fun x => x) None); try done; unfold poll_turn, asks; rewrite ?Hg; try done.
       by apply only_row_refl. }
  apply wp_bind, wp_aria. intros w1 H1 F1. pose proof (poll_turn_plain r j gid w) as Hplain.
  destruct (aria_at env (clock w) (TellStatus gid)) as [err|st] eqn:Ha.
  - specialize (fun y => Hplain y Hg ltac:(done)). unfold polled_row in Hplain. destruct (errors_Is err AriaErrGIDNotFound).
    + apply wp_bind, wp_now. intros t0 w2 H2 F2. apply wp_bind, wp_MarkFailed; [done|].
      intros t w3 r3 H3 F3. apply wp_Ret. eapply poll_turned_none; [done|exact F1| | |done|by etrans|].
      2: split; [rewrite H3, H2; reflexivity|done]. 1: by apply Hplain. done.
    + apply wp_bind, wp_AddEvent_jobs; [done|]. intros w2 r2 H2 F2. apply wp_Ret.
      eapply (poll_turned_none r j gid (fun x => x)); [done|exact F1|by apply Hplain|by apply only_row_refl|done..].
  - destruct (is_complete st) eqn:Hc.
    { eapply wp_poll_complete; [done|exact F1|done..| |done]. unfold download_path.
      case_bool; [exact Hj|by eapply Hpaths]. }
    specialize (fun y => Hplain y Hg ltac:(by intros st' [= <-])). unfold polled_row in Hplain.
    unfold is_complete in Hc. unfold update_from_status. rewrite Hc in Hplain |- *. destruct (String.eqb (StStatus st) "error").
    + apply wp_bind. unfold mapDownloadError. apply wp_bind, wp_now. intros t0 w2 H2 F2. apply wp_Ret.
      set (msg := if String.eqb (StErrorMessage st) "" then _ else _) in *.
      set (cls := if _ || _ || _ then _ else _). assert (cls = download_error_class msg t0) as Hcls by done.
      clearbody cls. destruct cls as [code retryAt].
      apply wp_bind, wp_AddEvent_jobs; [done|]. intros w3 r3 H3 F3.
      apply wp_bind, wp_MarkFailed; [done|]. intros t w4 r4 H4 F4. apply wp_Ret.
      eapply poll_turned_none; [done|exact F1| | |done| |].
      2: split; [rewrite H4, H3, H2; reflexivity|done].
      * apply Hplain. exists t0. by rewrite <- Hcls.
      * etrans; [exact F2|by etrans].
      * done.
    + apply wp_bind. unfold UpdateProgress. apply wp_now_update; [done|]. intros t w2 H2 F2. apply wp_Ret.
      eapply poll_turned_none; [done|exact F1| | |done|done|].
      2: split; [rewrite H2; reflexivity|done]. 1: by apply Hplain. done.
Qed.

Lemma wp_updateActive (r : Runner) (w : World) :
  StronglySorted Z.lt (map ID (jobs (db w))) ->
  Forall (fun o => readable o = true) (jobs (db w)) ->
  (forall n gid st, aria_at env n (TellStatus gid) = inr st ->
     readable_path (firstStatusPath (Some st)) = true) ->
  wp env (updateActive r) (fun w' _ => exists news,
    each (poll_turn r) asks poll_keeps
      (rev (rows_where (list_filter StatusDownloading false) (db w))) news w w') w.
Proof.
  intros Hs Hall Hpaths. unfold updateActive. apply wp_bind_err, wp_ListJobs; [done|]. intros w1 H1 F1.
  set (l := rev _). assert (forall j, j ∈ l -> j ∈ jobs (db w)) as Hl.
  { intros j Hj. apply list_elem_of_In, in_rev, list_elem_of_In, rows_where_In in Hj. by destruct Hj. }
  assert (poll_keeps w w1) as Hk.
  { unfold poll_keeps. rewrite H1. destruct F1 as (_ & _ & _ & -> & ->). by split. }
  apply wp_bind. eapply wp_mono; [|apply (wp_each env _ (poll_turn r) asks poll_keeps)].
  - intros w' _ (news & H). apply wp_Ret. exists news. eapply (each_from _ _ _); [exact H1|exact F1|exact Hk|exact H].
  - intros j w2 Hj (Ha & _) _. rewrite H1 in Ha. apply wp_poll_one; [done| |by eapply same_files_readable].
    rewrite Forall_forall in Hall. by apply Hall, Hl.
  - unfold l. rewrite map_rev, <- Permutation_rev. by apply sorted_NoDup, sorted_filter.
  - intros j Hj. rewrite H1. apply find_job_In; [done|by apply Hl|done].
Qed.

End Poll.

(** ** Witness *)

#[local] Instance PollUnicode : Unicode := {| unicode_lower := lower_dotted |}.

(** Both parts of an archive finish in the same poll. *)
Definition part_downloading (id : Z) (name : string) : Job :=
  (part_job id StatusDownloading name) <| EngineGID := Some "gid" |>.

Definition parts_done_world : World :=
  sample_world (mkDb [part_downloading 1 "x.part1.rar"; part_downloading 2 "x.part2.rar"] [] 2 0).

Lemma parts_done_readable : Forall (fun o => readable o = true) (jobs (db parts_done_world)).
Proof. repeat (apply Forall_cons; split; [vm_compute; reflexivity|]). constructor. Qed.

Lemma no_paths (n : nat) (gid : string) (st : AriaStatus) :
  aria_at complete_env n (TellStatus gid) = inr st -> readable_path (firstStatusPath (Some st)) = true.
Proof. intros [= <-]. vm_compute. reflexivity. Qed.

(** The part polled first waits for the other; the other, polled after it, is extracted. *)
Definition second_view : Db :=
  mkDb [part_downloading 1 "x.part1.rar";
        (part_downloading 2 "x.part2.rar") <| Status := StatusDecrypting |>] [] 2 0.

Lemma parts_decisions (entry : string) :
  (entry_of "/data/tv/x.part2.rar" entry ->
   dispose extracting_runner true (db parts_done_world) (part_downloading 2 "x.part2.rar")
     "/data/tv/x.part2.rar" entry = Await)
  /\ (entry_of "/data/tv/x.part1.rar" entry ->
      dispose extracting_runner true second_view (part_downloading 1 "x.part1.rar")
        "/data/tv/x.part1.rar" entry
      = Work (mkTask 1 "/data/tv/x.part1.rar" "/data/tv/x.part1.rar" "/data/tv" "" "https://example.com/p" "" false true)).
Proof.
  assert (multipartArchiveFirstVolume (TrimSpace "/data/tv/x.part2.rar") = Some "/data/tv/x.part1.rar"
    /\ multipartArchiveFirstVolume (TrimSpace "/data/tv/x.part1.rar") = Some "/data/tv/x.part1.rar") as [H2 H1]
    by (vm_compute; done).
  split; (intros [->|He]; [vm_compute; reflexivity|]).
  - rewrite H2 in He. injection He as <-. vm_compute. reflexivity.
  - rewrite H1 in He. injection He as <-. vm_compute. reflexivity.
Qed.

Lemma second_alike (wj : World) (y : Job) :
  map ID (jobs (db wj)) = [1%Z; 2%Z] -> poll_keeps parts_done_world wj ->
  find_job 1 (db wj) = Some (part_downloading 1 "x.part1.rar") ->
  find_job 2 (db wj) = Some y -> Status y = StatusDecrypting ->
  Forall2 alike (jobs second_view) (jobs (db wj)).
Proof.
  intros Hids (Hf & _) H1 H2 Hs. destruct (jobs (db wj)) as [|a [|b [|? ?]]] eqn:E; try discriminate Hids.
  injection Hids as Ha Hb. unfold find_job, rows_where in H1, H2. rewrite E in H1, H2. cbn in H1, H2.
  unfold has_id in H1, H2. rewrite Ha, Hb in H1, H2. cbn in H1, H2. injection H1 as ->. injection H2 as ->.
  apply Forall2_cons in Hf as [_ Hf]. apply Forall2_cons in Hf as [(F1 & F2 & F3 & F4) _].
  constructor; [reflexivity|]. constructor; [|constructor]. split_and!; [done|done|by rewrite F3| |].
  - unfold not_deleted. by rewrite F4.
  - by rewrite Hs.
Qed.

Definition done_status : AriaStatus := mkStatus "gid" "complete" "100" "100" "0" "" "" [].

Lemma part_decided (w : World) (d : Db) (id : Z) (name path entry : string) (dec : disposal) :
  archivePathForJob (part_downloading id name) = path ->
  settings w = settings parts_done_world -> Forall2 alike (jobs d) (jobs (db w)) ->
  dispose extracting_runner true d (part_downloading id name) path entry = dec ->
  poll_decision extracting_runner (auto_decrypt extracting_runner w) (db w) (inr done_status)
    (part_downloading id name) entry = Some dec.
Proof.
  intros <- Hset Ha <-. rewrite <- (alike_dispose _ _ _ _ _ _ _ Ha). unfold auto_decrypt, extracting_runner at 2.
  cbn [GetAutoDecrypt]. by rewrite Hset.
Qed.

Lemma part_path :
  archivePathForJob (part_downloading 1 "x.part1.rar") = "/data/tv/x.part1.rar"
  /\ archivePathForJob (part_downloading 2 "x.part2.rar") = "/data/tv/x.part2.rar".
Proof. vm_compute. done. Qed.

