(* ===== verification/Tick.v ===== *)
(** * A whole tick

    One beat of the runner, on a database without faults: it polls aria2 ([Poll]), hands out
    post-processing ([Dispatch]), requeues the failed jobs that may be tried again, and starts
    queued jobs while there is room.  Here the requeueing is described, and the four phases are
    put together. *)

From S2P Require Import Prelude GoStrings GoTime GoError Schema Files Effects Status Paths Store.
From S2P Require Import StoreInv StoreSpec Wp Archive Resolver Runner RunnerInv RunnerSpec Rows Dispatch Poll.

#[local] Open Scope string_scope.

Section Tick.
Context `{UC : Unicode} (env : Env) (Hnf : no_faults env).

(** ** Requeueing *)

Lemma for_each_map {A B} (f : A -> B) (l : list A) (body : B -> prog unit) :
  for_each (map f l) body = for_each l (fun x => body (f x)).
Proof.
  induction l as [|x l IH]; [done|]. cbn [map for_each]. by rewrite IH.
Qed.

(** The failed jobs that may be tried again are queued, and nothing else happens. *)
Definition requeued (w w' : World) : Prop :=
  exists now, frame w w' /\ map ID (jobs (db w')) = map ID (jobs (db w))
    /\ forall j, j ∈ jobs (db w) ->
         if retryable now j then exists t, find_job (ID j) (db w') = Some (requeue_row t j)
         else find_job (ID j) (db w') = Some j.

Definition requeue_turn (j : Job) (w : World) (y : Job) (task : option decryptTask) : Prop :=
  task = None /\ exists t, y = requeue_row t j.

Lemma wp_requeue_one (j : Job) (w : World) :
  wp env (requeue_one (ID j)) (fun w' _ =>
    exists y task, turn requeue_turn (fun _ => []) frame j y task w w') w.
Proof.
  unfold requeue_one. apply wp_bind. unfold Requeue. apply wp_now_update; [done|]. intros t w1 H1 F1.
  apply wp_bind, wp_AddEvent_jobs; [done|]. intros w2 r2 H2 F2. apply wp_Ret.
  assert (frame w w2) as F by by etrans. pose proof F as (E1 & E2 & E3 & _).
  exists (requeue_row t j), None. split; [by split; [|exists t]|]. split; [done|].
  split; [|split; [done|split; [by split|done]]].
  exists (requeue_row t). split; [|done]. split; [by rewrite H2, H1|done].
Qed.

Lemma wp_requeueFailed (w : World) :
  StronglySorted Z.lt (map ID (jobs (db w))) ->
  wp env requeueFailed (fun w' _ => requeued w w') w.
Proof.
  intros Hs. unfold requeueFailed. destruct (ListRetryableFailed_spec env w Hnf) as (rows & Hrun & Hperm & _).
  apply wp_bind_err. unfold wp at 1. rewrite Hrun. set (now := now_at env (clock w)) in *.
  apply wp_bind. rewrite for_each_map.
  assert (forall j, j ∈ rows <-> j ∈ jobs (db w) /\ retryable now j = true) as Hrows.
  { intros j. by rewrite Hperm, rows_where_In. }
  eapply wp_mono; [|apply (wp_each env _ requeue_turn (fun _ => []) frame)].
  - intros w' _ (news & HF & Hids & Hother & Hturns & _). apply wp_Ret. exists now.
    split; [by etrans; [|exact HF]|]. split; [done|]. intros j Hj.
    assert (find_job (ID j) (db w) = Some j) as Hf by by apply find_job_In.
    destruct (retryable now j) eqn:E.
    + assert (j ∈ rows) as Hin by by apply Hrows.
      apply list_elem_of_split in Hin as (a & b & Hl).
      destruct (Hturns a j b Hl) as (wj & y & task & _ & [_ [t ->]] & _ & _ & Hy & _). by exists t.
    + rewrite Hother; [done|]. intros Hin. apply list_elem_of_fmap in Hin as (x & Hx & Hin).
      apply Hrows in Hin as [Hin Hrx]. assert (x = j) as -> by by eapply (sorted_ids_unique (jobs (db w))).
      by rewrite E in Hrx.
  - intros j w1 _ _ _. apply wp_requeue_one.
  - rewrite Hperm. by apply sorted_NoDup, sorted_filter.
  - intros j Hj. apply Hrows in Hj as [Hj _]. by apply find_job_In.
Qed.

(** ** The phases before jobs are started *)

Definition downloading (d : Db) : list Job := rev (rows_where (list_filter StatusDownloading false) d).

(** [w1] is what the poll left, [w2] what the post-processing left, [w3] what requeueing left. *)
Definition phases (r : Runner) (w w1 w2 w3 : World) : Prop :=
  (exists polls, each (poll_turn env r) asks poll_keeps (downloading (db w)) polls w w1)
  /\ (exists news, handed_out r (handled r (db w1)) news w1 w2)
  /\ requeued w2 w3.

Lemma same_files_ids (l l' : list Job) : Forall2 same_file l l' -> map ID l' = map ID l.
Proof. induction 1 as [|x y l l' (H & _) _ IH]; [done|]. cbn. by rewrite H, IH. Qed.

Lemma wp_phases (r : Runner) (w : World) :
  StronglySorted Z.lt (map ID (jobs (db w))) ->
  Forall (fun o => readable o = true) (jobs (db w)) ->
  (forall n gid st, aria_at env n (TellStatus gid) = inr st ->
     readable_path (firstStatusPath (Some st)) = true) ->
  wp env (polled r) (fun w3 _ => exists w1 w2, phases r w w1 w2 w3) w.
Proof.
  intros Hs Hall Hpaths. unfold polled.
  apply wp_bind. eapply wp_mono; [|by apply wp_updateActive]. intros w1 _ (polls & H1).
  pose proof H1 as ((Ha & _) & _). pose proof (same_files_ids _ _ Ha) as I1.
  apply wp_bind. eapply wp_mono; [|apply wp_dispatch; [done|by rewrite I1|by eapply same_files_readable]].
  intros w2 _ (news & H2). pose proof (alike_ids _ _ (proj1 H2)) as I2.
  eapply wp_mono; [|apply wp_requeueFailed; by rewrite I2, I1]. intros w3 ? H3. cbn beta in H3.
  exists w1, w2. split; [by exists polls|]. split; [by exists news|done].
Qed.

Lemma phases_ids (r : Runner) (w w1 w2 w3 : World) :
  phases r w w1 w2 w3 -> map ID (jobs (db w3)) = map ID (jobs (db w)).
Proof.
  intros ((polls & (Ha & _) & _) & (news & Hh & _) & (now & _ & Hids & _)).
  by rewrite Hids, (alike_ids _ _ Hh), (same_files_ids _ _ Ha).
Qed.

Lemma queued_bound (w : World) : (queued_count w <= List.length (map ID (jobs (db w))))%nat.
Proof. unfold queued_count, rows_where. rewrite length_map. apply filter_length_le. Qed.

(** C4. A tick ends, and does this: it polls aria2 about the downloads, hands out
    post-processing by the rows the polls left, queues again exactly the failed jobs that are
    due and have attempts left, and then starts queued jobs.  Fuel of one more than there are
    jobs is enough for the last loop to end by itself; it never raises the number of running
    downloads above the concurrency setting, and stops only when that many are running or no
    queued job is left.  The tables stay well formed. *)
Theorem tick_spec (r : Runner) (roots : list string) (fuel : nat) (w : World) :
  (forall job, returns env (ResolveWithSite (Resolvers r) (Site job) (URL job))) ->
  (forall n gid st, aria_at env n (TellStatus gid) = inr st ->
     readable_path (firstStatusPath (Some st)) = true) ->
  Forall (fun o => readable o = true) (jobs (db w)) ->
  db_inv (DbOk roots) w -> (List.length (jobs (db w)) < fuel)%nat ->
  wp env (tick fuel r) (fun w' ended =>
    ended = true /\ db_inv (DbOk roots) w'
    /\ exists w1 w2 w3, phases r w w1 w2 w3
       /\ (downloading_count w3 <= downloading_count w' <= Z.max (downloading_count w3) (limit r w))%Z
       /\ ((limit r w <= downloading_count w')%Z \/ queued_count w' = 0%nat)) w.
Proof.
  intros Hret Hpaths Hall Hinv Hfuel. pose proof (ok_ids _ _ (proj1 Hinv)) as Hs.
  pose proof (wp_phases r w Hs Hall Hpaths) as Hph. unfold wp in Hph.
  destruct (run env (polled r) w) as [w3 [x|]] eqn:E; [|done]. destruct Hph as (w1 & w2 & Hph).
  assert (queued_count w3 < fuel)%nat as Hq.
  { pose proof (queued_bound w3) as Hb. rewrite (phases_ids _ _ _ _ _ Hph), length_map in Hb. lia. }
  assert (safe (db_inv (DbOk roots)) (tick fuel r)) as Hsafe by eapply tick_safe, (StoreSafe_DbOk roots).
  set (Q := fun w' (ended : bool) => ended = true
    /\ (downloading_count w3 <= downloading_count w' <= Z.max (downloading_count w3) (limit r w))%Z
    /\ ((limit r w <= downloading_count w')%Z \/ queued_count w' = 0%nat)).
  eapply wp_mono; [|apply (wp_safe env _ _ Q w Hsafe Hinv), (wp_tick env Hnf r roots fuel w w3 x); [done..|]].
  { intros w' b [Hinv' H]. split; [exact (proj1 H)|]. split; [exact Hinv'|].
    exists w1, w2, w3. split; [exact Hph|exact (proj2 H)]. }
  intros w4 H4 L4 Hinv4.
  assert (downloading_count w4 = downloading_count w3) as D4 by (unfold downloading_count; by rewrite H4).
  assert (queued_count w4 = queued_count w3) as Q4 by (unfold queued_count; by rewrite H4).
  eapply wp_mono; [|apply (wp_start_loop env Hnf r roots fuel w4 Hret Hinv4); lia].
  intros w5 b (-> & _ & D5 & D6). rewrite L4, D4 in *. done.
Qed.
End Tick.

(** ** Witness *)

#[local] Instance TickUnicode : Unicode := {| unicode_lower := lower_dotted |}.

Lemma queue_readable : Forall (fun o => readable o = true) (jobs (db queue_world)).
Proof. repeat (apply Forall_cons; split; [vm_compute; reflexivity|]). constructor. Qed.

Lemma calm_paths (n : nat) (gid : string) (st : AriaStatus) :
  aria_at (calm_env 200) n (TellStatus gid) = inr st -> readable_path (firstStatusPath (Some st)) = true.
Proof. intros [= <-]. vm_compute. reflexivity. Qed.

(** With a limit of two and three queued jobs, the tick ends with two downloads running or the
    queue empty. *)
Lemma tick_spec_witness :
  wp (calm_env 200) (tick 4 plain_runner) (fun w' ended =>
    ended = true /\ db_inv (DbOk ["/data/tv"]) w'
    /\ ((2 <= downloading_count w')%Z \/ queued_count w' = 0%nat)) queue_world.
Proof.
  assert (List.length (jobs (db queue_world)) < 4)%nat as Hlen by (vm_compute; lia).
  pose proof (tick_spec (calm_env 200) (fun _ => eq_refl) plain_runner ["/data/tv"] 4 queue_world
    (fun job => http_returns _ _ _) calm_paths queue_readable queue_ok Hlen) as H.
  eapply wp_mono; [|exact H]. clear H. intros w' b (Hb & Hok & w1 & w2 & w3 & _ & _ & Hcap).
  assert (limit plain_runner queue_world = 2%Z) as Hl by (vm_compute; reflexivity).
  rewrite Hl in Hcap. exact (conj Hb (conj Hok Hcap)).
Defined.
