(* ===== verification/Progress.v ===== *)
(** * Jobs do not starve

    internal/queue/runner.go and store.go together: the runner takes the queue in the order
    of the ids, so a job that has fewer jobs before it than there are free slots is started,
    or fails, in the next tick. *)

From S2P Require Import Prelude GoStrings GoError Schema Files Effects Status Paths Store.
From S2P Require Import StoreInv StoreSpec Wp Archive Resolver Runner RunnerInv RunnerSpec.

#[local] Open Scope string_scope.

(** The queued jobs before job [id]. *)
Definition ahead (id : Z) (j : Job) : bool := is_queued j && (ID j <? id)%Z.

Definition rank (id : Z) (w : World) : nat := List.length (rows_where (ahead id) (db w)).

(** Job [id] was tried. *)
Definition tried (id : Z) (w : World) : Prop :=
  exists j, find_job id (db w) = Some j /\ (Status j = StatusDownloading \/ Status j = StatusFailed).

(** Job [id] waits, with a slot free for every job before it and for itself. *)
Definition next_up (r : Runner) (id : Z) (w : World) : Prop :=
  exists j, find_job id (db w) = Some j /\ Status j = StatusQueued
    /\ (Z.of_nat (rank id w) < limit r w - downloading_count w)%Z.

Lemma queue_shorter (g : Job -> Job) (w w' : World) (j : Job) :
  StronglySorted Z.lt (map ID (jobs (db w))) -> j ∈ jobs (db w) -> is_queued j = true ->
  jobs (db w') = update_rows (has_id (ID j)) g (jobs (db w)) ->
  Status (g j) = StatusDownloading \/ Status (g j) = StatusFailed ->
  S (queued_count w') = queued_count w.
Proof.
  intros Hs Hin Hq Hrow Hout. pose proof (count_update is_queued g (db w) (db w') j Hs Hin Hrow) as Hc.
  assert (is_queued (g j) = false) as Hg by (unfold is_queued; by destruct Hout as [-> | ->]).
  rewrite Hq, Hg in Hc. unfold queued_count. cbn in Hc. lia.
Qed.

(** Trying the first job of the queue: it is done with, and every other place moves up. *)
Lemma next_up_step (r : Runner) (id : Z) (g : Job -> Job) (w w' : World) (j : Job) :
  StronglySorted Z.lt (map ID (jobs (db w))) -> j ∈ jobs (db w) -> is_queued j = true ->
  (forall x, x ∈ jobs (db w) -> is_queued x = true -> (ID j <= ID x)%Z) ->
  jobs (db w') = update_rows (has_id (ID j)) g (jobs (db w)) -> (forall x, ID (g x) = ID x) ->
  Status (g j) = StatusDownloading \/ Status (g j) = StatusFailed -> limit r w' = limit r w ->
  tried id w \/ next_up r id w -> tried id w' \/ next_up r id w'.
Proof.
  intros Hs Hin Hq Hfirst Hrow Hg Hout Hl Hid.
  assert (forall x, find_job id (db w) = Some x -> ID x = ID j -> x = j) as Huniq.
  { intros x Hx Hxj. apply find_job_Some in Hx as [Hx _]. by apply (sorted_ids_unique (jobs (db w))). }
  unfold tried, next_up. rewrite (find_job_one id (ID j) g w w' Hrow Hg).
  assert (Status j = StatusQueued) as Hsj by (unfold is_queued in Hq; by bool_prop).
  destruct Hid as [(x & Hx & Hst)|(x & Hx & Hst & Hr)]; rewrite Hx; cbn [fmap option_fmap option_map];
    destruct (ID x =? ID j)%Z eqn:E; bool_prop.
  - specialize (Huniq x Hx E) as ->. rewrite Hsj in Hst. by destruct Hst.
  - left. by exists x.
  - specialize (Huniq x Hx E) as ->. left. by exists (g j).
  - right. exists x. split; [done|]. split; [done|].
    apply find_job_Some in Hx as [Hx <-].
    assert (ID j <= ID x)%Z as Hle by (apply Hfirst; [done|unfold is_queued; by rewrite Hst]).
    pose proof (count_update (ahead (ID x)) g (db w) (db w') j Hs Hin Hrow) as Hc.
    pose proof (count_update (list_filter StatusDownloading false) g (db w) (db w') j Hs Hin Hrow) as Hd.
    assert (ahead (ID x) j = true) as Ha.
    { unfold ahead. rewrite Hq. apply Z.ltb_lt. lia. }
    assert (ahead (ID x) (g j) = false) as Hag.
    { unfold ahead, is_queued. by destruct Hout as [-> | ->]. }
    assert (list_filter StatusDownloading false j = false) as Hdj.
    { unfold list_filter. rewrite Hsj. cbn. by rewrite andb_false_r. }
    rewrite Ha, Hag in Hc. rewrite Hdj in Hd. unfold rank, downloading_count in *. rewrite Hl.
    destruct (list_filter StatusDownloading false (g j)); cbn in Hc, Hd; lia.
Qed.

Section Progress.
Context `{UC : Unicode} (env : Env) (Hnf : no_faults env) (r : Runner) (roots : list string).
Context (Hret : forall job, returns env (ResolveWithSite (Resolvers r) (Site job) (URL job))).

Lemma limit_same (w w' : World) : same_runner w w' -> limit r w' = limit r w.
Proof. intros (_ & _ & _ & H). unfold limit. by rewrite H. Qed.

Lemma same_rows (id : Z) (w w' : World) :
  jobs (db w') = jobs (db w) -> limit r w' = limit r w ->
  (tried id w' \/ next_up r id w' <-> tried id w \/ next_up r id w)
  /\ downloading_count w' = downloading_count w /\ queued_count w' = queued_count w.
Proof.
  intros Hj Hl. unfold tried, next_up, rank, downloading_count, queued_count, find_job, rows_where.
  by rewrite Hj, Hl.
Qed.

Lemma start_loop_tries (id : Z) (fuel : nat) (w : World) :
  db_inv (DbOk roots) w -> (queued_count w < fuel)%nat -> tried id w \/ next_up r id w ->
  wp env (start_loop fuel r (downloading_count w)) (fun w' _ => tried id w') w.
Proof.
  revert w. induction fuel as [|fuel IH]; intros w Hinv Hq Hid; [lia|]. cbn [start_loop].
  pose proof (StoreSafe_DbOk roots) as SS.
  apply (wp_bind_inv env (db_inv (DbOk roots))); [by eapply concurrency_safe|done|].
  apply wp_concurrency. intros w1 H1 F1 Hinv1. apply frame_same_runner, limit_same in F1.
  assert (tried id w \/ queued_count w <> 0%nat) as Hne.
  { destruct Hid as [?|(x & Hx & Hst & _)]; [by left|right]. apply find_job_Some in Hx as [Hx _].
    unfold queued_count. assert (x ∈ rows_where is_queued (db w)) as Hin.
    { apply rows_where_In. split; [done|]. unfold is_queued. by rewrite Hst. }
    intros H0. destruct (rows_where is_queued (db w)); [by apply elem_of_nil in Hin|done]. }
  destruct (same_rows id w w1 ltac:(by rewrite H1) F1) as (R1 & D1 & Q1).
  destruct (limit r w <=? downloading_count w)%Z eqn:El; bool_prop.
  { apply wp_Ret. destruct Hid as [Hid|(x & _ & _ & Hr)]; [|lia].
    unfold tried in *. by rewrite H1. }
  apply wp_bind. eapply wp_mono; [|by apply (wp_claim_first env Hnf roots)].
  intros w2 [e|job] (Hinv2 & S2 & H).
  { destruct H as [Hj H0]. apply wp_Ret. destruct Hne as [Hid'|?]; [|lia].
    unfold tried, find_job, rows_where in *. by rewrite Hj, H1. }
  destruct H as (j & t & Hin & Hj & Hqj & Hfirst & H2). rewrite H1 in *.
  pose proof (ok_ids _ _ (proj1 Hinv)) as Hs.
  assert (claimed t j ∈ jobs (db w2)) as Hin2.
  { destruct (update_rows_split (claimed t) (jobs (db w)) j Hs Hin) as (a & b & _ & Hb).
    rewrite H2, Hb. apply elem_of_app. right. by left. }
  apply wp_bind. eapply wp_mono; [|apply (wp_start_row env Hnf r roots job (claimed t j)); try done].
  2: { pose proof (ok_rows _ _ (proj1 Hinv)) as Hr. rewrite Forall_forall in Hr.
       unfold is_queued in Hqj. bool_prop. by destruct (row_queued _ _ (Hr _ Hin) Hqj). }
  intros w3 x (Hinv3 & S3 & f & H3 & Hf & Hout).
  assert (jobs (db w3) = update_rows (has_id (ID j)) (fun y => f (claimed t y)) (jobs (db w))) as H03.
  { rewrite H3, H2. by apply update_rows_comp. }
  assert (limit r w3 = limit r w) as L3 by by rewrite (limit_same _ _ S3), (limit_same _ _ S2).
  apply (wp_bind_inv env (db_inv (DbOk roots))); [by eapply countDownloading_safe|done|].
  apply (wp_countDownloading env Hnf). intros w4 H4 F4 Hinv4. apply frame_same_runner, limit_same in F4.
  destruct (same_rows id w3 w4 ltac:(by rewrite H4) F4) as (R4 & D4 & Q4).
  rewrite <- D4. apply IH; [done| |].
  - pose proof (queue_shorter _ w w3 j Hs Hin Hqj H03 Hout). lia.
  - apply R4. apply (next_up_step r id (fun y => f (claimed t y)) w w3 j); try done.
    intros y. by rewrite Hf.
Qed.

End Progress.

(** ** Witness *)

#[local] Instance ProgressUnicode : Unicode := {| unicode_lower := lower_dotted |}.

