(* ===== verification/Daemon.v ===== *)
(** * cmd/dlqd/main.go: the daemon put together

    The registry of the resolvers, the runner and the API's server as [main] builds them from
    the environment variables, and what follows for the downloads the daemon starts. *)

From S2P Require Import Prelude GoStrings GoTime GoUrl GoError GoJson Schema Files Effects Aria2 AriaRefine.
From S2P Require Import Settings Status Paths DaemonEnv Store StoreInv StoreSpec Wp Archive Resolver.
From S2P Require Import MegaResolver Webshare Service Api Runner MegaDecrypt.

#[local] Open Scope string_scope.

(** ** What a program may ask aria2 *)

(** Every request to aria2 of [p] satisfies [Q], whatever the calls answer. *)
Fixpoint asks {A} (Q : aria_req -> Prop) (p : prog A) : Prop :=
  match p with
  | Ret _ | Panic => True
  | Vis e k => match e with Aria r => Q r | _ => True end /\ forall x, asks Q (k x)
  end.

Section Asks.
Context (Q : aria_req -> Prop).

Lemma asks_bind {A B} (p : prog A) (f : A -> prog B) :
  asks Q p -> (forall a, asks Q (f a)) -> asks Q (bind p f).
Proof. induction p as [a| |X e k IH]; cbn; [auto|done|]. intros [He Hk] Hf. split; auto. Qed.

Lemma asks_bind_err {A B} (p : prog (res A)) (f : A -> prog (res B)) :
  asks Q p -> (forall a, asks Q (f a)) -> asks Q (bind_err p f).
Proof. intros Hp Hf. apply asks_bind; [done|]. intros [e|a]; [done|apply Hf]. Qed.

(** A result that satisfies [P], and the requests that follow it. *)
Lemma asks_bind_rets {A B} (P : A -> Prop) (p : prog A) (f : A -> prog B) :
  rets P p -> asks Q p -> (forall a, P a -> asks Q (f a)) -> asks Q (bind p f).
Proof.
  induction p as [a| |X e k IH]; cbn; [auto|done|]. intros Hr [He Hk] Hf. split; auto.
Qed.

Lemma asks_run {A} (env : Env) (p : prog A) (w : World) :
  asks Q p -> Forall Q (requests w) -> Forall Q (requests (fst (run env p w))).
Proof.
  revert w. induction p as [a| |X e k IH]; intros w; [done..|]. cbn. intros [He Hk] Hw.
  assert (Forall Q (requests (fst (handle env w e)))) as H.
  { destruct e; unfold handle, act; cbn; repeat case_match; cbn; try done. by constructor. }
  destruct (handle env w e) as [w' x]. by apply IH.
Qed.

Lemma quiet_asks {A} (p : prog A) : quiet p -> asks Q p.
Proof.
  induction p as [a| |X e k IH]; intros Hq; [done..|]. split.
  - destruct e; try done. exfalso.
    pose (w := mkWorld empty_db None 0 [] [] ∅ None defaultSettings no_files 0).
    destruct (Hq w) as [Hs _]. pose proof (Hs (calm_env 0) w (same_core_refl w)) as (_ & _ & Hr & _).
    discriminate Hr.
  - intros x. apply IH. intros w0. destruct (Hq w0) as [_ Hk]. apply Hk.
Qed.
End Asks.

(** The store asks nothing. *)
Ltac asks_nothing :=
  repeat first [ done | apply asks_bind_err | apply asks_bind | split | intros ? | case_match ].

Section Start.
Context `{UC : Unicode} (Q : aria_req -> Prop).

Lemma asks_AddEvent (id : Z) (l m : string) : asks Q (AddEvent id l m).
Proof. unfold AddEvent, exec, now. asks_nothing. Qed.

Lemma asks_MarkFailed (id : Z) (c m : string) (t : option Z) : asks Q (MarkFailed id c m t).
Proof. unfold MarkFailed, AddEvent, update_job, exec, query_row, now. asks_nothing. Qed.

Lemma asks_fail_job (id : Z) (c e m : string) (d : Z) : asks Q (fail_job id c e m d).
Proof.
  unfold fail_job, now. apply asks_bind; [apply asks_AddEvent|]. intros _.
  apply asks_bind; [done|]. intros t. apply asks_MarkFailed.
Qed.

Lemma asks_prepare (job : Job) (name : string) (o : gmap string string) :
  asks Q (prepareOutputForStart job name o).
Proof.
  unfold prepareOutputForStart, hasActiveOutputConflict, ListJobs, query. asks_nothing.
Qed.

(** The options sent for a job and its target; [lines] are the headers in some order. *)
Definition sent_options (job : Job) (target : ResolvedTarget) (lines : list (string * string))
  : gmap string string :=
  let options := merge_options (base_options job (sanitizeFilename (TargetFilename target)))
                   (Options target) in
  if (0 <? Z.of_nat (size (Headers target)))%Z then <["header" := header_lines lines]> options
  else options.

Lemma asks_startResolved (job : Job) (target : ResolvedTarget) :
  (forall lines, Q (AddURI (TargetURL target) (sent_options job target lines))) ->
  asks Q (startResolved job target).
Proof.
  intros HQ. unfold startResolved, UpdateResolving, update_job, exec, now. apply asks_bind_err; [asks_nothing|].
  intros _. case_bool; [apply asks_fail_job|]. apply asks_bind.
  { case_bool; [apply asks_prepare|done]. }
  intros [err|u]; [apply asks_fail_job|]. unfold startDownload, with_headers.
  unfold sent_options in HQ. cbv zeta in *. set (o := merge_options _ _) in *.
  assert (forall o', Q (AddURI (TargetURL target) o') ->
    asks Q (gid <- call (Aria (AddURI (TargetURL target) o')) ;;
            match gid with
            | inl err => fail_job (ID job) "download_start_failed" (error_text err) (error_text err) (minutes 10)
            | inr gid => AddEvent (ID job) "info" "download started" ;; MarkDownloading (ID job) "aria2" gid
            end)) as Hsend.
  { intros o' Ho. apply asks_bind; [by split|]. intros [err|gid]; [apply asks_fail_job|].
    apply asks_bind; [apply asks_AddEvent|]. intros _.
    unfold MarkDownloading, update_job, exec, now. asks_nothing. }
  destruct (0 <? Z.of_nat (size (Headers target)))%Z; [|apply Hsend, (HQ [])].
  apply (asks_bind_rets Q (fun o' => exists lines, o' = <["header" := header_lines lines]> o)).
  - intros lines. by exists lines.
  - done.
  - intros o' [lines ->]. apply Hsend, HQ.
Qed.

Lemma asks_resolveAndStart (r : Runner) (job : Job) (T : ResolvedTarget -> Prop) :
  rets (fun x => forall target, x = inr target -> T target)
    (ResolveWithSite (Resolvers r) (Site job) (URL job)) ->
  (forall target lines, T target -> Q (AddURI (TargetURL target) (sent_options job target lines))) ->
  asks Q (resolveAndStart r job).
Proof.
  intros Hr HQ. unfold resolveAndStart, GetJob, query_row. apply asks_bind; [done|]. intros latest.
  case_bool; [apply asks_AddEvent|].
  eapply asks_bind_rets; [exact Hr|apply quiet_asks, ResolveWithSite_quiet|].
  intros [err|target] Ht.
  - unfold resolve_failed, mapResolverError, now. apply asks_bind; [by apply asks_bind|].
    intros [[code msg] t]. apply asks_bind; [apply asks_AddEvent|]. intros _. apply asks_MarkFailed.
  - apply asks_startResolved. intros lines. apply HQ. by apply Ht.
Qed.
End Start.

(** ** The options of a start *)

Lemma merge_options_lookup (own o : gmap string string) (k : string) :
  merge_options own o !! k
  = match o !! k with
    | Some v => if String.eqb v "" then own !! k else Some v
    | None => own !! k
    end.
Proof.
  unfold merge_options. apply (map_fold_weak_ind (fun acc m => acc !! k = match m !! k with
    | Some v => if String.eqb v "" then own !! k else Some v | None => own !! k end)); [done|].
  intros i x m acc Hm IH. destruct (decide (i = k)) as [->|Hik].
  - rewrite lookup_insert_eq. rewrite Hm in IH. case_bool; [done|]. by rewrite lookup_insert_eq.
  - rewrite lookup_insert_ne by done. case_bool; [done|]. by rewrite lookup_insert_ne.
Qed.

Lemma base_options_lookup (job : Job) (filename : string) :
  base_options job filename !! "dir" = Some (OutDir job)
  /\ (forall name, base_options job filename !! "out" = Some name ->
        name = sanitizeFilename (Name job) \/ name = filename).
Proof.
  unfold base_options. split.
  - repeat case_bool; by rewrite ?lookup_insert_ne.
  - intros name. repeat case_bool; rewrite ?lookup_insert_eq; [intros [= <-]; auto..|done].
Qed.

(** ** The daemon *)

(** The linker sets [version]. *)
Definition versionString (version : string) : string :=
  if String.eqb version "" then "dev" else version.

Section Daemon.
Context `{UC : Unicode} `{JE : JsonErrors} `{XD : XmlDecoder} (environ : list string) (fuel : nat).

Definition stateDir : string := getenv environ "DLQ_STATE_DIR" "/state".
Definition dbPath : string := getenv environ "DLQ_DB" (stateDir ++ "/dlq.db").

Definition daemon_aria2 : Aria2Client :=
  NewAria2Client (getenv environ "ARIA2_RPC" "http://127.0.0.1:6800/jsonrpc")
    (getenv environ "ARIA2_SECRET" "").

Definition daemon_service : Service := mkService true (outDirPresetsFromEnv environ).

Definition resRegistry : Registry :=
  let webshareResolver := NewWebshareResolver in
  let megaResolver := NewMegaResolver megaAPI in
  let httpResolver := NewHTTPResolver in
  let r := NewRegistry [webshareResolver; megaResolver; httpResolver] in
  let r := RegisterSite r "webshare" (Some webshareResolver) in
  let r := RegisterSite r "mega" (Some megaResolver) in
  let r := RegisterSite r "http" (Some httpResolver) in
  RegisterSite r "https" (Some httpResolver).

Definition daemon_runner : Runner :=
  mkRunner resRegistry (Some (NewMegaDecryptor fuel)) (Some NewArchiveDecryptor) 0
    (Some Concurrency) (Some AutoDecrypt) 0.

Definition daemon_server (version : string) : Server :=
  mkServer daemon_service (Some (mkMeta (outDirPresetsFromEnv environ) (versionString version)))
    (Some (settings_path stateDir)).

(** A daemon that runs: its settings, the server that answers and the runner's goroutine. *)
Record running : Type := mkRunning {
  RunSettings : SettingsState;
  RunServer : Server;
  RunRunner : Runner;
  RunListen : string
}.

(** [main] up to serving: [opened] is the result of [db.Open], [bound] that of [net.Listen];
    a fatal error is the text that is logged. *)
Definition startup (version : string) (opened bound : res unit) : prog (string + running) :=
  match opened with
  | inl err => Ret (inl ("db open: " ++ error_text err))
  | inr _ =>
      loaded <- NewSettings stateDir ;;
      match loaded with
      | inl err => Ret (inl ("settings init: " ++ error_text err))
      | inr set =>
          match bound with
          | inl err => Ret (inl ("listen: " ++ error_text err))
          | inr _ => Ret (inr (mkRunning set (daemon_server version) daemon_runner (httpListenAddr environ)))
          end
      end
  end.

(** ** Which resolver a job gets *)

(** The resolver of a job: by its site when it has one, else by its URL. *)
Definition picked (site rawURL : string) : option Resolver :=
  let key := ToLower (TrimSpace site) in
  if String.eqb (TrimSpace site) "" then
    if webshare_CanHandle rawURL then Some NewWebshareResolver
    else if mega_CanHandle rawURL then Some (NewMegaResolver megaAPI)
    else if http_CanHandle rawURL then Some NewHTTPResolver
    else None
  else if String.eqb key "webshare" then Some NewWebshareResolver
  else if String.eqb key "mega" then Some (NewMegaResolver megaAPI)
  else if String.eqb key "http" || String.eqb key "https" then Some NewHTTPResolver
  else None.

Lemma sites (site : string) :
  siteResolvers resRegistry !! site
  = if String.eqb site "webshare" then Some NewWebshareResolver
    else if String.eqb site "mega" then Some (NewMegaResolver megaAPI)
    else if String.eqb site "http" || String.eqb site "https" then Some NewHTTPResolver
    else None.
Proof.
  change (siteResolvers resRegistry)
    with (<["https" := NewHTTPResolver]> (<["http" := NewHTTPResolver]>
           (<["mega" := NewMegaResolver megaAPI]> (<["webshare" := NewWebshareResolver]> (∅ : gmap string Resolver))))).
  destruct (decide (site = "webshare")) as [->|H1]; [by rewrite !lookup_insert_ne, lookup_insert_eq by done|].
  destruct (decide (site = "mega")) as [->|H2]; [by rewrite !lookup_insert_ne, lookup_insert_eq by done|].
  destruct (decide (site = "http")) as [->|H3]; [by rewrite lookup_insert_ne, lookup_insert_eq by done|].
  destruct (decide (site = "https")) as [->|H4]; [by rewrite lookup_insert_eq|].
  rewrite !lookup_insert_ne by done. rewrite lookup_empty. apply String.eqb_neq in H1, H2, H3, H4.
  by rewrite H1, H2, H3, H4.
Qed.

Lemma ResolveWithSite_picked (site rawURL : string) :
  ResolveWithSite resRegistry site rawURL
  = match picked site rawURL with
    | Some x => ResolveURL x rawURL
    | None => Ret (inl (if String.eqb (TrimSpace site) "" then ENew "no_resolver" else ESentinel ErrUnknownSite))
    end.
Proof.
  unfold ResolveWithSite, picked. destruct (String.eqb (TrimSpace site) ""); cbn [negb].
  - unfold Resolve. change (resolvers resRegistry)
      with [NewWebshareResolver; NewMegaResolver megaAPI; NewHTTPResolver]. cbn [List.find].
    change (CanHandle NewWebshareResolver) with webshare_CanHandle.
    change (CanHandle (NewMegaResolver megaAPI)) with mega_CanHandle.
    change (CanHandle NewHTTPResolver) with http_CanHandle. by repeat case_bool.
  - rewrite sites. by repeat case_bool.
Qed.

(** What the resolvers answer: options and headers only for Webshare. *)
Definition webshare_target (target : ResolvedTarget) : Prop :=
  Options target = ws_options /\ Headers target = ws_headers.

Definition plain_target (target : ResolvedTarget) : Prop :=
  Options target = ∅ /\ Headers target = ∅.

Definition is_webshare (job : Job) : bool :=
  if String.eqb (TrimSpace (Site job)) "" then webshare_CanHandle (URL job)
  else String.eqb (ToLower (TrimSpace (Site job))) "webshare".

Lemma rets_webshare (u : string) :
  rets (fun x => forall target, x = inr target -> webshare_target target) (webshare_Resolve u).
Proof.
  unfold webshare_Resolve. destruct (Parse u) as [e|v]; [done|]. case_bool; [done|].
  apply rets_bind. intros [e|info]; [done|]. apply rets_bind. intros [e|link]; [done|].
  by intros target [= <-].
Qed.

Lemma rets_mega (api u : string) :
  rets (fun x => forall target, x = inr target -> plain_target target) (mega_Resolve api u).
Proof.
  unfold mega_Resolve. destruct (resolver_parseMegaFileLink u) as [e|[id key]]; [done|].
  apply rets_bind. intros [e|resp]; [done|]. destruct (decryptMegaFilename _ _); [done|].
  by intros target [= <-].
Qed.

Lemma rets_picked (job : Job) :
  rets (fun x => forall target, x = inr target ->
          if is_webshare job then webshare_target target else plain_target target)
    (ResolveWithSite resRegistry (Site job) (URL job)).
Proof.
  rewrite ResolveWithSite_picked. unfold picked, is_webshare.
  assert (rets (fun x => forall target, x = inr target -> plain_target target) (http_Resolve (URL job)))
    as Hh by by intros target [= <-].
  destruct (String.eqb (TrimSpace (Site job)) "");
    repeat case_bool; first [apply rets_webshare | apply rets_mega | exact Hh | done].
Qed.

Lemma ws_options_values (k v : string) : ws_options !! k = Some v -> v <> "" /\ k <> "header".
Proof.
  assert (map_Forall (fun _ v => v <> "") ws_options) as Hv.
  { refine (bool_decide_eq_true_1 _ _). vm_compute. reflexivity. }
  assert (ws_options !! "header" = None) as Hh by (vm_compute; reflexivity).
  intros Hk. split; [exact (Hv k v Hk)|congruence].
Qed.

End Daemon.
