(* ===== verification/Rely.v ===== *)
(** * Threads that know something the others keep

    An invariant of the whole may be kept only because a thread knows something about the
    world, which it learns from the answers of its calls and may use up: [I s] is the
    invariant together with the knowledge [s].  [guards I s Q p]: knowing [s], the program [p]
    keeps the invariant call by call, its knowledge changing as it goes, and ends with a
    result and a knowledge that satisfy [Q].  The other threads must keep [I s] for every [s]. *)

From S2P Require Import Prelude GoError Schema Files Effects.

Section Rely.
Context {S : Type} (I : S -> World -> Prop).

Fixpoint guards {A} (s : S) (Q : S -> A -> Prop) (p : prog A) : Prop :=
  match p with
  | Ret a => Q s a
  | Panic => True
  | Vis e k => forall env w, I s w ->
      exists s', I s' (fst (handle env w e)) /\ guards s' Q (k (snd (handle env w e)))
  end.

Lemma guards_bind {A B} (P : S -> A -> Prop) (Q : S -> B -> Prop) (s : S) (p : prog A) (f : A -> prog B) :
  guards s P p -> (forall s' a, P s' a -> guards s' Q (f a)) -> guards s Q (bind p f).
Proof.
  intros Hp Hf. revert s Hp. induction p as [a| |X e k IH]; intros s Hp; simpl in *; [by apply Hf|done|].
  intros env w Hw. destruct (Hp env w Hw) as (s' & H1 & H2). exists s'. split; [done|]. by apply IH.
Qed.

Lemma guards_mono {A} (P Q : S -> A -> Prop) (s : S) (p : prog A) :
  (forall s' a, P s' a -> Q s' a) -> guards s P p -> guards s Q p.
Proof.
  intros H. revert s. induction p as [a| |X e k IH]; intros s Hp; simpl in *; [by apply H|done|].
  intros env w Hw. destruct (Hp env w Hw) as (s' & H1 & H2). exists s'. split; [done|]. by apply IH.
Qed.

(** More knowledge than is needed. *)
Lemma guards_more {A} (Q : A -> Prop) (s s' : S) (p : prog A) :
  (forall w, I s' w -> I s w) -> guards s (fun _ => Q) p -> guards s' (fun _ => Q) p.
Proof.
  intros Hs Hp. destruct p as [a| |X e k]; simpl in *; [done|done|]. intros env w Hw. by apply Hp, Hs.
Qed.

Lemma guards_safe {A} (s : S) (p : prog A) : safe (I s) p -> guards s (fun s' _ => s' = s) p.
Proof.
  induction p as [a| |X e k IH]; [done..|]. intros [He Hk] env w Hw. exists s. split; [by apply He|]. by apply IH.
Qed.

Lemma guards_rets {A} (Q : A -> Prop) (s : S) (p : prog A) :
  safe (I s) p -> rets Q p -> guards s (fun s' a => s' = s /\ Q a) p.
Proof.
  induction p as [a| |X e k IH]; [done..|]. intros [He Hk] Hr env w Hw. exists s. split; [by apply He|].
  apply IH; [apply Hk|apply Hr].
Qed.

(** Running a program alone. *)
Lemma guards_run {A} (env : Env) (Q : S -> A -> Prop) (s : S) (p : prog A) (w : World) :
  guards s Q p -> I s w -> exists s', I s' (fst (run env p w)).
Proof.
  revert s w. induction p as [a| |X e k IH]; intros s w Hp Hw; [by exists s|by exists s|].
  destruct (Hp env w Hw) as (s' & H1 & H2). simpl. destruct (handle env w e) as [w' x]. by eapply IH.
Qed.

(** ** A pool with one such thread *)

Definition any {A} (s : S) (a : A) : Prop := True.

(** Between the turns, where no transaction is open, the knowledge is [settled]. *)
Context (settled : S -> Prop).

Definition steady (t : thread) : Prop := forall s, settled s -> safe (I s) (code t).

(** At most one thread of the pool is not steady. *)
Inductive crew (s : S) : list thread -> Prop :=
  | crew_nil : crew s []
  | crew_steady t ts : steady t -> crew s ts -> crew s (t :: ts)
  | crew_guard t ts : guards s any (code t) -> Forall steady ts -> crew s (t :: ts).

Lemma crew_all (s : S) (ts : list thread) : Forall steady ts -> crew s ts.
Proof. induction 1; by constructor. Qed.

Lemma crew_app (s : S) (ts ts' : list thread) : crew s ts -> Forall steady ts' -> crew s (ts ++ ts').
Proof.
  intros H Hs. induction H as [|t ts Ht _ IH|t ts Ht Hts]; cbn.
  - by apply crew_all.
  - by apply crew_steady.
  - apply crew_guard; [done|]. by apply Forall_app.
Qed.

(** Whose turn it is: a steady thread's, or the one's. *)
Lemma crew_split (s : S) (l1 : list thread) (t : thread) (l2 : list thread) :
  crew s (l1 ++ t :: l2) ->
  (steady t /\ forall t', steady t' -> crew s (l1 ++ t' :: l2))
  \/ (guards s any (code t) /\ forall s' t', guards s' any (code t') -> crew s' (l1 ++ t' :: l2)).
Proof.
  induction l1 as [|x l1 IH]; intros H; cbn in *; inversion H as [|t0 ts Ht Hts|t0 ts Ht Hts]; subst.
  - left. split; [done|]. intros t' Ht'. by apply crew_steady.
  - right. split; [done|]. intros s' t' Ht'. by apply crew_guard.
  - destruct (IH Hts) as [[H1 H2]|[H1 H2]]; [left|right]; (split; [done|]); intros; apply crew_steady; auto.
  - left. apply Forall_app in Hts as [Hl1 Hts]. apply Forall_cons in Hts as [Hs Hl2]. split; [done|].
    intros t' Ht'. apply crew_guard; [done|]. apply Forall_app. split; [done|]. by apply Forall_cons.
Qed.

Lemma guards_step (s : S) (env : Env) (w w' : World) (t t' : thread) :
  guards s any (code t) -> I s w -> step_thread env w t = Some (w', t') ->
  exists s', I s' w' /\ guards s' any (code t').
Proof.
  unfold step_thread. destruct t as [A p]; simpl. destruct p as [a| |X e k]; [done|done|].
  intros Hk Hw. destruct (blocked env w e); [done|]. destruct (Hk env w Hw) as (s' & H1 & H2).
  destruct (handle env w e) as [w1 x]. intros H. simplify_eq/=. by exists s'.
Qed.

Lemma guards_turn (env : Env) (w w' : World) (t t' : thread) :
  turn env w t w' t' -> forall s, guards s any (code t) -> I s w -> exists s', I s' w' /\ guards s' any (code t').
Proof.
  induction 1 as [w t w' t' Hs _|w t w1 t1 w' t' Hs _ _ IH]; intros s Ht Hw.
  - by eapply guards_step.
  - destruct (guards_step _ _ _ _ _ _ Ht Hw Hs) as (s1 & H1 & H2). by eapply IH.
Qed.

Lemma turn_closed (env : Env) (w w' : World) (t t' : thread) : turn env w t w' t' -> tx w' = None.
Proof. by induction 1. Qed.

Lemma crew_pool (env : Env) (client : thread -> Prop) (spawn : decryptTask -> thread) s ws ws' :
  (forall t, client t -> steady t) -> (forall t, steady (spawn t)) ->
  (forall s c id w, settled s -> I s w -> I s (restart c id w)) ->
  (forall s w, I s w -> tx w = None -> exists s', settled s' /\ I s' w /\ forall w, I s' w -> I s w) ->
  rtc (pool_step env client spawn) ws ws' ->
  settled s -> I s (fst ws) -> crew s (snd ws) ->
  exists s', settled s' /\ I s' (fst ws') /\ crew s' (snd ws').
Proof.
  intros Hc Hsp Hre Hset Hsteps. revert s.
  induction Hsteps as [ws|ws ws1 ws' Hstep _ IH]; intros s Hs Hw Hts; [by exists s|].
  assert (exists s', settled s' /\ I s' (fst ws1) /\ crew s' (snd ws1)) as (s' & H0 & H1 & H2); [|by eapply IH].
  destruct Hstep as [w w' t t' l1 l2 st Hturn _|w ts t Ht|w ts c id]; cbn [fst snd] in *.
  - assert (Forall steady (map spawn st)) as Hst by (apply Forall_map, Forall_forall; intros x _; apply Hsp).
    apply crew_split in Hts as [[Ht Hl]|[Ht Hl]].
    + exists s. destruct (safe_turn (I s) env w w' t t' Hturn (Ht s Hs) Hw) as [Hw' _].
      split; [done|]. split; [done|].
      rewrite app_comm_cons, app_assoc. apply crew_app; [|done]. apply Hl. intros s' Hs'.
      clear - Hturn Ht Hs'. specialize (Ht s' Hs'). induction Hturn; eauto using safe_step_code.
    + destruct (guards_turn _ _ _ _ _ Hturn s Ht Hw) as (s1 & H1 & H2).
      destruct (Hset s1 w' H1) as (s' & H3 & H4 & H5); [by eapply turn_closed|]. exists s'. split; [done|]. split; [done|].
      rewrite app_comm_cons, app_assoc. apply crew_app; [|done]. apply Hl.
      exact (guards_more (fun _ => True) s1 s' _ H5 H2).
  - exists s. split; [done|]. split; [done|]. apply crew_steady; [by apply Hc|done].
  - exists s. split; [done|]. split; [by apply Hre|constructor].
Qed.
End Rely.
