(* ===== verification/System.v ===== *)
(** * The daemon: API handlers, ticks and decrypt goroutines together

    The pool of [Effects] with the daemon's threads: a client is an HTTP request, a tick of
    the runner or its whole loop, a goroutine started with [go] is [runDecrypt].  [pool_exec] runs a given
    schedule; the theorems are about every schedule. *)

From S2P Require Import Prelude GoStrings GoUrl GoError Schema Files Effects Settings Store StoreInv.
From S2P Require Import StoreSpec Archive Resolver Service Api ApiSpec Runner RunnerInv.

#[local] Open Scope string_scope.

Section System.
Context `{UC : Unicode} (s : Server) (r : Runner).

Definition spawn (t : decryptTask) : thread := mkThread unit (runDecrypt r t).

Definition tick_thread (fuel : nat) : thread := mkThread bool (tick fuel r).

Definition request_thread (q : http_request) : thread := mkThread response (serve_http s q).

(** The goroutine that [main] starts. *)
Definition runner_thread (beats fuel : nat) : thread := mkThread unit (Start beats fuel r).

Inductive client : thread -> Prop :=
  | client_request q : client (request_thread q)
  | client_tick fuel : client (tick_thread fuel)
  | client_runner beats fuel : client (runner_thread beats fuel).

Definition init_world (set : SettingsState) : World :=
  mkWorld empty_db None 0 [] [] ∅ None set no_files 0.

Definition reachable (env : Env) (set : SettingsState) (w : World) (ts : list thread) : Prop :=
  rtc (pool_step env client spawn) (init_world set, []) (w, ts).

(** C1. In every state the daemon can reach, by any interleaving of HTTP requests, ticks and
    decrypt goroutines, with any statement, aria2 call, tool or file operation failing and
    the process restarted at any time, the tables are well formed: ids are unique and
    ascending, every job has one of the nine statuses and the columns its status calls for,
    its output directory lies in an allowed root and its name is a plain file name, a stored
    password is trimmed and not blank, and every event belongs to a job. *)
Theorem reachable_DbOk (env : Env) (set : SettingsState) (w : World) (ts : list thread) :
  reachable env set w ts -> DbOk (allowedRoots (Queue s)) (db w).
Proof.
  intros H.
  pose proof (safe_pool (db_inv (DbOk (allowedRoots (Queue s)))) env client spawn (init_world set, []) (w, ts))
    as Hp. destruct Hp as [[Hok _] _]; [| | |exact H| | |exact Hok].
  - intros t [q|fuel|beats fuel]; [apply serve_http_safe; [apply StoreSafe_DbOk|intros u; by apply step_ok_db_inv|intros _; apply safe_ClearAll]| |].
    + exact (tick_safe r _ _ fuel (SS := StoreSafe_DbOk _)).
    + exact (Start_safe r _ _ beats fuel (SS := StoreSafe_DbOk _)).
  - intros t. exact (runDecrypt_safe r _ _ t (SS := StoreSafe_DbOk _)).
  - apply db_inv_restart.
  - split; [apply DbOk_empty|done].
  - constructor.
Qed.

(** ** Running a schedule *)

Inductive move : Type :=
  | Arrive (q : http_request)
  | Tick (fuel : nat)
  | Turn (i : nat)
  | Restart.

Fixpoint turn_exec (n : nat) (env : Env) (w : World) (t : thread) : option (World * thread) :=
  match n with
  | O => None
  | S n =>
      match step_thread env w t with
      | None => None
      | Some (w', t') =>
          match tx w' with None => Some (w', t') | Some _ => turn_exec n env w' t' end
      end
  end.

(** The goroutines started since [old], the last first. *)
Definition started_since (old new : list decryptTask) : list decryptTask :=
  take (List.length new - List.length old) new.

Definition move_exec (env : Env) (m : move) (st : World * list thread)
  : option (World * list thread) :=
  let '(w, ts) := st in
  match m with
  | Arrive q => Some (w, request_thread q :: ts)
  | Tick fuel => Some (w, tick_thread fuel :: ts)
  | Restart => Some (restart (settings w) (request_id w) w, [])
  | Turn i =>
      match drop i ts with
      | t :: after =>
          '(w', t') ← turn_exec 64 env w t;
          Some (w', take i ts ++ t' :: after ++ map spawn (started_since (threads w) (threads w')))%list
      | [] => None
      end
  end.

Fixpoint pool_exec (env : Env) (l : list move) (st : World * list thread)
  : option (World * list thread) :=
  match l with
  | [] => Some st
  | m :: l => st' ← move_exec env m st; pool_exec env l st'
  end.

Lemma turn_exec_sound (n : nat) (env : Env) (w w' : World) (t t' : thread) :
  turn_exec n env w t = Some (w', t') -> turn env w t w' t'.
Proof.
  revert w t. induction n as [|n IH]; intros w t H; [done|]. cbn [turn_exec] in H.
  destruct (step_thread env w t) as [[w1 t1]|] eqn:Es; [|done].
  destruct (tx w1) eqn:Et; simplify_eq.
  - eapply turn_tx; [exact Es|by rewrite Et|by apply IH].
  - by apply turn_call.
Qed.

Lemma threads_handle {X} (env : Env) (w : World) (e : ev X) :
  exists st, threads (fst (handle env w e)) = (st ++ threads w)%list.
Proof.
  destruct e; unfold handle, act; cbn; repeat case_match; cbn;
    first [by exists [] | by eexists [_]].
Qed.

Lemma threads_turn (env : Env) (w w' : World) (t t' : thread) :
  turn env w t w' t' -> exists st, threads w' = (st ++ threads w)%list.
Proof.
  assert (forall w w' t t', step_thread env w t = Some (w', t') ->
            exists st, threads w' = (st ++ threads w)%list) as Hstep.
  { intros v v' u u'. unfold step_thread. destruct u as [A [a| |X e k]]; cbn; [done|done|].
    destruct (blocked _ _ _); [done|]. destruct (threads_handle env v e) as [st Hst].
    destruct (handle env v e) as [v1 x]. intros [= <- _]. by exists st. }
  induction 1 as [w t w' t' Hs _|w t w1 t1 w' t' Hs _ _ IH]; [by eapply Hstep|].
  destruct (Hstep _ _ _ _ Hs) as [st1 H1]. destruct IH as [st2 H2]. exists (st2 ++ st1)%list.
  by rewrite H2, H1, app_assoc.
Qed.

Lemma started_since_app (st old : list decryptTask) : started_since old (st ++ old) = st.
Proof.
  unfold started_since. rewrite length_app.
  replace (_ - _)%nat with (List.length st) by lia. by rewrite take_app_length.
Qed.

(** The threads that a move brings. *)
Definition arrives (c : thread -> Prop) (m : move) : Prop :=
  match m with
  | Arrive q => c (request_thread q)
  | Tick fuel => c (tick_thread fuel)
  | Turn _ | Restart => True
  end.

Lemma pool_exec_within (c : thread -> Prop) (env : Env) (l : list move) (st st' : World * list thread) :
  Forall (arrives c) l -> pool_exec env l st = Some st' -> rtc (pool_step env c spawn) st st'.
Proof.
  intros Hl. revert st. induction Hl as [|m l Hm Hl IH]; intros [w ts] H; cbn [pool_exec] in H; [by simplify_eq|].
  destruct (move_exec env m (w, ts)) as [st1|] eqn:Em; [|done]. cbn in H.
  eapply rtc_l; [|by apply IH]. destruct m as [q|fuel|i|];
    cbn [move_exec] in Em; simplify_eq.
  - by apply pool_client.
  - by apply pool_client.
  - destruct (drop i ts) as [|t after] eqn:Ed; [done|].
    destruct (turn_exec 64 env w t) as [[w' t']|] eqn:Et;
      cbn [mbind option_bind] in Em; simplify_eq.
    apply turn_exec_sound in Et. destruct (threads_turn _ _ _ _ _ Et) as [started Hst].
    rewrite <- (take_drop i ts) at 1. rewrite Ed, Hst, started_since_app. by apply pool_turn.
  - apply pool_restart.
Qed.

Lemma pool_exec_sound (env : Env) (l : list move) (st st' : World * list thread) :
  pool_exec env l st = Some st' -> rtc (pool_step env client spawn) st st'.
Proof. apply pool_exec_within, Forall_forall. intros [] _; by constructor. Qed.
End System.

(** ** A removal that is lost *)

#[local] Instance SystemUnicode : Unicode := {| unicode_lower := ascii_lower |}.

Definition sample_runner : Runner :=
  mkRunner (NewRegistry [NewHTTPResolver]) None None 2 (Some Concurrency) (Some AutoDecrypt) 1.

(** A direct link is queued; the tick claims it and reads the row once more; the user removes
    the job; the tick goes on. *)
Definition lost_removal : list move :=
  (Arrive (post_job (mkAddJob "https://host/f.bin" "/data/tv" "" "" "" 3)) :: repeat (Turn 0) 4
   ++ Tick 5 :: repeat (Turn 0) 8
   ++ Arrive (request_to "POST" "/jobs/1/remove" "") :: repeat (Turn 0) 5
   ++ repeat (Turn 1) 8)%list.

Definition lost_removal_ok (st : World * list thread) : bool :=
  match jobs (db (fst st)) with
  | [j] =>
      String.eqb (Status j) StatusDownloading && bool_decide (DeletedAt j <> None)
      && negb (list_filter StatusDownloading false j)
      && bool_decide (EngineGID j = Some "gid-1")
      && forallb (fun q => match q with RemoveGid _ => false | _ => true end) (requests (fst st))
  | _ => false
  end.

Lemma lost_removal_runs :
  exists w ts, pool_exec api_server sample_runner (calm_env 200) lost_removal
                 (init_world (mkSettings 2 5 true), []) = Some (w, ts)
               /\ lost_removal_ok (w, ts) = true.
Proof.
  assert (option_map lost_removal_ok (pool_exec api_server sample_runner (calm_env 200)
            lost_removal (init_world (mkSettings 2 5 true), [])) = Some true) as Hok
    by (vm_compute; reflexivity).
  destruct (pool_exec _ _ _ lost_removal _) as [[w ts]|]; [|discriminate Hok].
  injection Hok as Hok. by exists w, ts.
Qed.


Lemma reachable_DbOk_witness :
  exists w ts, reachable api_server sample_runner (calm_env 200) (mkSettings 2 5 true) w ts
    /\ jobs (db w) <> [] /\ DbOk ["/data/tv"] (db w).
Proof.
  destruct lost_removal_runs as (w & ts & E & Hok). exists w, ts.
  assert (reachable api_server sample_runner (calm_env 200) (mkSettings 2 5 true) w ts) as Hr
    by exact (pool_exec_sound _ _ _ lost_removal _ _ E).
  split; [exact Hr|]. split.
  - intros Hj. unfold lost_removal_ok in Hok. cbn [fst] in Hok. rewrite Hj in Hok. discriminate.
  - exact (reachable_DbOk api_server sample_runner (calm_env 200) _ w ts Hr).
Defined.
