(* ===== verification/History.v ===== *)
(** * What is never forgotten

    Whatever the daemon does, short of a purge, a job keeps its identity and the log of events
    only grows: an invariant about two states, the one at the start of a run and the one at
    its end, kept call by call like every other invariant of the tables. *)

From S2P Require Import Prelude GoStrings GoUrl GoError Schema Files Effects Settings Store StoreInv.
From S2P Require Import StoreSpec Archive Resolver Service Api ApiSpec Runner RunnerInv System.

#[local] Open Scope string_scope.

(** ** A row later *)

(** What the daemon never changes of a job: where it comes from and where it goes.  Attempts
    are only added, and a password is only forgotten. *)
Record kept (j j' : Job) : Prop := {
  kept_id : ID j' = ID j;
  kept_url : URL j' = URL j;
  kept_site : Site j' = Site j;
  kept_out_dir : OutDir j' = OutDir j;
  kept_name : Name j' = Name j;
  kept_max : MaxAttempts j' = MaxAttempts j;
  kept_created : CreatedAt j' = CreatedAt j;
  kept_attempts : (Attempts j <= Attempts j')%Z;
  kept_password : ArchivePassword j' = ArchivePassword j \/ ArchivePassword j' = None
}.

#[global] Instance kept_preorder : PreOrder kept.
Proof.
  split.
  - intros j. split; try done. by left.
  - intros j1 j2 j3 [] []. split; try congruence; [lia|].
    match goal with H : ArchivePassword j3 = _ \/ _ |- _ => destruct H as [-> | ->]; by auto end.
Qed.

(** The tables later: every row is still there, in its place, and new rows with greater ids
    follow; new events follow the earlier ones. *)
Definition newer (l : list Job) (j' : Job) : Prop := Forall (fun j => ID j < ID j')%Z l.

Definition follows (d d' : Db) : Prop :=
  (exists l new, jobs d' = (l ++ new)%list /\ Forall2 kept (jobs d) l /\ Forall (newer (jobs d)) new)
  /\ events d `prefix_of` events d'.

(** No new rows. *)
Lemma follows_rows (d d' : Db) : Forall2 kept (jobs d) (jobs d') -> events d `prefix_of` events d' -> follows d d'.
Proof. intros H He. split; [|done]. exists (jobs d'), []. split; [by rewrite app_nil_r|done]. Qed.

Lemma kept_ids (l l' : list Job) : Forall2 kept l l' -> map ID l' = map ID l.
Proof. induction 1 as [|j j' l l' [] _ IH]; cbn; congruence. Qed.

Lemma newer_ids (l l' : list Job) (j : Job) : map ID l' = map ID l -> newer l j <-> newer l' j.
Proof.
  intros H. unfold newer. rewrite <- (Forall_map ID (fun i => i < ID j)%Z l), <- (Forall_map ID (fun i => i < ID j)%Z l').
  change (ID <$> l) with (map ID l). change (ID <$> l') with (map ID l'). by rewrite H.
Qed.

#[global] Instance follows_preorder : PreOrder follows.
Proof.
  split.
  - intros d. by apply follows_rows.
  - intros d1 d2 d3 [(l1 & n1 & E1 & H1 & N1) P1] [(l2 & n2 & E2 & H2 & N2) P2]. split; [|by etrans].
    rewrite E1 in H2. apply Forall2_app_inv_l in H2 as (l & n & H2 & H3 & ->).
    exists l, (n ++ n2)%list. split; [by rewrite E2, app_assoc|]. split; [by etrans|]. apply Forall_app. split.
    + clear - N1 H3. induction H3 as [|j j' l l' [] _ IH]; [done|]. apply Forall_cons in N1 as [Hj N1].
      apply Forall_cons. split; [|by apply IH]. unfold newer in *. eapply Forall_impl; [exact Hj|]. cbn. intros. congruence.
    + eapply Forall_impl; [exact N2|]. intros j Hj. rewrite E1 in Hj. apply Forall_app in Hj as [Hj _].
      apply (newer_ids _ l1); [by apply kept_ids|exact Hj].
Qed.

Section Follows.
Context (d0 : Db).

Definition keeps_rows (f : Job -> Job) : Prop := forall j, kept j (f j).

Lemma follows_update (p : Job -> bool) (f : Job -> Job) (d : Db) :
  keeps_rows f -> follows d0 d -> follows d0 (update_where p f d).
Proof.
  intros Hf H. etrans; [exact H|]. apply follows_rows; [|done]. unfold update_where, update_rows. cbn.
  apply Forall2_fmap_r, Forall_Forall2_diag, Forall_forall. intros j _. cbn. by destruct (p j).
Qed.

Lemma follows_event (id : Z) (level msg : string) (t : Z) (d : Db) :
  follows d0 d -> follows d0 (fst (insert_event id level msg t d)).
Proof.
  intros H. etrans; [exact H|]. unfold insert_event. destruct (find_job id d); [|done]. case_bool; [done|].
  apply follows_rows; cbn; [done|]. by apply prefix_app_r.
Qed.

Lemma follows_create (url site out name : string) (pw : option string) (n t : Z) (d : Db) :
  follows d0 d -> follows d0 (fst (insert_job (new_row url site out name pw n t) d)).
Proof.
  intros H. etrans; [exact H|]. unfold insert_job. case_bool; [done|].
  split; cbn; [|done]. eexists (jobs d), _. split; [done|]. split; [done|]. apply Forall_singleton.
  destruct (next_id_fresh (seq_jobs d) (map ID (jobs d))) as [_ Hn]. unfold newer. by apply Forall_map in Hn.
Qed.

#[global] Instance StoreSafe_follows (new_ok : string -> string -> option string -> Z -> Prop) :
  StoreSafe (db_inv (follows d0)) new_ok.
Proof.
  assert (forall url site out name pw n t d, new_ok out name pw n -> follows d0 d ->
            follows d0 (fst (insert_job (new_row url site out name pw n t) d))) as Hc
    by (intros; by apply follows_create).
  store_closed follows_update follows_event Hc
    ltac:(intros; unfold keeps_rows; intros j; split; try reflexivity;
          solve [by left | by right | cbn; lia]).
Qed.
End Follows.

(** ** Runs without a purge *)

Section Lasting.
Context `{UC : Unicode} (s : Server) (r : Runner).

(** Everything the daemon does but a purge. *)
Inductive lasting : thread -> Prop :=
  | lasting_request q : ~ purges q -> lasting (request_thread s q)
  | lasting_tick fuel : lasting (tick_thread r fuel)
  | lasting_runner beats fuel : lasting (runner_thread r beats fuel).

Abbreviation step env := (pool_step env lasting (spawn r)).

Lemma lasting_safe (d : Db) (t : thread) : lasting t -> safe (db_inv (follows d)) (code t).
Proof.
  intros [q Hq|fuel|beats fuel].
  - apply serve_http_safe; [apply _|intros u; by apply step_ok_db_inv|by intros Hp].
  - exact (tick_safe r _ (fun _ _ _ _ => True) fuel).
  - exact (Start_safe r _ (fun _ _ _ _ => True) beats fuel).
Qed.

Lemma spawn_safe (d : Db) (t : decryptTask) : safe (db_inv (follows d)) (code (spawn r t)).
Proof. exact (runDecrypt_safe r _ (fun _ _ _ _ => True) t). Qed.

Lemma find_kept (d d' : Db) (id : Z) (j : Job) :
  follows d d' -> find_job id d = Some j -> exists j', find_job id d' = Some j' /\ kept j j'.
Proof.
  intros [(l & new & E & Hl & _) _]. unfold find_job, rows_where. rewrite E. clear E.
  induction Hl as [|x x' m l Hx Hl IH]; [done|]. cbn [app List.filter]. assert (has_id id x' = has_id id x) as ->
    by (unfold has_id; by rewrite (kept_id _ _ Hx)).
  destruct (has_id id x); [|exact IH]. cbn. intros [= <-]. by exists x'.
Qed.

(** C2. A job keeps its identity and nothing is taken out of the log.  In every run without a
    purge, whatever requests, ticks and goroutines are interleaved, whatever fails and however
    often the daemon is restarted: a job that was there is there at every later time, with
    the same link, site, directory, name, limit of attempts and time of creation, at least as
    many attempts, and the same archive password or none; every new job has a greater id, and
    the events of the earlier time are the first ones of the later log. *)
Theorem nothing_forgotten (env : Env) (w0 w w' : World) (ts ts' : list thread)
  (Htx : tx w0 = None) (H0 : rtc (step env) (w0, []) (w, ts)) (H : rtc (step env) (w, ts) (w', ts')) :
  (forall id j, find_job id (db w) = Some j -> exists j', find_job id (db w') = Some j' /\ kept j j')
  /\ (forall j', j' ∈ jobs (db w') -> newer (jobs (db w)) j' \/ exists j, j ∈ jobs (db w) /\ ID j = ID j')
  /\ events (db w) `prefix_of` events (db w').
Proof.
  pose proof (lasting_safe (db w)) as Hc. pose proof (spawn_safe (db w)) as Hs.
  assert (follows (db w) (db w')) as Hf.
  { destruct (safe_pool (db_inv (follows (db w))) env lasting (spawn r) (w, ts) (w', ts') Hc Hs
                (db_inv_restart _) H) as [[Hf _] _]; [| |exact Hf].
    - split; [done|]. pose proof (pool_tx _ _ _ _ _ H0 Htx) as E. cbn [fst] in *. by rewrite E.
    - by apply (safe_pool_code _ env lasting (spawn r) _ _ Hc Hs H0). }
  split; [|split; [|exact (proj2 Hf)]].
  - intros id j. by apply find_kept.
  - destruct Hf as [(l & new & -> & Hl & Hn) _]. intros j' [Hj|Hj]%elem_of_app; [right|left].
    + apply kept_ids in Hl. apply (list_elem_of_fmap_2 ID) in Hj. change (ID <$> l) with (map ID l) in Hj.
      rewrite Hl in Hj. apply list_elem_of_fmap in Hj as (j & E & Hj). by exists j.
    + rewrite Forall_forall in Hn. by apply Hn.
Qed.
End Lasting.

(** ** Witness *)

#[local] Instance HistoryUnicode : Unicode := {| unicode_lower := ascii_lower |}.

(** Job 7 is downloading when the daemon is asked to remove it. *)
Definition removal : list move :=
  (Arrive (request_to "POST" "/jobs/7/remove" "") :: repeat (Turn 0) 4)%list.

Lemma nothing_forgotten_witness :
  exists w ts j, pool_exec api_server sample_runner (calm_env 200) removal (started_world, []) = Some (w, ts)
    /\ find_job 7 (db w) = Some j /\ Status j = StatusDeleted /\ kept started_job j.
Proof.
  assert (match pool_exec api_server sample_runner (calm_env 200) removal (started_world, []) with
          | Some (w, _) => match find_job 7 (db w) with Some j => String.eqb (Status j) StatusDeleted | None => false end
          | None => false
          end = true) as H by (vm_compute; reflexivity).
  destruct (pool_exec api_server sample_runner (calm_env 200) removal (started_world, [])) as [[w ts]|] eqn:E;
    [|discriminate H].
  destruct (find_job 7 (db w)) as [j|] eqn:Ej; [|discriminate H]. apply String.eqb_eq in H.
  exists w, ts, j. split; [reflexivity|]. split; [exact Ej|]. split; [exact H|].
  destruct (nothing_forgotten api_server sample_runner (calm_env 200) started_world started_world w [] ts
              eq_refl (rtc_refl _ _)) as [Hk _].
  - apply (pool_exec_within api_server sample_runner (lasting api_server sample_runner) _ removal); [|exact E].
    unfold removal. constructor; [|cbn; repeat constructor]. apply lasting_request.
    intros [_ Hp]. revert Hp. vm_compute. discriminate.
  - destruct (Hk 7%Z started_job started_found) as (j' & Hj' & Hkept). rewrite Ej in Hj'.
    injection Hj' as ->. exact Hkept.
Defined.
