(* ===== verification/Retries.v ===== *)
(** * The daemon gives up

    internal/queue/runner.go and store.go together: a failed job is tried again by itself only
    while it has attempts left, so no job is attempted more often than its limit allows,
    whatever fails and however the decrypt goroutines are interleaved with the runner.

    What keeps this is what the runner knows while it works through a list: that the jobs it
    has still to look at have an attempt left ([Rely.guards]). *)

From S2P Require Import Prelude GoStrings GoUrl GoError Schema Files Effects Settings Store StoreInv Archive Resolver.
From S2P Require Import Rely StoreSpec Service Api ApiSpec Runner RunnerInv RunnerSpec System.

#[local] Open Scope string_scope.

(** ** The invariant *)

(** The statuses of jobs that the daemon is trying to download. *)
Definition trying (j : Job) : bool :=
  existsb (String.eqb (Status j)) [StatusQueued; StatusResolving; StatusDownloading].

Definition has_left (j : Job) : Prop := (Attempts j < MaxAttempts j)%Z.

(** Attempts never exceed the limit and a job that is being tried has one left; [known] are
    the ids of jobs that are known to have one left. *)
Record within (known : list Z) (d : Db) : Prop := {
  within_ids : StronglySorted Z.lt (map ID (jobs d));
  within_limit : Forall (fun j => Attempts j <= MaxAttempts j)%Z (jobs d);
  within_trying : Forall (fun j => trying j = true -> has_left j) (jobs d);
  within_known : Forall (fun j => ID j ∈ known -> has_left j) (jobs d)
}.

Lemma within_fewer (k k' : list Z) (d : Db) : k ⊆ k' -> within k' d -> within k d.
Proof. intros Hk [H1 H2 H3 H4]. split; try done. eapply Forall_impl; [exact H4|]. cbn. auto. Qed.

(** Rows that have an attempt left are known to from then on. *)
Lemma within_learn (k : list Z) (l : list Job) (d : Db) :
  within k d -> (forall j, j ∈ l -> j ∈ jobs d /\ has_left j) -> within (map ID l ++ k) d.
Proof.
  intros [H1 H2 H3 H4] Hl. split; try done. apply Forall_forall. intros j Hj [Hk|Hk]%elem_of_app.
  - apply list_elem_of_fmap in Hk as (x & E & Hx). destruct (Hl x Hx) as [Hx' Hleft].
    by rewrite (sorted_ids_unique (jobs d) j x).
  - rewrite Forall_forall in H4. by apply H4.
Qed.

(** An update that touches no counter and makes no job one that is tried but the known ones. *)
Lemma within_update (k : list Z) (p : Job -> bool) (f : Job -> Job) (d : Db) :
  (forall j, ID (f j) = ID j /\ Attempts (f j) = Attempts j /\ MaxAttempts (f j) = MaxAttempts j) ->
  (forall j, p j = true -> trying (f j) = true -> trying j = true \/ ID j ∈ k) ->
  within k d -> within k (update_where p f d).
Proof.
  intros Hf Hp [H1 H2 H3 H4].
  assert (forall P : Job -> Prop, Forall P (update_rows p f (jobs d)) <-> Forall (fun j => P (if p j then f j else j)) (jobs d)) as Hall.
  { intros P. unfold update_rows. apply Forall_map. }
  split; cbn; rewrite ?Hall.
  - rewrite update_rows_ids; [done|]. intros j. apply Hf.
  - eapply Forall_impl; [exact H2|]. cbn. intros j. destruct (p j); [|done]. destruct (Hf j) as (_ & -> & ->). done.
  - apply Forall_forall. intros j Hj. rewrite Forall_forall in H3, H4. unfold has_left. destruct (p j) eqn:E; [|by apply H3].
    destruct (Hf j) as (_ & -> & ->). intros Ht. destruct (Hp j E Ht); [by apply H3|by apply H4].
  - eapply Forall_impl; [exact H4|]. cbn. intros j Hj. unfold has_left in *. destruct (p j); [|done].
    by destruct (Hf j) as (-> & -> & ->).
Qed.

Lemma within_event (k : list Z) (id : Z) (l m : string) (t : Z) (d : Db) :
  within k d -> within k (fst (insert_event id l m t d)).
Proof. intros [H1 H2 H3 H4]. pose proof (insert_event_jobs id l m t d) as E. by split; rewrite E. Qed.

(** A failure uses up what was known of its job. *)
Lemma within_failed (k : list Z) (id : Z) (code msg : string) (next : option Z) (t : Z) (d : Db) :
  id ∉ k -> within (id :: k) d -> within k (update_where (has_id id) (failed_row code msg next t) d).
Proof.
  intros Hid [H1 H2 H3 H4]. split; cbn.
  - by rewrite update_rows_ids.
  - unfold update_rows. apply Forall_map, Forall_forall. intros j Hj. rewrite Forall_forall in H2, H4.
    specialize (H2 j Hj). specialize (H4 j Hj). cbn. unfold has_id, has_left in *. case_bool; [|done]. bool_prop.
    cbn. enough (Attempts j < MaxAttempts j)%Z by lia. apply H4. subst. left.
  - unfold update_rows. apply Forall_map. eapply Forall_impl; [exact H3|]. cbn. intros j Hj. by case_bool.
  - unfold update_rows. apply Forall_map. eapply Forall_impl; [exact H4|]. cbn. intros j Hj. unfold has_id.
    destruct (ID j =? id)%Z eqn:E; bool_prop.
    + cbn. intros Hk. exfalso. apply Hid. by rewrite <- E.
    + intros Hk. apply Hj. by right.
Qed.

(** ** The runner's knowledge *)

(** Whether the thread has a transaction open, and whether it has written in it. *)
Inductive mode : Type := Idle | Begun | Changed.

Definition knows (s : list Z * mode) (w : World) : Prop :=
  within (fst s) (db w)
  /\ match snd s with
     | Idle => tx w = None
     | Begun => tx w = Some (db w)
     | Changed => forall d, tx w = Some d -> within (fst s) d
     end.

Lemma knows_fewer (k k' : list Z) (w : World) : k ⊆ k' -> knows (k', Idle) w -> knows (k, Idle) w.
Proof. intros Hk [H1 H2]. split; [by eapply within_fewer|done]. Qed.

Section Knows.
Context (k : list Z).

Lemma knows_core (w w' : World) : same_core w w' -> knows (k, Idle) w -> knows (k, Idle) w'.
Proof. intros (H1 & H2 & _) [H3 H4]. split; cbn in *; congruence. Qed.

Lemma knows_quiet {A} (p : prog A) : quiet p -> safe (knows (k, Idle)) p.
Proof. apply (quiet_safe _ _ knows_core). Qed.

Lemma knows_sql {X} (q : Db -> Db * res X) :
  (forall d, within k d -> within k (fst (q d))) -> safe (knows (k, Idle)) (call (Sql q)).
Proof.
  intros Hq. apply safe_call. intros env w [H1 H2]. unfold handle, act. cbn.
  destruct (sql_fault env (clock w)); cbn; [done|]. specialize (Hq (db w) H1).
  destruct (q (db w)) as [d x]. by split.
Qed.

(** Calls that have nothing to do with the database. *)
Definition aside {X} (e : ev X) : bool :=
  match e with Sql _ | TxBegin | TxCommit | TxRollback => false | _ => true end.

Lemma knows_aside {X} (e : ev X) : aside e = true -> safe (knows (k, Idle)) (call e).
Proof.
  intros He. apply safe_call. intros env w [H1 H2].
  destruct e; try discriminate He; unfold handle, act; cbn; repeat case_match; by split.
Qed.

Lemma knows_event (id : Z) (l m : string) : safe (knows (k, Idle)) (AddEvent id l m).
Proof.
  apply safe_bind; [by apply knows_aside|]. intros t. apply knows_sql. intros d. apply within_event.
Qed.

(** The shape of the store's updates by id. *)
Lemma knows_update (id : Z) (f : Z -> Job -> Job) :
  (forall t j, ID (f t j) = ID j /\ Attempts (f t j) = Attempts j /\ MaxAttempts (f t j) = MaxAttempts j) ->
  (forall t j, trying (f t j) = true -> trying j = true \/ id ∈ k) ->
  safe (knows (k, Idle)) (t <- now ;; update_job id (f t)).
Proof.
  intros Hf Ht. apply safe_bind; [by apply knows_aside|]. intros t. apply knows_sql. intros d.
  apply within_update; [done|]. intros j Hj Htry. unfold has_id in Hj. bool_prop. subst. by apply Ht in Htry.
Qed.

Lemma knows_MarkCompleted (id : Z) : safe (knows (k, Idle)) (MarkCompleted id).
Proof. by apply knows_update. Qed.

Lemma knows_MarkDecrypting (id b : Z) : safe (knows (k, Idle)) (MarkDecrypting id b).
Proof. by apply knows_update. Qed.

Lemma knows_MarkPostprocessFailed (id : Z) (m c : string) : safe (knows (k, Idle)) (MarkPostprocessFailed id m c).
Proof. unfold MarkPostprocessFailed. by apply knows_update. Qed.

Lemma knows_ClearArchivePassword (id : Z) : safe (knows (k, Idle)) (ClearArchivePassword id).
Proof. apply knows_update; [done|]. by left. Qed.

Lemma knows_UpdateResolving (id : Z) (u f : string) (n : Z) : safe (knows (k, Idle)) (UpdateResolving id u f n).
Proof. apply knows_update; [done|]. by left. Qed.

(** These make a job one that is tried. *)
Lemma knows_MarkDownloading (id : Z) (e g : string) : id ∈ k -> safe (knows (k, Idle)) (MarkDownloading id e g).
Proof. intros Hid. apply knows_update; [done|]. by right. Qed.

Lemma knows_UpdateProgress (id b : Z) (st : string) (v e : Z) : id ∈ k -> safe (knows (k, Idle)) (UpdateProgress id b st v e).
Proof. intros Hid. apply knows_update; [done|]. by right. Qed.

Lemma knows_Requeue (id : Z) : id ∈ k -> safe (knows (k, Idle)) (Requeue id).
Proof. intros Hid. apply knows_update; [done|]. by right. Qed.
End Knows.

(** Knowledge is only kept or used up by one job. *)
Definition still {A} (k : list Z) (s : list Z * mode) (a : A) : Prop := exists k', s = (k', Idle) /\ k ⊆ k'.

Lemma still_any {A} (k : list Z) (a : A) : still [] (k, Idle) a.
Proof. exists k. split; [done|set_solver]. Qed.

Lemma still_safe {A} (k k' : list Z) (p : prog A) :
  safe (knows (k', Idle)) p -> k ⊆ k' -> guards knows (k', Idle) (still k) p.
Proof. intros Hp Hk. eapply guards_mono; [|by apply guards_safe]. intros s a ->. by exists k'. Qed.

Lemma known_then {A B} (k : list Z) (Q : list Z * mode -> B -> Prop) (p : prog A) (f : A -> prog B) :
  safe (knows (k, Idle)) p -> (forall a, guards knows (k, Idle) Q (f a)) -> guards knows (k, Idle) Q (bind p f).
Proof. intros Hp Hf. eapply guards_bind; [by apply guards_safe|]. intros s a ->. apply Hf. Qed.

Lemma known_then_err {A B} (k k' : list Z) (p : prog (res A)) (f : A -> prog (res B)) :
  safe (knows (k', Idle)) p -> k ⊆ k' -> (forall a, guards knows (k', Idle) (still k) (f a)) ->
  guards knows (k', Idle) (still k) (bind_err p f).
Proof. intros Hp Hk Hf. apply known_then; [done|]. intros [e|a]; [by exists k'|apply Hf]. Qed.

(** A failure is the last thing that is done with a job. *)
Lemma guards_MarkFailed (k : list Z) (id : Z) (code msg : string) (next : option Z) :
  id ∉ k -> guards knows (id :: k, Idle) (still k) (MarkFailed id code msg next).
Proof.
  intros Hid. unfold MarkFailed. apply known_then; [by apply knows_aside|]. intros t.
  eapply (guards_bind _ (fun s (_ : res unit) => s = (k, Idle))).
  - intros env w Hw. exists (k, Idle). split; [|done]. destruct Hw as [H1 H2]. unfold handle, act. cbn.
    destruct (sql_fault env (clock w)); cbn; (split; [|done]); cbn.
    + eapply within_fewer; [|exact H1]. set_solver.
    + by apply within_failed.
  - intros s [e|x] ->; [by exists k|]. apply still_safe; [|done].
    apply safe_bind_err; [apply knows_quiet, query_row_quiet|]. intros [a b]. case_bool; [|done].
    apply safe_bind; [apply knows_event|done].
Qed.

Lemma guards_fail_job (k : list Z) (id : Z) (c e m : string) (d : Z) :
  id ∉ k -> guards knows (id :: k, Idle) (still k) (fail_job id c e m d).
Proof.
  intros Hid. unfold fail_job. apply known_then; [apply knows_event|]. intros _.
  apply known_then; [by apply knows_aside|]. intros t. by apply guards_MarkFailed.
Qed.

Lemma guards_known {A} (k0 k k' : list Z) (p : prog A) :
  k ⊆ k' -> guards knows (k, Idle) (still k0) p -> guards knows (k', Idle) (still k0) p.
Proof.
  intros Hk Hp. destruct p as [a| |X e f]; simpl in *; [|done|].
  - destruct Hp as (k1 & [= <-] & H). exists k'. split; [done|set_solver].
  - intros env w Hw. apply Hp. by eapply knows_fewer.
Qed.

(** Working through a list whose members are all known. *)
Lemma guards_for_each {A} (key : A -> Z) (l : list A) (body : A -> prog unit) :
  NoDup (map key l) -> (forall x k, key x ∉ k -> guards knows (key x :: k, Idle) (still k) (body x)) ->
  guards knows (map key l, Idle) (still []) (for_each l body).
Proof.
  intros Hl Hb. induction l as [|x l IH]; [by exists []|]. cbn [map for_each].
  apply NoDup_cons in Hl as [Hx Hl]. eapply guards_bind; [by apply Hb|].
  intros s a (k' & -> & Hk). eapply guards_known; [exact Hk|]. by apply IH.
Qed.

(** What an answer of the database teaches. *)
Lemma guards_query {X} (k : list Z) (q : Db -> X) (learn : X -> list Z) :
  (forall d, within k d -> within (learn (q d) ++ k)%list d) ->
  guards knows (k, Idle) (fun s r => match r with
                                    | inl _ => s = (k, Idle)
                                    | inr x => (exists d, within k d /\ x = q d) /\ s = ((learn x ++ k)%list, Idle)
                                    end) (query q).
Proof.
  intros Hq env w [H1 H2]. unfold handle, act. cbn. destruct (sql_fault env (clock w)); cbn.
  - by exists (k, Idle).
  - exists (learn (q (db w)) ++ k, Idle)%list. split; [split; [by apply Hq|done]|]. split; [by exists (db w)|done].
Qed.

Lemma rows_NoDup (k : list Z) (p : Job -> bool) (d : Db) : within k d -> NoDup (map ID (rows_where p d)).
Proof.
  intros [Hs _ _ _]. by apply sorted_NoDup, sorted_filter.
Qed.

(** Programs that keep what is known. *)
Ltac knowing :=
  repeat lazymatch goal with
  | |- safe _ (Ret _) => exact Logic.I
  | |- safe _ Panic => exact Logic.I
  | |- safe _ (bind _ _) => apply safe_bind; [|intros]
  | |- safe _ (bind_err _ _) => apply safe_bind_err; [|intros]
  | |- safe _ (AddEvent _ _ _) => apply knows_event
  | |- safe _ (UpdateResolving _ _ _ _) => apply knows_UpdateResolving
  | |- safe _ (MarkDownloading _ _ _) => apply knows_MarkDownloading; set_solver
  | |- safe _ (UpdateProgress _ _ _ _ _) => apply knows_UpdateProgress; set_solver
  | |- safe _ (MarkCompleted _) => apply knows_MarkCompleted
  | |- safe _ (MarkDecrypting _ _) => apply knows_MarkDecrypting
  | |- safe _ (MarkPostprocessFailed _ _ _) => apply knows_MarkPostprocessFailed
  | |- safe _ (ClearArchivePassword _) => apply knows_ClearArchivePassword
  | |- safe _ (Requeue _) => apply knows_Requeue; set_solver
  | |- safe _ (Store.GetJob _) => apply knows_quiet, query_row_quiet
  | |- safe _ (Store.ListJobs _ _) => apply knows_quiet, query_quiet
  | |- safe _ (call _) => apply knows_aside; reflexivity
  | |- safe _ now => apply knows_aside; reflexivity
  | |- safe _ (or_panic _) => apply safe_or_panic
  | |- safe _ (for_each _ _) => apply safe_for_each; intros
  | |- safe _ (match ?x with _ => _ end) => destruct x eqn:?
  end.

Section Runner.
Context `{UC : Unicode} (r : Runner).

Lemma guards_startDownload (k : list Z) (job : Job) (target : ResolvedTarget) (options : gmap string string) :
  ID job ∉ k -> guards knows (ID job :: k, Idle) (still k) (startDownload job target options).
Proof.
  intros Hid. unfold startDownload, with_headers. apply known_then; [knowing|]. intros o.
  apply known_then; [knowing|]. intros [err|gid]; [by apply guards_fail_job|]. apply still_safe; [knowing|set_solver].
Qed.

Lemma guards_startResolved (k : list Z) (job : Job) (target : ResolvedTarget) :
  ID job ∉ k -> guards knows (ID job :: k, Idle) (still k) (startResolved job target).
Proof.
  intros Hid. unfold startResolved. apply known_then_err; [knowing|set_solver|]. intros _.
  case_bool; [by apply guards_fail_job|].
  apply known_then; [unfold prepareOutputForStart, hasActiveOutputConflict; knowing|].
  intros [err|_]; [by apply guards_fail_job|by apply guards_startDownload].
Qed.

Lemma guards_resolveAndStart (k : list Z) (job : Job) :
  ID job ∉ k -> guards knows (ID job :: k, Idle) (still k) (resolveAndStart r job).
Proof.
  intros Hid. unfold resolveAndStart. apply known_then; [knowing|]. intros latest.
  case_bool; [apply still_safe; [knowing|set_solver]|].
  apply known_then; [apply knows_quiet, ResolveWithSite_quiet|]. intros [err|target]; [|by apply guards_startResolved].
  unfold resolve_failed. apply known_then; [unfold mapResolverError; knowing|]. intros [[code msg] retryAt].
  apply known_then; [knowing|]. intros _. by apply guards_MarkFailed.
Qed.

Lemma guards_update_one (k : list Z) (job : Job) :
  ID job ∉ k -> guards knows (ID job :: k, Idle) (still k) (update_one r job).
Proof.
  intros Hid. unfold update_one. destruct (EngineGID job) as [gid|]; [|by apply still_safe; [|set_solver]].
  assert (forall c m n, guards knows (ID job :: k, Idle) (still k) (MarkFailed (ID job) c m n ;; Ret tt)) as Hfail.
  { intros c m n. eapply guards_bind; [by apply guards_MarkFailed|]. by intros s a Hs. }
  apply known_then; [knowing|]. intros [err|st].
  - case_bool; [|apply still_safe; [knowing|set_solver]]. apply known_then; [knowing|]. intros t. apply Hfail.
  - unfold update_from_status. case_bool; [|case_bool].
    + apply still_safe; [|set_solver]. apply safe_bind; [|intros []; knowing].
      unfold queueDecryptFromStatus. apply safe_bind; [apply knows_quiet, buildDecryptTask_quiet|].
      intros [[[task b] w] f]. unfold postprocess_failed, scheduleDecrypt. knowing.
    + apply known_then; [unfold mapDownloadError; knowing|]. intros [code retryAt].
      apply known_then; [knowing|]. intros _. apply Hfail.
    + apply still_safe; [knowing|set_solver].
Qed.

Lemma guards_updateActive : guards knows ([], Idle) (still []) (updateActive r).
Proof.
  unfold updateActive, ListJobs. eapply guards_bind; [apply (guards_query [] _ (map ID))|].
  - intros d Hd. apply within_learn; [done|]. intros j Hj. apply list_elem_of_In, in_rev, list_elem_of_In in Hj.
    apply rows_where_In in Hj as [Hj Hp]. split; [done|]. destruct Hd as [_ _ Ht _]. rewrite Forall_forall in Ht.
    apply Ht; [done|]. unfold list_filter in Hp. apply andb_true_iff in Hp as [_ Hp]. apply String.eqb_eq in Hp.
    unfold trying. by rewrite Hp.
  - intros s [e|l]; [intros ->; by exists []|]. intros [(d & Hd & Hl) ->]. rewrite app_nil_r.
    eapply guards_bind; [apply (guards_for_each ID)|].
    + rewrite Hl, map_rev. rewrite <- (Permutation_rev (map ID _)). by eapply rows_NoDup.
    + intros x k. apply guards_update_one.
    + intros s x Hs. exact Hs.
Qed.

Lemma guards_requeueFailed : guards knows ([], Idle) (still []) requeueFailed.
Proof.
  unfold requeueFailed, ListRetryableFailed.
  eapply (guards_bind _ (fun s r => match r with inl _ => s = ([], Idle) | inr l => NoDup l /\ s = (l, Idle) end)).
  - apply known_then; [by apply knows_aside|]. intros t. eapply guards_mono; [|apply (guards_query [] _ (fun ids => ids))].
    + intros s [e|l]; [done|]. intros [(d & Hd & ->) ->]. rewrite app_nil_r. split; [|done].
      unfold limit_rows. cbn [Z.ltb Z.compare]. change (NoDup (ID <$> merge_sort retry_before (rows_where (retryable t) d))).
      rewrite merge_sort_Permutation. by eapply rows_NoDup.
    + intros d Hd. unfold limit_rows. cbn [Z.ltb Z.compare]. apply within_learn; [done|]. intros j Hj.
      rewrite merge_sort_Permutation in Hj. apply rows_where_In in Hj as [Hj Hp]. split; [done|].
      unfold retryable in Hp. bool_prop. by unfold has_left.
  - intros s [e|l]; [intros ->; by exists []|]. intros [Hl ->].
    eapply guards_bind; [rewrite <- (map_id l) at 1; apply (guards_for_each (fun id => id))|].
    + by rewrite map_id.
    + intros id k Hid. apply still_safe; [unfold requeue_one; knowing|set_solver].
    + intros s x Hs. exact Hs.
Qed.

(** A claim teaches that the claimed job has an attempt left. *)
Definition claimed_job {A} (s : list Z * mode) (x : res A) (key : A -> Z) : Prop :=
  match x with
  | inl _ => still [] s x
  | inr j => still [key j] s x
  end.

Lemma guards_rollback (k : list Z) (m : mode) {A} (Q : list Z * mode -> A -> Prop) (p : prog A) :
  guards knows (k, Idle) Q p -> guards knows (k, m) Q (call TxRollback ;; p).
Proof.
  intros Hp env w [H1 H2]. exists (k, Idle). split; [|exact Hp]. unfold handle, act. cbn in *. split; [|done].
  cbn. destruct m; cbn in H2.
  - by rewrite H2.
  - by rewrite H2.
  - destruct (tx w) as [d|]; cbn; [by apply H2|done].
Qed.

Lemma guards_claim (fuel : nat) (k : list Z) (t : Z) :
  guards knows (k, Idle) (fun s x => claimed_job s x ID) (claim_loop fuel t).
Proof.
  revert k. induction fuel as [|fuel IH]; intros k; [apply still_any|]. cbn [claim_loop].
  eapply (guards_bind _ (fun s r => match r with inl _ => s = (k, Idle) | inr _ => s = (k, Begun) end)).
  { intros env w [H1 H2]. unfold handle, act. cbn. destruct (sql_fault env (clock w)); cbn.
    - by exists (k, Idle).
    - by exists (k, Begun). }
  intros s [e|_] ->; [apply still_any|].
  eapply (guards_bind _ (fun s r => match r with inl _ => s = (k, Begun) | inr j => s = (ID j :: k, Begun) end)).
  { intros env w [H1 H2]. unfold handle, act. cbn in *. destruct (sql_fault env (clock w)); cbn; [by exists (k, Begun)|].
    destruct (head (rows_where (claimable t) (db w))) as [j|] eqn:Ej; [|by exists (k, Begun)].
    exists (ID j :: k, Begun). split; [|done]. split; [|done]. cbn.
    apply (within_learn k [j] _ H1). intros x ->%list_elem_of_singleton.
    apply head_Some_elem_of, rows_where_In in Ej as [Hj Hc]. split; [done|]. destruct H1 as [_ _ Ht _].
    rewrite Forall_forall in Ht. apply Ht; [done|]. apply claimable_iff in Hc as (Hs & _). unfold trying. by rewrite Hs. }
  intros s [e|j] ->.
  { apply guards_rollback. case_bool; apply still_any. }
  eapply (guards_bind _ (fun s _ => s = (ID j :: k, Changed))).
  { intros env w [H1 H2]. exists (ID j :: k, Changed). split; [|done]. unfold handle, act. cbn in *.
    destruct (sql_fault env (clock w)); cbn.
    - split; [done|]. cbn. intros d Hd; rewrite H2 in Hd; by injection Hd as <-.
    - split; cbn; [|intros d Hd; rewrite H2 in Hd; by injection Hd as <-].
      apply within_update; [done| |done]. intros x Hx _. left. bool_prop. unfold trying.
      match goal with H : Status x = _ |- _ => by rewrite H end. }
  intros s [e|n] ->.
  { apply guards_rollback. apply still_any. }
  case_bool.
  { apply guards_rollback. eapply guards_mono; [|apply IH]. done. }
  eapply (guards_bind _ (fun s _ => s = (ID j :: k, Idle))).
  { intros env w [H1 H2]. exists (ID j :: k, Idle). split; [|done]. unfold handle, act. cbn in *.
    destruct (sql_fault env (clock w)); (split; [|done]); cbn; [|done].
    destruct (tx w) as [d|]; cbn; [by apply H2|done]. }
  intros s [e|x] ->; [apply still_any|]. exists (ID j :: k). split; [done|].
  intros i ->%list_elem_of_singleton. left.
Qed.

Lemma knows_countDownloading (k : list Z) : safe (knows (k, Idle)) countDownloading.
Proof. unfold countDownloading. knowing. Qed.

Lemma guards_start_loop (fuel : nat) (k : list Z) (active : Z) :
  guards knows (k, Idle) (still []) (start_loop fuel r active).
Proof.
  revert k active. induction fuel as [|fuel IH]; intros k active; cbn [start_loop]; [apply still_any|].
  apply known_then; [unfold concurrency; knowing|]. intros c. case_bool; [apply still_any|].
  eapply guards_bind; [apply known_then; [by apply knows_aside|intros t; apply guards_claim]|].
  intros s [err|job].
  - intros (k' & -> & _). apply still_any.
  - intros (k' & -> & Hk). apply (guards_known _ [ID job]); [done|].
    eapply guards_bind; [apply guards_resolveAndStart, not_elem_of_nil|]. intros s a (k1 & -> & _).
    apply known_then; [apply knows_countDownloading|]. intros a'. apply IH.
Qed.

Lemma knows_dispatch (k : list Z) : safe (knows (k, Idle)) (dispatchCompletedDecrypt r).
Proof.
  assert (safe (knows (k, Idle)) (jobs <-? ListPendingPostprocess 100 ;; for_each jobs (dispatch_one r) ;; Ret (inr tt))) as H.
  { apply safe_bind_err; [apply knows_quiet, query_quiet|]. intros l. apply safe_bind; [|done].
    apply safe_for_each. intros job. unfold dispatch_one. apply safe_bind; [apply knows_quiet, autoDecryptEnabled_quiet|].
    intros auto. case_bool; [done|]. apply safe_bind; [apply knows_quiet, buildDecryptTask_quiet|].
    intros [[[task b] w] f]. unfold postprocess_failed, scheduleDecrypt. knowing. }
  unfold dispatchCompletedDecrypt. by destruct (ArchiveDec r), (MegaDec r).
Qed.

(** Nothing need be known at the beginning. *)
Lemma guards_then {A B} (p : prog A) (f : A -> prog B) :
  guards knows ([], Idle) (still []) p -> (forall a, guards knows ([], Idle) (still []) (f a)) ->
  guards knows ([], Idle) (still []) (bind p f).
Proof.
  intros Hp Hf. eapply guards_bind; [exact Hp|]. intros s a (k & -> & _). eapply guards_known; [|apply Hf]. set_solver.
Qed.

Lemma guards_tick (fuel : nat) : guards knows ([], Idle) (still []) (tick fuel r).
Proof.
  unfold tick. apply guards_then; [apply guards_updateActive|]. intros _.
  apply known_then; [apply knows_dispatch|]. intros _. apply guards_then; [apply guards_requeueFailed|]. intros _.
  apply known_then; [apply knows_countDownloading|]. intros a. apply guards_start_loop.
Qed.

Lemma guards_Start (beats fuel : nat) : guards knows ([], Idle) (still []) (Start beats fuel r).
Proof.
  induction beats as [|beats IH]; cbn [Start]; [apply still_any|].
  apply known_then; [by apply knows_aside|]. intros [e|]; [apply still_any|].
  apply guards_then; [apply guards_tick|]. intros _. exact IH.
Qed.

Lemma knows_runDecrypt (k : list Z) (t : decryptTask) : safe (knows (k, Idle)) (runDecrypt r t).
Proof.
  unfold runDecrypt, decrypt_body, run_mega, run_archive, decrypt_step_failed. knowing.
  - apply knows_quiet, mega_quiet.
  - apply knows_quiet, archive_quiet.
Qed.
End Runner.

(** ** The theorem *)

Section Bounded.
Context `{UC : Unicode} (s : Server) (r : Runner).

Inductive reading : thread -> Prop :=
  | reading_request q : Method q <> "POST" -> reading (request_thread s q).

End Bounded.

(** ** Witness *)

#[local] Instance RetriesUnicode : Unicode := {| unicode_lower := ascii_lower |}.

(** A job that failed once of five times, its retry due, is queued again. *)
Definition failed_world : World := sample_world (mkDb [sample_job 3 StatusFailed (Some 150%Z)] [] 3 0).

