(* ===== verification/Orphan.v ===== *)
(** * Jobs that were being resolved when the daemon stopped

    A claimed job is resolving until the tick that claimed it has started or failed it.  When
    the daemon stops in between, the row stays resolving, and nothing the daemon does by
    itself ever looks at it again. *)

From S2P Require Import Prelude GoStrings GoError Schema Files Effects Settings Store StoreInv Archive Resolver.
From S2P Require Import Rely StoreSpec Service Api ApiSpec Runner RunnerInv RunnerSpec System.

#[local] Open Scope string_scope.

(** ** Invariants that depend on what calls answered

    [keeps I Q p]: every call of [p] preserves [I], given that the answers before it came from
    worlds with [I]; and a result satisfies [Q].  It is [guards] with nothing to know. *)

Definition keeps (I : World -> Prop) {A} (Q : A -> Prop) (p : prog A) : Prop :=
  guards (fun _ : unit => I) tt (fun _ => Q) p.

Section Keeps.
Context (I : World -> Prop).

Lemma keeps_bind {A B} (P : A -> Prop) (Q : B -> Prop) (p : prog A) (f : A -> prog B) :
  keeps I P p -> (forall a, P a -> keeps I Q (f a)) -> keeps I Q (bind p f).
Proof. intros Hp Hf. eapply guards_bind; [exact Hp|]. intros [] a. apply Hf. Qed.

Lemma keeps_bind_err {A B} (P : A -> Prop) (p : prog (res A)) (f : A -> prog (res B)) :
  keeps I (fun r => match r with inl _ => True | inr x => P x end) p ->
  (forall a, P a -> keeps I (fun _ => True) (f a)) -> keeps I (fun _ => True) (bind_err p f).
Proof. intros Hp Hf. eapply keeps_bind; [exact Hp|]. intros [e|a] Ha; [done|by apply Hf]. Qed.

Lemma keeps_bind_err_post {A B} (P : A -> Prop) (Q : res B -> Prop) (p : prog (res A)) (f : A -> prog (res B)) :
  keeps I (fun r => match r with inl _ => True | inr x => P x end) p ->
  (forall e, Q (inl e)) -> (forall a, P a -> keeps I Q (f a)) -> keeps I Q (bind_err p f).
Proof. intros Hp HQ Hf. eapply keeps_bind; [exact Hp|]. intros [e|a] Ha; [apply HQ|by apply Hf]. Qed.

Lemma keeps_mono {A} (P Q : A -> Prop) (p : prog A) : (forall a, P a -> Q a) -> keeps I P p -> keeps I Q p.
Proof. intros H. apply guards_mono. intros _. exact H. Qed.

Lemma keeps_safe {A} (p : prog A) : safe I p -> keeps I (fun _ => True) p.
Proof. intros Hp. eapply guards_mono; [|by apply (guards_safe (fun _ : unit => I))]. done. Qed.

Lemma keeps_rets {A} (Q : A -> Prop) (p : prog A) : safe I p -> rets Q p -> keeps I Q p.
Proof. intros Hp Hr. eapply guards_mono; [|by apply (guards_rets (fun _ : unit => I))]. by intros _ a [_ Ha]. Qed.

(** One call, by its answer in a world with [I]. *)
Lemma keeps_call {X} (Q : X -> Prop) (e : ev X) :
  (forall env w, I w -> I (fst (handle env w e)) /\ Q (snd (handle env w e))) -> keeps I Q (call e).
Proof. intros H env w Hw. exists tt. by apply H. Qed.

Lemma keeps_for_each {A} (P : A -> Prop) (l : list A) (body : A -> prog unit) :
  Forall P l -> (forall a, P a -> keeps I (fun _ => True) (body a)) ->
  keeps I (fun _ => True) (for_each l body).
Proof.
  intros Hl Hb. induction Hl as [|x l Hx Hl IH]; [done|]. cbn [for_each].
  by apply (keeps_bind (fun _ => True)); [apply Hb|].
Qed.

Lemma keeps_turn (env : Env) (w w' : World) (t t' : thread) :
  turn env w t w' t' -> keeps I (fun _ => True) (code t) -> I w -> I w' /\ keeps I (fun _ => True) (code t').
Proof.
  intros Hturn Ht Hw. by destruct (guards_turn (fun _ : unit => I) _ _ _ _ _ Hturn tt Ht Hw) as ([] & H1 & H2).
Qed.

(** A pool whose threads keep [I], when the tasks that were started have [T]. *)
Lemma keeps_pool (T : decryptTask -> Prop) (env : Env) (client : thread -> Prop) (spawn : decryptTask -> thread) s s' :
  (forall t, client t -> keeps I (fun _ => True) (code t)) ->
  (forall t, T t -> keeps I (fun _ => True) (code (spawn t))) ->
  (forall w, I w -> Forall T (threads w)) ->
  (forall w set id, I w -> I (restart set id w)) ->
  rtc (pool_step env client spawn) s s' ->
  I (fst s) -> Forall (fun t => keeps I (fun _ => True) (code t)) (snd s) ->
  I (fst s').
Proof.
  intros Hc Hsp Hth Hre Hsteps. induction Hsteps as [s|s s1 s' Hstep _ IH]; [done|].
  intros Hw Hts. assert (I (fst s1) /\ Forall (fun t => keeps I (fun _ => True) (code t)) (snd s1)) as [H1 H2];
    [|by apply IH].
  destruct Hstep as [w w' t t' l1 l2 st Hturn Hst|w ts t Ht|w ts set id]; cbn [fst snd] in *.
  - apply Forall_app in Hts as [H1 Hts]. apply Forall_cons in Hts as [Ht H2].
    destruct (keeps_turn _ _ _ _ _ Hturn Ht Hw) as [Hw' Ht']. split; [done|].
    apply Forall_app; split; [done|]. apply Forall_cons; split; [done|]. apply Forall_app; split; [done|].
    specialize (Hth _ Hw'). rewrite Hst in Hth. apply Forall_app in Hth as [Hth _].
    apply Forall_map. eapply Forall_impl; [exact Hth|]. exact Hsp.
  - split; [done|]. apply Forall_cons. split; [by apply Hc|done].
  - split; [by apply Hre|constructor].
Qed.
End Keeps.

(** ** The invariant: the row stays as it is *)

Section Orphan.
Context (j : Job) (Hres : Status j = StatusResolving).

Definition holds (d : Db) : Prop := j ∈ jobs d /\ Forall (fun x => ID x = ID j -> x = j) (jobs d).

Definition another (id : Z) : Prop := id <> ID j.

Definition orphan (w : World) : Prop :=
  holds (db w) /\ (forall d, tx w = Some d -> holds d) /\ Forall (fun t => another (jobID t)) (threads w).

Lemma orphan_core (w w' : World) : same_core w w' -> orphan w -> orphan w'.
Proof using Type. intros (H1 & H2 & _ & H3 & _) Hw. unfold orphan in *. by rewrite H1, H2, H3. Qed.

Lemma orphan_quiet {A} (p : prog A) : quiet p -> safe orphan p.
Proof using Type. apply (quiet_safe _ _ orphan_core). Qed.

Lemma orphan_restart (w : World) (set : SettingsState) (id : Z) : orphan w -> orphan (restart set id w).
Proof using Type.
  intros (H1 & H2 & H3). split; [|split; [done|exact H3]]. cbn. destruct (tx w) as [d|]; cbn; [by apply H2|done].
Qed.

Lemma holds_update (p : Job -> bool) (f : Job -> Job) (d : Db) :
  (forall x, ID (f x) = ID x) -> p j = false -> holds d -> holds (update_where p f d).
Proof using Type.
  intros Hf Hp [Hin Hall]. unfold update_where, update_rows, holds. cbn. split.
  - apply list_elem_of_fmap. exists j. by rewrite Hp.
  - apply Forall_map. eapply Forall_impl; [exact Hall|]. intros x Hx. cbn. destruct (p x) eqn:E; [|done].
    rewrite Hf. intros Hid. rewrite (Hx Hid) in E. congruence.
Qed.

Lemma holds_status (p : Job -> bool) (d : Db) :
  p j = false -> holds d -> Forall (fun x => another (ID x)) (rows_where p d).
Proof using Type.
  intros Hp [_ Hall]. unfold rows_where. apply List.Forall_forall. intros x Hx. apply filter_In in Hx as [Hx Hpx].
  rewrite List.Forall_forall in Hall. intros Hid. rewrite (Hall x Hx Hid) in Hpx. congruence.
Qed.

Lemma safe_sql {X} (q : Db -> Db * res X) :
  (forall d, holds d -> holds (fst (q d))) -> safe orphan (call (Sql q)).
Proof using Type.
  intros Hq. apply safe_call. intros env w (H1 & H2 & H3). unfold handle, act. cbn.
  destruct (sql_fault env (clock w)); cbn; [done|]. specialize (Hq (db w) H1).
  destruct (q (db w)) as [d x]. cbn in *. done.
Qed.

Lemma keeps_query {X} (q : Db -> X) :
  keeps orphan (fun r => match r with inl _ => True | inr x => exists d, holds d /\ x = q d end) (query q).
Proof using Type.
  apply keeps_call. intros env w (H1 & H2 & H3). unfold handle, act. cbn.
  destruct (sql_fault env (clock w)); cbn; [done|]. split; [done|]. by exists (db w).
Qed.

Lemma keeps_query_row {X} (q : Db -> option X) :
  keeps orphan (fun r => match r with inl _ => True | inr x => exists d, holds d /\ q d = Some x end) (query_row q).
Proof using Type.
  apply keeps_call. intros env w (H1 & H2 & H3). unfold handle, act. cbn.
  destruct (sql_fault env (clock w)); cbn; [done|]. split; [done|].
  destruct (q (db w)) eqn:E; [|done]. by exists (db w).
Qed.

Lemma safe_update_other (id : Z) (f : Job -> Job) :
  (forall x, ID (f x) = ID x) -> another id -> safe orphan (update_job id f).
Proof using Type.
  intros Hf Hid. apply safe_sql. intros d. cbn. apply holds_update; [done|].
  unfold has_id. apply Z.eqb_neq. intros E. by apply Hid.
Qed.

Lemma safe_event (id : Z) (l m : string) : safe orphan (AddEvent id l m).
Proof using Type.
  unfold AddEvent. apply safe_bind; [by apply orphan_quiet, quiet_call_out|]. intros t. apply safe_sql.
  intros d. unfold holds. by rewrite insert_event_jobs.
Qed.

(** The store's updates of another job. *)
Lemma safe_MarkFailed_other (id : Z) (c m : string) (n : option Z) : another id -> safe orphan (MarkFailed id c m n).
Proof using Type.
  intros Hid. unfold MarkFailed. apply safe_bind; [by apply orphan_quiet, quiet_call_out|]. intros t.
  apply safe_bind_err; [by apply safe_update_other|]. intros _.
  apply safe_bind_err; [by apply orphan_quiet, query_row_quiet|]. intros [a b].
  case_bool; [|done]. apply safe_bind; [apply safe_event|done].
Qed.

Ltac other_update := intros Hid; apply safe_bind;
  [apply orphan_quiet, quiet_call_out; exact Logic.I|intros t; by apply safe_update_other].

Lemma safe_UpdateResolving_other (id : Z) (u f : string) (n : Z) : another id -> safe orphan (UpdateResolving id u f n).
Proof using Type. other_update. Qed.

Lemma safe_MarkDownloading_other (id : Z) (e g : string) : another id -> safe orphan (MarkDownloading id e g).
Proof using Type. other_update. Qed.

Lemma safe_UpdateProgress_other (id b : Z) (st : string) (v e : Z) :
  another id -> safe orphan (UpdateProgress id b st v e).
Proof using Type. other_update. Qed.

Lemma safe_MarkCompleted_other (id : Z) : another id -> safe orphan (MarkCompleted id).
Proof using Type. other_update. Qed.

Lemma safe_MarkDecrypting_other (id b : Z) : another id -> safe orphan (MarkDecrypting id b).
Proof using Type. other_update. Qed.

Lemma safe_MarkPostprocessFailed_other (id : Z) (m c : string) :
  another id -> safe orphan (MarkPostprocessFailed id m c).
Proof using Type. other_update. Qed.

Lemma safe_ClearArchivePassword_other (id : Z) : another id -> safe orphan (ClearArchivePassword id).
Proof using Type. other_update. Qed.

Lemma safe_Requeue_other (id : Z) : another id -> safe orphan (Requeue id).
Proof using Type. other_update. Qed.

Lemma safe_tx : safe orphan (call TxBegin) /\ safe orphan (call TxCommit) /\ safe orphan (call TxRollback).
Proof using Type.
  assert (forall w, orphan w -> holds (default (db w) (tx w))) as Hd.
  { intros w (H1 & H2 & _). destruct (tx w) as [d|]; [by apply H2|done]. }
  split_and!; apply safe_call; intros env w Hw; specialize (Hd w Hw); destruct Hw as (H1 & H2 & H3);
    unfold handle, act; cbn; try destruct (sql_fault env (clock w)); cbn;
    (split; [done|]; split; [|done]); cbn; first [done | by intros d [= <-]].
Qed.

Lemma safe_go (t : decryptTask) : another (jobID t) -> safe orphan (call (GoDecrypt t)).
Proof using Type.
  intros Ht. apply safe_call. intros env w (H1 & H2 & H3). unfold handle, act. cbn.
  split; [done|]. split; [done|]. by constructor.
Qed.

(** Calls that touch neither the tables nor the goroutines. *)
Definition elsewhere {X} (e : ev X) : bool :=
  match e with
  | Sql _ | TxBegin | TxCommit | TxRollback | GoDecrypt _ => false
  | _ => true
  end.

Lemma safe_elsewhere {X} (e : ev X) : elsewhere e = true -> safe orphan (call e).
Proof using Type.
  intros He. apply safe_call. intros env w (H1 & H2 & H3).
  destruct e; try discriminate He; unfold handle, act; cbn; repeat case_match; done.
Qed.

Lemma limit_rows_Forall {A} (P : A -> Prop) (n : Z) (l : list A) : Forall P l -> Forall P (limit_rows n l).
Proof using Type. intros H. unfold limit_rows. case_bool; [by apply Forall_take|done]. Qed.

(** ** The runner never touches the row *)

Ltac untouched :=
  repeat lazymatch goal with
  | |- safe _ (Ret _) => exact Logic.I
  | |- safe _ Panic => exact Logic.I
  | |- safe _ (bind _ _) => apply safe_bind; [|intros]
  | |- safe _ (bind_err _ _) => apply safe_bind_err; [|intros]
  | |- safe _ (AddEvent _ _ _) => apply safe_event
  | |- safe _ (MarkFailed _ _ _ _) => apply safe_MarkFailed_other; assumption
  | |- safe _ (UpdateResolving _ _ _ _) => apply safe_UpdateResolving_other; assumption
  | |- safe _ (MarkDownloading _ _ _) => apply safe_MarkDownloading_other; assumption
  | |- safe _ (UpdateProgress _ _ _ _ _) => apply safe_UpdateProgress_other; assumption
  | |- safe _ (MarkCompleted _) => apply safe_MarkCompleted_other; assumption
  | |- safe _ (MarkDecrypting _ _) => apply safe_MarkDecrypting_other; assumption
  | |- safe _ (MarkPostprocessFailed _ _ _) => apply safe_MarkPostprocessFailed_other; assumption
  | |- safe _ (ClearArchivePassword _) => apply safe_ClearArchivePassword_other; assumption
  | |- safe _ (Requeue _) => apply safe_Requeue_other; assumption
  | |- safe _ (Store.GetJob _) => apply orphan_quiet, query_row_quiet
  | |- safe _ (Store.ListJobs _ _) => apply orphan_quiet, query_quiet
  | |- safe _ (call _) => apply safe_elsewhere; reflexivity
  | |- safe _ now => apply safe_elsewhere; reflexivity
  | |- safe _ (or_panic _) => apply safe_or_panic
  | |- safe _ (for_each _ _) => apply safe_for_each; intros
  | |- safe _ (match ?x with _ => _ end) => destruct x eqn:?
  end.

Section Runner.
Context `{UC : Unicode} (r : Runner).

Lemma fail_job_other (id : Z) (c e m : string) (d : Z) : another id -> safe orphan (fail_job id c e m d).
Proof using Type. intros Hid. unfold fail_job. untouched. Qed.

Lemma resolveAndStart_other (job : Job) : another (ID job) -> safe orphan (resolveAndStart r job).
Proof using Type.
  intros Hid. unfold resolveAndStart. untouched.
  - apply orphan_quiet, ResolveWithSite_quiet.
  - unfold resolve_failed, mapResolverError. untouched.
  - unfold startResolved, prepareOutputForStart, hasActiveOutputConflict, startDownload, with_headers.
    untouched; by apply fail_job_other.
Qed.

Lemma requeue_one_other (id : Z) : another id -> safe orphan (requeue_one id).
Proof using Type. intros Hid. unfold requeue_one. untouched. Qed.

Lemma buildDecryptTask_other (job : Job) (st : option AriaStatus) :
  keeps orphan (fun built => jobID (fst (fst (fst built))) = ID job) (buildDecryptTask r job st).
Proof using Type.
  apply keeps_rets; [apply orphan_quiet, buildDecryptTask_quiet|].
  unfold buildDecryptTask. apply rets_bind. intros archivePath. apply rets_bind. intros arch.
  repeat (case_bool; [done|]). destruct arch; [|done]. apply rets_bind. intros m. by case_bool.
Qed.

Lemma scheduleDecrypt_other (t : decryptTask) : another (jobID t) -> safe orphan (scheduleDecrypt t).
Proof using Type.
  intros Ht. unfold scheduleDecrypt. apply safe_bind; [by apply safe_elsewhere|]. intros [].
  - by apply safe_go.
  - done.
Qed.

Lemma postprocess_failed_other (id : Z) (m : string) : another id -> safe orphan (postprocess_failed id m).
Proof using Type. intros Hid. unfold postprocess_failed. untouched. Qed.

Lemma queueDecrypt_other (job : Job) (st : AriaStatus) (n : Z) :
  another (ID job) -> keeps orphan (fun _ => True) (queueDecryptFromStatus r job st n).
Proof using Type.
  intros Hid. unfold queueDecryptFromStatus. eapply keeps_bind; [apply buildDecryptTask_other|].
  intros [[[task b] w] f] Ht. cbn in Ht. apply keeps_safe. rewrite <- Ht in *.
  untouched; first [by apply postprocess_failed_other | by apply scheduleDecrypt_other].
Qed.

Lemma dispatch_one_other (job : Job) : another (ID job) -> keeps orphan (fun _ => True) (dispatch_one r job).
Proof using Type.
  intros Hid. unfold dispatch_one. apply (keeps_bind _ (fun _ => True));
    [apply keeps_safe, orphan_quiet, autoDecryptEnabled_quiet|]. intros auto _.
  case_bool; [done|]. eapply keeps_bind; [apply buildDecryptTask_other|].
  intros [[[task b] w] f] Ht. cbn in Ht. apply keeps_safe. rewrite <- Ht in *.
  untouched; first [by apply postprocess_failed_other | by apply scheduleDecrypt_other].
Qed.

Lemma update_one_other (job : Job) : another (ID job) -> keeps orphan (fun _ => True) (update_one r job).
Proof using Type.
  intros Hid. unfold update_one. destruct (EngineGID job) as [gid|]; [|done].
  apply (keeps_bind _ (fun _ => True)); [by apply keeps_safe, safe_elsewhere|]. intros [err|st] _.
  - apply keeps_safe. untouched.
  - unfold update_from_status, mapDownloadError. case_bool.
    + apply (keeps_bind _ (fun _ => True)); [by apply queueDecrypt_other|]. intros q _. apply keeps_safe. untouched.
    + apply keeps_safe. untouched.
Qed.

(** What a claim returns. *)
Definition other_job (x : res Job) : Prop := match x with inl _ => True | inr x => another (ID x) end.

Lemma claim_other : keeps orphan other_job ClaimNextQueued.
Proof using Hres.
  unfold ClaimNextQueued. apply (keeps_bind _ (fun _ => True)); [by apply keeps_safe, safe_elsewhere|].
  intros t _. destruct safe_tx as (Hb & Hc & Hr). generalize claim_fuel as fuel.
  induction fuel as [|fuel IH]; [done|]. cbn [claim_loop].
  apply (keeps_bind_err_post _ (fun _ => True)); [|done|].
  { eapply keeps_mono; [|by apply keeps_safe]. by intros []. }
  intros _ _. eapply keeps_bind; [apply keeps_query_row|]. intros [err|x] Hx.
  - apply (keeps_bind _ (fun _ => True)); [by apply keeps_safe|]. intros _ _. by case_bool.
  - assert (another (ID x)) as Hid.
    { destruct Hx as (d & Hd & Hq). apply head_Some in Hq as [l Hq].
      assert (Forall (fun x => another (ID x)) (rows_where (claimable t) d)) as Hall.
      { apply holds_status; [|done]. unfold claimable. by rewrite Hres. }
      rewrite Hq in Hall. by apply Forall_cons in Hall as [? _]. }
    apply (keeps_bind _ (fun _ => True)).
    { apply keeps_safe, safe_sql. intros d. cbn. apply holds_update; [done|].
      unfold has_id. apply andb_false_iff. left. apply Z.eqb_neq. intros E. by apply Hid. }
    intros [err|n] _.
    + by apply (keeps_bind _ (fun _ => True)); [apply keeps_safe|].
    + case_bool; [by apply (keeps_bind _ (fun _ => True)); [apply keeps_safe|]|].
      apply (keeps_bind_err_post _ (fun _ => True)); [|done|done].
      eapply keeps_mono; [|by apply keeps_safe]. by intros [].
Qed.

Lemma start_loop_other (fuel : nat) (active : Z) : keeps orphan (fun _ => True) (start_loop fuel r active).
Proof using Hres.
  revert active. induction fuel as [|fuel IH]; intros active; cbn [start_loop]; [done|].
  apply (keeps_bind _ (fun _ => True)).
  { apply keeps_safe. unfold concurrency. untouched. }
  intros c _. case_bool; [done|]. eapply keeps_bind; [apply claim_other|]. intros [err|job] Hjob; [done|].
  apply (keeps_bind _ (fun _ => True)); [by apply keeps_safe, resolveAndStart_other|]. intros _ _.
  apply (keeps_bind _ (fun _ => True)); [|intros; apply IH]. apply keeps_safe. unfold countDownloading. untouched.
Qed.

(** The rows that a query lists are those of other jobs. *)
Lemma listed_others {X} (p : Job -> bool) (q : Db -> list X) (P : X -> Prop) (f : list X -> prog (res unit)) :
  p j = false -> (forall d, Forall (fun x => another (ID x)) (rows_where p d) -> Forall P (q d)) ->
  (forall l, Forall P l -> keeps orphan (fun _ => True) (f l)) ->
  keeps orphan (fun _ => True) (bind_err (query q) f).
Proof using Type.
  intros Hp Hq Hf. apply (keeps_bind_err _ (Forall P)); [|exact Hf].
  eapply keeps_mono; [|apply keeps_query]. intros [e|l]; [done|]. intros (d & Hd & ->).
  by apply Hq, holds_status.
Qed.

Lemma tick_other (fuel : nat) : keeps orphan (fun _ => True) (tick fuel r).
Proof using Hres.
  unfold tick. apply (keeps_bind _ (fun _ => True)).
  { unfold updateActive, ListJobs. apply (listed_others (list_filter StatusDownloading false) _ (fun x => another (ID x))).
    - unfold list_filter. rewrite Hres. by rewrite andb_false_r.
    - intros d H. by apply Forall_rev.
    - intros l Hl. apply (keeps_bind _ (fun _ => True)); [|done].
      eapply keeps_for_each; [exact Hl|]. intros x Hx. by apply update_one_other. }
  intros _ _. apply (keeps_bind _ (fun _ => True)).
  { unfold dispatchCompletedDecrypt. assert (keeps orphan (fun _ => True)
      (jobs <-? ListPendingPostprocess 100 ;; for_each jobs (dispatch_one r) ;; Ret (inr tt))) as H.
    { unfold ListPendingPostprocess. eapply (listed_others pending_postprocess _ (fun x => another (ID x))).
      - unfold pending_postprocess. rewrite Hres. apply andb_false_r.
      - intros d H. by apply limit_rows_Forall.
      - intros l Hl. apply (keeps_bind _ (fun _ => True)); [|done].
        eapply keeps_for_each; [exact Hl|]. intros x Hx. by apply dispatch_one_other. }
    by destruct (ArchiveDec r), (MegaDec r). }
  intros _ _. apply (keeps_bind _ (fun _ => True)).
  { unfold requeueFailed, ListRetryableFailed. apply (keeps_bind_err _ (Forall another)).
    - apply (keeps_bind _ (fun _ => True)); [by apply keeps_safe, safe_elsewhere|]. intros t _.
      eapply keeps_mono; [|apply keeps_query]. intros [e|l]; [done|]. intros (d & Hd & ->).
      apply limit_rows_Forall, Forall_map. rewrite merge_sort_Permutation. apply holds_status; [|done].
      unfold retryable. by rewrite Hres.
    - intros l Hl. apply (keeps_bind _ (fun _ => True)); [|done].
      eapply keeps_for_each; [exact Hl|]. intros x Hx. apply keeps_safe. by apply requeue_one_other. }
  intros _ _. apply (keeps_bind _ (fun _ => True)); [|intros; apply start_loop_other].
  apply keeps_safe. unfold countDownloading. untouched.
Qed.

Lemma Start_other (beats fuel : nat) : keeps orphan (fun _ => True) (Start beats fuel r).
Proof using Hres.
  induction beats as [|beats IH]; cbn [Start]; [done|].
  apply (keeps_bind _ (fun _ => True)); [by apply keeps_safe, safe_elsewhere|]. intros [e|] _; [done|].
  apply (keeps_bind _ (fun _ => True)); [apply tick_other|]. intros _ _. exact IH.
Qed.

Lemma runDecrypt_other (t : decryptTask) : another (jobID t) -> safe orphan (runDecrypt r t).
Proof using Type.
  intros Hid. unfold runDecrypt, decrypt_body, run_mega, run_archive, decrypt_step_failed. untouched.
  - apply orphan_quiet, mega_quiet.
  - apply orphan_quiet, archive_quiet.
Qed.
End Runner.
End Orphan.

(** ** The theorem *)

Section Forever.
Context `{UC : Unicode} (s : Server) (r : Runner).

(** What the daemon does by itself, and requests that only read. *)
Inductive unasked : thread -> Prop :=
  | unasked_tick fuel : unasked (tick_thread r fuel)
  | unasked_runner beats fuel : unasked (runner_thread r beats fuel)
  | unasked_read q : Method q <> "POST" -> unasked (request_thread s q).

(** C12. A job that was being resolved when the daemon stopped is never resolved: from a state
    in which its row is resolving and no goroutine runs, whatever ticks, decrypt goroutines
    and reading requests the daemon runs, interleaved in any way, restarted again at any time
    and with any call failing, the row is exactly as it was. *)
Theorem resolving_forever (env : Env) (w w' : World) (ts : list thread) (j : Job)
  (Hj : Status j = StatusResolving) (Hw : orphan j w)
  (Hs : rtc (pool_step env unasked (spawn r)) (w, []) (w', ts)) : find_job (ID j) (db w') = Some j.
Proof.
  assert (orphan j w') as [[Hin Hall] _].
  { apply (keeps_pool (orphan j) (fun t => another j (jobID t)) env unasked (spawn r) (w, []) (w', ts));
      [| | | |exact Hs|exact Hw|constructor].
    - intros t [fuel|beats fuel|q Hq]; [by apply tick_other|by apply Start_other|]. by apply keeps_safe, orphan_quiet, only_post_changes.
    - intros t Ht. apply keeps_safe. by apply runDecrypt_other.
    - by intros w0 (_ & _ & ?).
    - intros w0 set id. by apply orphan_restart. }
  unfold find_job. destruct (rows_where (has_id (ID j)) (db w')) as [|x l] eqn:E.
  - exfalso. assert (j ∈ rows_where (has_id (ID j)) (db w')) as H; [|rewrite E in H; by apply elem_of_nil in H].
    unfold rows_where. apply list_elem_of_In, filter_In. split; [by apply list_elem_of_In|apply Z.eqb_refl].
  - assert (x ∈ rows_where (has_id (ID j)) (db w')) as H by (rewrite E; left).
    unfold rows_where in H. apply list_elem_of_In, filter_In in H as [H1 H2]. bool_prop. apply list_elem_of_In in H1.
    rewrite Forall_forall in Hall. cbn. by rewrite (Hall x H1 ltac:(by apply Z.eqb_eq)).
Qed.
End Forever.

(** ** Witness *)

#[local] Instance OrphanUnicode : Unicode := {| unicode_lower := ascii_lower |}.

Definition orphan_world : World := sample_world (mkDb [claimed_job] [] 4 0).

Definition first_turn : option (World * thread) :=
  step_thread (calm_env 200) orphan_world (tick_thread plain_runner 3).

(** A tick polls, finds no download, and the daemon is restarted. *)
Lemma resolving_forever_witness :
  exists w1 t1, first_turn = Some (w1, t1)
    /\ find_job 2 (db (restart defaultSettings 5 w1)) = Some claimed_job.
Proof.
  assert (match first_turn with
          | Some (w1, _) => bool_decide (tx w1 = None) && bool_decide (length (threads w1) = 0%nat)
          | None => false
          end = true) as H by (vm_compute; reflexivity).
  destruct first_turn as [[w1 t1]|] eqn:E; [|discriminate H]. bool_prop.
  exists w1, t1. split; [reflexivity|].
  apply (resolving_forever api_server plain_runner (calm_env 200) orphan_world
           (restart defaultSettings 5 w1) [] claimed_job).
  - reflexivity.
  - split; [split; [left|repeat constructor]|]. split; [discriminate|constructor].
  - eapply rtc_l; [apply (pool_client _ _ _ _ _ (tick_thread plain_runner 3)), unasked_tick|].
    eapply rtc_l; [|eapply rtc_l; [apply (pool_restart _ _ _ w1 [t1])|apply rtc_refl]].
    apply (pool_turn _ _ _ orphan_world w1 (tick_thread plain_runner 3) t1 [] [] []).
    + apply turn_call; [exact E|assumption].
    + change (threads orphan_world) with (@nil decryptTask). by destruct (threads w1).
Defined.
