(* ===== verification/Goroutines.v ===== *)
(** * Decrypt goroutines: one per job, and no more at work than there are workers

    The runner's pending set and semaphore are shared by every goroutine.  [disc m p] is the
    protocol a program follows in mode [m]: what it may do with them next, and in which mode
    it goes on.  The ticks, the HTTP requests and [runDecrypt] follow it; the pool then keeps
    the accounts straight in every interleaving. *)

From S2P Require Import Prelude GoStrings GoError Schema Files Effects Settings Store StoreSpec StoreInv.
From S2P Require Import Archive Resolver Service Api ApiSpec Runner RunnerSpec System.

#[local] Open Scope string_scope.

(** ** The protocol *)

(** A thread's share: none; the job it has just marked and must start a goroutine for; the
    job whose goroutine it is, waiting for a worker; the same, holding a worker; a worker it
    must still give back. *)
Inductive mode : Type :=
  | MFree
  | MSpawn (id : Z)
  | MWait (id : Z)
  | MHold (id : Z)
  | MRelease.

Definition id_of (m : mode) : option Z :=
  match m with MSpawn id | MWait id | MHold id => Some id | _ => None end.

Definition holds (m : mode) : bool :=
  match m with MHold _ | MRelease => true | _ => false end.

Definition may_work (m : mode) : Prop := m = MFree \/ exists id, m = MHold id.

Section Protocol.
Context (cap : Z).

Definition ev_disc {X} (m : mode) (e : ev X) : (mode -> X -> Prop) -> Prop :=
  match e in ev X return (mode -> X -> Prop) -> Prop with
  | PendingAdd id => fun rest => m = MFree /\ rest MFree false /\ rest (MSpawn id) true
  | GoDecrypt t => fun rest => m = MSpawn (jobID t) /\ rest MFree tt
  | SemAcquire c => fun rest =>
      c = cap /\ exists id, m = MWait id /\ rest (MHold id) true /\ rest (MWait id) false
  | PendingDel id => fun rest =>
      (m = MWait id /\ rest MFree tt) \/ (m = MHold id /\ rest MRelease tt)
  | SemRelease c => fun rest => c = cap /\ m = MRelease /\ rest MFree tt
  | _ => fun rest => may_work m /\ forall x, rest m x
  end.

Fixpoint disc {A} (m : mode) (p : prog A) : Prop :=
  match p with
  | Ret _ => m = MFree
  | Panic => True
  | Vis e k => ev_disc m e (fun m' x => disc m' (k x))
  end.

(** A program that does nothing with the pending set, the semaphore or goroutines. *)
Definition ev_plain {X} (e : ev X) : Prop :=
  match e with
  | PendingAdd _ | GoDecrypt _ | SemAcquire _ | PendingDel _ | SemRelease _ => False
  | _ => True
  end.

Fixpoint plain {A} (p : prog A) : Prop :=
  match p with
  | Ret _ | Panic => True
  | Vis e k => ev_plain e /\ forall x, plain (k x)
  end.

Lemma plain_bind {A B} (p : prog A) (f : A -> prog B) :
  plain p -> (forall a, plain (f a)) -> plain (bind p f).
Proof.
  intros Hp Hf. induction p as [a| |X e k IH]; cbn in *; [apply Hf|done|].
  destruct Hp as [He Hk]. split; [done|]. intros x. by apply IH.
Qed.

Lemma plain_bind_err {A B} (p : prog (res A)) (f : A -> prog (res B)) :
  plain p -> (forall a, plain (f a)) -> plain (bind_err p f).
Proof. intros Hp Hf. apply plain_bind; [done|]. intros [e|a]; [done|apply Hf]. Qed.

Lemma plain_for_each {A} (l : list A) (body : A -> prog unit) :
  (forall a, plain (body a)) -> plain (for_each l body).
Proof. intros Hb. induction l as [|x l IH]; cbn; [done|]. by apply plain_bind. Qed.

Lemma plain_or_panic {A} (x : option A) : plain (or_panic x).
Proof. by destruct x. Qed.

(** In a working mode, a plain part keeps the mode. *)
Lemma disc_plain_bind {A B} (m : mode) (p : prog A) (f : A -> prog B) :
  may_work m -> plain p -> (forall a, disc m (f a)) -> disc m (bind p f).
Proof.
  intros Hm Hp Hf. induction p as [a| |X e k IH]; cbn in *; [apply Hf|done|].
  destruct Hp as [He Hk]. assert (may_work m /\ forall x, disc m (bind (k x) f)) as H.
  { split; [done|]. intros x. by apply IH. }
  by destruct e.
Qed.

Lemma disc_plain {A} (p : prog A) : plain p -> disc MFree p.
Proof.
  intros Hp. induction p as [a| |X e k IH]; cbn in *; [done..|]. destruct Hp as [He Hk].
  assert (may_work MFree /\ forall x, disc MFree (k x)) as H by (split; [by left|]; auto).
  by destruct e.
Qed.

Lemma disc_bind {A B} (p : prog A) (f : A -> prog B) (m : mode) :
  disc m p -> (forall a, disc MFree (f a)) -> disc m (bind p f).
Proof.
  intros Hp Hf. revert m Hp. induction p as [a| |X e k IH]; intros m Hp; cbn in *.
  - subst. apply Hf.
  - done.
  - destruct e; cbn in *; intuition eauto.
    destruct H0 as (id & ? & ? & ?). exists id. auto.
Qed.

Lemma disc_for_each {A} (l : list A) (body : A -> prog unit) :
  (forall a, disc MFree (body a)) -> disc MFree (for_each l body).
Proof. intros Hb. induction l as [|x l IH]; cbn; [done|]. by apply disc_bind. Qed.

(** What is quiet on the daemon's state is plain: resolvers and decryptors. *)
Lemma quiet_plain {A} (p : prog A) : quiet p -> plain p.
Proof.
  induction p as [a| |X e k IH]; intros Hq; cbn; [done..|]. split.
  - assert (forall w, same_core w (fst (handle (calm_env 0) w e))) as Hstep.
    { intros w. destruct (Hq w) as [He _]. apply He, same_core_refl. }
    set (w0 := fun s p => mkWorld empty_db None 0 [] [] p s (mkSettings 2 5 true) no_files 0).
    destruct e; try done; cbn.
    + destruct (Hstep (w0 None ∅)) as (_ & _ & _ & H & _). done.
    + destruct (Hstep (w0 None ∅)) as (_ & _ & _ & _ & H & _). cbn in H.
      rewrite bool_decide_false in H by apply not_elem_of_empty. cbn in H.
      apply (not_elem_of_empty (C := gset Z) id). rewrite <- H. apply elem_of_union_l, elem_of_singleton_2. done.
    + destruct (Hstep (w0 None {[id]})) as (_ & _ & _ & _ & H & _). cbn in H.
      rewrite difference_diag_L in H. apply (not_elem_of_empty (C := gset Z) id). rewrite H.
      by apply elem_of_singleton_2.
    + destruct (Hstep (w0 None ∅)) as (_ & _ & _ & _ & _ & H & _). cbn in H.
      destruct (0 <? capacity)%Z; cbn in H; discriminate.
    + destruct (Hstep (w0 None ∅)) as (_ & _ & _ & _ & _ & H & _). cbn in H. discriminate.
  - intros x. apply IH. intros w. destruct (Hq w) as [_ Hk]. apply Hk.
Qed.

(** ** The daemon's threads follow it *)

Ltac head_of p := lazymatch p with ?f _ => head_of f | _ => constr:(p) end.

Lemma plain_claim_loop (fuel : nat) (t : Z) : plain (claim_loop fuel t).
Proof.
  induction fuel as [|fuel IH]; cbn [claim_loop]; [done|].
  repeat first [ apply IH | exact Logic.I
    | match goal with
      | |- plain (bind _ _) => apply plain_bind; [|intros]
      | |- plain (bind_err _ _) => apply plain_bind_err; [|intros]
      | |- plain (call _) => split; [exact Logic.I|intros; exact Logic.I]
      | |- plain (query_row _) => split; [exact Logic.I|intros; exact Logic.I]
      | |- plain (match ?x with _ => _ end) => destruct x
      end ].
Qed.

Ltac plainly :=
  repeat lazymatch goal with
  | |- plain (Ret _) => exact Logic.I
  | |- plain Panic => exact Logic.I
  | |- plain (bind _ _) => apply plain_bind; [|intros]
  | |- plain (bind_err _ _) => apply plain_bind_err; [|intros]
  | |- plain (or_panic _) => apply plain_or_panic
  | |- plain (for_each _ _) => apply plain_for_each; intros
  | |- plain (call _) => split; [exact Logic.I|intros; exact Logic.I]
  | |- plain now => split; [exact Logic.I|intros; exact Logic.I]
  | |- plain (exec _) => split; [exact Logic.I|intros; exact Logic.I]
  | |- plain (query _) => split; [exact Logic.I|intros; exact Logic.I]
  | |- plain (query_row _) => split; [exact Logic.I|intros; exact Logic.I]
  | |- plain (update_job _ _) => split; [exact Logic.I|intros; exact Logic.I]
  | |- plain (mega_MaybeDecrypt _ _ _ _) => apply quiet_plain, mega_quiet
  | |- plain (archive_MaybeDecrypt _ _ _ _) => apply quiet_plain, archive_quiet
  | |- plain (ResolveWithSite _ _ _) => apply quiet_plain, ResolveWithSite_quiet
  | |- plain (buildDecryptTask _ _ _) => apply quiet_plain, buildDecryptTask_quiet
  | |- plain (claim_loop _ _) => apply plain_claim_loop
  | |- plain (match ?x with _ => _ end) => destruct x
  | |- plain ?p => let h := head_of p in unfold h
  end.

Context `{UC : Unicode} (s : Server) (r : Runner).

Lemma serve_http_disc (q : http_request) : disc MFree (serve_http s q).
Proof.
  apply disc_plain. unfold serve_http. case_bool; [done|].
  destruct (route s _) as [h|] eqn:E; [|done]. revert E.
  apply (route_handlers s (fun h => plain (h q))); intros; plainly.
Qed.

(** Marking a job and starting its goroutine go together. *)
Lemma scheduleDecrypt_disc (t : decryptTask) : disc MFree (scheduleDecrypt t).
Proof. by repeat split. Qed.

Ltac discly :=
  repeat lazymatch goal with
  | |- disc MFree (Ret _) => reflexivity
  | |- disc MFree (bind _ _) => apply disc_bind; [|intros]
  | |- disc MFree (bind_err _ _) => apply disc_bind; [|intros [?|?]]
  | |- disc MFree (for_each _ _) => apply disc_for_each; intros
  | |- disc MFree (scheduleDecrypt _) => apply scheduleDecrypt_disc
  | |- disc MFree (match ?x with _ => _ end) => destruct x
  | |- disc MFree ?p => first [apply disc_plain; solve [plainly] | let h := head_of p in unfold h]
  end.

Lemma start_loop_plain (fuel : nat) (active : Z) : plain (start_loop fuel r active).
Proof.
  revert active. induction fuel as [|fuel IH]; intros active; cbn [start_loop]; [done|].
  apply plain_bind; [plainly|]. intros c. destruct (c <=? active)%Z; [done|].
  apply plain_bind; [plainly|]. intros [e|job]; [done|].
  apply plain_bind; [plainly|]. intros _. apply plain_bind; [plainly|]. intros n. apply IH.
Qed.

Lemma tick_disc (fuel : nat) : disc MFree (tick fuel r).
Proof.
  unfold tick. apply disc_bind; [discly|]. intros _. apply disc_bind; [discly|]. intros _.
  apply disc_plain. apply plain_bind; [plainly|]. intros _. apply plain_bind; [plainly|].
  intros n. apply start_loop_plain.
Qed.

Lemma Start_disc (beats fuel : nat) : disc MFree (Start beats fuel r).
Proof.
  induction beats as [|beats IH]; cbn [Start]; [done|]. apply disc_bind; [discly|]. intros [e|]; [done|].
  apply disc_bind; [apply tick_disc|]. intros _. exact IH.
Qed.

(** The goroutine of a job, when the workers are as many as the tokens. *)
Lemma runDecrypt_disc (t : decryptTask) :
  cap = decryptConcurrency r -> disc (MWait (jobID t)) (runDecrypt r t).
Proof.
  intros Hc. cbn. split; [done|]. exists (jobID t). split; [done|]. split.
  - cbn. apply disc_plain_bind; [right; by eexists|plainly|]. intros _.
    right. split; [done|]. cbn. by repeat split.
  - left. by repeat split.
Qed.
End Protocol.

(** ** The accounts *)

Section Accounts.
Context `{UC : Unicode} (s : Server) (r : Runner).
Abbreviation cap := (decryptConcurrency r).

Definition free_tokens (w : World) : Z := default cap (sem w).

Definition ids (ms : list mode) : list Z := omap id_of ms.
Definition holders (ms : list mode) : Z := Z.of_nat (List.length (List.filter holds ms)).

#[local] Arguments ids : simpl never.
#[local] Arguments holders : simpl never.

(** The modes [ms] account for the shared state: the pending set is the set of the jobs of
    the threads' modes, no job twice, and the tokens and the holders add up to the workers. *)
Record accounts (w : World) (ms : list mode) : Prop := {
  acc_tokens : (free_tokens w + holders ms)%Z = cap;
  acc_nonneg : (0 <= free_tokens w)%Z;
  acc_nodup : NoDup (ids ms);
  acc_pending : pending w = list_to_set (ids ms)
}.

Definition follows (t : thread) (m : mode) : Prop := disc cap m (code t).

Lemma accounts_perm (w : World) (ms ms' : list mode) :
  ms ≡ₚ ms' -> accounts w ms -> accounts w ms'.
Proof.
  intros Hp [H1 H2 H3 H4].
  assert (ids ms ≡ₚ ids ms') as Hi by (unfold ids; by rewrite Hp).
  assert (holders ms = holders ms') as Hh.
  { unfold holders. clear -Hp. induction Hp; cbn; try congruence; repeat case_bool; cbn; lia. }
  split; [by rewrite <- Hh|done|by rewrite <- Hi|]. rewrite H4. apply list_to_set_perm_L. done.
Qed.

Lemma accounts_same (w w' : World) (ms : list mode) :
  sem w' = sem w \/ sem w' = Some (free_tokens w) -> pending w' = pending w -> accounts w ms -> accounts w' ms.
Proof.
  intros Hs Hp [H1 H2 H3 H4].
  assert (free_tokens w' = free_tokens w) as Hf.
  { unfold free_tokens in *. by destruct Hs as [-> | ->]. }
  split; [by rewrite Hf|by rewrite Hf|done|by rewrite Hp].
Qed.

Lemma ids_cons (m : mode) (ms : list mode) :
  ids (m :: ms) = match id_of m with Some id => id :: ids ms | None => ids ms end.
Proof. unfold ids. cbn. by destruct (id_of m). Qed.

Lemma holders_cons (m : mode) (ms : list mode) :
  holders (m :: ms) = (Z.b2z (holds m) + holders ms)%Z.
Proof. unfold holders. cbn. destruct (holds m); cbn [List.length Z.b2z]; lia. Qed.

(** A call that has nothing to do with the goroutines. *)
Lemma plain_same {X} (env : Env) (w : World) (e : ev X) :
  ev_plain e -> let w' := fst (handle env w e) in
  threads w' = threads w /\ sem w' = sem w /\ pending w' = pending w.
Proof. intros He. destruct e; try done; unfold handle, act; cbn; repeat case_match; by simplify_eq/=. Qed.

(** A goroutine that is done is no longer pending. *)
Lemma accounts_forget (w w' : World) (id : Z) (m m' : mode) (ms : list mode) :
  id_of m = Some id -> id_of m' = None -> holds m' = holds m ->
  sem w' = sem w -> pending w' = pending w ∖ {[id]} -> accounts w (m :: ms) -> accounts w' (m' :: ms).
Proof.
  intros Hid Hm1 Hm2 Hs Hp [H1 H2 H3 H4]. unfold free_tokens in *.
  rewrite ids_cons, Hid in H3, H4. rewrite holders_cons in H1. apply NoDup_cons in H3 as [Hn H3].
  split; unfold free_tokens; rewrite ?Hs, ?Hp, ?holders_cons, ?ids_cons, ?Hm1, ?Hm2; cbn; try done.
  rewrite H4. cbn. apply leibniz_equiv. intros x.
  rewrite elem_of_difference, elem_of_union, elem_of_singleton, elem_of_list_to_set.
  split; [intros [[?|?] ?]; done|]. intros Hx. split; [by right|]. intros ->. done.
Qed.

(** One call of a thread that follows the protocol in mode [m], the others in modes [ms]. *)
Lemma step_accounts (env : Env) (w w' : World) (t t' : thread) (m : mode) (ms : list mode) :
  follows t m -> accounts w (m :: ms) -> step_thread env w t = Some (w', t') ->
  exists m' new, threads w' = (new ++ threads w)%list /\ follows t' m'
    /\ accounts w' (m' :: ms ++ map (fun k => MWait (jobID k)) new).
Proof.
  unfold follows, step_thread. destruct t as [A [a| |X e k]]; cbn; [done|done|].
  intros Hd Hacc. destruct (blocked env w e) eqn:Hb; [done|].
  assert (forall m', ev_plain e -> (forall x, disc cap m' (k x)) -> m' = m ->
    (let '(w1, x) := handle env w e in Some (w1, mkThread A (k x))) = Some (w', t') ->
    exists m'' new, threads w' = (new ++ threads w)%list /\ disc cap m'' (code t')
      /\ accounts w' (m'' :: ms ++ map (fun k => MWait (jobID k)) new)) as Hplain.
  { intros m' He Hk -> Hs. exists m, []. destruct (handle env w e) as [w1 x] eqn:Eh.
    injection Hs as <- <-. cbn. rewrite app_nil_r.
    destruct (plain_same env w e He) as (H1 & H2 & H3). rewrite Eh in H1, H2, H3.
    split; [done|]. split; [apply Hk|]. apply (accounts_same w); [by left|done|done]. }
  destruct e; cbn in Hd; try (destruct Hd as [Hm Hk]; by eapply Hplain);
    clear Hplain; pose proof Hacc as [H1 H2 H3 H4]; unfold handle, act in *; cbn in *.
  - destruct Hd as [-> Hk]. intros [= <- <-]. exists MFree, [t]. split; [done|]. split; [done|].
    apply (accounts_perm _ (MFree :: MWait (jobID t) :: ms)).
    { cbn. constructor. apply Permutation_cons_append. }
    rewrite holders_cons in H1. rewrite ids_cons in H3, H4. cbn in *.
    split; rewrite ?holders_cons, ?ids_cons; cbn; done.
  - destruct Hd as (-> & Hf & Ht). rewrite ids_cons in H3, H4. rewrite holders_cons in H1. cbn in *.
    case_bool_decide as Hin; intros [= <- <-].
    + exists MFree, []. split; [done|]. split; [done|]. rewrite app_nil_r.
      split; rewrite ?holders_cons, ?ids_cons; cbn; done.
    + exists (MSpawn id), []. split; [done|]. split; [done|]. rewrite app_nil_r.
      split; rewrite ?holders_cons, ?ids_cons; cbn; try done.
      * apply NoDup_cons. split; [|done]. intros Hid. apply Hin. rewrite H4.
        by apply elem_of_list_to_set.
      * by rewrite H4.
  - assert (id_of m = Some id /\ exists m', id_of m' = None /\ holds m' = holds m
            /\ disc cap m' (k tt)) as (Hid & m' & Hm1 & Hm2 & Hk).
    { destruct Hd as [[-> Hk]|[-> Hk]]; (split; [done|]); [by exists MFree|by exists MRelease]. }
    intros [= <- <-]. exists m', []. split; [done|]. split; [done|]. rewrite app_nil_r.
    by apply (accounts_forget w _ id m).
  - destruct Hd as (-> & id & -> & Hk1 & Hk2). rewrite ids_cons in H3, H4. rewrite holders_cons in H1.
    unfold free_tokens in *. cbn in *. destruct (cancelled_at env (clock w)); cbn in Hb.
    + intros [= <- <-]. exists (MWait id), []. split; [done|]. split; [done|]. rewrite app_nil_r.
      split; unfold free_tokens; rewrite ?holders_cons, ?ids_cons; cbn; done.
    + bool_prop. replace (0 <? default cap (sem w))%Z with true by (symmetry; apply Z.ltb_lt; lia).
      intros [= <- <-]. exists (MHold id), []. split; [done|]. split; [done|]. rewrite app_nil_r.
      split; unfold free_tokens; rewrite ?holders_cons, ?ids_cons; cbn; try done; lia.
  - destruct Hd as (-> & -> & Hk). intros [= <- <-]. exists MFree, []. split; [done|]. split; [done|].
    rewrite app_nil_r. rewrite ids_cons in H3, H4. rewrite holders_cons in H1.
    unfold free_tokens in *. cbn in *.
    split; unfold free_tokens; rewrite ?holders_cons, ?ids_cons; cbn; try done; lia.
Qed.

Definition waiting (started : list decryptTask) : list mode := map (fun k => MWait (jobID k)) started.

Lemma turn_accounts (env : Env) (w w' : World) (t t' : thread) :
  turn env w t w' t' -> forall m ms, follows t m -> accounts w (m :: ms) ->
  exists m' new, threads w' = (new ++ threads w)%list /\ follows t' m'
    /\ accounts w' (m' :: ms ++ waiting new).
Proof.
  induction 1 as [w t w' t' Hs _|w t w1 t1 w' t' Hs _ _ IH]; intros m ms Hm Hacc.
  - by eapply step_accounts.
  - destruct (step_accounts _ _ _ _ _ _ _ Hm Hacc Hs) as (m1 & new1 & Ht1 & Hf1 & Ha1).
    destruct (IH _ _ Hf1 Ha1) as (m2 & new2 & Ht2 & Hf2 & Ha2).
    exists m2, (new2 ++ new1)%list. split; [by rewrite Ht2, Ht1, app_assoc|]. split; [done|].
    eapply accounts_perm; [|exact Ha2]. constructor. unfold waiting. rewrite map_app, <- app_assoc.
    apply Permutation_app_head, Permutation_app_comm.
Qed.

(** The pool's threads, each with a mode it follows, and the accounts of those modes. *)
Definition disciplined (st : World * list thread) : Prop :=
  exists ms, Forall2 follows (snd st) ms /\ accounts (fst st) ms.

Lemma accounts_empty (w : World) : sem w = None -> pending w = ∅ -> accounts w [].
Proof.
  intros Hs Hp. split; unfold free_tokens, ids, holders; rewrite ?Hs, ?Hp; cbn; try done.
  - lia.
  - unfold decryptConcurrency. case_bool; bool_prop; lia.
  - constructor.
Qed.

Lemma disciplined_step (env : Env) st st' :
  pool_step env (client s r) (spawn r) st st' -> disciplined st -> disciplined st'.
Proof.
  intros Hstep (ms & Hf & Ha). destruct Hstep as [w w' t t' before after started Hturn Hst|w ts t Hc|w ts];
    cbn [fst snd] in *.
  - apply Forall2_app_inv_l in Hf as (ms1 & ms2 & Hf1 & Hf2 & ->).
    apply Forall2_cons_inv_l in Hf2 as (m & ms3 & Hm & Hf3 & ->).
    destruct (turn_accounts env w w' t t' Hturn m (ms1 ++ ms3)%list Hm) as (m' & new & Hnew & Hm' & Ha').
    { eapply accounts_perm; [|exact Ha]. symmetry. apply Permutation_middle. }
    assert (new = started) as -> by (rewrite Hst in Hnew; by apply app_inv_tail in Hnew).
    exists (ms1 ++ m' :: ms3 ++ waiting started)%list. split.
    + apply Forall2_app; [done|]. constructor; [done|]. apply Forall2_app; [done|].
      unfold waiting. clear. induction started as [|k l IH]; cbn; constructor; [|done].
      by apply runDecrypt_disc.
    + eapply accounts_perm; [|exact Ha']. rewrite <- app_assoc. apply Permutation_middle.
  - exists (MFree :: ms). split.
    + constructor; [|done]. destruct Hc as [q|fuel|beats fuel]; [apply serve_http_disc|apply tick_disc|apply Start_disc].
    + destruct Ha as [H1 H2 H3 H4]. split; rewrite ?holders_cons, ?ids_cons; cbn; done.
  - exists []. split; [constructor|]. by apply accounts_empty.
Qed.

(** C3. Mutual exclusion of the decrypt goroutines.  In every reachable state each thread is
    in a mode of the protocol such that: the free tokens of the semaphore and the threads
    that hold a worker add up to the configured number of workers, so no more extractions
    run at once; and the runner's pending set is exactly the set of jobs of the goroutines
    not yet through (or about to be started), no job having two of them. *)
Theorem decrypt_discipline (env : Env) (set : SettingsState) (w : World) (ts : list thread) :
  reachable s r env set w ts ->
  exists ms, Forall2 follows ts ms /\ accounts w ms /\ (holders ms <= cap)%Z.
Proof.
  intros H. assert (disciplined (w, ts)) as (ms & Hf & Ha).
  { unfold reachable in H.
    assert (forall st st', rtc (pool_step env (client s r) (spawn r)) st st' ->
              disciplined st -> disciplined st') as Hr.
    { intros st st'. induction 1 as [|st st1 st' Hs _ IH]; [done|]. intros Hd. apply IH.
      by eapply disciplined_step. }
    eapply Hr; [exact H|]. exists []. split; [constructor|]. by apply accounts_empty. }
  exists ms. split; [done|]. split; [done|]. destruct Ha as [H1 H2 _ _]. lia.
Qed.
End Accounts.

Lemma decrypt_discipline_witness :
  exists w ts ms,
    reachable (UC := SystemUnicode) api_server sample_runner (calm_env 200) (mkSettings 2 5 true) w ts
    /\ jobs (db w) <> [] /\ Forall2 (follows sample_runner) ts ms
    /\ accounts sample_runner w ms /\ (holders ms <= 1)%Z.
Proof.
  destruct lost_removal_runs as (w & ts & E & Hok).
  assert (reachable (UC := SystemUnicode) api_server sample_runner (calm_env 200)
            (mkSettings 2 5 true) w ts) as Hr by exact (pool_exec_sound _ _ _ lost_removal _ _ E).
  destruct (decrypt_discipline (UC := SystemUnicode) api_server sample_runner (calm_env 200) _ w ts Hr)
    as (ms & Hf & Ha & Hh).
  exists w, ts, ms. split; [exact Hr|]. split; [|split; [exact Hf|split; [exact Ha|exact Hh]]].
  intros Hj. unfold lost_removal_ok in Hok. cbn [fst] in Hok. rewrite Hj in Hok. discriminate.
Defined.
